(* ===== verification/_CoqProject ===== *)
-Q . S2P
Prelude.v
DiftState.v
DiftPolicy.v
DiftFlow.v
DiftInterp.v
DiftType.v
DiftCase.v
DiftFront.v
DiftQueue.v
X86.v
DiftAsm.v
Obhook.v
Tracer.v
NetTraMon.v
Systrace.v
AgentNet.v
AgentClient.v
AgentServer.v
AgentProto.v
AgentImport.v
AgentExport.v
AgentSession.v
AgentLog.v
AgentFaults.v
AgentApi.v
GuestMem.v
Memfrs.v
MemfrsWalk.v
MemfrsList.v
MemfrsHandles.v
