(* ===== verification/Prelude.v ===== *)
(** * MBA: taint tracking and guest monitoring, verified

    MBA is QEMU with extensions for malware behaviour analysis. This library
    models its taint engine, DIFT (src/ext/dift, with the record generators in
    src/target-i386/translate.c and the backend operations in
    src/tcg/i386/tcg-target.c), from the translation of a guest instruction to the
    tag tables; four extensions that watch the guest: out-of-box hooks, instruction
    tracers, the system call tracer and the network traffic monitor; the guest
    agent with its server in the guest (src/ext/agent); and memory forensics
    (src/ext/memfrs), down to the page tables it reads the guest through.

    ** The program

    The translator turns each guest instruction into records: 64-bit words that
    name a propagation case and its registers. Records go to a code buffer, at
    most 159 per translated block, and past that, or once a label or helper call
    was emitted, into the instruction stream itself. At run time the emulation
    thread queues the addresses of memory operands, the inline records, and at
    the start of each block two words that close the one before. The queue is a
    ring of chunks with a flag each. The analysis thread takes words off it, and
    at each block end interprets the cached records and then the inline ones,
    updating one tag byte per byte of register, memory and disk. Other parts of
    the emulator set and read tags through an API.

    The other extensions keep registries of callbacks. Helpers called from
    translated code (src/target-i386/mba_helper.c, seg_helper.c) and the network
    card look up and run the callbacks that match an address, a system call or a
    packet; the traffic monitor also parses packets and prints them.

    The agent copies files between host and guest and runs commands in the guest. A
    thread in the emulator takes one request at a time from the monitor and talks
    over UDP with a server in the guest. Memory forensics loads descriptions of
    Windows kernel structures, follows chains of fields through guest memory and
    lists what it finds: processes, handles, services, modules, address ranges.

    ** The files

    - [Prelude]: the result type [res] ([Ret], [Exit] for exit(1), [UB] for an
      access outside an object), byte tables, little-endian words, bit lemmas,
      list lemmas, the tactics and the hint database.
    - [DiftState] (dift.c 696-1010, 1224-1246; dift.h): the tag tables as a
      record, the disk table as pages allocated on demand, the range checks, the
      API and the disk copies.
    - [DiftPolicy] (dift-policy.h, dift-policy-head.h): the propagation cases and
      one definition per label of the threaded interpreter, in a state monad over
      the tables and the two input streams.
    - [DiftFlow]: the specification of the cases, as lists of flows between byte
      locations, and the proof that each handler performs them.
    - [DiftInterp] (dift.c 1013-1124, 1178-1198): interpret_dift_codes, the main
      loop, the words of dift_sync; an abstract machine that maps locations to
      tags, and the refinement to it.
    - [DiftType]: typing of the tag tables over all operations.
    - [DiftCase] (dift.c 115-297, 687-694, 1167-1176): the case table.
    - [DiftFront] (translate.c 318-756, tcg-target.c 1750-1860): the record
      generators in a state monad over the translator state, and the run-time
      effect of the DIFT operations.
    - [DiftQueue] (dift.c 671-685, 728-778, 1145-1165, 1178-1198): the ring, as
      steps of two threads; an invariant with ghost state over all interleavings.
    - [X86]: a decoder and the effect of the few x86-64 instructions DIFT writes as
      bytes, and flat memory.
    - [DiftAsm] (dift.c 77-113, 335-669; tcg-target.c 1750-1860): the generated
      enqueue routines and the code that calls them, as bytes.
    - [Obhook] (src/ext/obhook/obhook.c, mba_helper.c): the hook tables and their
      shared records, against a list of hooks.
    - [Tracer] (src/ext/tracer/tracer.c, mba_helper.c): the six tracer lists,
      against one list.
    - [NetTraMon] (src/ext/nettramon/nettramon.c): parsing, printing, files,
      filter, start and stop, callbacks, capture.
    - [Systrace] (src/ext/systrace/systrace.c): tracers, call contexts and the
      event handler; the hash table is an interface ([HashFind]).
    - [AgentNet]: processes as trees of actions, two of them with their datagrams,
      and the lemma that one complete run decides all schedules.
    - [AgentClient] (src/ext/agent/agent.c 110-768), [AgentServer]
      (src/ext/agent/windows/win_agent.c): the actions of the agent thread and the
      commands and main loop of the server, over file systems that may fail.
    - [AgentProto]: what the two do together; [AgentImport], [AgentExport],
      [AgentLog], [AgentSession]: each action, and sequences of them;
      [AgentFaults]: where the protocol breaks.
    - [AgentApi] (agent.c 206-223, 706-1099; agent-commands.c): requests of the
      monitor interleaved with the agent thread.
    - [GuestMem] (src/exec.c 3297-3325, src/target-i386/helper.c 511-905, cpu.h):
      reads of guest virtual memory, the debug page walk and that of the
      processor.
    - [Memfrs] (src/ext/memfrs/memfrs.c; accessors of src/json-c): descriptions
      of structures and the contents of fields.
    - [MemfrsWalk] (memfrs.c, vad.c): strings, scans, the control region, the
      Windows version, the tree of address descriptors.
    - [MemfrsList] (process.c, ssdt.c, kernel.c, kmod.c): processes, the kernel image,
      services, modules, the current thread; [MemfrsHandles] (handles.c): handle
      tables and the objects behind them.

    ** The theorems

    - Handlers: each propagation handler returns for every guest address, takes
      exactly its addresses and performs exactly the flows of its case; none
      creates a tag no location had.
    - Interpreter and main loop: running a block equals running its records in
      order on the abstract machine, the code buffer is restored, and after
      dift_sync nothing is pending and the signal is set; the loop may stop and
      resume at any word.
    - Translator: a case number is found exactly for the keys of the case table;
      each generator emits the record and addresses its handler expects; a whole
      block, from translation to the tables, has the taint of its records in
      program order.
    - API and disk copies: result and tags on every branch, the frame (what does
      not change), termination of the copy loops, a write-then-read round trip.
    - Queue: in every interleaving the words arrive complete and in order, no
      access leaves the ring, runs are bounded and end with all calls made; with
      the main loop, dift_sync returns only after the block was applied.
    - Generated code: run instruction by instruction against the analysis thread,
      the bytes implement the queue.
    - Typing: from initialisation on, every table keeps its size and 7-bit tags, and
      no operation leaves a table, as long as one that starts at the clean source or the
      null sink, where the code checks no length, stays in the page after the RAM.
    - Registries: every operation of the hooks, tracers, system call tracers and
      traffic callbacks implements an operation on a list, errors included, and
      the dispatchers run exactly the callbacks that match. A system call return
      gets the context of its entry.
    - Traffic monitor: the parser equals a reference definition on every frame
      and stays inside it; the dump of a payload reads back; a capture on every branch,
      with the text it writes and the outputs it goes to; output files survive a stop.
    - Agent: under every schedule an import or export copies the file, or, however
      file operations fail, ends with the two sides in agreement; a session refines
      a machine over two file systems; a file comes back unchanged. For exports the
      host stores each write whole, and files are below 8 KiB unless the upper half of
      the server's byte counter, which it never sets, is zero. Accepted
      requests are performed once, in order, with their own arguments.
    - Guest memory: the debug walk finds the page the processor uses, in all three
      paging modes; reads by page are reads by byte.
    - Memory forensics: a chain of fields is read exactly when every pointer and the
      field are mapped; the address descriptors of a tree, the processes of a ring, the
      services of a table and the handles of a process are listed completely, once
      and in order; what becomes of a kernel string, for all lengths.
    - Places where the code departs from its intent are theorems as well: taint
      reaching the clean source, the behaviour at the end of RAM, the
      duplicating SSE load, the null sink range check, byte registers under a
      REX prefix, the address buffer of the main loop, the first wait of the
      analysis thread, a hook without a label, the lock a failed callback call
      keeps, a refused request that blocks the agent, command texts that stop the
      server, a partial write that puts the two sides out of step, the hex dump and the
      process list that read past their buffers, a cycle of address descriptors.

    ** Conventions and bounds

    Machine integers are [Z] with their wrap-around written out ([u8], [u16],
    [u32], [u64]). Tables are a size and a finite map of the bytes written so
    far, with bounds-checked access, so [Ret] also says that no access was out of
    bounds. The copy loops, and the client's loop over the writes of a chunk, recurse on
    fuel that the callers set to the length, each round moving at least one byte;
    [threaded_dispatch] has one more than the number of words left, each round
    taking at least one; the loop of print_payload has the length, each round
    printing sixteen bytes; the theorems show all are enough. The searches for a
    free slot recurse on the number of slots. The traversal of address descriptors
    has the number of rounds as fuel, and the theorem says which number suffices;
    the process list has the 1001 rounds of the code; the loop over registry keys has
    2 ^ 16 + 1, and a larger bound gives the same; the third level of a handle table
    has no bound in the code, and its fuel is an argument. A variable that is
    used without a value has bytes of an arbitrary [junk]. Disk pages come from a finite heap, a
    parameter of the state; theorems assume room for the pages an operation can
    touch. Tags are below 128, as is_valid_tag demands. The queue runs under
    sequential consistency. Addresses of allocated records are fresh numbers.

    ** Not modelled

    Which records disas_insn chooses for each x86 instruction; the emulator paths
    that call the API; debug logging (CONFIG_DIFT_DEBUG is off, CONFIG_INDIRECT_TAINT
    on, as in dift.h). In the registries of hooks, tracers and system call tracers
    the locks: operations run one at a time. Callbacks are recorded, not run. The
    monitor commands of the extensions but the agent's, which look up arguments and
    print. Of the agent, the thread that forwards input to a running command, the
    set-up of the sockets and main of the server; datagrams are neither lost nor
    reordered; of the server's log entries only the one about a received command is
    checked against the size of its buffer. Of guest memory, devices behind a physical page. Of memory forensics,
    the parsing of JSON text, network objects (netscan.c builds its texts with
    overlapping sprintf calls, which C does not define), the download of symbols and
    the offline symbol parser. The forensics of disks (tsk), which calls
    third-party libraries; upstream QEMU. *)

From stdpp Require Export base numbers list gmap.
From Stdlib Require Export ZArith Lia.

#[global] Open Scope Z_scope.

(** ** Notation *)

Declare Scope mba_scope.
Notation "x .| y" := (Z.lor x y) (at level 50, left associativity) : mba_scope.
Notation "x .& y" := (Z.land x y) (at level 40, left associativity) : mba_scope.
#[global] Open Scope mba_scope.

(** ** Results of C code

    [Ret] is a normal return, [Exit] is a call of [exit(1)], [UB] is behaviour
    the C standard leaves undefined: an array access out of its bounds or a
    jump through a null pointer. *)
Inductive res (A : Type) : Type :=
| Ret (a : A)
| Exit
| UB.
Arguments Ret {A} _.
Arguments Exit {A}.
Arguments UB {A}.

#[export] Instance res_ret : MRet res := fun A a => Ret a.
#[export] Instance res_bind : MBind res := fun A B f r =>
  match r with
  | Ret a => f a
  | Exit => Exit
  | UB => UB
  end.

(** ** Machine integers

    An unsigned w-bit value is a [Z] reduced by [uN]; [s32] is the value of a
    conversion to a 32-bit [int]. *)
Definition u8 (x : Z) : Z := x mod 2 ^ 8.
Definition u16 (x : Z) : Z := x mod 2 ^ 16.
Definition u32 (x : Z) : Z := x mod 2 ^ 32.
Definition u64 (x : Z) : Z := x mod 2 ^ 64.
Definition s32 (x : Z) : Z :=
  let y := x mod 2 ^ 32 in if y <? 2 ^ 31 then y else y - 2 ^ 32.

(** Byte [k] of a little-endian word. *)
Definition byte_of (w k : Z) : Z := Z.land (Z.shiftr w (8 * k)) 255.

(** ** Bytes of a word *)

(** The value of the bytes [f 0], ..., [f (n-1)] read as a little-endian word. *)
Fixpoint le_word (f : Z -> Z) (n : nat) : Z :=
  match n with
  | O => 0
  | S m => Z.lor (f 0) (Z.shiftl (le_word (fun k => f (k + 1)) m) 8)
  end.

(** ** Byte tables

    A block of [tbl_size] bytes obtained from [calloc]: a cell that was never
    written is 0. Access outside the block is [UB]. *)
Record table : Type := Table { tbl_size : Z; tbl_cells : gmap Z Z }.

Definition tbl_new (n : Z) : table := Table n ∅.

Definition tbl_get (t : table) (a : Z) : Z := default 0 (tbl_cells t !! a).

Definition tbl_set (t : table) (a v : Z) : table :=
  Table (tbl_size t) (<[a := v]> (tbl_cells t)).

Definition tbl_ok (t : table) (a : Z) : bool := (0 <=? a) && (a <? tbl_size t).

Definition tbl_read (t : table) (a : Z) : res Z :=
  if tbl_ok t a then Ret (tbl_get t a) else UB.

Definition tbl_write (t : table) (a v : Z) : res table :=
  if tbl_ok t a then Ret (tbl_set t a v) else UB.

(** An n-byte little-endian load and store, as an access through a pointer
    cast to a wider integer type does on the x86 host. *)
Fixpoint tbl_load (n : nat) (t : table) (a : Z) : res Z :=
  match n with
  | O => Ret 0
  | S m => b ← tbl_read t a; w ← tbl_load m t (a + 1); Ret (Z.lor b (Z.shiftl w 8))
  end.

Fixpoint tbl_store (n : nat) (t : table) (a w : Z) : res table :=
  match n with
  | O => Ret t
  | S m => t' ← tbl_write t a (Z.land w 255); tbl_store m t' (a + 1) (Z.shiftr w 8)
  end.

(** [memcpy] of [n] bytes between two different tables. *)
Fixpoint tbl_copy (n : nat) (src : table) (sa : Z) (dst : table) (da : Z) : res table :=
  match n with
  | O => Ret dst
  | S m => b ← tbl_read src sa; d ← tbl_write dst da b; tbl_copy m src (sa + 1) d (da + 1)
  end.

(** [bzero] of [n] bytes. *)
Fixpoint tbl_zero (n : nat) (t : table) (a : Z) : res table :=
  match n with
  | O => Ret t
  | S m => d ← tbl_write t a 0; tbl_zero m d (a + 1)
  end.

(** Whether [a] lies in the [n] bytes from [lo]. *)
Definition within (lo : Z) (n : Z) (a : Z) : bool := (lo <=? a) && (a <? lo + n).

(** All cells of a table are bytes. *)
Definition bytes_ok (t : table) : Prop := forall a, 0 <= tbl_get t a < 256.

(** * Automation *)

Create HintDb mba.

(** Turn the boolean tests of the code into propositions. *)
Ltac bool_to_prop :=
  repeat match goal with
  | H : _ && _ = true |- _ => apply andb_true_iff in H; destruct H
  | H : _ || _ = false |- _ => apply orb_false_iff in H; destruct H
  | H : negb _ = true |- _ => apply negb_true_iff in H
  | H : negb _ = false |- _ => apply negb_false_iff in H
  | H : (_ <=? _) = true |- _ => apply Z.leb_le in H
  | H : (_ <=? _) = false |- _ => apply Z.leb_gt in H
  | H : (_ <? _) = true |- _ => apply Z.ltb_lt in H
  | H : (_ <? _) = false |- _ => apply Z.ltb_ge in H
  | H : (_ =? _) = true |- _ => apply Z.eqb_eq in H
  | H : (_ =? _) = false |- _ => apply Z.eqb_neq in H
  end.

(** Split on a boolean condition that stands in the goal or in a hypothesis. *)
Ltac case_if :=
  match goal with
  | |- context [if ?b then _ else _] => destruct b eqn:?
  | H : context [if ?b then _ else _] |- _ => destruct b eqn:?
  end.

(** Syntactic equality: unlike [reflexivity] it never unfolds anything. *)
Ltac same := lazymatch goal with |- ?x = ?x => reflexivity end.

(** Equality of two unions of bit masks, up to order, grouping and repetition. *)
Ltac or_solve :=
  let i := fresh "i" in
  apply Z.bits_inj; intros i; rewrite ?Z.lor_spec, ?Z.bits_0;
  repeat (cbn [orb]; rewrite ?orb_true_r, ?orb_false_r;
          try same;
          match goal with |- context [Z.testbit ?x i] => destruct (Z.testbit x i) end);
  cbn [orb]; rewrite ?orb_true_r, ?orb_false_r; same.

(** * Generic lemmas *)

(** ** The result monad *)

Lemma res_bind_ret {A B} (a : A) (f : A -> res B) : (Ret a ≫= f) = f a.
Proof. reflexivity. Qed.

Lemma res_bind_inv {A B} (r : res A) (f : A -> res B) b :
  (r ≫= f) = Ret b -> exists a, r = Ret a /\ f a = Ret b.
Proof. destruct r; simpl; intros; naive_solver. Qed.

(** Take apart a hypothesis that says a sequence of operations returned. *)
Ltac inv_res :=
  repeat match goal with
  | H : (_ ≫= _) = Ret _ |- _ => apply res_bind_inv in H; destruct H as (? & ? & ?)
  | H : Ret _ = Ret _ |- _ => injection H as ?; subst
  | H : Exit = Ret _ |- _ => discriminate H
  | H : UB = Ret _ |- _ => discriminate H
  end.

(** ** Bits and bytes *)

Lemma land_255 x : Z.land x 255 = x mod 256.
Proof. change 255 with (Z.ones 8). by rewrite Z.land_ones. Qed.

Lemma byte_of_range w k : 0 <= byte_of w k < 256.
Proof. unfold byte_of. rewrite land_255. apply Z.mod_pos_bound. lia. Qed.

Lemma byte_of_lor x y k : byte_of (Z.lor x y) k = Z.lor (byte_of x k) (byte_of y k).
Proof. unfold byte_of. by rewrite Z.shiftr_lor, Z.land_lor_distr_l. Qed.

Lemma byte_of_0 k : byte_of 0 k = 0.
Proof. unfold byte_of. by rewrite Z.shiftr_0_l, Z.land_0_l. Qed.

Lemma byte_of_shiftr w k : 0 <= k -> byte_of (Z.shiftr w 8) k = byte_of w (k + 1).
Proof.
  intros. unfold byte_of. rewrite Z.shiftr_shiftr by lia. do 2 f_equal. lia.
Qed.

Lemma byte_of_first w : byte_of w 0 = Z.land w 255.
Proof. unfold byte_of. by rewrite Z.mul_0_r, Z.shiftr_0_r. Qed.

Lemma land_byte x : 0 <= x < 256 -> Z.land x 255 = x.
Proof. intros. rewrite land_255. by apply Z.mod_small. Qed.

Lemma le_word_bytes f n k :
  (forall i, 0 <= f i < 256) -> 0 <= k < Z.of_nat n -> byte_of (le_word f n) k = f k.
Proof.
  revert f k. induction n as [|n IH]; intros f k Hf Hk; [lia|].
  cbn [le_word]. rewrite byte_of_lor.
  destruct (decide (k = 0)) as [->|Hne].
  - rewrite !byte_of_first, land_byte by auto.
    rewrite land_255, Z.shiftl_mul_pow2 by lia.
    change (2 ^ 8) with 256. by rewrite Z.mod_mul, Z.lor_0_r by lia.
  - assert (byte_of (f 0) k = 0) as ->.
    { unfold byte_of. rewrite Z.shiftr_div_pow2 by lia.
      rewrite Z.div_small; [apply Z.land_0_l|]. specialize (Hf 0).
      assert (2 ^ 8 <= 2 ^ (8 * k)) by (apply Z.pow_le_mono_r; lia). lia. }
    replace k with ((k - 1) + 1) at 1 by lia.
    rewrite Z.lor_0_l, <- byte_of_shiftr, Z.shiftr_shiftl_l by lia.
    rewrite Z.sub_diag, Z.shiftl_0_r, IH; [f_equal; lia|intros; apply Hf|lia].
Qed.

Lemma le_word_ext f g n :
  (forall k, 0 <= k < Z.of_nat n -> f k = g k) -> le_word f n = le_word g n.
Proof.
  revert f g. induction n as [|n IH]; intros f g H; [done|].
  cbn [le_word]. rewrite (H 0) by lia. do 2 f_equal.
  apply IH. intros. apply H. lia.
Qed.

(** The bytes of a little-endian word. *)
Definition le_bytes (n : nat) (v : Z) : list Z := (fun k => byte_of v (Z.of_nat k)) <$> seq 0 n.

Lemma u64_range x : 0 <= u64 x < 2 ^ 64.
Proof. apply Z.mod_pos_bound. lia. Qed.

Lemma u64_small a : 0 <= a < 2 ^ 64 -> u64 a = a.
Proof. intros. by apply Z.mod_small. Qed.

(** A byte with the value below it and the rest above it. *)
Lemma lor_shift_add x y : 0 <= x < 256 -> Z.lor x (Z.shiftl y 8) = x + 256 * y.
Proof.
  intros Hx. rewrite Z.shiftl_mul_pow2 by lia. pose proof (Z.add_lor_land x (y * 2 ^ 8)).
  assert (Z.land x (y * 2 ^ 8) = 0) as E0; [|lia].
  apply Z.bits_inj'. intros i Hi. rewrite Z.land_spec, Z.bits_0.
  destruct (Z.ltb_spec i 8) as [|Hi8]; [rewrite Z.mul_pow2_bits_low by lia; apply andb_false_r|].
  rewrite <- (Z.mod_small x (2 ^ 8)), Z.mod_pow2_bits_high by lia. done.
Qed.

Lemma le_word_S f n : 0 <= f 0 < 256 -> le_word f (S n) = f 0 + 256 * le_word (fun k => f (k + 1)) n.
Proof. intros. cbn [le_word]. by rewrite lor_shift_add. Qed.

Lemma le_word_range f n : (forall k, 0 <= f k < 256) -> 0 <= le_word f n < 256 ^ Z.of_nat n.
Proof.
  revert f. induction n as [|n IH]; intros f Hf; [done|].
  rewrite le_word_S by auto. specialize (IH (fun k => f (k + 1)) (fun k => Hf (k + 1))). specialize (Hf 0).
  rewrite Nat2Z.inj_succ, Z.pow_succ_r by lia. lia.
Qed.

Lemma byte_of_div w k : 0 <= k -> byte_of w k = (w / 256 ^ k) mod 256.
Proof.
  intros. unfold byte_of. rewrite land_255, Z.shiftr_div_pow2, Z.pow_mul_r by lia. done.
Qed.

(** Reading back the bytes of a word gives its low part. *)
Lemma le_word_byte_of w n : le_word (byte_of w) n = w mod 256 ^ Z.of_nat n.
Proof.
  revert w. induction n as [|n IH]; intros w; [simpl; by rewrite Z.mod_1_r|].
  rewrite le_word_S by apply byte_of_range.
  rewrite (le_word_ext _ (byte_of (w / 256))).
  - rewrite IH, Nat2Z.inj_succ, Z.pow_succ_r, Z.rem_mul_r by lia.
    rewrite byte_of_div, Z.pow_0_r, Z.div_1_r by lia. done.
  - intros k Hk. rewrite !byte_of_div, Z.div_div by lia.
    rewrite <- Z.pow_succ_r by lia. done.
Qed.

Lemma le_bytes_length n v : length (le_bytes n v) = n.
Proof. unfold le_bytes. by rewrite length_fmap, length_seq. Qed.

Lemma le_bytes_range n v : Forall (fun b => 0 <= b < 256) (le_bytes n v).
Proof. apply Forall_fmap, Forall_forall. intros. apply byte_of_range. Qed.

(** A bit mask that covers two bytes covers their union and intersection. *)
Definition covers (m x : Z) : Prop := 0 <= x < 256 /\ Z.land x m = x.

Lemma covers_lor m x y : covers m x -> covers m y -> covers m (Z.lor x y).
Proof.
  intros [Hx Ex] [Hy Ey]. split; [|by rewrite Z.land_lor_distr_l, Ex, Ey].
  assert (0 <= Z.lor x y) by (apply Z.lor_nonneg; lia). split; [done|].
  destruct (decide (Z.lor x y = 0)) as [->|]; [lia|].
  apply Z.log2_lt_pow2 with (b := 8); [lia|].
  rewrite Z.log2_lor by lia. apply Z.max_lub_lt.
  - destruct (decide (x = 0)) as [->|]; [done|]. apply Z.log2_lt_pow2; lia.
  - destruct (decide (y = 0)) as [->|]; [done|]. apply Z.log2_lt_pow2; lia.
Qed.

Lemma covers_land m x y : covers m x -> 0 <= y -> covers m (Z.land x y).
Proof.
  intros [Hx Ex] Hy. split.
  - split; [apply Z.land_nonneg; lia|].
    destruct (decide (Z.land x y = 0)) as [->|]; [lia|].
    assert (0 <= Z.land x y) by (apply Z.land_nonneg; lia).
    apply Z.log2_lt_pow2 with (b := 8); [lia|].
    pose proof (Z.log2_land x y ltac:(lia) Hy) as Hl.
    assert (Z.log2 x < 8).
    { destruct (decide (x = 0)) as [->|]; [done|]. apply Z.log2_lt_pow2; lia. }
    lia.
  - by rewrite <- Z.land_assoc, (Z.land_comm y m), Z.land_assoc, Ex.
Qed.

Lemma covers_0 m : covers m 0.
Proof. split; [lia|apply Z.land_0_l]. Qed.

#[export] Hint Resolve covers_lor covers_land covers_0 : mba.

(** ** Tables *)

Lemma tbl_get_new n a : tbl_get (tbl_new n) a = 0.
Proof. done. Qed.

Lemma tbl_get_set t a v b : tbl_get (tbl_set t a v) b = if a =? b then v else tbl_get t b.
Proof.
  unfold tbl_get, tbl_set. simpl. destruct (Z.eqb_spec a b) as [->|Hne].
  - by rewrite lookup_insert_eq.
  - by rewrite lookup_insert_ne.
Qed.

Lemma tbl_size_set t a v : tbl_size (tbl_set t a v) = tbl_size t.
Proof. done. Qed.

Lemma tbl_ok_true t a : 0 <= a < tbl_size t -> tbl_ok t a = true.
Proof. intros. unfold tbl_ok. apply andb_true_iff. rewrite Z.leb_le, Z.ltb_lt. lia. Qed.

Lemma tbl_ok_range t a : tbl_ok t a = true -> 0 <= a < tbl_size t.
Proof. unfold tbl_ok. intros. bool_to_prop. lia. Qed.

Lemma tbl_read_ok t a : 0 <= a < tbl_size t -> tbl_read t a = Ret (tbl_get t a).
Proof. intros. unfold tbl_read. by rewrite tbl_ok_true. Qed.

Lemma tbl_write_ok t a v : 0 <= a < tbl_size t -> tbl_write t a v = Ret (tbl_set t a v).
Proof. intros. unfold tbl_write. by rewrite tbl_ok_true. Qed.

Lemma tbl_write_oob t a v : tbl_size t <= a -> tbl_write t a v = UB.
Proof.
  intros. unfold tbl_write, tbl_ok.
  destruct (Z.ltb_spec a (tbl_size t)); [lia|]. by rewrite andb_false_r.
Qed.

Lemma tbl_load_ok n t a :
  0 <= a -> a + Z.of_nat n <= tbl_size t ->
  tbl_load n t a = Ret (le_word (fun k => tbl_get t (a + k)) n).
Proof.
  revert a. induction n as [|n IH]; intros a Ha Hs; [done|].
  cbn [tbl_load le_word]. rewrite tbl_read_ok by lia. simpl.
  rewrite IH by lia. simpl. rewrite Z.add_0_r. do 3 f_equal.
  apply le_word_ext. intros. f_equal. lia.
Qed.

(** [tbl_agrees t t' f]: [t'] is [t] with its cells given by [f]. *)
Definition tbl_agrees (t t' : table) (f : Z -> Z) : Prop :=
  tbl_size t' = tbl_size t /\ forall x, tbl_get t' x = f x.

Lemma within_true lo n a : within lo n a = true <-> lo <= a < lo + n.
Proof. unfold within. rewrite andb_true_iff, Z.leb_le, Z.ltb_lt. lia. Qed.

Lemma within_false lo n a : within lo n a = false <-> ~ (lo <= a < lo + n).
Proof. rewrite <- within_true. by destruct (within lo n a). Qed.

(** Case analysis on every range or equality test of the goal. *)
Ltac split_tests :=
  repeat match goal with
  | H : within _ _ _ = true |- _ => apply within_true in H
  | H : within _ _ _ = false |- _ => apply within_false in H
  | |- context [within ?lo ?n ?a] => destruct (within lo n a) eqn:?
  | |- context [?a =? ?b] => destruct (Z.eqb_spec a b)
  end.

Lemma tbl_store_ok n t a w :
  0 <= a -> a + Z.of_nat n <= tbl_size t ->
  exists t', tbl_store n t a w = Ret t' /\
    tbl_agrees t t' (fun x => if within a (Z.of_nat n) x then byte_of w (x - a) else tbl_get t x).
Proof.
  revert t a w. induction n as [|n IH]; intros t a w Ha Hs.
  - exists t. split; [done|]. split; [done|]. intros. by split_tests; [lia|].
  - cbn [tbl_store]. rewrite tbl_write_ok by lia. simpl.
    destruct (IH (tbl_set t a (Z.land w 255)) (a + 1) (Z.shiftr w 8)) as (t' & -> & Hsz & Hg);
      [lia|simpl; lia|].
    exists t'. split; [done|]. split; [done|]. intros x.
    rewrite Hg, tbl_get_set. split_tests; try lia.
    + rewrite byte_of_shiftr by lia. f_equal. lia.
    + subst. by rewrite Z.sub_diag, byte_of_first.
Qed.

Lemma tbl_copy_ok n src sa dst da :
  0 <= sa -> sa + Z.of_nat n <= tbl_size src ->
  0 <= da -> da + Z.of_nat n <= tbl_size dst ->
  exists d', tbl_copy n src sa dst da = Ret d' /\
    tbl_agrees dst d'
      (fun x => if within da (Z.of_nat n) x then tbl_get src (sa + (x - da)) else tbl_get dst x).
Proof.
  revert sa dst da. induction n as [|n IH]; intros sa dst da Hs1 Hs2 Hd1 Hd2.
  - exists dst. split; [done|]. split; [done|]. intros. by split_tests; [lia|].
  - cbn [tbl_copy]. rewrite tbl_read_ok by lia. simpl. rewrite tbl_write_ok by lia. simpl.
    destruct (IH (sa + 1) (tbl_set dst da (tbl_get src sa)) (da + 1)) as (d' & -> & Hsz & Hg);
      [lia..|simpl; lia|].
    exists d'. split; [done|]. split; [done|]. intros x.
    rewrite Hg, tbl_get_set. split_tests; try lia; try done.
    + f_equal. lia.
    + subst. f_equal. lia.
Qed.

Lemma tbl_zero_ok n t a :
  0 <= a -> a + Z.of_nat n <= tbl_size t ->
  exists t', tbl_zero n t a = Ret t' /\
    tbl_agrees t t' (fun x => if within a (Z.of_nat n) x then 0 else tbl_get t x).
Proof.
  revert t a. induction n as [|n IH]; intros t a Ha Hs.
  - exists t. split; [done|]. split; [done|]. intros. by split_tests; [lia|].
  - cbn [tbl_zero]. rewrite tbl_write_ok by lia. simpl.
    destruct (IH (tbl_set t a 0) (a + 1)) as (t' & -> & Hsz & Hg); [lia|simpl; lia|].
    exists t'. split; [done|]. split; [done|]. intros x.
    rewrite Hg, tbl_get_set. by split_tests; try lia.
Qed.

(** ** Lists *)

(** A functional relation between lists determines the second. *)
Lemma Forall2_functional {A B} (R : A -> B -> Prop) l k1 k2 : (forall a b c, R a b -> R a c -> b = c) ->
  Forall2 R l k1 -> Forall2 R l k2 -> k1 = k2.
Proof.
  intros HR H. revert k2. induction H as [|a b l k Hab _ IH]; inversion_clear 1; [done|]. f_equal; [by eapply HR|by apply IH].
Qed.

Lemma filter_ext {A} (P Q : A -> Prop) `{!forall x, Decision (P x), !forall x, Decision (Q x)} (l : list A) :
  (forall x, x ∈ l -> P x <-> Q x) -> filter P l = filter Q l.
Proof.
  induction l as [|x l IH]; intros Hx; [done|]. rewrite !filter_cons.
  rewrite IH by (intros; apply Hx; by constructor).
  assert (P x <-> Q x) as E by (apply Hx; constructor).
  destruct (decide (P x)), (decide (Q x)); done || tauto.
Qed.

Lemma map_filter_stable {A} (P : A -> Prop) `{!forall x, Decision (P x)} (f : A -> A) (l : list A) :
  (forall x, P (f x) <-> P x) -> map f (filter P l) = filter P (map f l).
Proof.
  intros Hf. induction l as [|x l IH]; [done|]. rewrite map_cons, !filter_cons, <- IH.
  specialize (Hf x). destruct (decide (P x)), (decide (P (f x))); done || tauto.
Qed.

Lemma filter_all {A} (P : A -> Prop) `{!forall x, Decision (P x)} (l : list A) :
  Forall P l -> filter P l = l.
Proof.
  induction 1 as [|x l Hx Hl IH]; [done|]. rewrite filter_cons, IH. by destruct (decide (P x)).
Qed.

Lemma filter_comm {A} (P Q : A -> Prop) `{!forall x, Decision (P x), !forall x, Decision (Q x)} (l : list A) :
  filter P (filter Q l) = filter Q (filter P l).
Proof. rewrite !list_filter_filter. apply filter_ext. tauto. Qed.
