(* ===== verification/DiftState.v ===== *)
(** * DIFT taint tables

    The constants of [ext/dift/dift.h], the taint tables of [dift_context] and
    the private operations of [ext/dift/dift.c] that read and write them:
    validity checks, memory taint, the two-level hard-disk table and the block
    copies between memory and disk. Logging is left out: it only writes the
    log file. *)

From S2P Require Import Prelude.

(** ** Constants of dift.h *)

Definition HD_L1_INDEX_BITS : Z := 24.
Definition HD_L2_INDEX_BITS : Z := 12.
Definition HD_L1_SIZE : Z := Z.shiftl 1 HD_L1_INDEX_BITS.
Definition HD_L2_SIZE : Z := Z.shiftl 1 HD_L2_INDEX_BITS.

(** The masks are computed in C [int]: the inner shift of the L1 mask leaves
    the 32 bits and is cut to them. *)
Definition HD_L1_INDEX_MASK : Z :=
  Z.lnot (s32 (Z.shiftl (s32 (Z.shiftl 1 HD_L1_INDEX_BITS) - 1) HD_L2_INDEX_BITS)).
Definition HD_L2_INDEX_MASK : Z := Z.lnot (s32 (Z.shiftl 1 HD_L2_INDEX_BITS) - 1).

Definition HD_L1_INDEX (addr : Z) : Z :=
  Z.shiftr (Z.land addr (u64 (Z.lnot HD_L1_INDEX_MASK))) HD_L2_INDEX_BITS.
Definition HD_L2_INDEX (addr : Z) : Z := Z.land addr (u64 (Z.lnot HD_L2_INDEX_MASK)).

Definition HD_MAX_SIZE : Z := 0x1000000000.

Inductive DIFT_STATUS : Type :=
| DIFT_SUCCESS
| DIFT_ERR_OUTOFRANGE
| DIFT_ERR_INVALIDTAG
| DIFT_ERR_FAIL.

(** ** State

    The taint tables of [dift_context] with the globals that describe the
    guest memory. [hd_l1_dirty_tbl] has no entry where the C pointer is NULL.
    [heap_left] is the number of further [calloc] calls that succeed. The
    queue fields of [dift_context] are in DiftQueue. *)
Record dift_state : Type := DiftState {
  phys_ram_size : Z;
  clean_source : Z;
  null_sink : Z;
  reg_dirty_tbl : table;
  xmm_dirty_tbl : table;
  mem_dirty_tbl : table;
  hd_l1_dirty_tbl : gmap Z table;
  heap_left : nat
}.

Definition with_reg (st : dift_state) (t : table) : dift_state :=
  DiftState (phys_ram_size st) (clean_source st) (null_sink st) t
    (xmm_dirty_tbl st) (mem_dirty_tbl st) (hd_l1_dirty_tbl st) (heap_left st).
Definition with_xmm (st : dift_state) (t : table) : dift_state :=
  DiftState (phys_ram_size st) (clean_source st) (null_sink st) (reg_dirty_tbl st)
    t (mem_dirty_tbl st) (hd_l1_dirty_tbl st) (heap_left st).
Definition with_mem (st : dift_state) (t : table) : dift_state :=
  DiftState (phys_ram_size st) (clean_source st) (null_sink st) (reg_dirty_tbl st)
    (xmm_dirty_tbl st) t (hd_l1_dirty_tbl st) (heap_left st).
Definition with_hd (st : dift_state) (h : gmap Z table) : dift_state :=
  DiftState (phys_ram_size st) (clean_source st) (null_sink st) (reg_dirty_tbl st)
    (xmm_dirty_tbl st) (mem_dirty_tbl st) h (heap_left st).
Definition with_heap (st : dift_state) (n : nat) : dift_state :=
  DiftState (phys_ram_size st) (clean_source st) (null_sink st) (reg_dirty_tbl st)
    (xmm_dirty_tbl st) (mem_dirty_tbl st) (hd_l1_dirty_tbl st) n.

(** The taint context after [bzero] and the two [calloc] calls of
    [init_dift_context]; [page] is the value of [getpagesize()] and [heap] the
    number of [calloc] calls that succeed. *)
Definition init_dift_context (ram page : Z) (heap : nat) : res dift_state :=
  match heap with
  | S (S n) =>
      Ret (DiftState ram (u64 (ram + 0)) (u64 (ram + 1))
             (tbl_new (24 * 8)) (tbl_new (16 * 16)) (tbl_new (u64 (ram + page))) ∅ n)
  | _ => Exit
  end.

(** ** Validity of operands *)

Definition is_valid_tag (tag : Z) : bool :=
  let mask := 0x7f in
  if negb (Z.land tag (Z.lnot mask) =? 0) then false else true.

Definition is_valid_mem_range (st : dift_state) (addr len : Z) : bool :=
  if ((phys_ram_size st <? addr) || (phys_ram_size st - addr <? len))
     && negb (addr =? clean_source st)
     && negb (addr =? null_sink st)
  then false else true.

Definition is_valid_disk_range (haddr len : Z) : bool :=
  if (HD_MAX_SIZE <? haddr) || (HD_MAX_SIZE - haddr <? len) then false else true.

(** ** Memory taint *)

(** The loop of [set_mem_dirty]: [n] bytes from [addr]. *)
Fixpoint set_mem_loop (n : nat) (t : table) (addr tag : Z) (is_append : bool) : res table :=
  match n with
  | O => Ret t
  | S m =>
      old ← tbl_read t addr;
      t' ← tbl_write t addr (if is_append then old .| tag else tag);
      set_mem_loop m t' (addr + 1) tag is_append
  end.

Definition set_mem_dirty (st : dift_state) (addr len tag : Z) (is_append : bool)
  : res (DIFT_STATUS * dift_state) :=
  if negb (is_valid_mem_range st addr len) then Ret (DIFT_ERR_OUTOFRANGE, st)
  else if negb (is_valid_tag tag) then Ret (DIFT_ERR_INVALIDTAG, st)
  else
    t ← set_mem_loop (Z.to_nat len) (mem_dirty_tbl st) addr tag is_append;
    Ret (DIFT_SUCCESS, with_mem st t).

Fixpoint and_mem_loop (n : nat) (t : table) (addr tag : Z) : res table :=
  match n with
  | O => Ret t
  | S m =>
      old ← tbl_read t addr;
      t' ← tbl_write t addr (old .& tag);
      and_mem_loop m t' (addr + 1) tag
  end.

Definition and_mem_dirty (st : dift_state) (addr len tag : Z)
  : res (DIFT_STATUS * dift_state) :=
  if negb (is_valid_mem_range st addr len) then Ret (DIFT_ERR_OUTOFRANGE, st)
  else if negb (is_valid_tag tag) then Ret (DIFT_ERR_INVALIDTAG, st)
  else
    t ← and_mem_loop (Z.to_nat len) (mem_dirty_tbl st) addr tag;
    Ret (DIFT_SUCCESS, with_mem st t).

Definition get_mem_dirty (st : dift_state) (addr : Z) : res Z :=
  if negb (is_valid_mem_range st addr 1) then Ret 0
  else tbl_read (mem_dirty_tbl st) addr.

(** ** Hard-disk taint *)

Definition alloc_hd_dirty_page (st : dift_state) : res (table * dift_state) :=
  match heap_left st with
  | O => Exit
  | S n => Ret (tbl_new HD_L2_SIZE, with_heap st n)
  end.

(** [dc->hd_l1_dirty_tbl[i]], [None] for NULL. *)
Definition hd_l1_read (st : dift_state) (i : Z) : res (option table) :=
  if (0 <=? i) && (i <? HD_L1_SIZE) then Ret (hd_l1_dirty_tbl st !! i) else UB.

(** The page of [i], allocated when the entry is NULL. *)
Definition hd_l1_ensure (st : dift_state) (i : Z) : res (table * dift_state) :=
  p ← hd_l1_read st i;
  match p with
  | Some pg => Ret (pg, st)
  | None =>
      '(pg, st') ← alloc_hd_dirty_page st;
      Ret (pg, with_hd st' (<[i := pg]> (hd_l1_dirty_tbl st')))
  end.

Fixpoint hd_or_loop (n : nat) (st : dift_state) (hdaddr tag : Z) : res dift_state :=
  match n with
  | O => Ret st
  | S m =>
      '(pg, st1) ← hd_l1_ensure st (HD_L1_INDEX hdaddr);
      old ← tbl_read pg (HD_L2_INDEX hdaddr);
      pg' ← tbl_write pg (HD_L2_INDEX hdaddr) (old .| tag);
      hd_or_loop m
        (with_hd st1 (<[HD_L1_INDEX hdaddr := pg']> (hd_l1_dirty_tbl st1))) (hdaddr + 1) tag
  end.

Definition set_hd_dirty_or (st : dift_state) (hdaddr len tag : Z)
  : res (DIFT_STATUS * dift_state) :=
  if negb (is_valid_disk_range hdaddr len) then Ret (DIFT_ERR_OUTOFRANGE, st)
  else if negb (is_valid_tag tag) then Ret (DIFT_ERR_INVALIDTAG, st)
  else if tag =? 0 then Ret (DIFT_SUCCESS, st)
  else st' ← hd_or_loop (Z.to_nat len) st hdaddr tag; Ret (DIFT_SUCCESS, st').

Fixpoint hd_and_loop (n : nat) (st : dift_state) (hdaddr tag : Z) : res dift_state :=
  match n with
  | O => Ret st
  | S m =>
      p ← hd_l1_read st (HD_L1_INDEX hdaddr);
      st1 ← match p with
            | None => Ret st
            | Some pg =>
                old ← tbl_read pg (HD_L2_INDEX hdaddr);
                pg' ← tbl_write pg (HD_L2_INDEX hdaddr) (old .& tag);
                Ret (with_hd st (<[HD_L1_INDEX hdaddr := pg']> (hd_l1_dirty_tbl st)))
            end;
      hd_and_loop m st1 (hdaddr + 1) tag
  end.

Definition set_hd_dirty_and (st : dift_state) (hdaddr len tag : Z)
  : res (DIFT_STATUS * dift_state) :=
  if negb (is_valid_disk_range hdaddr len) then Ret (DIFT_ERR_OUTOFRANGE, st)
  else if negb (is_valid_tag tag) then Ret (DIFT_ERR_INVALIDTAG, st)
  else if tag =? 0 then Ret (DIFT_SUCCESS, st)
  else st' ← hd_and_loop (Z.to_nat len) st hdaddr tag; Ret (DIFT_SUCCESS, st').

Definition get_hd_dirty (st : dift_state) (hdaddr : Z) : res Z :=
  if negb (is_valid_disk_range hdaddr 1) then Ret 0
  else
    p ← hd_l1_read st (HD_L1_INDEX hdaddr);
    match p with
    | None => Ret 0
    | Some hd_l2_dirty_tbl => tbl_read hd_l2_dirty_tbl (HD_L2_INDEX hdaddr)
    end.

(** ** Copies between memory and disk *)

(** Bytes from [hdaddr] to the end of its page. *)
Definition hd_progress (hdaddr : Z) : Z :=
  u64 (Z.land (u64 (hdaddr + Z.shiftl 1 HD_L2_INDEX_BITS)) (u64 HD_L2_INDEX_MASK) - hdaddr).

(** The [while( len )] loop of [copy_contamination_hd_mem]; [fuel] bounds the
    iterations. *)
Fixpoint copy_hd_mem_loop (fuel : nat) (st : dift_state) (hdaddr ra len progress : Z)
  : res dift_state :=
  if len =? 0 then Ret st
  else match fuel with
  | O => UB
  | S f =>
      let progress := if progress <? len then progress else len in
      '(pg, st1) ← hd_l1_ensure st (HD_L1_INDEX hdaddr);
      pg' ← tbl_copy (Z.to_nat progress) (mem_dirty_tbl st1) ra pg (HD_L2_INDEX hdaddr);
      let st2 := with_hd st1 (<[HD_L1_INDEX hdaddr := pg']> (hd_l1_dirty_tbl st1)) in
      copy_hd_mem_loop f st2 (hdaddr + progress) (ra + progress) (len - progress)
        (hd_progress (hdaddr + progress))
  end.

Definition copy_contamination_hd_mem (st : dift_state) (hdaddr ra len : Z) : res dift_state :=
  let progress := hd_progress hdaddr in
  if negb (is_valid_mem_range st ra len) || negb (is_valid_disk_range hdaddr len)
  then Ret st
  else copy_hd_mem_loop (Z.to_nat len) st hdaddr ra len progress.

Fixpoint copy_mem_hd_loop (fuel : nat) (st : dift_state) (wa hdaddr len progress : Z)
  : res dift_state :=
  if len =? 0 then Ret st
  else match fuel with
  | O => UB
  | S f =>
      let progress := if progress <? len then progress else len in
      p ← hd_l1_read st (HD_L1_INDEX hdaddr);
      t ← match p with
          | None => tbl_zero (Z.to_nat progress) (mem_dirty_tbl st) wa
          | Some pg => tbl_copy (Z.to_nat progress) pg (HD_L2_INDEX hdaddr) (mem_dirty_tbl st) wa
          end;
      copy_mem_hd_loop f (with_mem st t) (wa + progress) (hdaddr + progress) (len - progress)
        (hd_progress (hdaddr + progress))
  end.

Definition copy_contamination_mem_hd (st : dift_state) (wa hdaddr len : Z) : res dift_state :=
  let progress := hd_progress hdaddr in
  if negb (is_valid_mem_range st wa len) || negb (is_valid_disk_range hdaddr len)
  then Ret st
  else copy_mem_hd_loop (Z.to_nat len) st wa hdaddr len progress.

(** ** Public API on the tables *)

Definition dift_contaminate_memory_or (st : dift_state) (addr len tag : Z) :=
  set_mem_dirty st addr len tag true.
Definition dift_contaminate_memory_and (st : dift_state) (addr len tag : Z) :=
  and_mem_dirty st addr len tag.
Definition dift_contaminate_disk_or (st : dift_state) (hdaddr len tag : Z) :=
  set_hd_dirty_or st hdaddr len tag.
Definition dift_contaminate_disk_and (st : dift_state) (hdaddr len tag : Z) :=
  set_hd_dirty_and st hdaddr len tag.
Definition dift_get_memory_dirty (st : dift_state) (addr : Z) : res Z := get_mem_dirty st addr.
Definition dift_get_disk_dirty (st : dift_state) (hdaddr : Z) : res Z := get_hd_dirty st hdaddr.

(** ** Well-formed states *)

(** What [init_dift_context] sets up and every operation keeps: the sizes of
    the tables, the two extra cells after the guest RAM and the slack of one
    page. *)
Record dift_wf (st : dift_state) : Prop := {
  wf_ram : 0 <= phys_ram_size st;
  wf_mem : phys_ram_size st + 4096 <= tbl_size (mem_dirty_tbl st);
  wf_mem64 : tbl_size (mem_dirty_tbl st) < 2 ^ 64;
  wf_clean : clean_source st = phys_ram_size st;
  wf_null : null_sink st = phys_ram_size st + 1;
  wf_reg : tbl_size (reg_dirty_tbl st) = 192;
  wf_xmm : tbl_size (xmm_dirty_tbl st) = 256;
  wf_hd : forall i pg, hd_l1_dirty_tbl st !! i = Some pg -> tbl_size pg = HD_L2_SIZE
}.

(** Taint of a disk byte. *)
Definition hd_taint (st : dift_state) (a : Z) : Z :=
  match hd_l1_dirty_tbl st !! (a / 4096) with
  | None => 0
  | Some pg => tbl_get pg (a mod 4096)
  end.

(** Every tag in every table is a byte within the mask [m]. *)
Record tags_in (m : Z) (st : dift_state) : Prop := {
  tags_reg : forall a, covers m (tbl_get (reg_dirty_tbl st) a);
  tags_xmm : forall a, covers m (tbl_get (xmm_dirty_tbl st) a);
  tags_mem : forall a, covers m (tbl_get (mem_dirty_tbl st) a);
  tags_hd : forall i pg a, hd_l1_dirty_tbl st !! i = Some pg -> covers m (tbl_get pg a)
}.

(** The states differ only in the taint of memory. *)
Definition only_mem (st st' : dift_state) : Prop := st' = with_mem st (mem_dirty_tbl st').

(** The states differ only in the disk tables and the heap. *)
Definition only_hd (st st' : dift_state) : Prop :=
  st' = with_heap (with_hd st (hd_l1_dirty_tbl st')) (heap_left st').

(** ** Lemmas: indices and ranges *)

Lemma hd_l1_mask_value : u64 (Z.lnot HD_L1_INDEX_MASK) = Z.shiftl (Z.ones 52) 12.
Proof. reflexivity. Qed.

Lemma hd_l2_mask_value : u64 (Z.lnot HD_L2_INDEX_MASK) = Z.ones 12.
Proof. reflexivity. Qed.

Lemma HD_L1_INDEX_div a : 0 <= a < 2 ^ 64 -> HD_L1_INDEX a = a / 4096.
Proof.
  intros Ha. unfold HD_L1_INDEX. rewrite hd_l1_mask_value. change HD_L2_INDEX_BITS with 12.
  rewrite Z.shiftr_land, Z.shiftr_shiftl_l, Z.sub_diag, Z.shiftl_0_r by lia.
  rewrite Z.shiftr_div_pow2, Z.land_ones by lia. change (2 ^ 12) with 4096.
  apply Z.mod_small. split; [apply Z.div_pos; lia|apply Z.div_lt_upper_bound; lia].
Qed.

Lemma HD_L2_INDEX_mod a : HD_L2_INDEX a = a mod 4096.
Proof. unfold HD_L2_INDEX. rewrite hd_l2_mask_value. by rewrite Z.land_ones by lia. Qed.

Lemma land_page_mask x :
  0 <= x < 2 ^ 64 -> Z.land x (Z.shiftl (Z.ones 52) 12) = x / 4096 * 4096.
Proof.
  intros Hx. rewrite <- (Z.shiftl_mul_pow2 _ 12), <- (Z.shiftr_div_pow2 _ 12) by lia.
  apply Z.bits_inj'. intros i Hi. rewrite Z.land_spec, !Z.shiftl_spec by lia.
  destruct (Z.ltb_spec i 12).
  - by rewrite !(Z.testbit_neg_r _ (i - 12)), andb_false_r by lia.
  - rewrite Z.shiftr_spec, Z.testbit_ones_nonneg by lia. replace (i - 12 + 12) with i by lia.
    destruct (Z.ltb_spec (i - 12) 52); [apply andb_true_r|].
    rewrite andb_false_r. destruct (decide (x = 0)) as [->|]; [by rewrite Z.bits_0|].
    symmetry. apply Z.bits_above_log2; [lia|].
    assert (Z.log2 x < 64) by (apply Z.log2_lt_pow2; lia). lia.
Qed.

Lemma hd_progress_eq a : 0 <= a < 2 ^ 63 -> hd_progress a = 4096 - a mod 4096.
Proof.
  intros Ha. unfold hd_progress. change (Z.shiftl 1 HD_L2_INDEX_BITS) with 4096.
  change (u64 HD_L2_INDEX_MASK) with (Z.shiftl (Z.ones 52) 12).
  unfold u64. rewrite (Z.mod_small (a + 4096)), land_page_mask by lia.
  pose proof (Z.div_mod a 4096 ltac:(lia)). pose proof (Z.mod_pos_bound a 4096 ltac:(lia)).
  replace (a + 4096) with (a + 1 * 4096) by lia. rewrite Z.div_add by lia.
  rewrite Z.mod_small; lia.
Qed.

Lemma is_valid_tag_spec tag : 0 <= tag < 256 -> is_valid_tag tag = (tag <? 128).
Proof.
  intros Ht. unfold is_valid_tag.
  assert (Z.land tag (Z.lnot 0x7f) = tag / 128 * 128) as ->.
  { change 0x7f with (Z.ones 7). rewrite <- Z.ldiff_land, Z.ldiff_ones_r by lia.
    by rewrite Z.shiftl_mul_pow2, Z.shiftr_div_pow2 by lia. }
  pose proof (Z.div_mod tag 128 ltac:(lia)). pose proof (Z.mod_pos_bound tag 128 ltac:(lia)).
  destruct (Z.eqb_spec (tag / 128 * 128) 0), (Z.ltb_spec tag 128); simpl; try done; lia.
Qed.

Lemma is_valid_mem_range_spec st addr len :
  dift_wf st ->
  is_valid_mem_range st addr len = true <->
  (addr <= phys_ram_size st /\ addr + len <= phys_ram_size st) \/
  addr = phys_ram_size st \/ addr = phys_ram_size st + 1.
Proof.
  intros Hwf. unfold is_valid_mem_range. rewrite (wf_clean _ Hwf), (wf_null _ Hwf).
  case_if; bool_to_prop.
  - split; [done|]. apply orb_true_iff in H. destruct H; bool_to_prop; lia.
  - split; [intros _|done].
    apply andb_false_iff in Heqb as [Heqb|?]; bool_to_prop; [|lia].
    apply andb_false_iff in Heqb as [Heqb|?]; bool_to_prop; lia.
Qed.

Lemma is_valid_disk_range_spec haddr len :
  is_valid_disk_range haddr len = true <-> haddr <= HD_MAX_SIZE /\ haddr + len <= HD_MAX_SIZE.
Proof.
  unfold is_valid_disk_range. case_if; bool_to_prop.
  - split; [done|]. apply orb_true_iff in Heqb. destruct Heqb; bool_to_prop; lia.
  - split; [intros _|done]. lia.
Qed.

(** ** Lemmas: memory loops *)

Lemma set_mem_loop_ok n t addr tag app :
  0 <= addr -> addr + Z.of_nat n <= tbl_size t ->
  exists t', set_mem_loop n t addr tag app = Ret t' /\
    tbl_agrees t t' (fun x =>
      if within addr (Z.of_nat n) x then if app then tbl_get t x .| tag else tag
      else tbl_get t x).
Proof.
  revert t addr. induction n as [|n IH]; intros t addr Ha Hs.
  - exists t. split; [done|]. split; [done|]. intros. by split_tests; [lia|].
  - cbn [set_mem_loop]. rewrite tbl_read_ok by lia. simpl. rewrite tbl_write_ok by lia. simpl.
    edestruct (IH (tbl_set t addr (if app then tbl_get t addr .| tag else tag)) (addr + 1))
      as (t' & -> & Hsz & Hg); [lia|simpl; lia|].
    exists t'. split; [done|]. split; [done|]. intros x. rewrite Hg, tbl_get_set.
    split_tests; subst; try lia; done.
Qed.

Lemma and_mem_loop_ok n t addr tag :
  0 <= addr -> addr + Z.of_nat n <= tbl_size t ->
  exists t', and_mem_loop n t addr tag = Ret t' /\
    tbl_agrees t t' (fun x =>
      if within addr (Z.of_nat n) x then tbl_get t x .& tag else tbl_get t x).
Proof.
  revert t addr. induction n as [|n IH]; intros t addr Ha Hs.
  - exists t. split; [done|]. split; [done|]. intros. by split_tests; [lia|].
  - cbn [and_mem_loop]. rewrite tbl_read_ok by lia. simpl. rewrite tbl_write_ok by lia. simpl.
    edestruct (IH (tbl_set t addr (tbl_get t addr .& tag)) (addr + 1))
      as (t' & -> & Hsz & Hg); [lia|simpl; lia|].
    exists t'. split; [done|]. split; [done|]. intros x. rewrite Hg, tbl_get_set.
    split_tests; subst; try lia; done.
Qed.

Lemma set_mem_loop_oob n t addr tag app :
  0 <= addr <= tbl_size t -> tbl_size t < addr + Z.of_nat n ->
  set_mem_loop n t addr tag app = UB.
Proof.
  revert t addr. induction n as [|n IH]; intros t addr Ha Hs; [lia|].
  cbn [set_mem_loop]. destruct (decide (addr = tbl_size t)) as [->|].
  - unfold tbl_read, tbl_ok. by rewrite Z.ltb_irrefl, andb_false_r.
  - rewrite tbl_read_ok by lia. simpl. rewrite tbl_write_ok by lia. simpl.
    apply IH; simpl; lia.
Qed.

(** ** Lemmas: what the memory operations keep *)

Lemma with_mem_only st t : only_mem st (with_mem st t).
Proof. done. Qed.

Lemma dift_wf_with_mem st t :
  dift_wf st -> tbl_size t = tbl_size (mem_dirty_tbl st) -> dift_wf (with_mem st t).
Proof. intros [] Hs. constructor; simpl; auto; lia. Qed.

Lemma tags_in_with_mem m st t :
  tags_in m st -> (forall a, covers m (tbl_get t a)) -> tags_in m (with_mem st t).
Proof. intros [] Ht. constructor; simpl; auto. Qed.

(** [set_mem_dirty] when it accepts its arguments and the range lies in the table. *)
Lemma set_mem_dirty_ok st addr len tag app :
  dift_wf st -> 0 <= addr -> 0 <= len -> 0 <= tag < 128 ->
  is_valid_mem_range st addr len = true -> addr + len <= tbl_size (mem_dirty_tbl st) ->
  exists t, set_mem_dirty st addr len tag app = Ret (DIFT_SUCCESS, with_mem st t) /\
    tbl_agrees (mem_dirty_tbl st) t (fun x =>
      if within addr len x
      then if app then tbl_get (mem_dirty_tbl st) x .| tag else tag
      else tbl_get (mem_dirty_tbl st) x).
Proof.
  intros Hwf Ha Hl Ht Hr Hs. unfold set_mem_dirty. rewrite Hr, is_valid_tag_spec by lia.
  destruct (Z.ltb_spec tag 128); [simpl|lia].
  destruct (set_mem_loop_ok (Z.to_nat len) (mem_dirty_tbl st) addr tag app) as (t & -> & Ht');
    [lia..|].
  exists t. split; [done|]. by rewrite Z2Nat.id in Ht' by lia.
Qed.

Lemma and_mem_dirty_ok st addr len tag :
  dift_wf st -> 0 <= addr -> 0 <= len -> 0 <= tag < 128 ->
  is_valid_mem_range st addr len = true -> addr + len <= tbl_size (mem_dirty_tbl st) ->
  exists t, and_mem_dirty st addr len tag = Ret (DIFT_SUCCESS, with_mem st t) /\
    tbl_agrees (mem_dirty_tbl st) t (fun x =>
      if within addr len x then tbl_get (mem_dirty_tbl st) x .& tag
      else tbl_get (mem_dirty_tbl st) x).
Proof.
  intros Hwf Ha Hl Ht Hr Hs. unfold and_mem_dirty. rewrite Hr, is_valid_tag_spec by lia.
  destruct (Z.ltb_spec tag 128); [simpl|lia].
  destruct (and_mem_loop_ok (Z.to_nat len) (mem_dirty_tbl st) addr tag) as (t & -> & Ht');
    [lia..|].
  exists t. split; [done|]. by rewrite Z2Nat.id in Ht' by lia.
Qed.

(** [get_mem_dirty] is total: the tag of a RAM byte or of one of the two extra
    cells, 0 for every other address. *)
Lemma get_mem_dirty_ok st a :
  dift_wf st -> 0 <= a ->
  get_mem_dirty st a =
    Ret (if a <? phys_ram_size st + 2 then tbl_get (mem_dirty_tbl st) a else 0).
Proof.
  intros Hwf Ha. unfold get_mem_dirty. pose proof (wf_mem _ Hwf).
  destruct (is_valid_mem_range st a 1) eqn:E; simpl.
  - apply is_valid_mem_range_spec in E; [|done].
    destruct (Z.ltb_spec a (phys_ram_size st + 2)); [|lia]. rewrite tbl_read_ok by lia. done.
  - destruct (Z.ltb_spec a (phys_ram_size st + 2)); [|done].
    assert (is_valid_mem_range st a 1 = true); [|congruence].
    apply is_valid_mem_range_spec; [done|lia].
Qed.

(** ** Lemmas: the disk table *)

Lemma hd_page_size : HD_L2_SIZE = 4096.
Proof. done. Qed.

Lemma hd_l1_read_ok st a :
  0 <= a < HD_MAX_SIZE -> hd_l1_read st (a / 4096) = Ret (hd_l1_dirty_tbl st !! (a / 4096)).
Proof.
  intros Ha. unfold hd_l1_read. change HD_L1_SIZE with 16777216.
  change HD_MAX_SIZE with 68719476736 in Ha.
  assert (0 <= a / 4096 < 16777216).
  { split; [apply Z.div_pos; lia|apply Z.div_lt_upper_bound; lia]. }
  destruct (Z.leb_spec 0 (a / 4096)), (Z.ltb_spec (a / 4096) 16777216); simpl; try done; lia.
Qed.

(** Pages to allocate for the [n] bytes from [a]: the pages they span, less
    the first one when it is there. *)
Definition hd_need (st : dift_state) (a n : Z) : Z :=
  if n <=? 0 then 0
  else (a + n - 1) / 4096 - a / 4096
       + (if decide (hd_l1_dirty_tbl st !! (a / 4096) = None) then 1 else 0).

(** What a disk operation keeps. *)
Record hd_keeps (st st' : dift_state) : Prop := {
  keeps_only : only_hd st st';
  keeps_wf : dift_wf st'
}.

Lemma hd_keeps_refl st : dift_wf st -> hd_keeps st st.
Proof. intros. split; [by destruct st|done]. Qed.

Lemma hd_keeps_trans st1 st2 st3 : hd_keeps st1 st2 -> hd_keeps st2 st3 -> hd_keeps st1 st3.
Proof.
  intros [H1 _] [H2 W]. split; [|done]. unfold only_hd in *. rewrite H1 in H2. exact H2.
Qed.

Lemma div_mod_page a b : a / 4096 = b / 4096 -> a mod 4096 = b mod 4096 -> a = b.
Proof.
  intros. rewrite (Z.div_mod a 4096), (Z.div_mod b 4096) by lia. congruence.
Qed.

Lemma mod_page_range a : 0 <= a mod 4096 < 4096.
Proof. apply Z.mod_pos_bound. lia. Qed.

Lemma hd_taint_insert st p pg x :
  hd_taint (with_hd st (<[p := pg]> (hd_l1_dirty_tbl st))) x =
  if p =? x / 4096 then tbl_get pg (x mod 4096) else hd_taint st x.
Proof.
  unfold hd_taint. simpl. destruct (Z.eqb_spec p (x / 4096)) as [->|].
  - by rewrite lookup_insert_eq.
  - by rewrite lookup_insert_ne.
Qed.

Lemma dift_wf_with_hd st p pg :
  dift_wf st -> tbl_size pg = HD_L2_SIZE ->
  dift_wf (with_hd st (<[p := pg]> (hd_l1_dirty_tbl st))).
Proof.
  intros [] Hs. constructor; simpl; auto. intros i pg' [[<- <-]|[_ H]]%lookup_insert_Some; eauto.
Qed.

Lemma tags_in_with_hd m st p pg :
  tags_in m st -> (forall a, covers m (tbl_get pg a)) ->
  tags_in m (with_hd st (<[p := pg]> (hd_l1_dirty_tbl st))).
Proof.
  intros [] Hs. constructor; simpl; auto.
  intros i pg' a [[<- <-]|[_ H]]%lookup_insert_Some; eauto.
Qed.

(** The page of a disk address, fetched or allocated: the taint of every
    address stays as it is. *)
Lemma hd_l1_ensure_ok st a :
  dift_wf st -> 0 <= a < HD_MAX_SIZE -> hd_need st a 1 <= Z.of_nat (heap_left st) ->
  exists pg st1, hd_l1_ensure st (a / 4096) = Ret (pg, st1) /\
    hd_keeps st st1 /\ hd_l1_dirty_tbl st1 !! (a / 4096) = Some pg /\
    tbl_size pg = HD_L2_SIZE /\ (forall x, hd_taint st1 x = hd_taint st x) /\
    (forall m, tags_in m st -> tags_in m st1) /\
    Z.of_nat (heap_left st1) = Z.of_nat (heap_left st) - hd_need st a 1.
Proof.
  intros Hwf Ha Hn. unfold hd_l1_ensure. rewrite hd_l1_read_ok by done. simpl.
  unfold hd_need in *. simpl in *. replace (a + 1 - 1) with a in * by lia.
  destruct (hd_l1_dirty_tbl st !! (a / 4096)) as [pg|] eqn:E.
  - rewrite decide_False in * by done. exists pg, st.
    split_and!; eauto using hd_keeps_refl, wf_hd; lia.
  - rewrite decide_True in * by done. unfold alloc_hd_dirty_page.
    destruct (heap_left st) as [|n] eqn:Eh; [lia|]. simpl.
    eexists _, _. split; [done|]. split.
    { split; [done|]. apply (dift_wf_with_hd (with_heap st n)); [|done]. by destruct Hwf. }
    split_and!.
    + simpl. apply lookup_insert_eq.
    + done.
    + intros x. rewrite (hd_taint_insert (with_heap st n)).
      destruct (Z.eqb_spec (a / 4096) (x / 4096)) as [Hx|]; [|done].
      unfold hd_taint. by rewrite <- Hx, E.
    + intros m Hm. apply (tags_in_with_hd m (with_heap st n)); [by destruct Hm|].
      intros. apply covers_0.
    + simpl. lia.
Qed.

(** Arithmetic of pages: [p] bytes that do not run over the page of [a]. *)
Lemma page_step a p :
  0 <= a -> 0 < p -> a mod 4096 + p <= 4096 ->
  (a + p) / 4096 = a / 4096 \/
  ((a + p) / 4096 = a / 4096 + 1 /\ (a + p) mod 4096 = 0).
Proof.
  intros. pose proof (Z.div_mod a 4096 ltac:(lia)). pose proof (mod_page_range a).
  pose proof (Z.div_mod (a + p) 4096 ltac:(lia)). pose proof (mod_page_range (a + p)). lia.
Qed.

Lemma within_page a n x :
  a mod 4096 + n <= 4096 ->
  within a n x = (a / 4096 =? x / 4096) && within (a mod 4096) n (x mod 4096).
Proof.
  intros. pose proof (Z.div_mod a 4096 ltac:(lia)). pose proof (mod_page_range a).
  pose proof (Z.div_mod x 4096 ltac:(lia)). pose proof (mod_page_range x).
  apply eq_true_iff_eq. rewrite andb_true_iff, Z.eqb_eq, !within_true. lia.
Qed.

Lemma hd_need_split st st1 pg a p n :
  0 <= a -> 0 < p <= n -> a mod 4096 + p <= 4096 ->
  hd_l1_dirty_tbl st1 !! (a / 4096) = Some pg ->
  hd_need st a 1 + hd_need st1 (a + p) (n - p) <= hd_need st a n.
Proof.
  intros Ha Hp Hm Hpg. unfold hd_need.
  destruct (Z.leb_spec n 0), (Z.leb_spec 1 0), (Z.leb_spec (n - p) 0); try lia.
  - assert (a / 4096 <= (a + n - 1) / 4096) by (apply Z.div_le_mono; lia).
    replace (a + 1 - 1) with a by lia. lia.
  - replace (a + p + (n - p) - 1) with (a + n - 1) by lia.
    replace (a + 1 - 1) with a in * by lia.
    destruct (page_step a p) as [E|[E _]]; [lia..| |].
    + rewrite E, Hpg, (decide_False (P := Some pg = None)) by done. lia.
    + rewrite E. destruct (decide (hd_l1_dirty_tbl st1 !! (a / 4096 + 1) = None)); lia.
Qed.

Lemma hd_need_nonneg st a n : 0 <= a -> 0 <= hd_need st a n.
Proof.
  intros. unfold hd_need. destruct (Z.leb_spec n 0); [done|].
  assert (a / 4096 <= (a + n - 1) / 4096) by (apply Z.div_le_mono; lia).
  case_decide; lia.
Qed.

Lemma hd_need_first st a n : 0 <= a -> 0 < n -> hd_need st a 1 <= hd_need st a n.
Proof.
  intros. unfold hd_need. replace (a + 1 - 1) with a by lia.
  assert (a / 4096 <= (a + n - 1) / 4096) by (apply Z.div_le_mono; lia).
  destruct (Z.leb_spec n 0), (Z.leb_spec 1 0); lia.
Qed.

(** A write of [n] bytes inside the page of [a]. *)
Lemma hd_taint_page_write st a n pg pg' (g : Z -> Z) :
  0 <= n -> a mod 4096 + n <= 4096 ->
  hd_l1_dirty_tbl st !! (a / 4096) = Some pg ->
  tbl_agrees pg pg' (fun y =>
    if within (a mod 4096) n y then g (a - a mod 4096 + y) else tbl_get pg y) ->
  forall x, hd_taint (with_hd st (<[a / 4096 := pg']> (hd_l1_dirty_tbl st))) x =
    if within a n x then g x else hd_taint st x.
Proof.
  intros Hn Hm Hpg [_ Hg] x. rewrite hd_taint_insert, within_page by done.
  destruct (Z.eqb_spec (a / 4096) (x / 4096)) as [E|]; simpl; [|done].
  rewrite Hg. unfold hd_taint. rewrite <- E, Hpg.
  destruct (within _ _ _); [|done]. f_equal.
  pose proof (Z.div_mod a 4096 ltac:(lia)). pose proof (Z.div_mod x 4096 ltac:(lia)). lia.
Qed.

Lemma tags_in_page_write m st p pg pg' f :
  tags_in m st -> tbl_agrees pg pg' f -> (forall y, covers m (f y)) ->
  tags_in m (with_hd st (<[p := pg']> (hd_l1_dirty_tbl st))).
Proof. intros Hm [_ Hg] Hf. apply tags_in_with_hd; [done|]. intros. rewrite Hg. apply Hf. Qed.

(** What a disk operation does, pointwise: the state keeps everything but the
    disk, the taint of every disk byte is given by [f], tags stay within any
    mask that covers [src], and at most [need] pages are allocated. *)
Record hd_updates (st st' : dift_state) (src : Z -> Prop) (need : Z) (f : Z -> Z) : Prop := {
  upd_keeps : hd_keeps st st';
  upd_heap : Z.of_nat (heap_left st) - need <= Z.of_nat (heap_left st');
  upd_taint : forall x, hd_taint st' x = f x;
  upd_tags : forall m, src m -> tags_in m st -> tags_in m st'
}.

Lemma hd_updates_refl st src need f :
  dift_wf st -> 0 <= need -> (forall x, hd_taint st x = f x) -> hd_updates st st src need f.
Proof. intros. split; [by apply hd_keeps_refl|lia|done|done]. Qed.

Lemma hd_updates_trans st st1 st2 src n1 n2 n f1 f2 f :
  hd_updates st st1 src n1 f1 -> hd_updates st1 st2 src n2 f2 -> n1 + n2 <= n ->
  (forall x, f2 x = f x) -> hd_updates st st2 src n f.
Proof.
  intros [K1 H1 _ G1] [K2 H2 T2 G2] Hn Hf. split.
  - by eapply hd_keeps_trans.
  - lia.
  - intros x. by rewrite T2.
  - auto.
Qed.

Lemma HD_addr_lt a : 0 <= a < HD_MAX_SIZE -> 0 <= a < 2 ^ 63.
Proof. change HD_MAX_SIZE with 68719476736. lia. Qed.

Lemma hd_or_step st a tag :
  dift_wf st -> 0 <= a < HD_MAX_SIZE -> 0 <= tag < 256 ->
  hd_need st a 1 <= Z.of_nat (heap_left st) ->
  exists pg st1 pg', hd_l1_ensure st (a / 4096) = Ret (pg, st1) /\
    tbl_read pg (a mod 4096) = Ret (tbl_get pg (a mod 4096)) /\
    tbl_write pg (a mod 4096) (tbl_get pg (a mod 4096) .| tag) = Ret pg' /\
    let st2 := with_hd st1 (<[a / 4096 := pg']> (hd_l1_dirty_tbl st1)) in
    hd_updates st st2 (fun m => covers m tag) (hd_need st a 1)
      (fun x => if a =? x then hd_taint st x .| tag else hd_taint st x) /\
    hd_l1_dirty_tbl st2 !! (a / 4096) = Some pg' /\
    Z.of_nat (heap_left st2) = Z.of_nat (heap_left st) - hd_need st a 1.
Proof.
  intros Hwf Ha Ht Hn.
  destruct (hd_l1_ensure_ok st a) as (pg & st1 & E & K & Hpg & Hs & Htn & Htg & Hh); [done..|].
  pose proof (mod_page_range a). pose proof hd_page_size.
  exists pg, st1, (tbl_set pg (a mod 4096) (tbl_get pg (a mod 4096) .| tag)).
  split; [done|]. rewrite tbl_read_ok, tbl_write_ok by lia.
  split; [done|]. split; [done|]. split_and!; [| |exact Hh].
  - split.
    + eapply hd_keeps_trans; [done|]. split; [done|].
      apply dift_wf_with_hd; [apply K|done].
    + simpl. lia.
    + intros x. rewrite (hd_taint_page_write st1 a 1 pg _ (fun x => hd_taint st1 x .| tag)).
      * cbn beta. rewrite !Htn. unfold within.
        destruct (Z.leb_spec a x), (Z.ltb_spec x (a + 1)), (Z.eqb_spec a x); simpl; done || lia.
      * lia.
      * lia.
      * done.
      * split; [done|]. intros y. rewrite tbl_get_set. split_tests; try lia.
        subst y. replace (a - a mod 4096 + a mod 4096) with a by lia. unfold hd_taint.
        by rewrite Hpg.
    + intros m Hc Hm. apply tags_in_with_hd; [auto|]. intros b. rewrite tbl_get_set.
      pose proof (fun b => tags_hd _ _ (Htg m Hm) _ _ b Hpg). case_if; auto with mba.
  - simpl. apply lookup_insert_eq.
Qed.

Lemma hd_or_loop_ok n st a tag :
  dift_wf st -> 0 <= a -> a + Z.of_nat n <= HD_MAX_SIZE -> 0 <= tag < 256 ->
  hd_need st a (Z.of_nat n) <= Z.of_nat (heap_left st) ->
  exists st', hd_or_loop n st a tag = Ret st' /\
    hd_updates st st' (fun m => covers m tag) (hd_need st a (Z.of_nat n))
      (fun x => if within a (Z.of_nat n) x then hd_taint st x .| tag else hd_taint st x).
Proof.
  revert st a. induction n as [|n IH]; intros st a Hwf Ha Hs Ht Hn.
  - exists st. split; [done|]. apply hd_updates_refl; [done|auto using hd_need_nonneg with lia|].
    intros x. split_tests; [lia|done].
  - cbn [hd_or_loop]. pose proof (hd_need_first st a (Z.of_nat (S n)) ltac:(lia) ltac:(lia)).
    rewrite HD_L1_INDEX_div, HD_L2_INDEX_mod
      by (pose proof (HD_addr_lt a ltac:(lia)); lia).
    destruct (hd_or_step st a tag) as (pg & st1 & pg' & E & Er & Ew & U & Hpg & Hh); [done|lia..|].
    rewrite E. simpl. rewrite Er. simpl. rewrite Ew. simpl.
    set (st2 := with_hd _ _) in *.
    pose proof (mod_page_range a).
    pose proof (hd_need_split st st2 pg' a 1 (Z.of_nat (S n)) ltac:(lia) ltac:(lia) ltac:(lia) Hpg)
      as Hsplit.
    replace (Z.of_nat (S n) - 1) with (Z.of_nat n) in Hsplit by lia.
    destruct (IH st2 (a + 1)) as (st' & -> & U'); [apply U|lia|lia|done|lia|].
    exists st'. split; [done|]. eapply hd_updates_trans; [exact U|exact U'|lia|].
    intros x. simpl. rewrite (upd_taint _ _ _ _ _ U). split_tests; try lia; done.
Qed.

Lemma hd_and_step st a tag :
  dift_wf st -> 0 <= a < HD_MAX_SIZE -> 0 <= tag ->
  exists st1, (p ← hd_l1_read st (a / 4096);
               match p with
               | None => Ret st
               | Some pg =>
                   old ← tbl_read pg (a mod 4096);
                   pg' ← tbl_write pg (a mod 4096) (old .& tag);
                   Ret (with_hd st (<[a / 4096 := pg']> (hd_l1_dirty_tbl st)))
               end) = Ret st1 /\
    hd_updates st st1 (fun _ => True) 0
      (fun x => if a =? x then hd_taint st x .& tag else hd_taint st x).
Proof.
  intros Hwf Ha Ht. rewrite hd_l1_read_ok by done. simpl.
  pose proof (mod_page_range a). pose proof hd_page_size.
  destruct (hd_l1_dirty_tbl st !! (a / 4096)) as [pg|] eqn:Hpg.
  - pose proof (wf_hd _ Hwf _ _ Hpg). rewrite tbl_read_ok by lia. simpl.
    rewrite tbl_write_ok by lia. simpl. eexists. split; [done|]. split.
    + split; [done|]. by apply dift_wf_with_hd.
    + simpl. lia.
    + intros x. rewrite (hd_taint_page_write st a 1 pg _ (fun x => hd_taint st x .& tag));
        [|lia|lia|done|].
      * split_tests; done || lia.
      * split; [done|]. intros y. rewrite tbl_get_set. split_tests; try lia.
        subst y. replace (a - a mod 4096 + a mod 4096) with a by lia. unfold hd_taint.
        by rewrite Hpg.
    + intros m _ Hm. apply tags_in_with_hd; [auto|]. intros b. rewrite tbl_get_set.
      pose proof (fun b => tags_hd _ _ Hm _ _ b Hpg). case_if; auto with mba.
  - exists st. split; [done|]. apply hd_updates_refl; [done|auto using hd_need_nonneg with lia|].
    intros x. destruct (Z.eqb_spec a x) as [<-|]; [|done].
    unfold hd_taint. by rewrite Hpg, Z.land_0_l.
Qed.

Lemma hd_and_loop_ok n st a tag :
  dift_wf st -> 0 <= a -> a + Z.of_nat n <= HD_MAX_SIZE -> 0 <= tag ->
  exists st', hd_and_loop n st a tag = Ret st' /\
    hd_updates st st' (fun _ => True) 0
      (fun x => if within a (Z.of_nat n) x then hd_taint st x .& tag else hd_taint st x).
Proof.
  revert st a. induction n as [|n IH]; intros st a Hwf Ha Hs Ht.
  - exists st. split; [done|]. apply hd_updates_refl; [done|auto using hd_need_nonneg with lia|].
    intros x. split_tests; [lia|done].
  - cbn [hd_and_loop]. rewrite HD_L1_INDEX_div, HD_L2_INDEX_mod
      by (pose proof (HD_addr_lt a ltac:(lia)); lia).
    destruct (hd_and_step st a tag) as (st1 & E & U); [done|lia..|].
    rewrite hd_l1_read_ok in E |- * by lia. simpl in E |- *. rewrite E. simpl.
    destruct (IH st1 (a + 1)) as (st' & -> & U'); [apply U|lia..|].
    exists st'. split; [done|]. eapply hd_updates_trans; [exact U|exact U'|lia|].
    intros x. simpl. rewrite (upd_taint _ _ _ _ _ U). split_tests; try lia; done.
Qed.

Lemma get_hd_dirty_ok st a :
  dift_wf st -> 0 <= a -> get_hd_dirty st a = Ret (if a <? HD_MAX_SIZE then hd_taint st a else 0).
Proof.
  intros Hwf Ha. unfold get_hd_dirty. destruct (is_valid_disk_range a 1) eqn:E; simpl.
  - apply is_valid_disk_range_spec in E. destruct (Z.ltb_spec a HD_MAX_SIZE); [|lia].
    rewrite HD_L1_INDEX_div, HD_L2_INDEX_mod by (pose proof (HD_addr_lt a ltac:(lia)); lia).
    rewrite hd_l1_read_ok by lia. simpl. unfold hd_taint.
    destruct (hd_l1_dirty_tbl st !! (a / 4096)) as [pg|] eqn:Hpg; [|done].
    pose proof (wf_hd _ Hwf _ _ Hpg). pose proof hd_page_size. pose proof (mod_page_range a).
    apply tbl_read_ok. lia.
  - destruct (Z.ltb_spec a HD_MAX_SIZE); [|done].
    assert (is_valid_disk_range a 1 = true); [|congruence]. apply is_valid_disk_range_spec. lia.
Qed.

(** ** Lemmas: copies *)

(** The chunk the loops copy next: it stays in the page of [a]. *)
Lemma hd_chunk_range a len :
  0 <= a < 2 ^ 63 -> 0 < len ->
  let p := if hd_progress a <? len then hd_progress a else len in
  0 < p <= len /\ a mod 4096 + p <= 4096.
Proof.
  intros Ha Hl. simpl. rewrite hd_progress_eq by done. pose proof (mod_page_range a).
  destruct (Z.ltb_spec (4096 - a mod 4096) len); lia.
Qed.

(** One iteration of [copy_contamination_hd_mem] on [p] bytes. *)
Lemma copy_hd_mem_step st a ra p :
  dift_wf st -> 0 <= a < HD_MAX_SIZE -> 0 <= ra -> 0 < p -> a mod 4096 + p <= 4096 ->
  ra + p <= tbl_size (mem_dirty_tbl st) -> hd_need st a 1 <= Z.of_nat (heap_left st) ->
  exists pg st1 pg', hd_l1_ensure st (a / 4096) = Ret (pg, st1) /\
    tbl_copy (Z.to_nat p) (mem_dirty_tbl st1) ra pg (a mod 4096) = Ret pg' /\
    let st2 := with_hd st1 (<[a / 4096 := pg']> (hd_l1_dirty_tbl st1)) in
    hd_updates st st2 (fun _ => True) (hd_need st a 1)
      (fun x => if within a p x then tbl_get (mem_dirty_tbl st) (ra + (x - a)) else hd_taint st x) /\
    hd_l1_dirty_tbl st2 !! (a / 4096) = Some pg' /\
    mem_dirty_tbl st2 = mem_dirty_tbl st /\
    Z.of_nat (heap_left st2) = Z.of_nat (heap_left st) - hd_need st a 1.
Proof.
  intros Hwf Ha Hra Hp Hm Hr Hn.
  destruct (hd_l1_ensure_ok st a) as (pg & st1 & E & K & Hpg & Hs & Htn & Htg & Hh); [done..|].
  pose proof (mod_page_range a). pose proof hd_page_size.
  assert (mem_dirty_tbl st1 = mem_dirty_tbl st) as Em by (by rewrite (keeps_only _ _ K)).
  destruct (tbl_copy_ok (Z.to_nat p) (mem_dirty_tbl st) ra pg (a mod 4096)) as (pg' & Ec & Hg);
    [lia..|].
  rewrite Z2Nat.id in Hg by lia. exists pg, st1, pg'. split; [done|]. rewrite Em.
  split; [done|]. split_and!; [|apply lookup_insert_eq|done|exact Hh]. split.
  - eapply hd_keeps_trans; [done|]. split; [done|].
    apply dift_wf_with_hd; [apply K|]. by destruct Hg as [-> _].
  - simpl. lia.
  - intros x. rewrite (hd_taint_page_write st1 a p pg pg'
      (fun x => tbl_get (mem_dirty_tbl st) (ra + (x - a)))); [by rewrite Htn|lia..|done|].
    destruct Hg as [Hg1 Hg]. split; [done|]. intros y. rewrite Hg.
    case_if; [f_equal; lia|done].
  - intros m _ Hm'. eapply tags_in_page_write; [by apply Htg|done|]. intros y. simpl.
    case_if; [apply Hm'|]. by eapply (tags_hd _ _ (Htg m Hm')).
Qed.

Lemma copy_hd_mem_loop_ok fuel st a ra len :
  dift_wf st -> 0 <= a -> 0 <= ra -> 0 <= len <= Z.of_nat fuel ->
  a + len <= HD_MAX_SIZE -> ra + len <= tbl_size (mem_dirty_tbl st) ->
  hd_need st a len <= Z.of_nat (heap_left st) ->
  exists st', copy_hd_mem_loop fuel st a ra len (hd_progress a) = Ret st' /\
    hd_updates st st' (fun _ => True) (hd_need st a len)
      (fun x => if within a len x then tbl_get (mem_dirty_tbl st) (ra + (x - a))
                else hd_taint st x).
Proof.
  revert st a ra len. induction fuel as [|fuel IH]; intros st a ra len Hwf Ha Hra Hf Hl Hr Hn.
  all: cbn [copy_hd_mem_loop]; destruct (Z.eqb_spec len 0).
  1, 3: exists st; split; [done|]; apply hd_updates_refl; [done|auto using hd_need_nonneg with lia|];
    intros x; split_tests; [lia|done].
  1: lia.
  destruct (HD_addr_lt a ltac:(lia)).
  pose proof (hd_need_first st a len ltac:(lia) ltac:(lia)).
  destruct (hd_chunk_range a len) as [Hp Hm]; [lia..|].
  set (p := if hd_progress a <? len then hd_progress a else len) in *.
  rewrite HD_L1_INDEX_div, HD_L2_INDEX_mod by lia.
  destruct (copy_hd_mem_step st a ra p) as (pg & st1 & pg' & -> & E & U & Hpg & Em & Hh);
    [done|lia..|].
  simpl. rewrite E. simpl. set (st2 := with_hd _ _) in *.
  pose proof (hd_need_split st st2 pg' a p len ltac:(lia) ltac:(lia) ltac:(lia) Hpg).
  destruct (IH st2 (a + p) (ra + p) (len - p)) as (st' & -> & U'); try lia.
  - apply U.
  - rewrite Em. lia.
  - exists st'. split; [done|]. eapply hd_updates_trans; [exact U|exact U'|lia|].
    intros x. cbn beta. rewrite (upd_taint _ _ _ _ _ U), Em. split_tests; try lia; f_equal; lia.
Qed.

(** One iteration of [copy_contamination_mem_hd] on [p] bytes. *)
Lemma copy_mem_hd_step st wa a p :
  dift_wf st -> 0 <= wa -> 0 <= p -> a mod 4096 + p <= 4096 ->
  wa + p <= tbl_size (mem_dirty_tbl st) ->
  exists t, match hd_l1_dirty_tbl st !! (a / 4096) with
            | None => tbl_zero (Z.to_nat p) (mem_dirty_tbl st) wa
            | Some pg => tbl_copy (Z.to_nat p) pg (a mod 4096) (mem_dirty_tbl st) wa
            end = Ret t /\
    tbl_agrees (mem_dirty_tbl st) t
      (fun x => if within wa p x then hd_taint st (a + (x - wa)) else tbl_get (mem_dirty_tbl st) x).
Proof.
  intros Hwf Hwa Hp Hm Hs. pose proof (mod_page_range a).
  assert (Hpage : forall x, within wa p x = true ->
    (a + (x - wa)) / 4096 = a / 4096 /\ (a + (x - wa)) mod 4096 = a mod 4096 + (x - wa)).
  { intros x Hx. apply within_true in Hx.
    assert (a + (x - wa) = 4096 * (a / 4096) + (a mod 4096 + (x - wa))) as E.
    { pose proof (Z.div_mod a 4096 ltac:(lia)). lia. }
    split; symmetry; [eapply Z.div_unique|eapply Z.mod_unique]; try exact E; lia. }
  destruct (hd_l1_dirty_tbl st !! (a / 4096)) as [pg|] eqn:Hpg.
  - pose proof (wf_hd _ Hwf _ _ Hpg). pose proof hd_page_size.
    destruct (tbl_copy_ok (Z.to_nat p) pg (a mod 4096) (mem_dirty_tbl st) wa) as (t & -> & Hs' & Hg);
      [lia..|].
    exists t. split; [done|]. split; [done|]. intros x. rewrite Hg, Z2Nat.id by lia.
    destruct (within wa p x) eqn:E; [|done]. destruct (Hpage x E) as [E1 E2].
    unfold hd_taint. by rewrite E1, Hpg, E2.
  - destruct (tbl_zero_ok (Z.to_nat p) (mem_dirty_tbl st) wa) as (t & -> & Hs' & Hg); [lia..|].
    exists t. split; [done|]. split; [done|]. intros x. rewrite Hg, Z2Nat.id by lia.
    destruct (within wa p x) eqn:E; [|done]. destruct (Hpage x E) as [E1 E2].
    unfold hd_taint. by rewrite E1, Hpg.
Qed.

Lemma copy_mem_hd_loop_ok fuel st wa a len :
  dift_wf st -> 0 <= wa -> 0 <= a -> 0 <= len <= Z.of_nat fuel ->
  a + len <= HD_MAX_SIZE -> wa + len <= tbl_size (mem_dirty_tbl st) ->
  exists t, copy_mem_hd_loop fuel st wa a len (hd_progress a) = Ret (with_mem st t) /\
    tbl_agrees (mem_dirty_tbl st) t
      (fun x => if within wa len x then hd_taint st (a + (x - wa)) else tbl_get (mem_dirty_tbl st) x).
Proof.
  revert st wa a len. induction fuel as [|fuel IH]; intros st wa a len Hwf Hwa Ha Hf Hl Hr.
  all: cbn [copy_mem_hd_loop]; destruct (Z.eqb_spec len 0).
  1, 3: exists (mem_dirty_tbl st); split; [by destruct st|]; split; [done|];
    intros x; split_tests; [lia|done].
  1: lia.
  destruct (HD_addr_lt a ltac:(lia)).
  destruct (hd_chunk_range a len) as [Hp Hm]; [lia..|].
  set (p := if hd_progress a <? len then hd_progress a else len) in *.
  rewrite HD_L1_INDEX_div, HD_L2_INDEX_mod, hd_l1_read_ok by lia. simpl.
  destruct (copy_mem_hd_step st wa a p) as (t & -> & Hs & Hg); [done|lia..|]. simpl.
  destruct (IH (with_mem st t) (wa + p) (a + p) (len - p)) as (t' & -> & Hs' & Hg'); simpl; try lia.
  - by apply dift_wf_with_mem.
  - exists t'. split; [done|]. split; [simpl in Hs'; lia|]. intros x. rewrite Hg'. simpl.
    rewrite Hg. change (hd_taint (with_mem st t)) with (hd_taint st).
    split_tests; try lia; f_equal; lia.
Qed.

(** ** Lemmas: the operations on every branch *)

Definition mem_in_range (st : dift_state) (addr len : Z) : bool :=
  (addr <=? phys_ram_size st) && (addr + len <=? phys_ram_size st).

Definition disk_in_range (hdaddr len : Z) : bool :=
  (hdaddr <=? HD_MAX_SIZE) && (hdaddr + len <=? HD_MAX_SIZE).

(** Pages to allocate for a request, none when it is rejected. *)
Definition hd_need_in (st : dift_state) (a n : Z) : Z :=
  if disk_in_range a n then hd_need st a n else 0.

(** The status of a contaminate call, from the range test and the tag. *)
Definition api_status (in_range : bool) (tag : Z) : DIFT_STATUS :=
  if negb in_range then DIFT_ERR_OUTOFRANGE
  else if 128 <=? tag then DIFT_ERR_INVALIDTAG
  else DIFT_SUCCESS.

Definition api_ok (in_range : bool) (tag : Z) : bool := in_range && (tag <? 128).

Lemma hd_need_in_nonneg st a n : 0 <= a -> 0 <= hd_need_in st a n.
Proof. intros. unfold hd_need_in. case_if; auto using hd_need_nonneg with lia. Qed.

Lemma mem_in_range_valid st addr len :
  dift_wf st -> addr <> clean_source st -> addr <> null_sink st ->
  is_valid_mem_range st addr len = mem_in_range st addr len.
Proof.
  intros Hwf. rewrite (wf_clean _ Hwf), (wf_null _ Hwf). intros. apply eq_true_iff_eq.
  unfold mem_in_range. rewrite is_valid_mem_range_spec, andb_true_iff, !Z.leb_le by done. lia.
Qed.

(** The range check lets every length through at the two cells after the RAM. *)
Definition mem_accepts (st : dift_state) (addr len : Z) : bool :=
  mem_in_range st addr len || (addr =? phys_ram_size st) || (addr =? phys_ram_size st + 1).

Lemma mem_accepts_valid st addr len : dift_wf st -> is_valid_mem_range st addr len = mem_accepts st addr len.
Proof.
  intros Hwf. apply eq_true_iff_eq. unfold mem_accepts, mem_in_range.
  rewrite is_valid_mem_range_spec, !orb_true_iff, andb_true_iff, !Z.leb_le, !Z.eqb_eq by done. lia.
Qed.

Lemma mem_accepts_plain st addr len : dift_wf st -> addr <> clean_source st -> addr <> null_sink st ->
  mem_accepts st addr len = mem_in_range st addr len.
Proof. intros. by rewrite <- mem_accepts_valid, mem_in_range_valid. Qed.

Lemma mem_accepts_table st addr len : dift_wf st -> addr <> clean_source st -> addr <> null_sink st ->
  mem_accepts st addr len = true -> addr + len <= tbl_size (mem_dirty_tbl st).
Proof.
  intros Hwf Hc Hn. rewrite mem_accepts_plain by done. unfold mem_in_range. intros E. bool_to_prop.
  pose proof (wf_mem _ Hwf). lia.
Qed.

Lemma disk_in_range_valid hdaddr len :
  is_valid_disk_range hdaddr len = disk_in_range hdaddr len.
Proof.
  apply eq_true_iff_eq. unfold disk_in_range.
  by rewrite is_valid_disk_range_spec, andb_true_iff, !Z.leb_le.
Qed.

(** Every operation on the memory table has this shape. *)
Record mem_updates (st st' : dift_state) (f : Z -> Z) : Prop := {
  mupd_only : only_mem st st';
  mupd_wf : dift_wf st';
  mupd_taint : forall x, tbl_get (mem_dirty_tbl st') x = f x
}.

Lemma mem_updates_with_mem st t f :
  dift_wf st -> tbl_agrees (mem_dirty_tbl st) t f -> mem_updates st (with_mem st t) f.
Proof. intros Hwf [Hs Hg]. split; [done|by apply dift_wf_with_mem|done]. Qed.

Lemma mem_updates_refl st f :
  dift_wf st -> (forall x, f x = tbl_get (mem_dirty_tbl st) x) -> mem_updates st st f.
Proof. intros Hwf Hf. split; [by destruct st|done|done]. Qed.

Lemma mem_updates_tags st st' f m :
  mem_updates st st' f -> tags_in m st -> (forall x, covers m (f x)) -> tags_in m st'.
Proof.
  intros U Hm Hf. rewrite (mupd_only _ _ _ U). apply tags_in_with_mem; [done|].
  intros. rewrite (mupd_taint _ _ _ U). apply Hf.
Qed.

Lemma set_mem_dirty_any st addr len tag app :
  dift_wf st -> 0 <= addr -> 0 <= len -> 0 <= tag < 256 ->
  (mem_accepts st addr len = true -> addr + len <= tbl_size (mem_dirty_tbl st)) ->
  exists st', set_mem_dirty st addr len tag app = Ret (api_status (mem_accepts st addr len) tag, st') /\
    mem_updates st st' (fun x =>
      if api_ok (mem_accepts st addr len) tag && within addr len x
      then if app then tbl_get (mem_dirty_tbl st) x .| tag else tag
      else tbl_get (mem_dirty_tbl st) x).
Proof.
  intros Hwf Ha Hl Ht Hs. unfold api_ok, api_status.
  destruct (mem_accepts st addr len) eqn:E; simpl; rewrite <- mem_accepts_valid in E by done.
  - specialize (Hs eq_refl). destruct (Z.leb_spec 128 tag), (Z.ltb_spec tag 128); try lia; simpl.
    + exists st. split; [|by apply mem_updates_refl].
      unfold set_mem_dirty. rewrite E, is_valid_tag_spec by lia.
      by destruct (Z.ltb_spec tag 128); [lia|].
    + destruct (set_mem_dirty_ok st addr len tag app) as (t & -> & Hg); [done|lia..|done|lia|].
      exists (with_mem st t). split; [done|]. by apply mem_updates_with_mem.
  - exists st. split; [|by apply mem_updates_refl]. unfold set_mem_dirty. by rewrite E.
Qed.

Lemma set_mem_dirty_branches st addr len tag app :
  dift_wf st -> 0 <= addr -> 0 <= len -> 0 <= tag < 256 ->
  addr <> clean_source st -> addr <> null_sink st ->
  exists st', set_mem_dirty st addr len tag app = Ret (api_status (mem_in_range st addr len) tag, st') /\
    mem_updates st st' (fun x =>
      if api_ok (mem_in_range st addr len) tag && within addr len x
      then if app then tbl_get (mem_dirty_tbl st) x .| tag else tag
      else tbl_get (mem_dirty_tbl st) x).
Proof.
  intros. rewrite <- mem_accepts_plain by done. apply set_mem_dirty_any; auto using mem_accepts_table.
Qed.

Lemma and_mem_dirty_any st addr len tag :
  dift_wf st -> 0 <= addr -> 0 <= len -> 0 <= tag < 256 ->
  (mem_accepts st addr len = true -> addr + len <= tbl_size (mem_dirty_tbl st)) ->
  exists st', and_mem_dirty st addr len tag = Ret (api_status (mem_accepts st addr len) tag, st') /\
    mem_updates st st' (fun x =>
      if api_ok (mem_accepts st addr len) tag && within addr len x
      then tbl_get (mem_dirty_tbl st) x .& tag
      else tbl_get (mem_dirty_tbl st) x).
Proof.
  intros Hwf Ha Hl Ht Hs. unfold api_ok, api_status.
  destruct (mem_accepts st addr len) eqn:E; simpl; rewrite <- mem_accepts_valid in E by done.
  - specialize (Hs eq_refl). destruct (Z.leb_spec 128 tag), (Z.ltb_spec tag 128); try lia; simpl.
    + exists st. split; [|by apply mem_updates_refl].
      unfold and_mem_dirty. rewrite E, is_valid_tag_spec by lia.
      by destruct (Z.ltb_spec tag 128); [lia|].
    + destruct (and_mem_dirty_ok st addr len tag) as (t & -> & Hg); [done|lia..|done|lia|].
      exists (with_mem st t). split; [done|]. by apply mem_updates_with_mem.
  - exists st. split; [|by apply mem_updates_refl]. unfold and_mem_dirty. by rewrite E.
Qed.

Lemma and_mem_dirty_branches st addr len tag :
  dift_wf st -> 0 <= addr -> 0 <= len -> 0 <= tag < 256 ->
  addr <> clean_source st -> addr <> null_sink st ->
  exists st', and_mem_dirty st addr len tag = Ret (api_status (mem_in_range st addr len) tag, st') /\
    mem_updates st st' (fun x =>
      if api_ok (mem_in_range st addr len) tag && within addr len x
      then tbl_get (mem_dirty_tbl st) x .& tag
      else tbl_get (mem_dirty_tbl st) x).
Proof.
  intros. rewrite <- mem_accepts_plain by done. apply and_mem_dirty_any; auto using mem_accepts_table.
Qed.

Lemma get_mem_dirty_updates st st' f x :
  dift_wf st -> mem_updates st st' f -> 0 <= x ->
  get_mem_dirty st' x = Ret (if x <? phys_ram_size st + 2 then f x else 0).
Proof.
  intros Hwf U Hx. rewrite get_mem_dirty_ok by (done || apply U).
  rewrite (mupd_taint _ _ _ U). by rewrite (mupd_only _ _ _ U).
Qed.

Lemma set_hd_dirty_or_branches st a len tag :
  dift_wf st -> 0 <= a -> 0 <= len -> 0 <= tag < 256 ->
  (disk_in_range a len = true -> hd_need st a len <= Z.of_nat (heap_left st)) ->
  exists st', set_hd_dirty_or st a len tag = Ret (api_status (disk_in_range a len) tag, st') /\
    hd_updates st st' (fun m => covers m tag) (hd_need_in st a len) (fun x =>
      if api_ok (disk_in_range a len) tag && within a len x
      then hd_taint st x .| tag else hd_taint st x).
Proof.
  intros Hwf Ha Hl Ht Hn. unfold set_hd_dirty_or, api_ok, api_status.
  pose proof (hd_need_in_nonneg st a len Ha).
  rewrite disk_in_range_valid, is_valid_tag_spec by done.
  destruct (disk_in_range a len) eqn:E; simpl; [|exists st; split; [done|]; by apply hd_updates_refl; [|auto using hd_need_in_nonneg with lia|]].
  pose proof E as E'. unfold disk_in_range in E. bool_to_prop.
  destruct (Z.leb_spec 128 tag), (Z.ltb_spec tag 128); try lia; simpl; [exists st; split; [done|]; by apply hd_updates_refl; [|auto using hd_need_in_nonneg with lia|]|].
  destruct (Z.eqb_spec tag 0) as [->|].
  - exists st. split; [done|]. apply hd_updates_refl; [done|auto using hd_need_in_nonneg with lia|].
    intros x. rewrite Z.lor_0_r. by destruct (within a len x).
  - destruct (hd_or_loop_ok (Z.to_nat len) st a tag) as (st' & -> & U); try lia; [done|..].
    { rewrite Z2Nat.id by lia. by apply Hn. }
    exists st'. split; [done|]. unfold hd_need_in. rewrite E'. by rewrite Z2Nat.id in U by lia.
Qed.

Lemma set_hd_dirty_and_branches st a len tag :
  dift_wf st -> 0 <= a -> 0 <= len -> 0 <= tag < 256 ->
  exists st', set_hd_dirty_and st a len tag = Ret (api_status (disk_in_range a len) tag, st') /\
    hd_updates st st' (fun _ => True) 0 (fun x =>
      if api_ok (disk_in_range a len) tag && negb (tag =? 0) && within a len x
      then hd_taint st x .& tag else hd_taint st x).
Proof.
  intros Hwf Ha Hl Ht. unfold set_hd_dirty_and, api_ok, api_status.
  rewrite disk_in_range_valid, is_valid_tag_spec by done.
  destruct (disk_in_range a len) eqn:E; simpl; [|exists st; split; [done|]; by apply hd_updates_refl; [|auto using hd_need_nonneg with lia|]].
  unfold disk_in_range in E. bool_to_prop.
  destruct (Z.leb_spec 128 tag), (Z.ltb_spec tag 128); try lia; simpl; [exists st; split; [done|]; by apply hd_updates_refl; [|auto using hd_need_nonneg with lia|]|].
  destruct (Z.eqb_spec tag 0) as [->|]; simpl; [exists st; split; [done|]; by apply hd_updates_refl; [|auto using hd_need_nonneg with lia|]|].
  destruct (hd_and_loop_ok (Z.to_nat len) st a tag) as (st' & -> & U); try lia; [done|].
  exists st'. split; [done|]. by rewrite Z2Nat.id in U by lia.
Qed.

Lemma get_hd_dirty_updates st st' src need f x :
  hd_updates st st' src need f -> 0 <= x ->
  get_hd_dirty st' x = Ret (if x <? HD_MAX_SIZE then f x else 0).
Proof.
  intros U Hx. rewrite get_hd_dirty_ok by (done || apply U). by rewrite (upd_taint _ _ _ _ _ U).
Qed.

Definition copy_ok (st : dift_state) (ma hdaddr len : Z) : bool :=
  mem_in_range st ma len && disk_in_range hdaddr len.

Lemma copy_hd_mem_any st a ra len :
  dift_wf st -> 0 <= a -> 0 <= ra -> 0 <= len ->
  (mem_accepts st ra len = true -> disk_in_range a len = true -> ra + len <= tbl_size (mem_dirty_tbl st)) ->
  (disk_in_range a len = true -> hd_need st a len <= Z.of_nat (heap_left st)) ->
  exists st', copy_contamination_hd_mem st a ra len = Ret st' /\
    hd_updates st st' (fun _ => True) (hd_need_in st a len) (fun x =>
      if mem_accepts st ra len && disk_in_range a len && within a len x
      then tbl_get (mem_dirty_tbl st) (ra + (x - a)) else hd_taint st x).
Proof.
  intros Hwf Ha Hra Hl Hs Hh. unfold copy_contamination_hd_mem.
  rewrite mem_accepts_valid, disk_in_range_valid by done.
  pose proof (hd_need_in_nonneg st a len Ha).
  destruct (mem_accepts st ra len) eqn:E1, (disk_in_range a len) eqn:E2; simpl;
    try (by exists st; split; [done|]; apply hd_updates_refl; [|auto using hd_need_in_nonneg with lia|]).
  unfold hd_need_in. rewrite E2. specialize (Hh eq_refl). specialize (Hs eq_refl eq_refl).
  unfold disk_in_range in *. bool_to_prop.
  destruct (copy_hd_mem_loop_ok (Z.to_nat len) st a ra len) as (st' & -> & U); [done|lia..|].
  by exists st'.
Qed.

Lemma copy_hd_mem_branches st a ra len :
  dift_wf st -> 0 <= a -> 0 <= ra -> 0 <= len ->
  ra <> clean_source st -> ra <> null_sink st ->
  (disk_in_range a len = true -> hd_need st a len <= Z.of_nat (heap_left st)) ->
  exists st', copy_contamination_hd_mem st a ra len = Ret st' /\
    hd_updates st st' (fun _ => True) (hd_need_in st a len) (fun x =>
      if copy_ok st ra a len && within a len x
      then tbl_get (mem_dirty_tbl st) (ra + (x - a)) else hd_taint st x).
Proof.
  intros. unfold copy_ok. rewrite <- mem_accepts_plain by done. apply copy_hd_mem_any; auto using mem_accepts_table.
Qed.

(** A copy that returns has read nothing behind the table. *)
Lemma tbl_copy_bound n : forall src sa dst da d, tbl_copy n src sa dst da = Ret d -> (0 < n)%nat -> sa + Z.of_nat n <= tbl_size src.
Proof.
  induction n as [|n IH]; intros src sa dst da d E Hn; [lia|]. simpl in E.
  apply res_bind_inv in E as (b & Eb & E). apply res_bind_inv in E as (d' & _ & E).
  unfold tbl_read, tbl_ok in Eb. destruct (_ && _) eqn:C; [|done]. bool_to_prop.
  destruct n as [|n]; [lia|]. apply IH in E; lia.
Qed.

Lemma hd_l1_ensure_mem st i pg st1 : hd_l1_ensure st i = Ret (pg, st1) -> mem_dirty_tbl st1 = mem_dirty_tbl st.
Proof.
  unfold hd_l1_ensure. intros E. apply res_bind_inv in E as ([q|] & _ & E); [by injection E as _ <-|].
  apply res_bind_inv in E as ([pg' st'] & Ea & E). injection E as _ <-. simpl.
  unfold alloc_hd_dirty_page in Ea. destruct (heap_left st); [done|]. by injection Ea as _ <-.
Qed.

Lemma copy_hd_mem_loop_bound fuel : forall st a ra len progress st', 0 < len ->
  copy_hd_mem_loop fuel st a ra len progress = Ret st' -> ra + len <= tbl_size (mem_dirty_tbl st).
Proof.
  induction fuel as [|fuel IH]; intros st a ra len progress st' Hl E; cbn [copy_hd_mem_loop] in E;
    (destruct (Z.eqb_spec len 0); [lia|]); [done|].
  set (p := if progress <? len then progress else len) in *.
  apply res_bind_inv in E as ([pg st1] & E1 & E). apply hd_l1_ensure_mem in E1.
  apply res_bind_inv in E as (pg' & Ec & E). rewrite <- E1. destruct (Z.eq_dec (len - p) 0) as [E0|E0].
  - apply tbl_copy_bound in Ec; lia.
  - apply IH in E; [simpl in E; lia|]. unfold p in *. destruct (Z.ltb_spec progress len); lia.
Qed.

Lemma copy_mem_hd_any st wa a len :
  dift_wf st -> 0 <= wa -> 0 <= a -> 0 <= len ->
  (mem_accepts st wa len = true -> disk_in_range a len = true -> wa + len <= tbl_size (mem_dirty_tbl st)) ->
  exists st', copy_contamination_mem_hd st wa a len = Ret st' /\
    mem_updates st st' (fun x =>
      if mem_accepts st wa len && disk_in_range a len && within wa len x
      then hd_taint st (a + (x - wa)) else tbl_get (mem_dirty_tbl st) x).
Proof.
  intros Hwf Hwa Ha Hl Hs. unfold copy_contamination_mem_hd.
  rewrite mem_accepts_valid, disk_in_range_valid by done.
  destruct (mem_accepts st wa len) eqn:E1, (disk_in_range a len) eqn:E2; simpl;
    try by exists st; split; [done|]; apply mem_updates_refl.
  specialize (Hs eq_refl eq_refl). unfold disk_in_range in *. bool_to_prop.
  destruct (copy_mem_hd_loop_ok (Z.to_nat len) st wa a len) as (t & -> & Ht); [done|lia..|].
  exists (with_mem st t). split; [done|]. by apply mem_updates_with_mem.
Qed.

Lemma copy_mem_hd_branches st wa a len :
  dift_wf st -> 0 <= wa -> 0 <= a -> 0 <= len ->
  wa <> clean_source st -> wa <> null_sink st ->
  exists st', copy_contamination_mem_hd st wa a len = Ret st' /\
    mem_updates st st' (fun x =>
      if copy_ok st wa a len && within wa len x
      then hd_taint st (a + (x - wa)) else tbl_get (mem_dirty_tbl st) x).
Proof.
  intros. unfold copy_ok. rewrite <- mem_accepts_plain by done. apply copy_mem_hd_any; auto using mem_accepts_table.
Qed.

Lemma hd_taint_covers m st x : tags_in m st -> covers m (hd_taint st x).
Proof.
  intros Hm. unfold hd_taint. destruct (_ !! _) eqn:E; [by eapply Hm|apply covers_0].
Qed.

(** ** A state for examples: 64 bytes of guest RAM, nothing tainted *)

Definition demo_state : dift_state :=
  DiftState 64 64 65 (tbl_new 192) (tbl_new 256) (tbl_new 4160) ∅ 8%nat.

Lemma demo_wf : dift_wf demo_state.
Proof. constructor; simpl; try lia; done. Qed.

Lemma demo_tags m : tags_in m demo_state.
Proof. constructor; intros; apply covers_0 || done. Qed.

Lemma init_dift_context_eq ram page n :
  0 <= ram -> 4096 <= page -> ram + page < 2 ^ 64 ->
  init_dift_context ram page (S (S n)) =
    Ret (DiftState ram ram (ram + 1) (tbl_new 192) (tbl_new 256) (tbl_new (ram + page)) ∅ n).
Proof.
  intros. unfold init_dift_context, u64. rewrite Z.add_0_r, !Z.mod_small by lia. done.
Qed.

(** * Properties *)

(** Starting the taint engine: when the two allocations succeed,
    [init_dift_context] sets up tables of the right sizes, with the clean
    source and the null sink right after the guest RAM, and nothing is
    tainted. *)
Theorem init_dift_context_wf ram page heap :
  0 <= ram -> 4096 <= page -> ram + page < 2 ^ 64 -> (2 <= heap)%nat ->
  exists st, init_dift_context ram page heap = Ret st /\
    phys_ram_size st = ram /\ dift_wf st /\ tags_in 0 st.
Proof.
  intros Hr Hp Hs Hh. destruct heap as [|[|n]]; [lia..|].
  rewrite init_dift_context_eq by done. eexists. split; [done|]. split; [done|]. split.
  - constructor; simpl; try lia; done.
  - constructor; intros; apply covers_0 || done.
Qed.

Lemma init_dift_context_wf_witness :
  exists st, init_dift_context 64 4096 2 = Ret st /\
    phys_ram_size st = 64 /\ dift_wf st /\ tags_in 0 st.
Proof. apply (init_dift_context_wf 64 4096 2); lia. Defined.

(** [dift_contaminate_memory_or] on every branch: its status tells an
    out-of-range request from a tag that does not fit in 7 bits, a rejected
    request changes nothing, an accepted one adds the tag to exactly the bytes
    of the range, as [dift_get_memory_dirty] reports them afterwards. *)
Theorem contaminate_memory_or_spec st addr len tag :
  dift_wf st -> 0 <= addr -> 0 <= len -> 0 <= tag < 256 ->
  addr <> clean_source st -> addr <> null_sink st ->
  exists st', dift_contaminate_memory_or st addr len tag =
      Ret (api_status (mem_in_range st addr len) tag, st') /\
    dift_wf st' /\ only_mem st st' /\
    forall x, 0 <= x < phys_ram_size st -> exists old,
      dift_get_memory_dirty st x = Ret old /\
      dift_get_memory_dirty st' x =
        Ret (if api_ok (mem_in_range st addr len) tag && within addr len x then old .| tag else old).
Proof.
  intros Hwf Ha Hl Ht Hc Hn.
  destruct (set_mem_dirty_branches st addr len tag true) as (st' & E & U); [done..|].
  exists st'. split_and!; [done|apply U|apply U|]. intros x Hx.
  exists (tbl_get (mem_dirty_tbl st) x). unfold dift_get_memory_dirty.
  rewrite (get_mem_dirty_updates st st' _ x Hwf U), get_mem_dirty_ok by lia || done.
  by destruct (Z.ltb_spec x (phys_ram_size st + 2)); [|lia].
Qed.

Lemma contaminate_memory_or_spec_witness :
  exists st', dift_contaminate_memory_or demo_state 60 4 5 = Ret (DIFT_SUCCESS, st') /\
    dift_get_memory_dirty st' 63 = Ret 5.
Proof.
  destruct (contaminate_memory_or_spec demo_state 60 4 5) as (st' & E & _ & _ & H);
    [apply demo_wf|lia|lia|lia|simpl; lia|simpl; lia|].
  exists st'. split; [exact E|]. destruct (H 63) as (old & E1 & ->); [simpl; lia|].
  injection E1 as <-. reflexivity.
Defined.

(** [dift_contaminate_memory_and] on every branch: a rejected request
    changes nothing, an accepted one keeps, of each byte of the range, only the
    bits of the tag. *)
Theorem contaminate_memory_and_spec st addr len tag :
  dift_wf st -> 0 <= addr -> 0 <= len -> 0 <= tag < 256 ->
  addr <> clean_source st -> addr <> null_sink st ->
  exists st', dift_contaminate_memory_and st addr len tag =
      Ret (api_status (mem_in_range st addr len) tag, st') /\
    dift_wf st' /\ only_mem st st' /\
    forall x, 0 <= x < phys_ram_size st -> exists old,
      dift_get_memory_dirty st x = Ret old /\
      dift_get_memory_dirty st' x =
        Ret (if api_ok (mem_in_range st addr len) tag && within addr len x then old .& tag else old).
Proof.
  intros Hwf Ha Hl Ht Hc Hn.
  destruct (and_mem_dirty_branches st addr len tag) as (st' & E & U); [done..|].
  exists st'. split_and!; [done|apply U|apply U|]. intros x Hx.
  exists (tbl_get (mem_dirty_tbl st) x). unfold dift_get_memory_dirty.
  rewrite (get_mem_dirty_updates st st' _ x Hwf U), get_mem_dirty_ok by lia || done.
  by destruct (Z.ltb_spec x (phys_ram_size st + 2)); [|lia].
Qed.

Lemma contaminate_memory_and_spec_witness :
  exists st', dift_contaminate_memory_and demo_state 60 5 5 = Ret (DIFT_ERR_OUTOFRANGE, st') /\
    dift_get_memory_dirty st' 60 = Ret 0.
Proof.
  destruct (contaminate_memory_and_spec demo_state 60 5 5) as (st' & E & _ & _ & H);
    [apply demo_wf|lia|lia|lia|simpl; lia|simpl; lia|].
  exists st'. split; [exact E|]. destruct (H 60) as (old & E1 & ->); [simpl; lia|].
  injection E1 as <-. reflexivity.
Defined.

(** [dift_contaminate_disk_or] on every branch, given memory for the pages
    of the range that have no table yet: a rejected request changes nothing, an
    accepted one adds the tag to exactly the bytes of the range, across page
    boundaries, as [dift_get_disk_dirty] reports them afterwards. *)
Theorem contaminate_disk_or_spec st hdaddr len tag :
  dift_wf st -> 0 <= hdaddr -> 0 <= len -> 0 <= tag < 256 ->
  (disk_in_range hdaddr len = true -> hd_need st hdaddr len <= Z.of_nat (heap_left st)) ->
  exists st', dift_contaminate_disk_or st hdaddr len tag =
      Ret (api_status (disk_in_range hdaddr len) tag, st') /\
    dift_wf st' /\ only_hd st st' /\
    forall x, 0 <= x < HD_MAX_SIZE -> exists old,
      dift_get_disk_dirty st x = Ret old /\
      dift_get_disk_dirty st' x =
        Ret (if api_ok (disk_in_range hdaddr len) tag && within hdaddr len x
             then old .| tag else old).
Proof.
  intros Hwf Ha Hl Ht Hn.
  destruct (set_hd_dirty_or_branches st hdaddr len tag) as (st' & E & U); [done..|].
  exists st'. split_and!; [done|apply U|apply U|]. intros x Hx.
  exists (hd_taint st x). unfold dift_get_disk_dirty.
  rewrite (get_hd_dirty_updates st st' _ _ _ x U), get_hd_dirty_ok by lia || done.
  by destruct (Z.ltb_spec x HD_MAX_SIZE); [|lia].
Qed.

Lemma contaminate_disk_or_spec_witness :
  exists st', dift_contaminate_disk_or demo_state 4094 4 9 = Ret (DIFT_SUCCESS, st') /\
    dift_get_disk_dirty st' 4097 = Ret 9.
Proof.
  destruct (contaminate_disk_or_spec demo_state 4094 4 9) as (st' & E & _ & _ & H);
    [apply demo_wf|lia|lia|lia|vm_compute; discriminate|].
  exists st'. split; [exact E|]. destruct (H 4097) as (old & E1 & ->).
  { split; [lia|vm_compute; reflexivity]. }
  injection E1 as <-. reflexivity.
Defined.

(** [dift_contaminate_disk_and] on every branch: a rejected request changes
    nothing; an accepted one keeps, of each byte of the range, only the bits of
    the tag, and allocates nothing - but the tag 0, which the header documents
    no differently, leaves every byte as it was. *)
Theorem contaminate_disk_and_spec st hdaddr len tag :
  dift_wf st -> 0 <= hdaddr -> 0 <= len -> 0 <= tag < 256 ->
  exists st', dift_contaminate_disk_and st hdaddr len tag =
      Ret (api_status (disk_in_range hdaddr len) tag, st') /\
    dift_wf st' /\ only_hd st st' /\
    forall x, 0 <= x < HD_MAX_SIZE -> exists old,
      dift_get_disk_dirty st x = Ret old /\
      dift_get_disk_dirty st' x =
        Ret (if api_ok (disk_in_range hdaddr len) tag && negb (tag =? 0) && within hdaddr len x
             then old .& tag else old).
Proof.
  intros Hwf Ha Hl Ht.
  destruct (set_hd_dirty_and_branches st hdaddr len tag) as (st' & E & U); [done..|].
  exists st'. split_and!; [done|apply U|apply U|]. intros x Hx.
  exists (hd_taint st x). unfold dift_get_disk_dirty.
  rewrite (get_hd_dirty_updates st st' _ _ _ x U), get_hd_dirty_ok by lia || done.
  by destruct (Z.ltb_spec x HD_MAX_SIZE); [|lia].
Qed.

Lemma contaminate_disk_and_spec_witness :
  exists st', dift_contaminate_disk_and demo_state 0 8192 0 = Ret (DIFT_SUCCESS, st') /\
    dift_get_disk_dirty st' 0 = Ret 0.
Proof.
  destruct (contaminate_disk_and_spec demo_state 0 8192 0) as (st' & E & _ & _ & H);
    [apply demo_wf|lia|lia|lia|].
  exists st'. split; [exact E|]. destruct (H 0) as (old & E1 & ->).
  { split; [lia|vm_compute; reflexivity]. }
  injection E1 as <-. reflexivity.
Defined.

(** C31: A disk write copies the taint of the buffer, byte by byte and across
    page boundaries, and a transfer that is rejected, outside the RAM or the disk, changes
    nothing. The check lets every length through when the buffer starts at the clean source or the
    null sink, the two cells after the RAM: as long as the transfer stays within the table it
    copies the tags there as well, and one that does not is never completed.
    The allocator is taken to have the disk pages that are missing. *)
Theorem copy_contamination_hd_mem_spec st hdaddr ra len :
  dift_wf st -> 0 <= hdaddr -> 0 <= ra -> 0 <= len ->
  let special := (ra =? clean_source st) || (ra =? null_sink st) in
  let accepted := (mem_in_range st ra len || special) && disk_in_range hdaddr len in
  (special = true -> disk_in_range hdaddr len = true -> 0 < len -> tbl_size (mem_dirty_tbl st) < ra + len ->
     forall st', copy_contamination_hd_mem st hdaddr ra len <> Ret st') /\
  ((special = true -> disk_in_range hdaddr len = true -> ra + len <= tbl_size (mem_dirty_tbl st)) ->
   (disk_in_range hdaddr len = true -> hd_need st hdaddr len <= Z.of_nat (heap_left st)) ->
   exists st', copy_contamination_hd_mem st hdaddr ra len = Ret st' /\
     dift_wf st' /\ only_hd st st' /\ (forall m, tags_in m st -> tags_in m st') /\
     forall x, hd_taint st' x =
       if accepted && within hdaddr len x
       then tbl_get (mem_dirty_tbl st) (ra + (x - hdaddr)) else hd_taint st x).
Proof.
  intros Hwf Ha Hra Hl special accepted.
  assert (accepted = mem_accepts st ra len && disk_in_range hdaddr len) as ->.
  { unfold accepted, special, mem_accepts. by rewrite (wf_clean _ Hwf), (wf_null _ Hwf), orb_assoc. }
  split.
  - intros Hs Hd Hp Ho st' E. unfold copy_contamination_hd_mem in E.
    rewrite mem_accepts_valid, disk_in_range_valid, Hd in E by done.
    assert (mem_accepts st ra len = true) as Hm.
    { unfold special in Hs. unfold mem_accepts. rewrite (wf_clean _ Hwf), (wf_null _ Hwf) in Hs. by rewrite <- orb_assoc, Hs, orb_true_r. }
    rewrite Hm in E. apply copy_hd_mem_loop_bound in E; lia.
  - intros Hs Hh. destruct (copy_hd_mem_any st hdaddr ra len) as (st' & E & U); [done..| |done|].
    + intros Hm Hd. destruct special eqn:Es; [by apply Hs|]. unfold special in Es. apply orb_false_iff in Es as [E1 E2].
      apply Z.eqb_neq in E1, E2. by apply mem_accepts_table.
    + exists st'. split_and!; [done|apply U|apply U| |apply U].
      intros m Hm. by apply (upd_tags _ _ _ _ _ U).
Qed.

(** Memory with a tag at its start. *)
Definition demo_dirty : dift_state := with_mem demo_state (tbl_set (tbl_set (mem_dirty_tbl demo_state) 0 5) 7 3).

Lemma demo_dirty_wf : dift_wf demo_dirty.
Proof. constructor; simpl; try lia; done. Qed.

(** The copy crosses a page of the disk and takes the tags along; one from the
    null sink that is longer than the table is not completed. *)
Lemma copy_contamination_hd_mem_spec_witness :
  (exists st', copy_contamination_hd_mem demo_dirty 4090 0 64 = Ret st' /\ dift_wf st' /\
     hd_taint st' 4090 = 5 /\ hd_taint st' 4097 = 3 /\ hd_taint st' 4098 = 0) /\
  (forall st', copy_contamination_hd_mem demo_dirty 4090 65 5000 <> Ret st').
Proof.
  split.
  - destruct (copy_contamination_hd_mem_spec demo_dirty 4090 0 64) as (_ & H); [apply demo_dirty_wf|lia|lia|lia|].
    destruct H as (st' & E & W & _ & _ & H); [discriminate|vm_compute; discriminate|].
    exists st'. split; [exact E|]. split; [exact W|]. rewrite !H. vm_compute. auto.
  - apply (copy_contamination_hd_mem_spec demo_dirty 4090 65 5000); [apply demo_dirty_wf|lia|lia|lia|reflexivity|reflexivity|lia|reflexivity].
Defined.

(** A disk read replaces the taint of the buffer by that of the disk
    bytes, 0 where the disk was never tainted, and a rejected transfer changes
    nothing; the loop always ends and allocates nothing. *)
Theorem copy_contamination_mem_hd_spec st wa hdaddr len :
  dift_wf st -> 0 <= wa -> 0 <= hdaddr -> 0 <= len ->
  wa <> clean_source st -> wa <> null_sink st ->
  exists st', copy_contamination_mem_hd st wa hdaddr len = Ret st' /\
    dift_wf st' /\ only_mem st st' /\ (forall m, tags_in m st -> tags_in m st') /\
    forall x, tbl_get (mem_dirty_tbl st') x =
      if copy_ok st wa hdaddr len && within wa len x
      then hd_taint st (hdaddr + (x - wa)) else tbl_get (mem_dirty_tbl st) x.
Proof.
  intros. destruct (copy_mem_hd_branches st wa hdaddr len) as (st' & E & U); [done..|].
  exists st'. split_and!; [done|apply U|apply U| |apply U].
  intros m Hm. eapply mem_updates_tags; [done|done|]. intros x. simpl.
  case_if; [by apply hd_taint_covers|apply Hm].
Qed.

Lemma copy_contamination_mem_hd_spec_witness :
  exists st', copy_contamination_mem_hd demo_state 3 4090 61 = Ret st' /\ dift_wf st'.
Proof.
  destruct (copy_contamination_mem_hd_spec demo_state 3 4090 61) as (st' & E & W & _);
    [apply demo_wf|lia|lia|lia|simpl; lia|simpl; lia|].
  exists st'. split; [exact E|exact W].
Defined.

(** C32: Taint survives a round trip through the disk: a buffer written to disk
    and read back into another buffer gives that buffer the tags the first one
    had. *)
Theorem disk_round_trip st hdaddr ra wa len :
  dift_wf st -> 0 <= hdaddr -> 0 <= ra -> 0 <= wa -> 0 < len ->
  ra + len <= phys_ram_size st -> wa + len <= phys_ram_size st -> hdaddr + len <= HD_MAX_SIZE ->
  hd_need st hdaddr len <= Z.of_nat (heap_left st) ->
  exists st1 st2, copy_contamination_hd_mem st hdaddr ra len = Ret st1 /\
    copy_contamination_mem_hd st1 wa hdaddr len = Ret st2 /\
    forall k, 0 <= k < len ->
      tbl_get (mem_dirty_tbl st2) (wa + k) = tbl_get (mem_dirty_tbl st) (ra + k).
Proof.
  intros Hwf Ha Hr Hw Hl Hr' Hw' Hd Hn.
  destruct (copy_hd_mem_branches st hdaddr ra len) as (st1 & E1 & U1);
    [done|lia..|rewrite (wf_clean _ Hwf); lia|rewrite (wf_null _ Hwf); lia|done|].
  assert (phys_ram_size st1 = phys_ram_size st) as Er by by rewrite (keeps_only _ _ (upd_keeps _ _ _ _ _ U1)).
  pose proof (keeps_wf _ _ (upd_keeps _ _ _ _ _ U1)) as Hwf1.
  destruct (copy_mem_hd_branches st1 wa hdaddr len) as (st2 & E2 & U2);
    [done|lia..|rewrite (wf_clean _ Hwf1); lia|rewrite (wf_null _ Hwf1); lia|].
  exists st1, st2. split_and!; [done..|]. intros k Hk.
  rewrite (mupd_taint _ _ _ U2), (upd_taint _ _ _ _ _ U1).
  assert (forall s m, phys_ram_size s = phys_ram_size st -> m + len <= phys_ram_size st ->
    copy_ok s m hdaddr len = true) as Hok.
  { intros s m Es Hm. unfold copy_ok, mem_in_range, disk_in_range. rewrite Es.
    rewrite !andb_true_iff, !Z.leb_le. lia. }
  rewrite !Hok by done. simpl. split_tests; try lia. f_equal. lia.
Qed.

Lemma disk_round_trip_witness :
  exists st1 st2, copy_contamination_hd_mem demo_dirty 4090 0 20 = Ret st1 /\
    copy_contamination_mem_hd st1 40 4090 20 = Ret st2 /\
    tbl_get (mem_dirty_tbl st2) 40 = 5 /\ tbl_get (mem_dirty_tbl st2) 47 = 3.
Proof.
  destruct (disk_round_trip demo_dirty 4090 0 40 20) as (st1 & st2 & E1 & E2 & H);
    [apply demo_dirty_wf|lia|lia|lia|lia|simpl; lia|simpl; lia|vm_compute; discriminate
    |vm_compute; discriminate|].
  exists st1, st2. split; [exact E1|]. split; [exact E2|]. split; [apply (H 0)|apply (H 7)]; lia.
Defined.

(** The range check lets every length through when the address is the null
    sink, so clearing or tainting more bytes than the table has after it writes
    out of bounds. *)
Theorem null_sink_overrun st len tag is_append :
  dift_wf st -> 0 <= tag < 128 ->
  tbl_size (mem_dirty_tbl st) < null_sink st + len ->
  set_mem_dirty st (null_sink st) len tag is_append = UB.
Proof.
  intros Hwf Ht Hl. pose proof (wf_mem _ Hwf). pose proof (wf_ram _ Hwf).
  pose proof (wf_null _ Hwf). unfold set_mem_dirty.
  assert (is_valid_mem_range st (null_sink st) len = true) as ->.
  { apply is_valid_mem_range_spec; [done|]. auto. }
  rewrite is_valid_tag_spec by lia. destruct (Z.ltb_spec tag 128); [simpl|lia].
  by rewrite set_mem_loop_oob by lia.
Qed.

Lemma null_sink_overrun_witness : set_mem_dirty demo_state 65 5000 0 false = UB.
Proof. apply (null_sink_overrun demo_state 5000 0 false); [apply demo_wf|lia|simpl; lia]. Defined.
