(* ===== verification/DiftPolicy.v ===== *)
(** * DIFT taint propagation policy

    The record format and the case numbers of [ext/dift/dift.h], every handler
    of [ext/dift/dift-policy.h] under its label, and the [dispatch] table of
    [ext/dift/dift-policy-head.h]. The build is the one [dift.h] configures:
    CONFIG_INDIRECT_TAINT is defined and CONFIG_DIFT_DEBUG is not, so the
    logging blocks of the handlers are not part of it. *)

From S2P Require Import Prelude DiftState.

(** ** Case numbers *)

(** The anonymous enum of [dift.h], in its order. *)
Inductive dift_case : Type :=
| INSIDE_REG_ASSIGN | INSIDE_REG_APPEND | REG_REG_OO_ASSIGN_MO8
| REG_REG_OO_ASSIGN_MO16 | REG_REG_OO_ASSIGN_MO32 | REG_REG_OO_ASSIGN_MO64
| REG_REG_OO_APPEND_MO8 | REG_REG_OO_APPEND_MO16 | REG_REG_OO_APPEND_MO32
| REG_REG_OO_APPEND_MO64 | REG_REG_MIX_APPEND_MO8 | REG_REG_MIX_APPEND_MO16
| REG_REG_MIX_APPEND_MO32 | REG_REG_MIX_APPEND_MO64 | REG_MEM_OO_ASSIGN_MO8
| REG_MEM_OO_ASSIGN_MO16 | REG_MEM_OO_ASSIGN_MO32 | REG_MEM_OO_ASSIGN_MO64
| REG_MEM_OO_APPEND_MO8 | REG_MEM_OO_APPEND_MO16 | REG_MEM_OO_APPEND_MO32
| REG_MEM_OO_APPEND_MO64 | REG_MEM_MIX_ASSIGN_MO16 | REG_MEM_MIX_ASSIGN_MO32
| REG_MEM_MIX_ASSIGN_MO64 | REG_MEM_MIX_APPEND_MO8 | REG_MEM_MIX_APPEND_MO16
| REG_MEM_MIX_APPEND_MO32 | REG_MEM_MIX_APPEND_MO64 | MEM_REG_OO_ASSIGN_MO8
| MEM_REG_OO_ASSIGN_MO16 | MEM_REG_OO_ASSIGN_MO32 | MEM_REG_OO_ASSIGN_MO64
| MEM_REG_OO_APPEND_MO8 | MEM_REG_OO_APPEND_MO16 | MEM_REG_OO_APPEND_MO32
| MEM_REG_OO_APPEND_MO64 | MEM_REG_MIX_ASSIGN_MO16 | MEM_REG_MIX_ASSIGN_MO32
| MEM_REG_MIX_ASSIGN_MO64 | MEM_REG_MIX_APPEND_MO8 | MEM_REG_MIX_APPEND_MO16
| MEM_REG_MIX_APPEND_MO32 | MEM_REG_MIX_APPEND_MO64 | MEM_MEM_OO_ASSIGN_MO8
| MEM_MEM_OO_ASSIGN_MO16 | MEM_MEM_OO_ASSIGN_MO32 | MEM_MEM_OO_ASSIGN_MO64
| REG_IM_CLEAR_MO8 | REG_IM_CLEAR_MO16 | REG_IM_CLEAR_MO32
| REG_IM_CLEAR_MO64 | MEM_IM_CLEAR_MO8 | MEM_IM_CLEAR_MO16
| MEM_IM_CLEAR_MO32 | MEM_IM_CLEAR_MO64 | XMM_XMM_OO_ASSIGN_MO32
| XMM_XMM_OO_ASSIGN_MO64 | XMM_XMM_OO_ASSIGN_MO64LH | XMM_XMM_OO_ASSIGN_MO64HL
| XMM_XMM_OO_ASSIGN_MO128 | XMM_REG_OO_ASSIGN_MO32 | XMM_REG_OO_ASSIGN_MO64
| REG_XMM_OO_ASSIGN_MO32 | REG_XMM_OO_ASSIGN_MO64 | XMM_MEM_OO_ASSIGN_MO32
| XMM_MEM_OO_ASSIGN_MO64 | XMM_MEM_OO_ASSIGN_MO64H | XMM_MEM_OO_ASSIGN_MO128
| MEM_XMM_OO_ASSIGN_MO32 | MEM_XMM_OO_ASSIGN_MO64 | MEM_XMM_OO_ASSIGN_MO64H
| MEM_XMM_OO_ASSIGN_MO128 | XMM_XMM_OO_ASSIGN_DUP_MO32L | XMM_XMM_OO_ASSIGN_DUP_MO32H
| XMM_XMM_OO_ASSIGN_DUP_MO64 | XMM_MEM_OO_ASSIGN_DUP_MO32L | XMM_MEM_OO_ASSIGN_DUP_MO32H
| XMM_MEM_OO_ASSIGN_DUP_MO64 | XMM_IM_CLEAR | MEM_HD
| HD_MEM | REC_CONTAMINATE_MEM_OR | REC_CONTAMINATE_MEM_AND
| REC_CONTAMINATE_HD_OR | REC_CONTAMINATE_HD_AND | REC_CLEAR_MEM
| REC_BEFORE_BLOCK_BEGIN | REC_BLOCK_BEGIN | REC_SYNC
| REC_END.

(** All cases, each at the position of its number. *)
Definition all_cases : list dift_case := [
  INSIDE_REG_ASSIGN; INSIDE_REG_APPEND; REG_REG_OO_ASSIGN_MO8;
  REG_REG_OO_ASSIGN_MO16; REG_REG_OO_ASSIGN_MO32; REG_REG_OO_ASSIGN_MO64;
  REG_REG_OO_APPEND_MO8; REG_REG_OO_APPEND_MO16; REG_REG_OO_APPEND_MO32;
  REG_REG_OO_APPEND_MO64; REG_REG_MIX_APPEND_MO8; REG_REG_MIX_APPEND_MO16;
  REG_REG_MIX_APPEND_MO32; REG_REG_MIX_APPEND_MO64; REG_MEM_OO_ASSIGN_MO8;
  REG_MEM_OO_ASSIGN_MO16; REG_MEM_OO_ASSIGN_MO32; REG_MEM_OO_ASSIGN_MO64;
  REG_MEM_OO_APPEND_MO8; REG_MEM_OO_APPEND_MO16; REG_MEM_OO_APPEND_MO32;
  REG_MEM_OO_APPEND_MO64; REG_MEM_MIX_ASSIGN_MO16; REG_MEM_MIX_ASSIGN_MO32;
  REG_MEM_MIX_ASSIGN_MO64; REG_MEM_MIX_APPEND_MO8; REG_MEM_MIX_APPEND_MO16;
  REG_MEM_MIX_APPEND_MO32; REG_MEM_MIX_APPEND_MO64; MEM_REG_OO_ASSIGN_MO8;
  MEM_REG_OO_ASSIGN_MO16; MEM_REG_OO_ASSIGN_MO32; MEM_REG_OO_ASSIGN_MO64;
  MEM_REG_OO_APPEND_MO8; MEM_REG_OO_APPEND_MO16; MEM_REG_OO_APPEND_MO32;
  MEM_REG_OO_APPEND_MO64; MEM_REG_MIX_ASSIGN_MO16; MEM_REG_MIX_ASSIGN_MO32;
  MEM_REG_MIX_ASSIGN_MO64; MEM_REG_MIX_APPEND_MO8; MEM_REG_MIX_APPEND_MO16;
  MEM_REG_MIX_APPEND_MO32; MEM_REG_MIX_APPEND_MO64; MEM_MEM_OO_ASSIGN_MO8;
  MEM_MEM_OO_ASSIGN_MO16; MEM_MEM_OO_ASSIGN_MO32; MEM_MEM_OO_ASSIGN_MO64;
  REG_IM_CLEAR_MO8; REG_IM_CLEAR_MO16; REG_IM_CLEAR_MO32;
  REG_IM_CLEAR_MO64; MEM_IM_CLEAR_MO8; MEM_IM_CLEAR_MO16;
  MEM_IM_CLEAR_MO32; MEM_IM_CLEAR_MO64; XMM_XMM_OO_ASSIGN_MO32;
  XMM_XMM_OO_ASSIGN_MO64; XMM_XMM_OO_ASSIGN_MO64LH; XMM_XMM_OO_ASSIGN_MO64HL;
  XMM_XMM_OO_ASSIGN_MO128; XMM_REG_OO_ASSIGN_MO32; XMM_REG_OO_ASSIGN_MO64;
  REG_XMM_OO_ASSIGN_MO32; REG_XMM_OO_ASSIGN_MO64; XMM_MEM_OO_ASSIGN_MO32;
  XMM_MEM_OO_ASSIGN_MO64; XMM_MEM_OO_ASSIGN_MO64H; XMM_MEM_OO_ASSIGN_MO128;
  MEM_XMM_OO_ASSIGN_MO32; MEM_XMM_OO_ASSIGN_MO64; MEM_XMM_OO_ASSIGN_MO64H;
  MEM_XMM_OO_ASSIGN_MO128; XMM_XMM_OO_ASSIGN_DUP_MO32L; XMM_XMM_OO_ASSIGN_DUP_MO32H;
  XMM_XMM_OO_ASSIGN_DUP_MO64; XMM_MEM_OO_ASSIGN_DUP_MO32L; XMM_MEM_OO_ASSIGN_DUP_MO32H;
  XMM_MEM_OO_ASSIGN_DUP_MO64; XMM_IM_CLEAR; MEM_HD;
  HD_MEM; REC_CONTAMINATE_MEM_OR; REC_CONTAMINATE_MEM_AND;
  REC_CONTAMINATE_HD_OR; REC_CONTAMINATE_HD_AND; REC_CLEAR_MEM;
  REC_BEFORE_BLOCK_BEGIN; REC_BLOCK_BEGIN; REC_SYNC;
  REC_END ].

#[export] Instance dift_case_eq_dec : EqDecision dift_case.
Proof. solve_decision. Defined.

(** The position of a case in the enum. *)
Fixpoint case_index (l : list dift_case) (c : dift_case) : Z :=
  match l with
  | [] => 0
  | d :: l' => if decide (d = c) then 0 else 1 + case_index l' c
  end.

Definition case_number (c : dift_case) : Z := case_index all_cases c.

(** The case that a [case_nb] byte selects. *)
Definition case_of_number (n : Z) : option dift_case :=
  if n <? 0 then None else all_cases !! Z.to_nat n.

Definition R_NONE : Z := 24.

(** ** Records

    A [dift_record] is the 64-bit word it is read from: byte 0 is [case_nb],
    the members of the union [v1] start at byte 1. *)
Definition dift_record : Type := Z.

Definition case_nb (rec : dift_record) : Z := byte_of rec 0.
Definition inside_r_reg (rec : dift_record) : Z := byte_of rec 1.
Definition inside_r_d_byte (rec : dift_record) : Z := byte_of rec 2.
Definition inside_r_s_byte (rec : dift_record) : Z := byte_of rec 3.
Definition r2r_sreg (rec : dift_record) : Z := byte_of rec 1.
Definition r2r_dreg (rec : dift_record) : Z := byte_of rec 2.
Definition r2r_byte_sreg (rec : dift_record) : Z := byte_of rec 1.
Definition r2r_byte_dreg (rec : dift_record) : Z := byte_of rec 2.
Definition r2r_byte_sreg_byte (rec : dift_record) : Z := byte_of rec 3.
Definition r2r_byte_dreg_byte (rec : dift_record) : Z := byte_of rec 4.
Definition r2m_m2r_reg (rec : dift_record) : Z := byte_of rec 1.
Definition r2m_m2r_reg_index (rec : dift_record) : Z := byte_of rec 2.
Definition r2m_m2r_reg_base (rec : dift_record) : Z := byte_of rec 3.
Definition r2m_m2r_byte_reg (rec : dift_record) : Z := byte_of rec 1.
Definition r2m_m2r_byte_hl (rec : dift_record) : Z := byte_of rec 2.
Definition r2m_m2r_byte_reg_index (rec : dift_record) : Z := byte_of rec 3.
Definition r2m_m2r_byte_reg_base (rec : dift_record) : Z := byte_of rec 4.

(** ** The interpreter's state

    [ptr_code] is what is left of the records; [ptr_addr] is what is left of
    the queued addresses, or [None] in [interpret_dift_codes_rest], where
    addresses come from the same array as the records. *)
Record streams : Type := Streams { ptr_code : list Z; ptr_addr : option (list Z) }.

(** A statement of a handler: it may read and change the taint tables and
    take addresses off the stream. *)
Definition M (A : Type) : Type := dift_state -> streams -> res (A * dift_state * streams).

#[export] Instance M_ret : MRet M := fun A a st s => Ret (a, st, s).
#[export] Instance M_bind : MBind M := fun A B f m st s =>
  '(a, st', s') ← m st s; f a st' s'.

Definition DEQ_FROM_CODE : M Z := fun st s =>
  match ptr_code s with
  | x :: l => Ret (x, st, Streams l (ptr_addr s))
  | [] => UB
  end.

Definition DEQ_FROM_ADDR : M Z := fun st s =>
  match ptr_addr s with
  | Some (x :: l) => Ret (x, st, Streams (ptr_code s) (Some l))
  | Some [] => UB
  | None => DEQ_FROM_CODE st s
  end.

(** [( a < phys_ram_size ) ? a : clean_source] and the same with [null_sink]. *)
Definition or_clean_source (a : Z) : M Z := fun st s =>
  Ret (if a <? phys_ram_size st then a else clean_source st, st, s).
Definition or_null_sink (a : Z) : M Z := fun st s =>
  Ret (if a <? phys_ram_size st then a else null_sink st, st, s).

(** Accesses to [dc->reg_dirty_tbl[i][j]], to the n-byte word at
    [&dc->reg_dirty_tbl[i][0]], and the same for the other tables. *)
Definition reg (i j : Z) : M Z := fun st s =>
  if (0 <=? j) && (j <? 8) then v ← tbl_read (reg_dirty_tbl st) (8 * i + j); Ret (v, st, s)
  else UB.
Definition set_reg (i j v : Z) : M unit := fun st s =>
  if (0 <=? j) && (j <? 8)
  then t ← tbl_write (reg_dirty_tbl st) (8 * i + j) v; Ret (tt, with_reg st t, s)
  else UB.
Definition reg_word (n : nat) (i : Z) : M Z := fun st s =>
  v ← tbl_load n (reg_dirty_tbl st) (8 * i); Ret (v, st, s).
Definition set_reg_word (n : nat) (i w : Z) : M unit := fun st s =>
  t ← tbl_store n (reg_dirty_tbl st) (8 * i) w; Ret (tt, with_reg st t, s).
Definition xmm_word (n : nat) (i j : Z) : M Z := fun st s =>
  v ← tbl_load n (xmm_dirty_tbl st) (16 * i + j); Ret (v, st, s).
Definition set_xmm_word (n : nat) (i j w : Z) : M unit := fun st s =>
  t ← tbl_store n (xmm_dirty_tbl st) (16 * i + j) w; Ret (tt, with_xmm st t, s).
Definition mem (a : Z) : M Z := fun st s =>
  v ← tbl_read (mem_dirty_tbl st) a; Ret (v, st, s).
Definition set_mem (a v : Z) : M unit := fun st s =>
  t ← tbl_write (mem_dirty_tbl st) a v; Ret (tt, with_mem st t, s).
Definition mem_word (n : nat) (a : Z) : M Z := fun st s =>
  v ← tbl_load n (mem_dirty_tbl st) a; Ret (v, st, s).
Definition set_mem_word (n : nat) (a w : Z) : M unit := fun st s =>
  t ← tbl_store n (mem_dirty_tbl st) a w; Ret (tt, with_mem st t, s).

(** Calls of the operations of DiftState; the handlers ignore the status. *)
Definition get_mem (a : Z) : M Z := fun st s =>
  v ← get_mem_dirty st a; Ret (v, st, s).
Definition call_set_mem_dirty (a len tag : Z) (is_append : bool) : M unit := fun st s =>
  '(_, st') ← set_mem_dirty st a len tag is_append; Ret (tt, st', s).
Definition call_and_mem_dirty (a len tag : Z) : M unit := fun st s =>
  '(_, st') ← and_mem_dirty st a len tag; Ret (tt, st', s).
Definition call_set_hd_dirty_or (hdaddr len tag : Z) : M unit := fun st s =>
  '(_, st') ← set_hd_dirty_or st hdaddr len tag; Ret (tt, st', s).
Definition call_set_hd_dirty_and (hdaddr len tag : Z) : M unit := fun st s =>
  '(_, st') ← set_hd_dirty_and st hdaddr len tag; Ret (tt, st', s).
Definition call_copy_mem_hd (wa hdaddr len : Z) : M unit := fun st s =>
  st' ← copy_contamination_mem_hd st wa hdaddr len; Ret (tt, st', s).
Definition call_copy_hd_mem (hdaddr ra len : Z) : M unit := fun st s =>
  st' ← copy_contamination_hd_mem st hdaddr ra len; Ret (tt, st', s).

(** ** Handlers: register to register *)

Definition rt_inside_reg_assign (rec : dift_record) : M unit :=
  let i := inside_r_reg rec in
  let j := inside_r_d_byte rec in
  let l := inside_r_s_byte rec in
  v ← reg i l;
  set_reg i j v.

Definition rt_inside_reg_append (rec : dift_record) : M unit :=
  let i := inside_r_reg rec in
  let j := inside_r_d_byte rec in
  let l := inside_r_s_byte rec in
  d ← reg i j;
  v ← reg i l;
  set_reg i j (d .| v).

Definition rt_reg_reg_oo_assign_mo8 (rec : dift_record) : M unit :=
  let i := r2r_byte_dreg rec in
  let k := r2r_byte_dreg_byte rec in
  let j := r2r_byte_sreg rec in
  let l := r2r_byte_sreg_byte rec in
  v ← reg j l;
  set_reg i k v.

Definition rt_reg_reg_oo_assign_mo16 (rec : dift_record) : M unit :=
  let i := r2r_dreg rec in
  let j := r2r_sreg rec in
  v ← reg_word 2 j;
  set_reg_word 2 i v.

Definition rt_reg_reg_oo_assign_mo32 (rec : dift_record) : M unit :=
  let i := r2r_dreg rec in
  let j := r2r_sreg rec in
  v ← reg_word 4 j;
  set_reg_word 4 i v.

Definition rt_reg_reg_oo_assign_mo64 (rec : dift_record) : M unit :=
  let i := r2r_dreg rec in
  let j := r2r_sreg rec in
  v ← reg_word 8 j;
  set_reg_word 8 i v.

Definition rt_reg_reg_oo_append_mo8 (rec : dift_record) : M unit :=
  let i := r2r_byte_dreg rec in
  let k := r2r_byte_dreg_byte rec in
  let j := r2r_byte_sreg rec in
  let l := r2r_byte_sreg_byte rec in
  d ← reg i k;
  v ← reg j l;
  set_reg i k (d .| v).

Definition rt_reg_reg_oo_append_mo16 (rec : dift_record) : M unit :=
  let i := r2r_dreg rec in
  let j := r2r_sreg rec in
  d ← reg_word 2 i;
  v ← reg_word 2 j;
  set_reg_word 2 i (d .| v).

Definition rt_reg_reg_oo_append_mo32 (rec : dift_record) : M unit :=
  let i := r2r_dreg rec in
  let j := r2r_sreg rec in
  d ← reg_word 4 i;
  v ← reg_word 4 j;
  set_reg_word 4 i (d .| v).

Definition rt_reg_reg_oo_append_mo64 (rec : dift_record) : M unit :=
  let i := r2r_dreg rec in
  let j := r2r_sreg rec in
  d ← reg_word 8 i;
  v ← reg_word 8 j;
  set_reg_word 8 i (d .| v).

Definition rt_reg_reg_mix_append_mo16 (rec : dift_record) : M unit :=
  let i := r2r_dreg rec in
  let j := r2r_sreg rec in
  d0 ← reg i 0; d1 ← reg i 1;
  s0 ← reg j 0; s1 ← reg j 1;
  let t := d0 .| d1 .| s0 .| s1 in
  x ← reg i 0; set_reg i 0 (x .| t);;
  x ← reg i 1; set_reg i 1 (x .| t).

Definition rt_reg_reg_mix_append_mo32 (rec : dift_record) : M unit :=
  let i := r2r_dreg rec in
  let j := r2r_sreg rec in
  x ← reg i 0;
  s0 ← reg j 0; s1 ← reg j 1; s2 ← reg j 2; s3 ← reg j 3;
  d1 ← reg i 1; d2 ← reg i 2; d3 ← reg i 3;
  set_reg i 0 (x .| (s0 .| s1 .| s2 .| s3 .| d1 .| d2 .| d3));;
  x ← reg i 0; set_reg i 1 x;;
  x ← reg i 0; set_reg i 2 x;;
  x ← reg i 0; set_reg i 3 x.

Definition rt_reg_reg_mix_append_mo64 (rec : dift_record) : M unit :=
  let i := r2r_dreg rec in
  let j := r2r_sreg rec in
  x ← reg i 0;
  s0 ← reg j 0; s1 ← reg j 1; s2 ← reg j 2; s3 ← reg j 3;
  s4 ← reg j 4; s5 ← reg j 5; s6 ← reg j 6; s7 ← reg j 7;
  d1 ← reg i 1; d2 ← reg i 2; d3 ← reg i 3; d4 ← reg i 4;
  d5 ← reg i 5; d6 ← reg i 6; d7 ← reg i 7;
  set_reg i 0 (x .|
    (s0 .| s1 .| s2 .| s3 .| s4 .| s5 .| s6 .| s7 .| d1 .| d2 .| d3 .| d4 .| d5 .| d6 .| d7));;
  x ← reg i 0; set_reg i 1 x;;
  x ← reg i 0; set_reg i 2 x;;
  x ← reg i 0; set_reg i 3 x;;
  x ← reg i 0; set_reg i 4 x;;
  x ← reg i 0; set_reg i 5 x;;
  x ← reg i 0; set_reg i 6 x;;
  x ← reg i 0; set_reg i 7 x.

(** ** Handlers: memory to register *)

Definition rt_reg_mem_oo_assign_mo8 (rec : dift_record) : M unit :=
  ra ← DEQ_FROM_ADDR;
  ra ← or_clean_source ra;
  let i := r2m_m2r_byte_reg rec in
  let k := r2m_m2r_byte_hl rec in
  let j := r2m_m2r_byte_reg_base rec in
  let l := r2m_m2r_byte_reg_index rec in
  t1 ← (if j =? R_NONE then mret 0 else reg j 0);
  t2 ← (if l =? R_NONE then mret 0 else reg l 0);
  let t := 0 .| t1 .| t2 in
  v ← mem ra;
  set_reg i k (v .| t).

Definition rt_reg_mem_oo_assign_mo16 (rec : dift_record) : M unit :=
  ra ← DEQ_FROM_ADDR;
  ra ← or_clean_source ra;
  let i := r2m_m2r_reg rec in
  let j := r2m_m2r_reg_base rec in
  let l := r2m_m2r_reg_index rec in
  t1 ← (if j =? R_NONE then mret 0 else a ← reg j 0; b ← reg j 1; mret (a .| b));
  t2 ← (if l =? R_NONE then mret 0 else a ← reg l 0; b ← reg l 1; mret (a .| b));
  let t := 0 .| t1 .| t2 in
  v ← get_mem ra; set_reg i 0 (v .| t);;
  v ← get_mem (ra + 1); set_reg i 1 (v .| t).

Definition rt_reg_mem_oo_assign_mo32 (rec : dift_record) : M unit :=
  ra ← DEQ_FROM_ADDR;
  ra ← or_clean_source ra;
  let i := r2m_m2r_reg rec in
  v ← mem_word 4 ra;
  set_reg_word 4 i v.

Definition rt_reg_mem_oo_assign_mo64 (rec : dift_record) : M unit :=
  ra ← DEQ_FROM_ADDR;
  ra ← or_clean_source ra;
  let i := r2m_m2r_reg rec in
  v ← mem_word 8 ra;
  set_reg_word 8 i v.

Definition rt_reg_mem_oo_append_mo8 (rec : dift_record) : M unit :=
  ra ← DEQ_FROM_ADDR;
  ra ← or_clean_source ra;
  let i := r2m_m2r_byte_reg rec in
  let k := r2m_m2r_byte_hl rec in
  t ← get_mem ra;
  x ← reg i k;
  set_reg i k (x .| t).

Definition rt_reg_mem_oo_append_mo16 (rec : dift_record) : M unit :=
  ra ← DEQ_FROM_ADDR;
  ra ← or_clean_source ra;
  let i := r2m_m2r_reg rec in
  d ← reg_word 2 i;
  v ← mem_word 2 ra;
  set_reg_word 2 i (d .| v).

Definition rt_reg_mem_oo_append_mo32 (rec : dift_record) : M unit :=
  ra ← DEQ_FROM_ADDR;
  ra ← or_clean_source ra;
  let i := r2m_m2r_reg rec in
  d ← reg_word 4 i;
  v ← mem_word 4 ra;
  set_reg_word 4 i (d .| v).

Definition rt_reg_mem_oo_append_mo64 (rec : dift_record) : M unit :=
  ra ← DEQ_FROM_ADDR;
  ra ← or_clean_source ra;
  let i := r2m_m2r_reg rec in
  d ← reg_word 8 i;
  v ← mem_word 8 ra;
  set_reg_word 8 i (d .| v).

Definition rt_reg_mem_mix_assign_mo16 (rec : dift_record) : M unit :=
  ra ← DEQ_FROM_ADDR;
  ra ← or_clean_source ra;
  let i := r2m_m2r_reg rec in
  m0 ← get_mem ra; m1 ← get_mem (ra + 1);
  let t := m0 .| m1 in
  set_reg i 0 t;;
  set_reg i 1 t.

Definition rt_reg_mem_mix_assign_mo32 (rec : dift_record) : M unit :=
  ra ← DEQ_FROM_ADDR;
  ra ← or_clean_source ra;
  let i := r2m_m2r_reg rec in
  m0 ← get_mem ra; m1 ← get_mem (ra + 1); m2 ← get_mem (ra + 2); m3 ← get_mem (ra + 3);
  let t := m0 .| m1 .| m2 .| m3 in
  set_reg i 0 t;;
  set_reg i 1 t;;
  set_reg i 2 t;;
  set_reg i 3 t.

Definition rt_reg_mem_mix_assign_mo64 (rec : dift_record) : M unit :=
  ra ← DEQ_FROM_ADDR;
  ra ← or_clean_source ra;
  let i := r2m_m2r_reg rec in
  m0 ← get_mem ra; m1 ← get_mem (ra + 1); m2 ← get_mem (ra + 2); m3 ← get_mem (ra + 3);
  m4 ← get_mem (ra + 4); m5 ← get_mem (ra + 5); m6 ← get_mem (ra + 6); m7 ← get_mem (ra + 7);
  let t := m0 .| m1 .| m2 .| m3 .| m4 .| m5 .| m6 .| m7 in
  set_reg i 0 t;;
  set_reg i 1 t;;
  set_reg i 2 t;;
  set_reg i 3 t;;
  set_reg i 4 t;;
  set_reg i 5 t;;
  set_reg i 6 t;;
  set_reg i 7 t.

Definition rt_reg_mem_mix_append_mo16 (rec : dift_record) : M unit :=
  ra ← DEQ_FROM_ADDR;
  ra ← or_clean_source ra;
  let i := r2m_m2r_reg rec in
  m0 ← get_mem ra; m1 ← get_mem (ra + 1);
  d0 ← reg i 0; d1 ← reg i 1;
  let t := m0 .| m1 .| d0 .| d1 in
  x ← reg i 0; set_reg i 0 (x .| t);;
  x ← reg i 1; set_reg i 1 (x .| t).

Definition rt_reg_mem_mix_append_mo32 (rec : dift_record) : M unit :=
  ra ← DEQ_FROM_ADDR;
  ra ← or_clean_source ra;
  let i := r2m_m2r_reg rec in
  m ← mem_word 4 ra;
  d ← reg_word 4 i;
  let s := m .| d in
  let t := byte_of s 0 .| byte_of s 1 .| byte_of s 2 .| byte_of s 3 in
  x ← reg i 0; set_reg i 0 (x .| t);;
  x ← reg i 1; set_reg i 1 (x .| t);;
  x ← reg i 2; set_reg i 2 (x .| t);;
  x ← reg i 3; set_reg i 3 (x .| t).

Definition rt_reg_mem_mix_append_mo64 (rec : dift_record) : M unit :=
  ra ← DEQ_FROM_ADDR;
  ra ← or_clean_source ra;
  let i := r2m_m2r_reg rec in
  m ← mem_word 8 ra;
  d ← reg_word 8 i;
  let s := m .| d in
  let t := byte_of s 0 .| byte_of s 1 .| byte_of s 2 .| byte_of s 3 .| byte_of s 4 .| byte_of s 5 .| byte_of s 6 .| byte_of s 7 in
  x ← reg i 0; set_reg i 0 (x .| t);;
  x ← reg i 1; set_reg i 1 (x .| t);;
  x ← reg i 2; set_reg i 2 (x .| t);;
  x ← reg i 3; set_reg i 3 (x .| t);;
  x ← reg i 4; set_reg i 4 (x .| t);;
  x ← reg i 5; set_reg i 5 (x .| t);;
  x ← reg i 6; set_reg i 6 (x .| t);;
  x ← reg i 7; set_reg i 7 (x .| t).

(** ** Handlers: register to memory *)

Definition rt_mem_reg_oo_assign_mo8 (rec : dift_record) : M unit :=
  wa ← DEQ_FROM_ADDR;
  wa ← or_null_sink wa;
  let i := r2m_m2r_byte_reg rec in
  let k := r2m_m2r_byte_hl rec in
  v ← reg i k;
  call_set_mem_dirty wa 1 v false.

Definition rt_mem_reg_oo_assign_mo16 (rec : dift_record) : M unit :=
  wa ← DEQ_FROM_ADDR;
  wa ← or_null_sink wa;
  let i := r2m_m2r_reg rec in
  v ← reg_word 2 i;
  set_mem_word 2 wa v.

Definition rt_mem_reg_oo_assign_mo32 (rec : dift_record) : M unit :=
  wa ← DEQ_FROM_ADDR;
  wa ← or_null_sink wa;
  let i := r2m_m2r_reg rec in
  v ← reg_word 4 i;
  set_mem_word 4 wa v.

Definition rt_mem_reg_oo_assign_mo64 (rec : dift_record) : M unit :=
  wa ← DEQ_FROM_ADDR;
  wa ← or_null_sink wa;
  let i := r2m_m2r_reg rec in
  v ← reg_word 8 i;
  set_mem_word 8 wa v.

Definition rt_mem_reg_oo_append_mo8 (rec : dift_record) : M unit :=
  wa ← DEQ_FROM_ADDR;
  wa ← or_null_sink wa;
  let i := r2m_m2r_byte_reg rec in
  let k := r2m_m2r_byte_hl rec in
  v ← reg i k;
  call_set_mem_dirty wa 1 v true.

Definition rt_mem_reg_oo_append_mo16 (rec : dift_record) : M unit :=
  wa ← DEQ_FROM_ADDR;
  wa ← or_null_sink wa;
  let i := r2m_m2r_reg rec in
  d ← mem_word 2 wa;
  v ← reg_word 2 i;
  set_mem_word 2 wa (d .| v).

Definition rt_mem_reg_oo_append_mo32 (rec : dift_record) : M unit :=
  wa ← DEQ_FROM_ADDR;
  wa ← or_null_sink wa;
  let i := r2m_m2r_reg rec in
  d ← mem_word 4 wa;
  v ← reg_word 4 i;
  set_mem_word 4 wa (d .| v).

Definition rt_mem_reg_oo_append_mo64 (rec : dift_record) : M unit :=
  wa ← DEQ_FROM_ADDR;
  wa ← or_null_sink wa;
  let i := r2m_m2r_reg rec in
  d ← mem_word 8 wa;
  v ← reg_word 8 i;
  set_mem_word 8 wa (d .| v).

Definition rt_mem_reg_mix_assign_mo16 (rec : dift_record) : M unit :=
  wa ← DEQ_FROM_ADDR;
  wa ← or_null_sink wa;
  let i := r2m_m2r_reg rec in
  d0 ← reg i 0; d1 ← reg i 1;
  let t := d0 .| d1 in
  call_set_mem_dirty wa 2 t false.

Definition rt_mem_reg_mix_assign_mo32 (rec : dift_record) : M unit :=
  wa ← DEQ_FROM_ADDR;
  wa ← or_null_sink wa;
  let i := r2m_m2r_reg rec in
  d0 ← reg i 0; d1 ← reg i 1; d2 ← reg i 2; d3 ← reg i 3;
  let t := d0 .| d1 .| d2 .| d3 in
  call_set_mem_dirty wa 4 t false.

Definition rt_mem_reg_mix_assign_mo64 (rec : dift_record) : M unit :=
  wa ← DEQ_FROM_ADDR;
  wa ← or_null_sink wa;
  let i := r2m_m2r_reg rec in
  d0 ← reg i 0; d1 ← reg i 1; d2 ← reg i 2; d3 ← reg i 3;
  d4 ← reg i 4; d5 ← reg i 5; d6 ← reg i 6; d7 ← reg i 7;
  let t := d0 .| d1 .| d2 .| d3 .| d4 .| d5 .| d6 .| d7 in
  call_set_mem_dirty wa 8 t false.

Definition rt_mem_reg_mix_append_mo16 (rec : dift_record) : M unit :=
  wa ← DEQ_FROM_ADDR;
  wa ← or_null_sink wa;
  let i := r2m_m2r_reg rec in
  d0 ← reg i 0; d1 ← reg i 1;
  m0 ← get_mem wa; m1 ← get_mem (wa + 1);
  let t :=
    d0 .| d1 .| m0 .| m1 in
  call_set_mem_dirty wa 2 t true.

Definition rt_mem_reg_mix_append_mo32 (rec : dift_record) : M unit :=
  wa ← DEQ_FROM_ADDR;
  wa ← or_null_sink wa;
  let i := r2m_m2r_reg rec in
  d0 ← reg i 0; d1 ← reg i 1; d2 ← reg i 2; d3 ← reg i 3;
  m0 ← get_mem wa; m1 ← get_mem (wa + 1); m2 ← get_mem (wa + 2); m3 ← get_mem (wa + 3);
  let t :=
    d0 .| d1 .| d2 .| d3 .| m0 .| m1 .| m2 .| m3 in
  call_set_mem_dirty wa 4 t true.

Definition rt_mem_reg_mix_append_mo64 (rec : dift_record) : M unit :=
  wa ← DEQ_FROM_ADDR;
  wa ← or_null_sink wa;
  let i := r2m_m2r_reg rec in
  d0 ← reg i 0; d1 ← reg i 1; d2 ← reg i 2; d3 ← reg i 3;
  d4 ← reg i 4; d5 ← reg i 5; d6 ← reg i 6; d7 ← reg i 7;
  m0 ← get_mem wa; m1 ← get_mem (wa + 1); m2 ← get_mem (wa + 2); m3 ← get_mem (wa + 3);
  m4 ← get_mem (wa + 4); m5 ← get_mem (wa + 5); m6 ← get_mem (wa + 6); m7 ← get_mem (wa + 7);
  let t :=
    d0 .| d1 .| d2 .| d3 .| d4 .| d5 .| d6 .| d7 .| m0 .| m1 .| m2 .| m3 .| m4 .| m5 .| m6 .| m7 in
  call_set_mem_dirty wa 8 t true.

(** ** Handlers: memory to memory, and clearing *)

Definition rt_mem_mem_oo_assign_mo8 (rec : dift_record) : M unit :=
  wa ← DEQ_FROM_ADDR;
  wa ← or_null_sink wa;
  ra ← DEQ_FROM_ADDR;
  ra ← or_clean_source ra;
  v ← mem ra;
  set_mem wa v.

Definition rt_mem_mem_oo_assign_mo16 (rec : dift_record) : M unit :=
  wa ← DEQ_FROM_ADDR;
  wa ← or_null_sink wa;
  ra ← DEQ_FROM_ADDR;
  ra ← or_clean_source ra;
  v ← mem_word 2 ra;
  set_mem_word 2 wa v.

Definition rt_mem_mem_oo_assign_mo32 (rec : dift_record) : M unit :=
  wa ← DEQ_FROM_ADDR;
  wa ← or_null_sink wa;
  ra ← DEQ_FROM_ADDR;
  ra ← or_clean_source ra;
  v ← mem_word 4 ra;
  set_mem_word 4 wa v.

Definition rt_mem_mem_oo_assign_mo64 (rec : dift_record) : M unit :=
  wa ← DEQ_FROM_ADDR;
  wa ← or_null_sink wa;
  ra ← DEQ_FROM_ADDR;
  ra ← or_clean_source ra;
  v ← mem_word 8 ra;
  set_mem_word 8 wa v.

Definition rt_reg_im_clear_mo8 (rec : dift_record) : M unit :=
  let i := r2m_m2r_byte_reg rec in
  let k := r2m_m2r_byte_hl rec in
  set_reg i k 0.

Definition rt_reg_im_clear_mo16 (rec : dift_record) : M unit :=
  let i := r2m_m2r_reg rec in
  set_reg_word 2 i 0.

Definition rt_reg_im_clear_mo32 (rec : dift_record) : M unit :=
  let i := r2m_m2r_reg rec in
  set_reg_word 4 i 0.

Definition rt_reg_im_clear_mo64 (rec : dift_record) : M unit :=
  let i := r2m_m2r_reg rec in
  set_reg_word 8 i 0.

Definition rt_mem_im_clear_mo8 (rec : dift_record) : M unit :=
  wa ← DEQ_FROM_ADDR;
  wa ← or_null_sink wa;
  set_mem wa 0.

Definition rt_mem_im_clear_mo16 (rec : dift_record) : M unit :=
  wa ← DEQ_FROM_ADDR;
  wa ← or_null_sink wa;
  set_mem_word 2 wa 0.

Definition rt_mem_im_clear_mo32 (rec : dift_record) : M unit :=
  wa ← DEQ_FROM_ADDR;
  wa ← or_null_sink wa;
  set_mem_word 4 wa 0.

Definition rt_mem_im_clear_mo64 (rec : dift_record) : M unit :=
  wa ← DEQ_FROM_ADDR;
  wa ← or_null_sink wa;
  set_mem_word 8 wa 0.

(** ** Handlers: SSE registers *)

Definition rt_xmm_xmm_oo_assign_mo32 (rec : dift_record) : M unit :=
  let i := r2r_dreg rec in
  let j := r2r_sreg rec in
  v ← xmm_word 4 j 0;
  set_xmm_word 4 i 0 v.

Definition rt_xmm_xmm_oo_assign_mo64 (rec : dift_record) : M unit :=
  let i := r2r_dreg rec in
  let j := r2r_sreg rec in
  v ← xmm_word 8 j 0;
  set_xmm_word 8 i 0 v.

Definition rt_xmm_xmm_oo_assign_mo64lh (rec : dift_record) : M unit :=
  let i := r2r_dreg rec in
  let j := r2r_sreg rec in
  v ← xmm_word 8 j 0;
  set_xmm_word 8 i 8 v.

Definition rt_xmm_xmm_oo_assign_mo64hl (rec : dift_record) : M unit :=
  let i := r2r_dreg rec in
  let j := r2r_sreg rec in
  v ← xmm_word 8 j 8;
  set_xmm_word 8 i 0 v.

Definition rt_xmm_xmm_oo_assign_mo128 (rec : dift_record) : M unit :=
  let i := r2r_dreg rec in
  let j := r2r_sreg rec in
  v ← xmm_word 8 j 0; set_xmm_word 8 i 0 v;;
  v ← xmm_word 8 j 8; set_xmm_word 8 i 8 v.

Definition rt_xmm_reg_oo_assign_mo32 (rec : dift_record) : M unit :=
  let i := r2r_dreg rec in
  let j := r2r_sreg rec in
  v ← reg_word 4 j;
  set_xmm_word 4 i 0 v.

Definition rt_xmm_reg_oo_assign_mo64 (rec : dift_record) : M unit :=
  let i := r2r_dreg rec in
  let j := r2r_sreg rec in
  v ← reg_word 8 j;
  set_xmm_word 8 i 0 v.

Definition rt_reg_xmm_oo_assign_mo32 (rec : dift_record) : M unit :=
  let i := r2r_dreg rec in
  let j := r2r_sreg rec in
  v ← xmm_word 4 j 0;
  set_reg_word 4 i v.

Definition rt_reg_xmm_oo_assign_mo64 (rec : dift_record) : M unit :=
  let i := r2r_dreg rec in
  let j := r2r_sreg rec in
  v ← xmm_word 8 j 0;
  set_reg_word 8 i v.

Definition rt_xmm_mem_oo_assign_mo32 (rec : dift_record) : M unit :=
  ra ← DEQ_FROM_ADDR;
  ra ← or_clean_source ra;
  let i := r2m_m2r_reg rec in
  v ← mem_word 4 ra;
  set_xmm_word 4 i 0 v.

Definition rt_xmm_mem_oo_assign_mo64 (rec : dift_record) : M unit :=
  ra ← DEQ_FROM_ADDR;
  ra ← or_clean_source ra;
  let i := r2m_m2r_reg rec in
  v ← mem_word 8 ra;
  set_xmm_word 8 i 0 v.

Definition rt_xmm_mem_oo_assign_mo64h (rec : dift_record) : M unit :=
  ra ← DEQ_FROM_ADDR;
  ra ← or_clean_source ra;
  let i := r2m_m2r_reg rec in
  v ← mem_word 8 ra;
  set_xmm_word 8 i 8 v.

Definition rt_xmm_mem_oo_assign_mo128 (rec : dift_record) : M unit :=
  ra ← DEQ_FROM_ADDR;
  ra ← or_clean_source ra;
  let i := r2m_m2r_reg rec in
  v ← mem_word 8 ra; set_xmm_word 8 i 0 v;;
  v ← mem_word 8 (ra + 8); set_xmm_word 8 i 8 v.

Definition rt_mem_xmm_oo_assign_mo32 (rec : dift_record) : M unit :=
  wa ← DEQ_FROM_ADDR;
  wa ← or_null_sink wa;
  let i := r2m_m2r_reg rec in
  v ← xmm_word 4 i 0;
  set_mem_word 4 wa v.

Definition rt_mem_xmm_oo_assign_mo64 (rec : dift_record) : M unit :=
  wa ← DEQ_FROM_ADDR;
  wa ← or_null_sink wa;
  let i := r2m_m2r_reg rec in
  v ← xmm_word 8 i 0;
  set_mem_word 8 wa v.

Definition rt_mem_xmm_oo_assign_mo64h (rec : dift_record) : M unit :=
  wa ← DEQ_FROM_ADDR;
  wa ← or_null_sink wa;
  let i := r2m_m2r_reg rec in
  v ← xmm_word 8 i 8;
  set_mem_word 8 wa v.

Definition rt_mem_xmm_oo_assign_mo128 (rec : dift_record) : M unit :=
  wa ← DEQ_FROM_ADDR;
  wa ← or_null_sink wa;
  let i := r2m_m2r_reg rec in
  v ← xmm_word 8 i 0; set_mem_word 8 wa v;;
  v ← xmm_word 8 i 8; set_mem_word 8 (wa + 8) v.

Definition rt_xmm_xmm_oo_assign_dup_mo32l (rec : dift_record) : M unit :=
  let i := r2r_dreg rec in
  let j := r2r_sreg rec in
  v ← xmm_word 4 j 0; set_xmm_word 4 i 0 v;;
  v ← xmm_word 4 j 0; set_xmm_word 4 i 4 v;;
  v ← xmm_word 4 j 8; set_xmm_word 4 i 8 v;;
  v ← xmm_word 4 j 8; set_xmm_word 4 i 12 v.

Definition rt_xmm_xmm_oo_assign_dup_mo32h (rec : dift_record) : M unit :=
  let i := r2r_dreg rec in
  let j := r2r_sreg rec in
  v ← xmm_word 4 j 4; set_xmm_word 4 i 0 v;;
  v ← xmm_word 4 j 4; set_xmm_word 4 i 4 v;;
  v ← xmm_word 4 j 12; set_xmm_word 4 i 8 v;;
  v ← xmm_word 4 j 12; set_xmm_word 4 i 12 v.

Definition rt_xmm_xmm_oo_assign_dup_mo64 (rec : dift_record) : M unit :=
  let i := r2r_dreg rec in
  let j := r2r_sreg rec in
  v ← xmm_word 8 j 0; set_xmm_word 8 i 0 v;;
  v ← xmm_word 8 j 0; set_xmm_word 8 i 8 v.

Definition rt_xmm_mem_oo_assign_dup_mo32l (rec : dift_record) : M unit :=
  ra ← DEQ_FROM_ADDR;
  ra ← or_clean_source ra;
  let i := r2m_m2r_reg rec in
  v ← mem_word 4 ra; set_xmm_word 4 i 0 v;;
  v ← mem_word 4 ra; set_xmm_word 4 i 4 v;;
  v ← mem_word 4 (ra + 8); set_xmm_word 4 i 8 v;;
  v ← mem_word 4 (ra + 8); set_xmm_word 4 i 12 v.

Definition rt_xmm_mem_oo_assign_dup_mo32h (rec : dift_record) : M unit :=
  ra ← DEQ_FROM_ADDR;
  ra ← or_clean_source ra;
  let i := r2m_m2r_reg rec in
  v ← mem_word 4 (ra + 4); set_xmm_word 4 i 0 v;;
  v ← mem_word 4 (ra + 4); set_xmm_word 4 i 4 v;;
  v ← mem_word 4 (ra + 12); set_xmm_word 4 i 8 v;;
  v ← mem_word 4 (ra + 12); set_xmm_word 4 i 12 v.

Definition rt_xmm_mem_oo_assign_dup_mo64 (rec : dift_record) : M unit :=
  ra ← DEQ_FROM_ADDR;
  ra ← or_clean_source ra;
  let i := r2m_m2r_reg rec in
  v ← mem_word 8 ra; set_xmm_word 8 i 0 v;;
  v ← mem_word 8 (ra + 8); set_xmm_word 8 i 8 v.

Definition rt_xmm_im_clear (rec : dift_record) : M unit :=
  let i := r2m_m2r_reg rec in
  set_xmm_word 8 i 0 0;;
  set_xmm_word 8 i 8 0.

(** ** Handlers: disk transfers and direct contamination

    [l] and [j] are C ints; a call converts them to the 64-bit length and to
    the 8-bit tag. *)

Definition rt_mem_hd (rec : dift_record) : M unit :=
  wa ← DEQ_FROM_ADDR;
  wa ← or_null_sink wa;
  hdaddr ← DEQ_FROM_ADDR;
  l ← DEQ_FROM_ADDR;
  call_copy_mem_hd wa hdaddr (u64 (s32 l)).

Definition rt_hd_mem (rec : dift_record) : M unit :=
  ra ← DEQ_FROM_ADDR;
  ra ← or_clean_source ra;
  hdaddr ← DEQ_FROM_ADDR;
  l ← DEQ_FROM_ADDR;
  call_copy_hd_mem hdaddr ra (u64 (s32 l)).

Definition rt_rec_contaminate_mem_or (rec : dift_record) : M unit :=
  wa ← DEQ_FROM_ADDR;
  wa ← or_null_sink wa;
  let j := s32 (Z.shiftr (Z.land rec 0x000000000000ff00) 8) in
  let l := s32 (Z.shiftr (Z.land rec 0x0000ffffffff0000) 16) in
  call_set_mem_dirty wa (u64 l) (u8 j) true.

Definition rt_rec_contaminate_mem_and (rec : dift_record) : M unit :=
  wa ← DEQ_FROM_ADDR;
  wa ← or_null_sink wa;
  let j := s32 (Z.shiftr (Z.land rec 0x000000000000ff00) 8) in
  let l := s32 (Z.shiftr (Z.land rec 0x0000ffffffff0000) 16) in
  call_and_mem_dirty wa (u64 l) (u8 j).

Definition rt_rec_contaminate_hd_or (rec : dift_record) : M unit :=
  hdaddr ← DEQ_FROM_ADDR;
  l ← DEQ_FROM_ADDR;
  let j := s32 (Z.shiftr (Z.land rec 0x000000000000ff00) 8) in
  call_set_hd_dirty_or hdaddr (u64 (s32 l)) (u8 j).

Definition rt_rec_contaminate_hd_and (rec : dift_record) : M unit :=
  hdaddr ← DEQ_FROM_ADDR;
  l ← DEQ_FROM_ADDR;
  let j := s32 (Z.shiftr (Z.land rec 0x000000000000ff00) 8) in
  call_set_hd_dirty_and hdaddr (u64 (s32 l)) (u8 j).

Definition rt_rec_clear_mem (rec : dift_record) : M unit :=
  wa ← DEQ_FROM_ADDR;
  wa ← or_null_sink wa;
  l ← DEQ_FROM_ADDR;
  call_set_mem_dirty wa (u64 (s32 l)) 0 false.

Definition rt_rec_block_begin (rec : dift_record) : M unit :=
  mret tt.

(** ** Dispatch *)

(** A label of the policy: a handler that goes on to the next record, or the
    end of the run. *)
Inductive label : Type :=
| Handler (h : dift_record -> M unit)
| rt_rec_end.

(** The [dispatch] table; [None] is a slot no assignment fills. *)
Definition dispatch (c : dift_case) : option label :=
  match c with
  | INSIDE_REG_ASSIGN => Some (Handler rt_inside_reg_assign)
  | INSIDE_REG_APPEND => Some (Handler rt_inside_reg_append)
  | REG_REG_OO_ASSIGN_MO8 => Some (Handler rt_reg_reg_oo_assign_mo8)
  | REG_REG_OO_ASSIGN_MO16 => Some (Handler rt_reg_reg_oo_assign_mo16)
  | REG_REG_OO_ASSIGN_MO32 => Some (Handler rt_reg_reg_oo_assign_mo32)
  | REG_REG_OO_ASSIGN_MO64 => Some (Handler rt_reg_reg_oo_assign_mo64)
  | REG_REG_OO_APPEND_MO8 => Some (Handler rt_reg_reg_oo_append_mo8)
  | REG_REG_OO_APPEND_MO16 => Some (Handler rt_reg_reg_oo_append_mo16)
  | REG_REG_OO_APPEND_MO32 => Some (Handler rt_reg_reg_oo_append_mo32)
  | REG_REG_OO_APPEND_MO64 => Some (Handler rt_reg_reg_oo_append_mo64)
  | REG_REG_MIX_APPEND_MO8 => Some (Handler rt_reg_reg_oo_append_mo8)
  | REG_REG_MIX_APPEND_MO16 => Some (Handler rt_reg_reg_mix_append_mo16)
  | REG_REG_MIX_APPEND_MO32 => Some (Handler rt_reg_reg_mix_append_mo32)
  | REG_REG_MIX_APPEND_MO64 => Some (Handler rt_reg_reg_mix_append_mo64)
  | REG_MEM_OO_ASSIGN_MO8 => Some (Handler rt_reg_mem_oo_assign_mo8)
  | REG_MEM_OO_ASSIGN_MO16 => Some (Handler rt_reg_mem_oo_assign_mo16)
  | REG_MEM_OO_ASSIGN_MO32 => Some (Handler rt_reg_mem_oo_assign_mo32)
  | REG_MEM_OO_ASSIGN_MO64 => Some (Handler rt_reg_mem_oo_assign_mo64)
  | REG_MEM_OO_APPEND_MO8 => Some (Handler rt_reg_mem_oo_append_mo8)
  | REG_MEM_OO_APPEND_MO16 => Some (Handler rt_reg_mem_oo_append_mo16)
  | REG_MEM_OO_APPEND_MO32 => Some (Handler rt_reg_mem_oo_append_mo32)
  | REG_MEM_OO_APPEND_MO64 => Some (Handler rt_reg_mem_oo_append_mo64)
  | REG_MEM_MIX_ASSIGN_MO16 => Some (Handler rt_reg_mem_mix_assign_mo16)
  | REG_MEM_MIX_ASSIGN_MO32 => Some (Handler rt_reg_mem_mix_assign_mo32)
  | REG_MEM_MIX_ASSIGN_MO64 => Some (Handler rt_reg_mem_mix_assign_mo64)
  | REG_MEM_MIX_APPEND_MO8 => Some (Handler rt_reg_mem_oo_append_mo8)
  | REG_MEM_MIX_APPEND_MO16 => Some (Handler rt_reg_mem_mix_append_mo16)
  | REG_MEM_MIX_APPEND_MO32 => Some (Handler rt_reg_mem_mix_append_mo32)
  | REG_MEM_MIX_APPEND_MO64 => Some (Handler rt_reg_mem_mix_append_mo64)
  | MEM_REG_OO_ASSIGN_MO8 => Some (Handler rt_mem_reg_oo_assign_mo8)
  | MEM_REG_OO_ASSIGN_MO16 => Some (Handler rt_mem_reg_oo_assign_mo16)
  | MEM_REG_OO_ASSIGN_MO32 => Some (Handler rt_mem_reg_oo_assign_mo32)
  | MEM_REG_OO_ASSIGN_MO64 => Some (Handler rt_mem_reg_oo_assign_mo64)
  | MEM_REG_OO_APPEND_MO8 => Some (Handler rt_mem_reg_oo_append_mo8)
  | MEM_REG_OO_APPEND_MO16 => Some (Handler rt_mem_reg_oo_append_mo16)
  | MEM_REG_OO_APPEND_MO32 => Some (Handler rt_mem_reg_oo_append_mo32)
  | MEM_REG_OO_APPEND_MO64 => Some (Handler rt_mem_reg_oo_append_mo64)
  | MEM_REG_MIX_ASSIGN_MO16 => Some (Handler rt_mem_reg_mix_assign_mo16)
  | MEM_REG_MIX_ASSIGN_MO32 => Some (Handler rt_mem_reg_mix_assign_mo32)
  | MEM_REG_MIX_ASSIGN_MO64 => Some (Handler rt_mem_reg_mix_assign_mo64)
  | MEM_REG_MIX_APPEND_MO8 => Some (Handler rt_mem_reg_oo_append_mo8)
  | MEM_REG_MIX_APPEND_MO16 => Some (Handler rt_mem_reg_mix_append_mo16)
  | MEM_REG_MIX_APPEND_MO32 => Some (Handler rt_mem_reg_mix_append_mo32)
  | MEM_REG_MIX_APPEND_MO64 => Some (Handler rt_mem_reg_mix_append_mo64)
  | MEM_MEM_OO_ASSIGN_MO8 => Some (Handler rt_mem_mem_oo_assign_mo8)
  | MEM_MEM_OO_ASSIGN_MO16 => Some (Handler rt_mem_mem_oo_assign_mo16)
  | MEM_MEM_OO_ASSIGN_MO32 => Some (Handler rt_mem_mem_oo_assign_mo32)
  | MEM_MEM_OO_ASSIGN_MO64 => Some (Handler rt_mem_mem_oo_assign_mo64)
  | REG_IM_CLEAR_MO8 => Some (Handler rt_reg_im_clear_mo8)
  | REG_IM_CLEAR_MO16 => Some (Handler rt_reg_im_clear_mo16)
  | REG_IM_CLEAR_MO32 => Some (Handler rt_reg_im_clear_mo32)
  | REG_IM_CLEAR_MO64 => Some (Handler rt_reg_im_clear_mo64)
  | MEM_IM_CLEAR_MO8 => Some (Handler rt_mem_im_clear_mo8)
  | MEM_IM_CLEAR_MO16 => Some (Handler rt_mem_im_clear_mo16)
  | MEM_IM_CLEAR_MO32 => Some (Handler rt_mem_im_clear_mo32)
  | MEM_IM_CLEAR_MO64 => Some (Handler rt_mem_im_clear_mo64)
  | XMM_XMM_OO_ASSIGN_MO32 => Some (Handler rt_xmm_xmm_oo_assign_mo32)
  | XMM_XMM_OO_ASSIGN_MO64 => Some (Handler rt_xmm_xmm_oo_assign_mo64)
  | XMM_XMM_OO_ASSIGN_MO64LH => Some (Handler rt_xmm_xmm_oo_assign_mo64lh)
  | XMM_XMM_OO_ASSIGN_MO64HL => Some (Handler rt_xmm_xmm_oo_assign_mo64hl)
  | XMM_XMM_OO_ASSIGN_MO128 => Some (Handler rt_xmm_xmm_oo_assign_mo128)
  | XMM_REG_OO_ASSIGN_MO32 => Some (Handler rt_xmm_reg_oo_assign_mo32)
  | XMM_REG_OO_ASSIGN_MO64 => Some (Handler rt_xmm_reg_oo_assign_mo64)
  | REG_XMM_OO_ASSIGN_MO32 => Some (Handler rt_reg_xmm_oo_assign_mo32)
  | REG_XMM_OO_ASSIGN_MO64 => Some (Handler rt_reg_xmm_oo_assign_mo64)
  | XMM_MEM_OO_ASSIGN_MO32 => Some (Handler rt_xmm_mem_oo_assign_mo32)
  | XMM_MEM_OO_ASSIGN_MO64 => Some (Handler rt_xmm_mem_oo_assign_mo64)
  | XMM_MEM_OO_ASSIGN_MO64H => Some (Handler rt_xmm_mem_oo_assign_mo64h)
  | XMM_MEM_OO_ASSIGN_MO128 => Some (Handler rt_xmm_mem_oo_assign_mo128)
  | MEM_XMM_OO_ASSIGN_MO32 => Some (Handler rt_mem_xmm_oo_assign_mo32)
  | MEM_XMM_OO_ASSIGN_MO64 => Some (Handler rt_mem_xmm_oo_assign_mo64)
  | MEM_XMM_OO_ASSIGN_MO64H => Some (Handler rt_mem_xmm_oo_assign_mo64h)
  | MEM_XMM_OO_ASSIGN_MO128 => Some (Handler rt_mem_xmm_oo_assign_mo128)
  | XMM_XMM_OO_ASSIGN_DUP_MO32L => Some (Handler rt_xmm_xmm_oo_assign_dup_mo32l)
  | XMM_XMM_OO_ASSIGN_DUP_MO32H => Some (Handler rt_xmm_xmm_oo_assign_dup_mo32h)
  | XMM_XMM_OO_ASSIGN_DUP_MO64 => Some (Handler rt_xmm_xmm_oo_assign_dup_mo64)
  | XMM_MEM_OO_ASSIGN_DUP_MO32L => Some (Handler rt_xmm_mem_oo_assign_dup_mo32l)
  | XMM_MEM_OO_ASSIGN_DUP_MO32H => Some (Handler rt_xmm_mem_oo_assign_dup_mo32h)
  | XMM_MEM_OO_ASSIGN_DUP_MO64 => Some (Handler rt_xmm_mem_oo_assign_dup_mo64)
  | XMM_IM_CLEAR => Some (Handler rt_xmm_im_clear)
  | MEM_HD => Some (Handler rt_mem_hd)
  | HD_MEM => Some (Handler rt_hd_mem)
  | REC_CONTAMINATE_MEM_OR => Some (Handler rt_rec_contaminate_mem_or)
  | REC_CONTAMINATE_MEM_AND => Some (Handler rt_rec_contaminate_mem_and)
  | REC_CONTAMINATE_HD_OR => Some (Handler rt_rec_contaminate_hd_or)
  | REC_CONTAMINATE_HD_AND => Some (Handler rt_rec_contaminate_hd_and)
  | REC_CLEAR_MEM => Some (Handler rt_rec_clear_mem)
  | REC_BEFORE_BLOCK_BEGIN => None
  | REC_BLOCK_BEGIN => Some (Handler rt_rec_block_begin)
  | REC_SYNC => None
  | REC_END => Some rt_rec_end
  end.
