(* ===== verification/DiftFlow.v ===== *)
(** * The taint policy as information flows

    An abstract specification of the propagation handlers of
    [ext/dift/dift-policy.h]: each case number denotes a list of flows, a flow
    naming a run of destination bytes and, for each of them, the bytes whose
    tags it receives, all read before the record takes effect. The theorems
    show that the handlers implement these flows. *)

From S2P Require Import Prelude DiftState DiftPolicy.

(** ** Locations *)

Inductive region : Type := Reg | Xmm | Mem.

(** A byte of the taint tables: [(Reg, 8 * i + j)] is byte [j] of register
    [i], [(Xmm, 16 * i + j)] byte [j] of SSE register [i], [(Mem, a)] the byte
    at guest-physical address [a]. *)
Definition loc : Type := (region * Z)%type.

Definition region_eqb (r r' : region) : bool :=
  match r, r' with
  | Reg, Reg | Xmm, Xmm | Mem, Mem => true
  | _, _ => false
  end.

Definition table_of (st : dift_state) (r : region) : table :=
  match r with
  | Reg => reg_dirty_tbl st
  | Xmm => xmm_dirty_tbl st
  | Mem => mem_dirty_tbl st
  end.

Definition taint (st : dift_state) (l : loc) : Z := tbl_get (table_of st l.1) l.2.

Definition loc_add (l : loc) (k : Z) : loc := (l.1, l.2 + k).

(** The [n] bytes from [l]. *)
Definition span (l : loc) (n : nat) : list loc := (fun k => loc_add l (Z.of_nat k)) <$> seq 0 n.

(** The union of the tags of some bytes. *)
Definition or_of (s : loc -> Z) (ls : list loc) : Z := foldr (fun l acc => s l .| acc) 0 ls.

(** ** Flows *)

Record flow : Type := Flow { f_dst : loc; f_len : Z; f_src : Z -> list loc }.

Definition hits (f : flow) (l : loc) : bool :=
  region_eqb (f_dst f).1 l.1 && within (f_dst f).2 (f_len f) l.2.

Fixpoint apply_flows (fs : list flow) (s : loc -> Z) (l : loc) : Z :=
  match fs with
  | [] => s l
  | f :: fs' => if hits f l then or_of s (f_src f (l.2 - (f_dst f).2)) else apply_flows fs' s l
  end.

(** Byte by byte, and with every byte of the operands mixed into every byte
    of the result. *)
Definition oo_assign (n : nat) (d s : loc) : flow :=
  Flow d (Z.of_nat n) (fun k => [loc_add s k]).
Definition oo_append (n : nat) (d s : loc) : flow :=
  Flow d (Z.of_nat n) (fun k => [loc_add d k; loc_add s k]).
Definition mix_assign (n : nat) (d : loc) (ss : list loc) : flow :=
  Flow d (Z.of_nat n) (fun _ => ss).
Definition clear (n : nat) (d : loc) : flow := Flow d (Z.of_nat n) (fun _ => []).

(** ** The policy *)

Definition rloc (i j : Z) : loc := (Reg, 8 * i + j).
Definition xloc (i j : Z) : loc := (Xmm, 16 * i + j).

(** Guest addresses past the RAM are redirected to the clean source when read
    and to the null sink when written. *)
Definition source_addr (ram a : Z) : Z := if a <? ram then a else ram.
Definition sink_addr (ram a : Z) : Z := if a <? ram then a else ram + 1.

(** A byte read through [get_mem_dirty]. *)
Definition checked (ram a : Z) : list loc := if a <? ram + 2 then [(Mem, a)] else [].
Definition checked_span (ram a : Z) (n : nat) : list loc :=
  foldr (fun k ls => checked ram (a + Z.of_nat k) ++ ls) [] (seq 0 n).

(** A store through [set_mem_dirty], dropped when it runs over the RAM's end. *)
Definition checked_store (ram a : Z) (n : nat) (f : flow) : list flow :=
  if (a + Z.of_nat n <=? ram) || (ram <=? a) then [f] else [].

(** The registers a guest address was computed from. *)
Definition addr_reg (r : Z) (n : nat) : list loc :=
  if r =? R_NONE then [] else span (rloc r 0) n.

Definition reg_mem_8 (rec : dift_record) : loc := rloc (r2m_m2r_byte_reg rec) (r2m_m2r_byte_hl rec).
Definition reg_mem (rec : dift_record) : loc := rloc (r2m_m2r_reg rec) 0.

(** Flows between general registers. *)
Definition reg_reg_policy (c : dift_case) (rec : dift_record) : list flow :=
  let d8 := rloc (r2r_byte_dreg rec) (r2r_byte_dreg_byte rec) in
  let s8 := rloc (r2r_byte_sreg rec) (r2r_byte_sreg_byte rec) in
  let d := rloc (r2r_dreg rec) 0 in
  let s := rloc (r2r_sreg rec) 0 in
  let ind := rloc (inside_r_reg rec) (inside_r_d_byte rec) in
  let ins := rloc (inside_r_reg rec) (inside_r_s_byte rec) in
  match c with
  | INSIDE_REG_ASSIGN => [oo_assign 1 ind ins]
  | INSIDE_REG_APPEND => [oo_append 1 ind ins]
  | REG_REG_OO_ASSIGN_MO8 => [oo_assign 1 d8 s8]
  | REG_REG_OO_ASSIGN_MO16 => [oo_assign 2 d s]
  | REG_REG_OO_ASSIGN_MO32 => [oo_assign 4 d s]
  | REG_REG_OO_ASSIGN_MO64 => [oo_assign 8 d s]
  | REG_REG_OO_APPEND_MO8 | REG_REG_MIX_APPEND_MO8 => [oo_append 1 d8 s8]
  | REG_REG_OO_APPEND_MO16 => [oo_append 2 d s]
  | REG_REG_OO_APPEND_MO32 => [oo_append 4 d s]
  | REG_REG_OO_APPEND_MO64 => [oo_append 8 d s]
  | REG_REG_MIX_APPEND_MO16 => [mix_assign 2 d (span d 2 ++ span s 2)]
  | REG_REG_MIX_APPEND_MO32 => [mix_assign 4 d (span d 4 ++ span s 4)]
  | REG_REG_MIX_APPEND_MO64 => [mix_assign 8 d (span d 8 ++ span s 8)]
  | REG_IM_CLEAR_MO8 => [clear 1 (reg_mem_8 rec)]
  | REG_IM_CLEAR_MO16 => [clear 2 (reg_mem rec)]
  | REG_IM_CLEAR_MO32 => [clear 4 (reg_mem rec)]
  | REG_IM_CLEAR_MO64 => [clear 8 (reg_mem rec)]
  | _ => []
  end.

(** Flows from memory to a general register. Loads of one and two bytes also
    receive the taint of the registers that form their address. *)
Definition reg_mem_policy (ram : Z) (c : dift_case) (rec : dift_record) (a : Z) : list flow :=
  let ra := source_addr ram a in
  let d8 := reg_mem_8 rec in
  let d := reg_mem rec in
  let via8 := addr_reg (r2m_m2r_byte_reg_base rec) 1 ++ addr_reg (r2m_m2r_byte_reg_index rec) 1 in
  let via16 := addr_reg (r2m_m2r_reg_base rec) 2 ++ addr_reg (r2m_m2r_reg_index rec) 2 in
  match c with
  | REG_MEM_OO_ASSIGN_MO8 => [Flow d8 1 (fun k => (Mem, ra + k) :: via8)]
  | REG_MEM_OO_ASSIGN_MO16 => [Flow d 2 (fun k => checked ram (ra + k) ++ via16)]
  | REG_MEM_OO_ASSIGN_MO32 => [oo_assign 4 d (Mem, ra)]
  | REG_MEM_OO_ASSIGN_MO64 => [oo_assign 8 d (Mem, ra)]
  | REG_MEM_OO_APPEND_MO8 | REG_MEM_MIX_APPEND_MO8 =>
      [Flow d8 1 (fun k => loc_add d8 k :: checked ram (ra + k))]
  | REG_MEM_OO_APPEND_MO16 => [oo_append 2 d (Mem, ra)]
  | REG_MEM_OO_APPEND_MO32 => [oo_append 4 d (Mem, ra)]
  | REG_MEM_OO_APPEND_MO64 => [oo_append 8 d (Mem, ra)]
  | REG_MEM_MIX_ASSIGN_MO16 => [mix_assign 2 d (checked_span ram ra 2)]
  | REG_MEM_MIX_ASSIGN_MO32 => [mix_assign 4 d (checked_span ram ra 4)]
  | REG_MEM_MIX_ASSIGN_MO64 => [mix_assign 8 d (checked_span ram ra 8)]
  | REG_MEM_MIX_APPEND_MO16 => [mix_assign 2 d (span d 2 ++ checked_span ram ra 2)]
  | REG_MEM_MIX_APPEND_MO32 => [mix_assign 4 d (span d 4 ++ span (Mem, ra) 4)]
  | REG_MEM_MIX_APPEND_MO64 => [mix_assign 8 d (span d 8 ++ span (Mem, ra) 8)]
  | _ => []
  end.

(** Flows from a general register or an immediate to memory. *)
Definition mem_reg_policy (ram : Z) (c : dift_case) (rec : dift_record) (a : Z) : list flow :=
  let wa := sink_addr ram a in
  let d := (Mem, wa) in
  let s8 := reg_mem_8 rec in
  let s := reg_mem rec in
  let mix n := checked_store ram wa n (mix_assign n d (span s n)) in
  let mix_app n := checked_store ram wa n
    (Flow d (Z.of_nat n) (fun k => loc_add d k :: checked_span ram wa n ++ span s n)) in
  match c with
  | MEM_REG_OO_ASSIGN_MO8 => checked_store ram wa 1 (oo_assign 1 d s8)
  | MEM_REG_OO_ASSIGN_MO16 => [oo_assign 2 d s]
  | MEM_REG_OO_ASSIGN_MO32 => [oo_assign 4 d s]
  | MEM_REG_OO_ASSIGN_MO64 => [oo_assign 8 d s]
  | MEM_REG_OO_APPEND_MO8 | MEM_REG_MIX_APPEND_MO8 => checked_store ram wa 1 (oo_append 1 d s8)
  | MEM_REG_OO_APPEND_MO16 => [oo_append 2 d s]
  | MEM_REG_OO_APPEND_MO32 => [oo_append 4 d s]
  | MEM_REG_OO_APPEND_MO64 => [oo_append 8 d s]
  | MEM_REG_MIX_ASSIGN_MO16 => mix 2%nat
  | MEM_REG_MIX_ASSIGN_MO32 => mix 4%nat
  | MEM_REG_MIX_ASSIGN_MO64 => mix 8%nat
  | MEM_REG_MIX_APPEND_MO16 => mix_app 2%nat
  | MEM_REG_MIX_APPEND_MO32 => mix_app 4%nat
  | MEM_REG_MIX_APPEND_MO64 => mix_app 8%nat
  | MEM_IM_CLEAR_MO8 => [clear 1 d]
  | MEM_IM_CLEAR_MO16 => [clear 2 d]
  | MEM_IM_CLEAR_MO32 => [clear 4 d]
  | MEM_IM_CLEAR_MO64 => [clear 8 d]
  | _ => []
  end.

(** Flows between two memory operands; the destination is queued first. *)
Definition mem_mem_policy (ram : Z) (c : dift_case) (w r : Z) : list flow :=
  let d := (Mem, sink_addr ram w) in
  let s := (Mem, source_addr ram r) in
  match c with
  | MEM_MEM_OO_ASSIGN_MO8 => [oo_assign 1 d s]
  | MEM_MEM_OO_ASSIGN_MO16 => [oo_assign 2 d s]
  | MEM_MEM_OO_ASSIGN_MO32 => [oo_assign 4 d s]
  | MEM_MEM_OO_ASSIGN_MO64 => [oo_assign 8 d s]
  | _ => []
  end.

(** Flows of the SSE registers. *)
Definition xmm_policy (ram : Z) (c : dift_case) (rec : dift_record) (a : Z) : list flow :=
  let d := xloc (r2r_dreg rec) in
  let s := xloc (r2r_sreg rec) in
  let x := xloc (r2m_m2r_reg rec) in
  let m k := (Mem, source_addr ram a + k) in
  let w := (Mem, sink_addr ram a) in
  match c with
  | XMM_XMM_OO_ASSIGN_MO32 => [oo_assign 4 (d 0) (s 0)]
  | XMM_XMM_OO_ASSIGN_MO64 => [oo_assign 8 (d 0) (s 0)]
  | XMM_XMM_OO_ASSIGN_MO64LH => [oo_assign 8 (d 8) (s 0)]
  | XMM_XMM_OO_ASSIGN_MO64HL => [oo_assign 8 (d 0) (s 8)]
  | XMM_XMM_OO_ASSIGN_MO128 => [oo_assign 16 (d 0) (s 0)]
  | XMM_REG_OO_ASSIGN_MO32 => [oo_assign 4 (d 0) (rloc (r2r_sreg rec) 0)]
  | XMM_REG_OO_ASSIGN_MO64 => [oo_assign 8 (d 0) (rloc (r2r_sreg rec) 0)]
  | REG_XMM_OO_ASSIGN_MO32 => [oo_assign 4 (rloc (r2r_dreg rec) 0) (s 0)]
  | REG_XMM_OO_ASSIGN_MO64 => [oo_assign 8 (rloc (r2r_dreg rec) 0) (s 0)]
  | XMM_MEM_OO_ASSIGN_MO32 => [oo_assign 4 (x 0) (m 0)]
  | XMM_MEM_OO_ASSIGN_MO64 => [oo_assign 8 (x 0) (m 0)]
  | XMM_MEM_OO_ASSIGN_MO64H => [oo_assign 8 (x 8) (m 0)]
  | XMM_MEM_OO_ASSIGN_MO128 => [oo_assign 16 (x 0) (m 0)]
  | MEM_XMM_OO_ASSIGN_MO32 => [oo_assign 4 w (x 0)]
  | MEM_XMM_OO_ASSIGN_MO64 => [oo_assign 8 w (x 0)]
  | MEM_XMM_OO_ASSIGN_MO64H => [oo_assign 8 w (x 8)]
  | MEM_XMM_OO_ASSIGN_MO128 => [oo_assign 16 w (x 0)]
  | XMM_XMM_OO_ASSIGN_DUP_MO32L =>
      [oo_assign 4 (d 0) (s 0); oo_assign 4 (d 4) (s 0);
       oo_assign 4 (d 8) (s 8); oo_assign 4 (d 12) (s 8)]
  | XMM_XMM_OO_ASSIGN_DUP_MO32H =>
      [oo_assign 4 (d 0) (s 4); oo_assign 4 (d 4) (s 4);
       oo_assign 4 (d 8) (s 12); oo_assign 4 (d 12) (s 12)]
  | XMM_XMM_OO_ASSIGN_DUP_MO64 => [oo_assign 8 (d 0) (s 0); oo_assign 8 (d 8) (s 0)]
  | XMM_MEM_OO_ASSIGN_DUP_MO32L =>
      [oo_assign 4 (x 0) (m 0); oo_assign 4 (x 4) (m 0);
       oo_assign 4 (x 8) (m 8); oo_assign 4 (x 12) (m 8)]
  | XMM_MEM_OO_ASSIGN_DUP_MO32H =>
      [oo_assign 4 (x 0) (m 4); oo_assign 4 (x 4) (m 4);
       oo_assign 4 (x 8) (m 12); oo_assign 4 (x 12) (m 12)]
  | XMM_MEM_OO_ASSIGN_DUP_MO64 => [oo_assign 16 (x 0) (m 0)]
  | XMM_IM_CLEAR => [clear 16 (x 0)]
  | _ => []
  end.

(** ** Propagation cases and their operands *)

(** The shape of a record's operands. *)
Inductive shape : Type :=
| InsideReg | RegReg8 | RegReg | RegMem8 | RegMem | RegIm8 | RegIm
| XmmXmm | XmmReg | RegXmm | XmmMem | XmmIm | MemOnly | NoOperand.

Definition shape_of (c : dift_case) : shape :=
  match c with
  | INSIDE_REG_ASSIGN | INSIDE_REG_APPEND => InsideReg
  | REG_REG_OO_ASSIGN_MO8 | REG_REG_OO_APPEND_MO8 | REG_REG_MIX_APPEND_MO8 => RegReg8
  | REG_REG_OO_ASSIGN_MO16 | REG_REG_OO_ASSIGN_MO32 | REG_REG_OO_ASSIGN_MO64
  | REG_REG_OO_APPEND_MO16 | REG_REG_OO_APPEND_MO32 | REG_REG_OO_APPEND_MO64
  | REG_REG_MIX_APPEND_MO16 | REG_REG_MIX_APPEND_MO32 | REG_REG_MIX_APPEND_MO64 => RegReg
  | REG_MEM_OO_ASSIGN_MO8 | REG_MEM_OO_APPEND_MO8 | REG_MEM_MIX_APPEND_MO8
  | MEM_REG_OO_ASSIGN_MO8 | MEM_REG_OO_APPEND_MO8 | MEM_REG_MIX_APPEND_MO8 => RegMem8
  | REG_MEM_OO_ASSIGN_MO16 | REG_MEM_OO_ASSIGN_MO32 | REG_MEM_OO_ASSIGN_MO64
  | REG_MEM_OO_APPEND_MO16 | REG_MEM_OO_APPEND_MO32 | REG_MEM_OO_APPEND_MO64
  | REG_MEM_MIX_ASSIGN_MO16 | REG_MEM_MIX_ASSIGN_MO32 | REG_MEM_MIX_ASSIGN_MO64
  | REG_MEM_MIX_APPEND_MO16 | REG_MEM_MIX_APPEND_MO32 | REG_MEM_MIX_APPEND_MO64
  | MEM_REG_OO_ASSIGN_MO16 | MEM_REG_OO_ASSIGN_MO32 | MEM_REG_OO_ASSIGN_MO64
  | MEM_REG_OO_APPEND_MO16 | MEM_REG_OO_APPEND_MO32 | MEM_REG_OO_APPEND_MO64
  | MEM_REG_MIX_ASSIGN_MO16 | MEM_REG_MIX_ASSIGN_MO32 | MEM_REG_MIX_ASSIGN_MO64
  | MEM_REG_MIX_APPEND_MO16 | MEM_REG_MIX_APPEND_MO32 | MEM_REG_MIX_APPEND_MO64 => RegMem
  | MEM_MEM_OO_ASSIGN_MO8 | MEM_MEM_OO_ASSIGN_MO16
  | MEM_MEM_OO_ASSIGN_MO32 | MEM_MEM_OO_ASSIGN_MO64
  | MEM_IM_CLEAR_MO8 | MEM_IM_CLEAR_MO16 | MEM_IM_CLEAR_MO32 | MEM_IM_CLEAR_MO64 => MemOnly
  | REG_IM_CLEAR_MO8 => RegIm8
  | REG_IM_CLEAR_MO16 | REG_IM_CLEAR_MO32 | REG_IM_CLEAR_MO64 => RegIm
  | XMM_XMM_OO_ASSIGN_MO32 | XMM_XMM_OO_ASSIGN_MO64 | XMM_XMM_OO_ASSIGN_MO64LH
  | XMM_XMM_OO_ASSIGN_MO64HL | XMM_XMM_OO_ASSIGN_MO128 | XMM_XMM_OO_ASSIGN_DUP_MO32L
  | XMM_XMM_OO_ASSIGN_DUP_MO32H | XMM_XMM_OO_ASSIGN_DUP_MO64 => XmmXmm
  | XMM_REG_OO_ASSIGN_MO32 | XMM_REG_OO_ASSIGN_MO64 => XmmReg
  | REG_XMM_OO_ASSIGN_MO32 | REG_XMM_OO_ASSIGN_MO64 => RegXmm
  | XMM_MEM_OO_ASSIGN_MO32 | XMM_MEM_OO_ASSIGN_MO64 | XMM_MEM_OO_ASSIGN_MO64H
  | XMM_MEM_OO_ASSIGN_MO128 | MEM_XMM_OO_ASSIGN_MO32 | MEM_XMM_OO_ASSIGN_MO64
  | MEM_XMM_OO_ASSIGN_MO64H | MEM_XMM_OO_ASSIGN_MO128 | XMM_MEM_OO_ASSIGN_DUP_MO32L
  | XMM_MEM_OO_ASSIGN_DUP_MO32H | XMM_MEM_OO_ASSIGN_DUP_MO64 => XmmMem
  | XMM_IM_CLEAR => XmmIm
  | _ => NoOperand
  end.

(** The operands of a record name registers that exist. *)
Definition rec_ok (c : dift_case) (rec : dift_record) : bool :=
  match shape_of c with
  | InsideReg => (inside_r_reg rec <? 24) && (inside_r_d_byte rec <? 8) && (inside_r_s_byte rec <? 8)
  | RegReg8 => (r2r_byte_sreg rec <? 24) && (r2r_byte_dreg rec <? 24)
               && (r2r_byte_sreg_byte rec <? 8) && (r2r_byte_dreg_byte rec <? 8)
  | RegReg => (r2r_sreg rec <? 24) && (r2r_dreg rec <? 24)
  | RegMem8 => (r2m_m2r_byte_reg rec <? 24) && (r2m_m2r_byte_hl rec <? 8)
               && (r2m_m2r_byte_reg_index rec <=? R_NONE) && (r2m_m2r_byte_reg_base rec <=? R_NONE)
  | RegMem => (r2m_m2r_reg rec <? 24)
              && (r2m_m2r_reg_index rec <=? R_NONE) && (r2m_m2r_reg_base rec <=? R_NONE)
  | RegIm8 => (r2m_m2r_byte_reg rec <? 24) && (r2m_m2r_byte_hl rec <? 8)
  | RegIm => r2m_m2r_reg rec <? 24
  | XmmXmm => (r2r_sreg rec <? 16) && (r2r_dreg rec <? 16)
  | XmmReg => (r2r_sreg rec <? 24) && (r2r_dreg rec <? 16)
  | RegXmm => (r2r_sreg rec <? 16) && (r2r_dreg rec <? 24)
  | XmmMem | XmmIm => r2m_m2r_reg rec <? 16
  | MemOnly | NoOperand => true
  end.

(** Whether a case moves taint between the tables of this file. *)
Definition is_propagation (c : dift_case) : bool :=
  match shape_of c with NoOperand => false | _ => true end.

(** The number of addresses a propagation record takes off the queue. *)
Definition addrs_of (c : dift_case) : nat :=
  match c with
  | MEM_MEM_OO_ASSIGN_MO8 | MEM_MEM_OO_ASSIGN_MO16
  | MEM_MEM_OO_ASSIGN_MO32 | MEM_MEM_OO_ASSIGN_MO64 => 2
  | _ => match shape_of c with RegMem8 | RegMem | XmmMem | MemOnly => 1 | _ => 0 end
  end.

Definition policy (ram : Z) (c : dift_case) (rec : dift_record) (addrs : list Z) : list flow :=
  let a := nth 0 addrs 0 in
  reg_reg_policy c rec ++ reg_mem_policy ram c rec a ++ mem_reg_policy ram c rec a
  ++ mem_mem_policy ram c a (nth 1 addrs 0) ++ xmm_policy ram c rec a.

(** ** Taking addresses off the queue *)

Definition deq (s : streams) : option (Z * streams) :=
  match ptr_addr s with
  | Some (x :: l) => Some (x, Streams (ptr_code s) (Some l))
  | Some [] => None
  | None =>
      match ptr_code s with
      | x :: l => Some (x, Streams l None)
      | [] => None
      end
  end.

Fixpoint deq_n (n : nat) (s : streams) : option (list Z * streams) :=
  match n with
  | O => Some ([], s)
  | S m => '(x, s1) ← deq s; '(xs, s2) ← deq_n m s1; Some (x :: xs, s2)
  end.

(** ** Reasoning about handlers *)

(** [m] returns, and what it returns satisfies [Q]. *)
Definition wp {A} (m : M A) (st : dift_state) (s : streams)
    (Q : A -> dift_state -> streams -> Prop) : Prop :=
  exists a st' s', m st s = Ret (a, st', s') /\ Q a st' s'.

(** Everything a propagation handler leaves alone. *)
Record same_frame (st st' : dift_state) : Prop := {
  fr_ram : phys_ram_size st' = phys_ram_size st;
  fr_clean : clean_source st' = clean_source st;
  fr_null : null_sink st' = null_sink st;
  fr_hd : hd_l1_dirty_tbl st' = hd_l1_dirty_tbl st;
  fr_heap : heap_left st' = heap_left st
}.

(** The state [st], reached from [st0], has the taint [s] and 7-bit tags. *)
Record At (st0 st : dift_state) (s : loc -> Z) : Prop := {
  at_frame : same_frame st0 st;
  at_wf : dift_wf st;
  at_taint : forall l, taint st l = s l;
  at_tag : forall l, covers 127 (s l)
}.

(** [s] with [n] bytes from [d] set to [g]. *)
Definition supd (s : loc -> Z) (d : loc) (n : Z) (g : Z -> Z) (l : loc) : Z :=
  if region_eqb d.1 l.1 && within d.2 n l.2 then g (l.2 - d.2) else s l.

Definition table_with (st : dift_state) (r : region) (t : table) : dift_state :=
  match r with
  | Reg => with_reg st t
  | Xmm => with_xmm st t
  | Mem => with_mem st t
  end.

Lemma region_eqb_refl r : region_eqb r r = true.
Proof. by destruct r. Qed.

Lemma supd_hit s r a n g b : a <= b < a + n -> supd s (r, a) n g (r, b) = g (b - a).
Proof.
  intros. unfold supd. simpl. rewrite region_eqb_refl.
  assert (within a n b = true) as -> by by apply within_true. done.
Qed.

Lemma supd_miss s r a n g b : ~ (a <= b < a + n) -> supd s (r, a) n g (r, b) = s (r, b).
Proof.
  intros. unfold supd. simpl.
  assert (within a n b = false) as -> by by apply within_false. by rewrite andb_false_r.
Qed.

Lemma supd_other s r a n g r' b : region_eqb r r' = false -> supd s (r, a) n g (r', b) = s (r', b).
Proof. intros H. unfold supd. simpl. by rewrite H. Qed.

Lemma supd_covers s d n g m l :
  (forall l, covers m (s l)) -> (forall k, covers m (g k)) -> covers m (supd s d n g l).
Proof. intros. unfold supd. case_if; auto. Qed.

Lemma At_init st : dift_wf st -> tags_in 127 st -> At st st (taint st).
Proof.
  intros Hwf Ht. split; [done|done|done|].
  intros [[] a]; unfold taint; simpl; apply Ht.
Qed.

Lemma tags_at st0 st s m :
  At st0 st s -> tags_in m st0 -> (forall l, covers m (s l)) -> tags_in m st.
Proof.
  intros A Ht Hs. pose proof (at_taint _ _ _ A) as Ha.
  split; intros.
  - specialize (Ha (Reg, a)). unfold taint in Ha. simpl in Ha. rewrite Ha. auto.
  - specialize (Ha (Xmm, a)). unfold taint in Ha. simpl in Ha. rewrite Ha. auto.
  - specialize (Ha (Mem, a)). unfold taint in Ha. simpl in Ha. rewrite Ha. auto.
  - rewrite (fr_hd _ _ (at_frame _ _ _ A)) in H. by eapply Ht.
Qed.

Lemma At_table st0 st s r t d n g :
  At st0 st s -> d.1 = r -> (forall k, covers 127 (g k)) ->
  tbl_agrees (table_of st r) t
    (fun x => if within d.2 n x then g (x - d.2) else tbl_get (table_of st r) x) ->
  At st0 (table_with st r t) (supd s d n g).
Proof.
  intros A Hd Hg [Hs Ht]. destruct A as [[] W T C]. split.
  - by destruct r.
  - destruct W, r; constructor; simpl in *; auto; congruence || lia.
  - intros [r' x]. pose proof (T (r', x)) as Tx. unfold supd, taint in *. rewrite Hd. simpl in *.
    destruct r, r'; simpl in *; try done; rewrite Ht; by destruct (within _ _ _).
  - intros l. by apply supd_covers.
Qed.

(** *** Rules for the statements of the handlers *)

Lemma wp_bind {A B} (m : M A) (f : A -> M B) st s Q :
  wp m st s (fun a st' s' => wp (f a) st' s' Q) -> wp (m ≫= f) st s Q.
Proof.
  intros (a & st' & s' & E & b & st'' & s'' & E' & HQ). exists b, st'', s''.
  split; [|done]. unfold mbind, M_bind. rewrite E. simpl. done.
Qed.

Lemma wp_ret {A} (a : A) st s Q : Q a st s -> wp (mret a) st s Q.
Proof. intros. by exists a, st, s. Qed.

Lemma wp_weaken {A} (m : M A) st s Q Q' :
  wp m st s Q -> (forall a st' s', Q a st' s' -> Q' a st' s') -> wp m st s Q'.
Proof. intros (a & st' & s' & E & HQ) HW. exists a, st', s'. auto. Qed.

Lemma wp_deq x s' st s Q :
  deq s = Some (x, s') -> Q x st s' -> wp DEQ_FROM_ADDR st s Q.
Proof.
  intros E HQ. exists x, st, s'. split; [|done].
  unfold deq in E. unfold DEQ_FROM_ADDR, DEQ_FROM_CODE. destruct s as [c [[|y l]|]]; simpl in *.
  - done.
  - by simplify_eq.
  - destruct c; by simplify_eq.
Qed.

Section Rules.
Context (st0 st : dift_state) (σ : loc -> Z) (s : streams).
Context (HA : At st0 st σ).

Let ram : Z := phys_ram_size st0.

Lemma at_ram : phys_ram_size st = ram.
Proof. apply HA. Qed.

Lemma at_ram_range : 0 <= ram.
Proof. rewrite <- at_ram. apply wf_ram, HA. Qed.

Lemma at_mem_size : ram + 4096 <= tbl_size (mem_dirty_tbl st).
Proof. rewrite <- at_ram. apply wf_mem, HA. Qed.

Lemma wp_or_clean_source a Q :
  0 <= a ->
  (forall ra, ra = source_addr ram a -> 0 <= ra <= ram -> Q ra st s) ->
  wp (or_clean_source a) st s Q.
Proof.
  intros Ha HQ. eexists _, st, s. split; [done|]. pose proof at_ram_range.
  rewrite (wf_clean _ (at_wf _ _ _ HA)), at_ram. apply HQ; [done|].
  destruct (Z.ltb_spec a ram); lia.
Qed.

Lemma wp_or_null_sink a Q :
  0 <= a ->
  (forall wa, wa = sink_addr ram a -> 0 <= wa <= ram + 1 -> Q wa st s) ->
  wp (or_null_sink a) st s Q.
Proof.
  intros Ha HQ. eexists _, st, s. split; [done|]. pose proof at_ram_range.
  rewrite (wf_null _ (at_wf _ _ _ HA)), at_ram. apply HQ; [done|].
  destruct (Z.ltb_spec a ram); lia.
Qed.

Lemma at_get r a : tbl_get (table_of st r) a = σ (r, a).
Proof. apply (at_taint _ _ _ HA (r, a)). Qed.

Lemma load_table r n a :
  0 <= a -> a + Z.of_nat n <= tbl_size (table_of st r) ->
  tbl_load n (table_of st r) a = Ret (le_word (fun k => σ (r, a + k)) n).
Proof.
  intros. rewrite tbl_load_ok by done. f_equal. apply le_word_ext. intros. apply at_get.
Qed.

Lemma store_table r n a g :
  0 <= a -> a + Z.of_nat n <= tbl_size (table_of st r) -> (forall k, covers 127 (g k)) ->
  exists t, tbl_store n (table_of st r) a (le_word g n) = Ret t /\
    At st0 (table_with st r t) (supd σ (r, a) (Z.of_nat n) g).
Proof.
  intros Ha Hs Hg. destruct (tbl_store_ok n (table_of st r) a (le_word g n)) as (t & E & Hz & Ht);
    [done..|]. exists t. split; [done|]. apply At_table; [done|done|done|].
  split; [done|]. intros x. rewrite Ht. simpl. destruct (within a (Z.of_nat n) x) eqn:Ew; [|done].
  apply within_true in Ew. apply le_word_bytes; [apply Hg|lia].
Qed.

Lemma write_table r a v :
  0 <= a < tbl_size (table_of st r) -> covers 127 v ->
  exists t, tbl_write (table_of st r) a v = Ret t /\
    At st0 (table_with st r t) (supd σ (r, a) 1 (fun _ => v)).
Proof.
  intros Ha Hv. rewrite tbl_write_ok by done. eexists. split; [done|].
  apply At_table; [done|done|done|]. split; [done|]. intros x. simpl. rewrite tbl_get_set.
  split_tests; lia.
Qed.

Lemma wp_reg i j Q :
  0 <= i < 24 -> 0 <= j < 8 -> Q (σ (Reg, 8 * i + j)) st s -> wp (reg i j) st s Q.
Proof.
  intros Hi Hj HQ. pose proof (wf_reg _ (at_wf _ _ _ HA)).
  eexists _, st, s. split; [|exact HQ]. unfold reg.
  destruct (Z.leb_spec 0 j), (Z.ltb_spec j 8); try lia; simpl.
  rewrite tbl_read_ok by lia. simpl. by rewrite (at_get Reg).
Qed.

Lemma wp_set_reg i j v Q :
  0 <= i < 24 -> 0 <= j < 8 -> covers 127 v ->
  (forall st', At st0 st' (supd σ (Reg, 8 * i + j) 1 (fun _ => v)) -> Q tt st' s) ->
  wp (set_reg i j v) st s Q.
Proof.
  intros Hi Hj Hv HQ. pose proof (wf_reg _ (at_wf _ _ _ HA)).
  destruct (write_table Reg (8 * i + j) v) as (t & E & A); [simpl; lia|done|].
  eexists _, _, s. split; [|by apply HQ]. unfold set_reg.
  destruct (Z.leb_spec 0 j), (Z.ltb_spec j 8); try lia; simpl in *. by rewrite E.
Qed.

Lemma wp_reg_word n i Q :
  0 <= i < 24 -> (n <= 8)%nat -> Q (le_word (fun k => σ (Reg, 8 * i + k)) n) st s ->
  wp (reg_word n i) st s Q.
Proof.
  intros Hi Hn HQ. pose proof (wf_reg _ (at_wf _ _ _ HA)). eexists _, st, s. split; [|exact HQ].
  unfold reg_word. rewrite (load_table Reg) by (simpl; lia). done.
Qed.

Lemma wp_set_reg_word n i g Q :
  0 <= i < 24 -> (n <= 8)%nat -> (forall k, covers 127 (g k)) ->
  (forall st', At st0 st' (supd σ (Reg, 8 * i) (Z.of_nat n) g) -> Q tt st' s) ->
  wp (set_reg_word n i (le_word g n)) st s Q.
Proof.
  intros Hi Hn Hg HQ. pose proof (wf_reg _ (at_wf _ _ _ HA)).
  destruct (store_table Reg n (8 * i) g) as (t & E & A); [lia|simpl; lia|done|].
  eexists _, _, s. split; [|by apply HQ]. unfold set_reg_word. simpl in E. by rewrite E.
Qed.

Lemma wp_xmm_word n i j Q :
  0 <= i < 16 -> 0 <= j -> j + Z.of_nat n <= 16 ->
  Q (le_word (fun k => σ (Xmm, 16 * i + j + k)) n) st s -> wp (xmm_word n i j) st s Q.
Proof.
  intros Hi Hj Hn HQ. pose proof (wf_xmm _ (at_wf _ _ _ HA)). eexists _, st, s. split; [|exact HQ].
  unfold xmm_word. rewrite (load_table Xmm) by (simpl; lia). done.
Qed.

Lemma wp_set_xmm_word n i j g Q :
  0 <= i < 16 -> 0 <= j -> j + Z.of_nat n <= 16 -> (forall k, covers 127 (g k)) ->
  (forall st', At st0 st' (supd σ (Xmm, 16 * i + j) (Z.of_nat n) g) -> Q tt st' s) ->
  wp (set_xmm_word n i j (le_word g n)) st s Q.
Proof.
  intros Hi Hj Hn Hg HQ. pose proof (wf_xmm _ (at_wf _ _ _ HA)).
  destruct (store_table Xmm n (16 * i + j) g) as (t & E & A); [lia|simpl; lia|done|].
  eexists _, _, s. split; [|by apply HQ]. unfold set_xmm_word. simpl in E. by rewrite E.
Qed.

Lemma wp_mem a Q :
  0 <= a <= ram + 1 -> Q (σ (Mem, a)) st s -> wp (mem a) st s Q.
Proof.
  intros Ha HQ. pose proof at_mem_size. eexists _, st, s. split; [|exact HQ]. unfold mem.
  rewrite tbl_read_ok by lia. simpl. by rewrite (at_get Mem).
Qed.

Lemma wp_set_mem a v Q :
  0 <= a <= ram + 1 -> covers 127 v ->
  (forall st', At st0 st' (supd σ (Mem, a) 1 (fun _ => v)) -> Q tt st' s) ->
  wp (set_mem a v) st s Q.
Proof.
  intros Ha Hv HQ. pose proof at_mem_size.
  destruct (write_table Mem a v) as (t & E & A); [simpl; lia|done|].
  eexists _, _, s. split; [|by apply HQ]. unfold set_mem. simpl in E. by rewrite E.
Qed.

Lemma wp_mem_word n a Q :
  0 <= a <= ram + 16 -> (n <= 16)%nat -> Q (le_word (fun k => σ (Mem, a + k)) n) st s ->
  wp (mem_word n a) st s Q.
Proof.
  intros Ha Hn HQ. pose proof at_mem_size. eexists _, st, s. split; [|exact HQ]. unfold mem_word.
  rewrite (load_table Mem) by (simpl; lia). done.
Qed.

Lemma wp_set_mem_word n a g Q :
  0 <= a <= ram + 16 -> (n <= 16)%nat -> (forall k, covers 127 (g k)) ->
  (forall st', At st0 st' (supd σ (Mem, a) (Z.of_nat n) g) -> Q tt st' s) ->
  wp (set_mem_word n a (le_word g n)) st s Q.
Proof.
  intros Ha Hn Hg HQ. pose proof at_mem_size.
  destruct (store_table Mem n a g) as (t & E & A); [lia|simpl; lia|done|].
  eexists _, _, s. split; [|by apply HQ]. unfold set_mem_word. simpl in E. by rewrite E.
Qed.

Lemma wp_get_mem a Q :
  0 <= a -> Q (or_of σ (checked ram a)) st s -> wp (get_mem a) st s Q.
Proof.
  intros Ha HQ. eexists _, st, s. split; [|exact HQ]. unfold get_mem.
  rewrite get_mem_dirty_ok by (done || apply HA). rewrite at_ram. unfold checked. simpl.
  case_if; simpl; [|done]. by rewrite Z.lor_0_r, <- (at_get Mem).
Qed.

Lemma covers_127_tag v : covers 127 v -> 0 <= v < 128.
Proof.
  intros [Hv E]. change 127 with (Z.ones 7) in E. rewrite Z.land_ones in E by lia.
  pose proof (Z.mod_pos_bound v (2 ^ 7) ltac:(lia)). lia.
Qed.

Lemma wp_call_set_mem_dirty a n v (app : bool) Q :
  0 <= a <= ram + 1 -> (0 < n <= 16)%nat -> covers 127 v ->
  (forall st', (a + Z.of_nat n <=? ram) || (ram <=? a) = true ->
    At st0 st' (supd σ (Mem, a) (Z.of_nat n)
                  (fun k => if app then σ (Mem, a + k) .| v else v)) -> Q tt st' s) ->
  ((a + Z.of_nat n <=? ram) || (ram <=? a) = false -> Q tt st s) ->
  wp (call_set_mem_dirty a (Z.of_nat n) v app) st s Q.
Proof.
  intros Ha Hn Hv HQ HQ'. pose proof at_mem_size. pose proof at_ram.
  pose proof (is_valid_mem_range_spec st a (Z.of_nat n) (at_wf _ _ _ HA)) as Hr.
  unfold wp, call_set_mem_dirty.
  destruct ((a + Z.of_nat n <=? ram) || (ram <=? a)) eqn:E.
  - destruct (set_mem_dirty_ok st a (Z.of_nat n) v app) as (t & -> & Ht);
      [apply HA|lia|lia|by apply covers_127_tag| |lia|].
    { apply Hr. apply orb_true_iff in E as [E|E]; bool_to_prop; lia. }
    eexists _, _, s. split; [done|]. apply HQ; [done|].
    apply (At_table _ _ _ Mem); [done|done| |].
    + intros k. pose proof (at_tag _ _ _ HA). case_if; auto with mba.
    + destruct Ht as [Hs Ht]. split; [done|]. intros x. rewrite Ht. simpl.
      case_if; [|done]. replace (a + (x - a)) with x by lia. by rewrite <- (at_get Mem).
  - bool_to_prop. eexists _, _, s. split; [|by apply HQ'].
    unfold set_mem_dirty. destruct (is_valid_mem_range _ _ _) eqn:E'; [|done].
    destruct Hr as [Hr _]. specialize (Hr eq_refl). lia.
Qed.
End Rules.

Lemma le_word_lor f g n : le_word f n .| le_word g n = le_word (fun k => f k .| g k) n.
Proof.
  revert f g. induction n as [|n IH]; intros f g; [done|]. cbn [le_word].
  rewrite <- IH, Z.shiftl_lor. or_solve.
Qed.

Lemma le_word_0 n : 0 = le_word (fun _ => 0) n.
Proof. induction n as [|n IH]; [done|]. cbn [le_word]. by rewrite <- IH. Qed.

Lemma or_of_app s l1 l2 : or_of s (l1 ++ l2) = or_of s l1 .| or_of s l2.
Proof.
  induction l1 as [|l l1 IH]; simpl; [done|]. by rewrite IH, Z.lor_assoc.
Qed.

Lemma or_of_covers m s ls : (forall l, covers m (s l)) -> covers m (or_of s ls).
Proof. intros. induction ls; simpl; auto with mba. Qed.

#[export] Hint Resolve or_of_covers supd_covers : mba.

Lemma apply_flows_covers m fs s l :
  (forall l, covers m (s l)) -> covers m (apply_flows fs s l).
Proof. intros. induction fs; simpl; [done|]. case_if; auto with mba. Qed.

(** *** Running a handler *)

Lemma At_ext st0 st s s' : At st0 st s -> (forall l, s l = s' l) -> At st0 st s'.
Proof. intros [] H. split; [done|done| |]; intros l; rewrite <- H; auto. Qed.

(** The handler of [c] returns, takes its addresses off the queue and
    performs the flows of [c]. *)
Definition implements (c : dift_case) : Prop :=
  forall h rec st s addrs s',
    dispatch c = Some (Handler h) -> rec_ok c rec = true ->
    dift_wf st -> tags_in 127 st ->
    deq_n (addrs_of c) s = Some (addrs, s') -> Forall (fun a => 0 <= a < 2 ^ 64) addrs ->
    wp (h rec) st s (fun _ st' s1 =>
      s1 = s' /\ At st st' (apply_flows (policy (phys_ram_size st) c rec addrs) (taint st))).

(** The word 0 as a word of zero bytes. *)
Lemma wp_word_0 {A} (f : Z -> M A) n st s Q :
  wp (f (le_word (fun _ => 0) n)) st s Q -> wp (f 0) st s Q.
Proof. by rewrite <- le_word_0. Qed.

(** A byte of a word that was loaded. *)
Lemma byte_of_le_word f n k :
  (forall i, covers 127 (f i)) -> 0 <= k < Z.of_nat n -> byte_of (le_word f n) k = f k.
Proof. intros Hf. apply le_word_bytes. intros. apply Hf. Qed.

(** The value a load through earlier stores gives. *)
Ltac simpl_reads :=
  repeat first
    [ rewrite supd_hit by lia | rewrite supd_miss by lia | rewrite supd_other by reflexivity ].

(** Goals about the range of an operand and about tags. *)
Ltac operand := simpl; lia.
Ltac tags HA :=
  intros; cbn beta;
  repeat match goal with
  | |- covers _ (_ .| _) => apply covers_lor
  | |- covers _ 0 => apply covers_0
  | |- covers _ (or_of _ _) => apply or_of_covers; intros
  | |- covers _ (if _ then _ else _) => case_if
  | |- covers _ _ => apply (at_tag _ _ _ HA)
  | H : forall l, covers _ (taint _ l) |- _ => apply H
  end.

Ltac wp_step :=
  lazymatch goal with
  | |- wp (_ ≫= _) _ _ _ => apply wp_bind
  | |- wp (mret _) _ _ _ => apply wp_ret
  | |- wp (if ?b then _ else _) _ _ _ => destruct b eqn:?; bool_to_prop
  | E : deq ?s = Some (_, _) |- wp DEQ_FROM_ADDR _ ?s _ => apply (wp_deq _ _ _ _ _ E)
  | HA : At _ ?st _ |- wp (or_clean_source _) ?st _ _ =>
      apply (wp_or_clean_source _ _ _ _ HA); [lia|intros ? ? ?]
  | HA : At _ ?st _ |- wp (or_null_sink _) ?st _ _ =>
      apply (wp_or_null_sink _ _ _ _ HA); [lia|intros ? ? ?]
  | HA : At _ ?st _ |- wp (reg _ _) ?st _ _ =>
      apply (wp_reg _ _ _ _ HA); [operand|operand|simpl_reads]
  | HA : At _ ?st _ |- wp (set_reg _ _ _) ?st _ _ =>
      rewrite ?le_word_lor, ?byte_of_le_word by first [lia | solve [tags HA]];
      apply (wp_set_reg _ _ _ _ HA); [operand|operand|tags HA|clear HA; intros ? HA]
  | |- wp (set_reg_word ?n ?i 0) _ _ _ => apply (wp_word_0 (set_reg_word n i) n)
  | |- wp (set_xmm_word ?n ?i ?j 0) _ _ _ => apply (wp_word_0 (set_xmm_word n i j) n)
  | |- wp (set_mem_word ?n ?a 0) _ _ _ => apply (wp_word_0 (set_mem_word n a) n)
  | HA : At _ ?st _ |- wp (reg_word _ _) ?st _ _ =>
      apply (wp_reg_word _ _ _ _ HA); [operand|operand|]
  | HA : At _ ?st _ |- wp (set_reg_word _ _ _) ?st _ _ =>
      rewrite ?le_word_lor;
      apply (wp_set_reg_word _ _ _ _ HA); [operand|operand|tags HA|clear HA; intros ? HA]
  | HA : At _ ?st _ |- wp (xmm_word _ _ _) ?st _ _ =>
      apply (wp_xmm_word _ _ _ _ HA); [operand|operand|operand|]
  | HA : At _ ?st _ |- wp (set_xmm_word _ _ _ _) ?st _ _ =>
      apply (wp_set_xmm_word _ _ _ _ HA); [operand|operand|operand|tags HA|clear HA; intros ? HA]
  | HA : At _ ?st _ |- wp (mem _) ?st _ _ => apply (wp_mem _ _ _ _ HA); [operand|]
  | HA : At _ ?st _ |- wp (set_mem _ _) ?st _ _ =>
      apply (wp_set_mem _ _ _ _ HA); [operand|tags HA|clear HA; intros ? HA]
  | HA : At _ ?st _ |- wp (mem_word _ _) ?st _ _ =>
      apply (wp_mem_word _ _ _ _ HA); [operand|operand|]
  | HA : At _ ?st _ |- wp (set_mem_word _ _ _) ?st _ _ =>
      rewrite ?le_word_lor;
      apply (wp_set_mem_word _ _ _ _ HA); [operand|operand|tags HA|clear HA; intros ? HA]
  | HA : At _ ?st _ |- wp (get_mem _) ?st _ _ => apply (wp_get_mem _ _ _ _ HA); [operand|]
  | HA : At _ ?st _ |- wp (call_set_mem_dirty _ (Zpos ?n) _ _) ?st _ _ =>
      let m := eval compute in (Pos.to_nat n) in
      apply (wp_call_set_mem_dirty _ _ _ _ HA _ m);
      [operand|operand|tags HA
      |clear HA; intros ? Hv HA; cbv [Z.of_nat Pos.of_succ_nat Pos.succ] in Hv
      |intros Hv; cbv [Z.of_nat Pos.of_succ_nat Pos.succ] in Hv]
  end.

Lemma or_of_nil s : or_of s [] = 0.
Proof. done. Qed.

Lemma or_of_cons s l ls : or_of s (l :: ls) = s l .| or_of s ls.
Proof. done. Qed.

Lemma or_of_checked s ram a : or_of s (checked ram a) = if a <? ram + 2 then s (Mem, a) else 0.
Proof. unfold checked. case_if; [apply Z.lor_0_r|done]. Qed.

Lemma or_of_addr_reg s r n : or_of s (addr_reg r n) = if r =? R_NONE then 0 else or_of s (span (rloc r 0) n).
Proof. unfold addr_reg. by case_if. Qed.

Arguments or_of : simpl never.
Arguments checked : simpl never.
Arguments addr_reg : simpl never.

(** Decide the range tests of the goal, dropping impossible combinations. *)
Ltac decide_tests :=
  repeat (match goal with
  | |- context [within ?lo ?n ?a] =>
      let E := fresh in
      destruct (within lo n a) eqn:E; [apply within_true in E|apply within_false in E]
  | |- context [?a <? ?b] => destruct (Z.ltb_spec a b)
  | |- context [?a =? ?b] => destruct (Z.eqb_spec a b)
  end; try (exfalso; lia)).

Ltac same_taint :=
  try match goal with
  | H : ?lo <= ?x < ?lo + 1 |- _ => assert (x = lo) as -> by lia
  end;
  rewrite ?Z.add_simpl_l, ?Z.sub_diag, ?Z.add_0_r, ?Z.lor_0_r;
  first [ same | or_solve | (do 2 f_equal; lia) ].

Ltac flow_eval :=
  cbv [policy reg_reg_policy reg_mem_policy mem_reg_policy mem_mem_policy xmm_policy nth
       f_dst f_len f_src oo_assign oo_append mix_assign clear checked_store
       checked_span reg_mem_8 reg_mem span loc_add rloc xloc R_NONE
       Z.of_nat Pos.of_succ_nat Pos.succ];
  cbn [app apply_flows hits f_dst f_len f_src fst snd foldr seq fmap list_fmap
       supd region_eqb andb];
  cbv [hits supd f_dst f_len f_src fst snd region_eqb andb Z.of_nat Pos.of_succ_nat Pos.succ].

(** The stores a handler made are the flows of its case. *)
Ltac flows_match :=
  split; [done|]; eapply At_ext; [eassumption|]; intros [[] x];
  flow_eval;
  repeat match goal with
  | H : ?v = source_addr _ _ |- _ => rewrite <- H
  | H : ?v = sink_addr _ _ |- _ => rewrite <- H
  | H : _ || _ = _ |- _ => rewrite H
  end;
  flow_eval;
  repeat first [ rewrite or_of_app | rewrite or_of_cons | rewrite or_of_nil
               | rewrite or_of_checked | rewrite or_of_addr_reg ];
  flow_eval; rewrite ?or_of_cons, ?or_of_nil, ?Z.add_0_r; flow_eval;
  decide_tests; same_taint.

Ltac run_handler :=
  let Hd := fresh in let Hr := fresh in let Hq := fresh in let Ha := fresh in
  let HA := fresh "HA" in
  intros h rec st s addrs s' Hd Hr Hwf Ht Hq Ha;
  unfold rec_ok in Hr; simpl in Hr; bool_to_prop;
  simpl in Hd; injection Hd as <-;
  repeat match goal with
  | H : ?f rec < _ |- _ =>
      lazymatch goal with
      | _ : 0 <= f rec |- _ => fail
      | _ => assert (0 <= f rec) by apply byte_of_range
      end
  | H : ?f rec <= _ |- _ =>
      lazymatch goal with
      | _ : 0 <= f rec |- _ => fail
      | _ => assert (0 <= f rec) by apply byte_of_range
      end
  end;
  pose proof (At_init _ Hwf Ht) as HA; pose proof (at_tag _ _ _ HA) as HT;
  simpl in Hq;
  repeat match goal with
  | H : (?m ≫= _) = Some _ |- _ =>
      match m with context [deq ?x] =>
        destruct (deq x) as [[? ?]|] eqn:?; simpl in H; [|discriminate H]
      end
  end;
  simplify_eq;
  repeat match goal with H : Forall _ (_ :: _) |- _ => inversion H; clear H; subst end.

(** Run a handler and compare its stores with its case. *)
Ltac handler :=
  run_handler;
  match goal with |- wp (?h _) _ _ _ => unfold h end;
  cbv zeta; unfold R_NONE in *; repeat wp_step; flows_match.

Lemma all_implement c : is_propagation c = true -> implements c.
Proof. destruct c; intros Hc; try discriminate Hc; clear Hc; handler. Qed.

(** What a propagation record does, stated on states alone. *)
Lemma propagation_step c h rec st s addrs s' :
  is_propagation c = true -> dispatch c = Some (Handler h) -> rec_ok c rec = true ->
  dift_wf st -> tags_in 127 st ->
  deq_n (addrs_of c) s = Some (addrs, s') -> Forall (fun a => 0 <= a < 2 ^ 64) addrs ->
  exists st', h rec st s = Ret (tt, st', s') /\
    same_frame st st' /\ dift_wf st' /\
    (forall m, tags_in m st -> tags_in m st') /\
    (forall l, taint st' l =
               apply_flows (policy (phys_ram_size st) c rec addrs) (taint st) l).
Proof.
  intros Hp Hd Hr Hwf Ht Hq Ha.
  destruct (all_implement c Hp h rec st s addrs s' Hd Hr Hwf Ht Hq Ha)
    as ([] & st' & s1 & E & -> & A).
  exists st'. split_and!; [done|apply A|apply A| |apply A].
  intros m Hm. eapply tags_at; [done|done|]. intros l. apply apply_flows_covers.
  intros [[] x]; unfold taint; simpl; apply Hm.
Qed.

(** A record for a register and an address formed from no register. *)
Definition demo_rec (c : dift_case) (r : Z) : dift_record :=
  case_number c .| Z.shiftl r 8 .| Z.shiftl R_NONE 16 .| Z.shiftl R_NONE 24.

(** The same for a byte-sized operand: the low byte of a register. *)
Definition demo_rec8 (c : dift_case) (r : Z) : dift_record :=
  case_number c .| Z.shiftl r 8 .| Z.shiftl R_NONE 24 .| Z.shiftl R_NONE 32.

Definition demo_streams (addrs : list Z) : streams := Streams [] (Some addrs).

(** The example state with the lowest byte of register 0 tainted. *)
Definition demo_tainted : dift_state := with_reg demo_state (tbl_set (tbl_new 192) 0 5).

Lemma demo_tainted_wf : dift_wf demo_tainted.
Proof. constructor; simpl; try lia; done. Qed.

Lemma demo_tainted_tags m : covers m 5 -> tags_in m demo_tainted.
Proof.
  intros Hm. constructor; intros; try (apply covers_0 || done).
  unfold demo_tainted. simpl. rewrite tbl_get_set. case_if; [done|apply covers_0].
Qed.

(** Evaluate the flows of a record at one byte. *)
Ltac flow_at :=
  flow_eval;
  repeat first [ rewrite or_of_app | rewrite or_of_cons | rewrite or_of_nil
               | rewrite or_of_checked | rewrite or_of_addr_reg ];
  rewrite ?Z.add_0_r; unfold source_addr, sink_addr;
  repeat (match goal with |- context [?a <? ?b] => destruct (Z.ltb_spec a b) end;
          try (exfalso; lia));
  decide_tests; rewrite ?Z.lor_0_r; first [same | (do 2 f_equal; lia)].

(** * Properties *)

(** C3: The propagation policy: for each of the eighty propagation cases, a
    record whose operands name existing registers makes its handler return
    without any out-of-bounds access, take exactly its addresses off the queue,
    touch neither the disk tables nor the configuration, and give every byte of
    every table the union of the tags that the flows of its case name, for
    every guest address, in RAM or not. *)
Theorem handlers_implement_policy c h rec st s addrs s' :
  is_propagation c = true -> dispatch c = Some (Handler h) -> rec_ok c rec = true ->
  dift_wf st -> tags_in 127 st ->
  deq_n (addrs_of c) s = Some (addrs, s') -> Forall (fun a => 0 <= a < 2 ^ 64) addrs ->
  exists st', h rec st s = Ret (tt, st', s') /\ same_frame st st' /\ dift_wf st' /\
    forall l, taint st' l = apply_flows (policy (phys_ram_size st) c rec addrs) (taint st) l.
Proof.
  intros. destruct (propagation_step c h rec st s addrs s') as (st' & ? & ? & ? & ? & ?);
    [done..|]. by exists st'.
Qed.

Lemma handlers_implement_policy_witness :
  exists st', rt_reg_mem_mix_append_mo64 (demo_rec REG_MEM_MIX_APPEND_MO64 3)
                demo_state (demo_streams [62]) = Ret (tt, st', demo_streams []) /\ dift_wf st'.
Proof.
  destruct (handlers_implement_policy REG_MEM_MIX_APPEND_MO64 rt_reg_mem_mix_append_mo64
    (demo_rec REG_MEM_MIX_APPEND_MO64 3) demo_state (demo_streams [62]) [62] (demo_streams []))
    as (st' & E & _ & W & _).
  - reflexivity.
  - reflexivity.
  - vm_compute. reflexivity.
  - apply demo_wf.
  - apply demo_tags.
  - reflexivity.
  - repeat constructor; lia.
  - exists st'. split; [exact E|exact W].
Defined.

(** C28: Propagation never invents taint: if all tags lie within a mask before a
    propagation record, they do after it; in particular the reserved eighth
    bit stays clear. *)
Theorem handlers_create_no_taint c h rec st s addrs s' m :
  is_propagation c = true -> dispatch c = Some (Handler h) -> rec_ok c rec = true ->
  dift_wf st -> tags_in 127 st ->
  deq_n (addrs_of c) s = Some (addrs, s') -> Forall (fun a => 0 <= a < 2 ^ 64) addrs ->
  tags_in m st ->
  exists st', h rec st s = Ret (tt, st', s') /\ tags_in m st' /\ tags_in 127 st'.
Proof.
  intros ????? ?? Hm.
  destruct (propagation_step c h rec st s addrs s') as (st' & E & _ & _ & T & _); [done..|].
  exists st'. auto.
Qed.

Lemma handlers_create_no_taint_witness :
  exists st', rt_mem_reg_mix_assign_mo32 (demo_rec MEM_REG_MIX_ASSIGN_MO32 0)
                demo_tainted (demo_streams [10]) = Ret (tt, st', demo_streams []) /\
              tags_in 5 st' /\ tags_in 127 st'.
Proof.
  apply (handlers_create_no_taint MEM_REG_MIX_ASSIGN_MO32 rt_mem_reg_mix_assign_mo32
    (demo_rec MEM_REG_MIX_ASSIGN_MO32 0) demo_tainted (demo_streams [10]) [10] (demo_streams [])).
  - reflexivity.
  - reflexivity.
  - vm_compute. reflexivity.
  - apply demo_tainted_wf.
  - apply demo_tainted_tags. split; [lia|reflexivity].
  - reflexivity.
  - repeat constructor; lia.
  - apply demo_tainted_tags. split; [lia|reflexivity].
Defined.

(** Device memory is not a clean source: when a guest stores a tainted
    register byte to an address outside the RAM and later loads four bytes from
    any address outside the RAM, byte 1 of the loaded register takes the taint
    that was stored, because the null sink lies right after the clean source. *)
Theorem mmio_store_taints_mmio_load st w r rec1 rec2 :
  dift_wf st -> tags_in 127 st ->
  rec_ok MEM_REG_OO_ASSIGN_MO8 rec1 = true -> rec_ok REG_MEM_OO_ASSIGN_MO32 rec2 = true ->
  phys_ram_size st <= w < 2 ^ 64 -> phys_ram_size st <= r < 2 ^ 64 ->
  exists st1 st2,
    rt_mem_reg_oo_assign_mo8 rec1 st (demo_streams [w; r]) = Ret (tt, st1, demo_streams [r]) /\
    rt_reg_mem_oo_assign_mo32 rec2 st1 (demo_streams [r]) = Ret (tt, st2, demo_streams []) /\
    taint st2 (rloc (r2m_m2r_reg rec2) 1) =
    taint st (rloc (r2m_m2r_byte_reg rec1) (r2m_m2r_byte_hl rec1)).
Proof.
  intros Hwf Ht H1 H2 Hw Hr. pose proof (wf_ram _ Hwf).
  destruct (propagation_step MEM_REG_OO_ASSIGN_MO8 rt_mem_reg_oo_assign_mo8 rec1 st
    (demo_streams [w; r]) [w] (demo_streams [r])) as (st1 & E1 & F1 & W1 & T1 & P1); try done.
  { repeat constructor; lia. }
  destruct (propagation_step REG_MEM_OO_ASSIGN_MO32 rt_reg_mem_oo_assign_mo32 rec2 st1
    (demo_streams [r]) [r] (demo_streams [])) as (st2 & E2 & F2 & W2 & T2 & P2); try done.
  { auto. }
  { repeat constructor; lia. }
  exists st1, st2. split; [done|]. split; [done|]. rewrite P2, (fr_ram _ _ F1).
  assert (Hs : taint st1 (Mem, phys_ram_size st + 1) =
    taint st (rloc (r2m_m2r_byte_reg rec1) (r2m_m2r_byte_hl rec1))).
  { rewrite P1. flow_eval. unfold sink_addr. destruct (Z.ltb_spec w (phys_ram_size st)); [lia|].
    destruct (Z.leb_spec (phys_ram_size st) (phys_ram_size st + 1)); [|lia].
    rewrite orb_true_r. flow_at. }
  rewrite <- Hs. flow_at.
Qed.

Lemma mmio_store_taints_mmio_load_witness :
  exists st1 st2,
    rt_mem_reg_oo_assign_mo8 (demo_rec8 MEM_REG_OO_ASSIGN_MO8 0) demo_tainted
      (demo_streams [4096; 8192]) = Ret (tt, st1, demo_streams [8192]) /\
    rt_reg_mem_oo_assign_mo32 (demo_rec REG_MEM_OO_ASSIGN_MO32 1) st1
      (demo_streams [8192]) = Ret (tt, st2, demo_streams []) /\
    taint st2 (rloc 1 1) = 5.
Proof.
  destruct (mmio_store_taints_mmio_load demo_tainted 4096 8192
    (demo_rec8 MEM_REG_OO_ASSIGN_MO8 0) (demo_rec REG_MEM_OO_ASSIGN_MO32 1))
    as (st1 & st2 & E1 & E2 & T).
  - apply demo_tainted_wf.
  - apply demo_tainted_tags. split; [lia|reflexivity].
  - vm_compute. reflexivity.
  - vm_compute. reflexivity.
  - simpl. lia.
  - simpl. lia.
  - exists st1, st2. split; [exact E1|]. split; [exact E2|]. exact T.
Defined.

(** The SSE load that duplicates a 64-bit memory operand into both halves
    of a register: its handler takes the taint of the upper half from the next
    eight bytes of memory instead of the operand, unlike the register form of
    the same instruction. *)
Theorem xmm_mem_dup_mo64_reads_next_word st a rec :
  dift_wf st -> tags_in 127 st -> rec_ok XMM_MEM_OO_ASSIGN_DUP_MO64 rec = true ->
  0 <= a -> a + 16 <= phys_ram_size st -> phys_ram_size st < 2 ^ 64 ->
  exists st', rt_xmm_mem_oo_assign_dup_mo64 rec st (demo_streams [a]) =
      Ret (tt, st', demo_streams []) /\
    forall k, 0 <= k < 8 ->
      taint st' (xloc (r2m_m2r_reg rec) k) = taint st (Mem, a + k) /\
      taint st' (xloc (r2m_m2r_reg rec) (8 + k)) = taint st (Mem, a + 8 + k).
Proof.
  intros Hwf Ht Hr Ha Hs H64.
  destruct (propagation_step XMM_MEM_OO_ASSIGN_DUP_MO64 rt_xmm_mem_oo_assign_dup_mo64 rec st
    (demo_streams [a]) [a] (demo_streams [])) as (st' & E & _ & _ & _ & P); try done.
  { repeat constructor; lia. }
  exists st'. split; [done|]. intros k Hk. rewrite !P. split; flow_at.
Qed.

Lemma xmm_mem_dup_mo64_reads_next_word_witness :
  exists st', rt_xmm_mem_oo_assign_dup_mo64 (demo_rec XMM_MEM_OO_ASSIGN_DUP_MO64 2)
    demo_state (demo_streams [16]) = Ret (tt, st', demo_streams []).
Proof.
  destruct (xmm_mem_dup_mo64_reads_next_word demo_state 16
    (demo_rec XMM_MEM_OO_ASSIGN_DUP_MO64 2)) as (st' & E & _).
  - apply demo_wf.
  - apply demo_tags.
  - vm_compute. reflexivity.
  - lia.
  - simpl. lia.
  - simpl. lia.
  - exists st'. exact E.
Defined.

(** At the last bytes of the RAM the two ways of storing differ: a 4-byte
    mixed store that runs over the end is dropped, while the byte-by-byte one
    is performed and its last bytes land in the clean source and beyond. *)
Theorem stores_at_ram_end st a rec :
  dift_wf st -> tags_in 127 st ->
  rec_ok MEM_REG_MIX_ASSIGN_MO32 rec = true ->
  0 <= a < phys_ram_size st -> phys_ram_size st < a + 4 -> phys_ram_size st < 2 ^ 64 ->
  exists st1 st2,
    rt_mem_reg_mix_assign_mo32 rec st (demo_streams [a]) = Ret (tt, st1, demo_streams []) /\
    (forall l, taint st1 l = taint st l) /\
    rt_mem_reg_oo_assign_mo32 rec st (demo_streams [a]) = Ret (tt, st2, demo_streams []) /\
    taint st2 (Mem, clean_source st) = taint st (rloc (r2m_m2r_reg rec) (phys_ram_size st - a)).
Proof.
  intros Hwf Ht Hr Ha Hs H64.
  destruct (propagation_step MEM_REG_MIX_ASSIGN_MO32 rt_mem_reg_mix_assign_mo32 rec st
    (demo_streams [a]) [a] (demo_streams [])) as (st1 & E1 & _ & _ & _ & P1); try done.
  { repeat constructor; lia. }
  destruct (propagation_step MEM_REG_OO_ASSIGN_MO32 rt_mem_reg_oo_assign_mo32 rec st
    (demo_streams [a]) [a] (demo_streams [])) as (st2 & E2 & _ & _ & _ & P2); try done.
  { repeat constructor; lia. }
  exists st1, st2. split; [done|]. split.
  - intros l. rewrite P1. flow_eval. unfold sink_addr.
    destruct (Z.ltb_spec a (phys_ram_size st)); [|lia].
    destruct (Z.leb_spec (a + 4) (phys_ram_size st)); [lia|].
    destruct (Z.leb_spec (phys_ram_size st) a); [lia|]. done.
  - split; [done|]. rewrite P2, (wf_clean _ Hwf). flow_at.
Qed.

Lemma stores_at_ram_end_witness :
  exists st1 st2,
    rt_mem_reg_mix_assign_mo32 (demo_rec MEM_REG_MIX_ASSIGN_MO32 0) demo_tainted
      (demo_streams [63]) = Ret (tt, st1, demo_streams []) /\
    rt_mem_reg_oo_assign_mo32 (demo_rec MEM_REG_MIX_ASSIGN_MO32 0) demo_tainted
      (demo_streams [63]) = Ret (tt, st2, demo_streams []).
Proof.
  destruct (stores_at_ram_end demo_tainted 63 (demo_rec MEM_REG_MIX_ASSIGN_MO32 0))
    as (st1 & st2 & E1 & _ & E2 & _).
  - apply demo_tainted_wf.
  - apply demo_tainted_tags. split; [lia|reflexivity].
  - vm_compute. reflexivity.
  - simpl. lia.
  - simpl. lia.
  - simpl. lia.
  - exists st1, st2. split; [exact E1|exact E2].
Defined.
