(* ===== verification/DiftInterp.v ===== *)
(** * The DIFT code interpreter

    The threaded dispatch of [interpret_dift_codes_rest] and
    [interpret_dift_codes], and the main loop of the analysis thread
    ([ext/dift/dift.c]), as a consumer of the words the queue delivers. An
    abstract machine gives every record its effect on the taint of registers,
    memory and disk; the interpreter is shown to refine it. *)

From S2P Require Import Prelude DiftState DiftPolicy DiftFlow.

(** ** The interpreter *)

(** [THREADED_DISPATCH] until [rt_rec_end]. Every turn takes at least one word
    of [ptr_code], so a fuel above its length is never used up; a jump through
    an unset slot, or past the 91 case numbers, is [UB]. *)
Fixpoint threaded_dispatch (fuel : nat) (st : dift_state) (s : streams)
  : res (dift_state * streams) :=
  match fuel with
  | O => UB
  | S f =>
      '(rec, st1, s1) ← DEQ_FROM_CODE st s;
      match case_of_number (case_nb rec) ≫= dispatch with
      | None => UB
      | Some rt_rec_end => Ret (st1, s1)
      | Some (Handler h) =>
          '(_, st2, s2) ← h rec st1 s1;
          threaded_dispatch f st2 s2
      end
  end.

Definition interpret_dift_codes_rest (st : dift_state) (codes : list Z) : res dift_state :=
  '(st', _) ← threaded_dispatch (S (length codes)) st (Streams codes None);
  Ret st'.

Definition CONFIG_IF_CODES_PER_TB : Z := 160.

(** [dift_code_buffer] is the list of its words; [loc_cntr_off] is the word
    taken off the queue and [ptr_addr] what the main loop has collected. *)
Definition interpret_dift_codes (st : dift_state) (dift_code_buffer : list Z)
    (loc_cntr_off : Z) (ptr_addr : list Z) : res (dift_state * list Z) :=
  let loc := Z.shiftr (Z.land loc_cntr_off 0xffffffff00000000) 32 in
  let cntr := Z.shiftr (Z.land loc_cntr_off 0x00000000ffff0000) 16 in
  let off := Z.land loc_cntr_off 0x000000000000ffff in
  let off := if cntr <? off then 0 else off in
  let ptr_code := loc * CONFIG_IF_CODES_PER_TB + off in
  let ptr_code_end := ptr_code + (cntr - off) in
  match dift_code_buffer !! Z.to_nat ptr_code_end with
  | None => UB
  | Some end_backup =>
      let buffer1 := <[Z.to_nat ptr_code_end := case_number REC_END]> dift_code_buffer in
      let codes := drop (Z.to_nat ptr_code) buffer1 in
      '(st1, s1) ← threaded_dispatch (S (length codes)) st (Streams codes (Some ptr_addr));
      let buffer2 := <[Z.to_nat ptr_code_end := end_backup]> buffer1 in
      st2 ← interpret_dift_codes_rest st1 (default [] (DiftPolicy.ptr_addr s1));
      Ret (st2, buffer2)
  end.

(** ** The main loop of the analysis thread *)

Definition REC_END_SYMBOL : Z := 0x9a0a0a0000000000.

Record analysis : Type := Analysis {
  an_dc : dift_state;
  an_code_buffer : list Z;
  q_addrs : list Z;
  dift_thread_ok_signal : Z
}.

(** [*(q_addrs_top++) = data] on the array of 4096 words. *)
Definition push_addr (q : list Z) (data : Z) : res (list Z) :=
  if Z.of_nat (length q) <? 4096 then Ret (q ++ [data]) else UB.

(** The loop body for one dequeued word; [next] is the word the body dequeues
    when it interprets a block. *)
Definition mainloop_step (a : analysis) (data : Z) (next : Z) : res (analysis * bool) :=
  if data =? REC_END_SYMBOL .| case_number REC_SYNC then
    Ret (Analysis (an_dc a) (an_code_buffer a) (q_addrs a) 1, false)
  else if data =? REC_END_SYMBOL .| case_number REC_BEFORE_BLOCK_BEGIN then
    q ← push_addr (q_addrs a) (case_number REC_END);
    '(dc, buf) ← interpret_dift_codes (an_dc a) (an_code_buffer a) next q;
    Ret (Analysis dc buf [] (dift_thread_ok_signal a), true)
  else
    q ← push_addr (q_addrs a) data;
    Ret (Analysis (an_dc a) (an_code_buffer a) q (dift_thread_ok_signal a), false).

(** The loop over the words the queue delivers; it returns with the words it
    cannot take yet, where the thread would wait for the next one. *)
Fixpoint analysis_mainloop (words : list Z) (a : analysis) : res (analysis * list Z) :=
  match words with
  | [] => Ret (a, [])
  | data :: ws =>
      match ws with
      | [] =>
          if data =? REC_END_SYMBOL .| case_number REC_BEFORE_BLOCK_BEGIN then Ret (a, [data])
          else '(a', _) ← mainloop_step a data 0; Ret (a', [])
      | next :: ws' =>
          '(a', took) ← mainloop_step a data next;
          if (took : bool) then analysis_mainloop ws' a' else analysis_mainloop ws a'
      end
  end.

(** The words [dift_sync] puts on the queue, from the number and the record
    count of the current block. *)
Definition dift_sync_words (dift_code_loc dift_code_cntr : Z) : list Z :=
  let rec := 0 in
  let rec := rec .| dift_code_loc in
  let rec := u64 (Z.shiftl rec 0x10) in
  let rec := rec .| dift_code_cntr in
  let rec := u64 (Z.shiftl rec 0x10) in
  [REC_END_SYMBOL .| case_number REC_BEFORE_BLOCK_BEGIN; rec; REC_END_SYMBOL .| case_number REC_SYNC].

(** ** The abstract machine *)

(** Taint of the registers and memory, and of the disk. *)
Record abs : Type := Abs { a_tab : loc -> Z; a_hd : Z -> Z }.

Definition abs_of (st : dift_state) : abs := Abs (taint st) (hd_taint st).

Definition mem_upd (a : abs) (wa len : Z) (f : Z -> Z) : abs :=
  Abs (fun l => match l with
                | (Mem, x) => if within wa len x then f x else a_tab a l
                | _ => a_tab a l
                end) (a_hd a).

Definition hd_upd (a : abs) (hdaddr len : Z) (f : Z -> Z) : abs :=
  Abs (a_tab a) (fun x => if within hdaddr len x then f x else a_hd a x).

Definition ram_range (ram addr len : Z) : bool := (addr <=? ram) && (addr + len <=? ram).

(** The length a queued word gives, through a C int. *)
Definition word_len (l : Z) : Z := u64 (s32 l).
(** Tag and length inside a contaminate record. *)
Definition rec_tag (rec : dift_record) : Z := byte_of rec 1.
Definition rec_len (rec : dift_record) : Z :=
  word_len (Z.shiftr (Z.land rec 0x0000ffffffff0000) 16).

(** The effect of a record and its addresses. *)
Definition effect (ram : Z) (c : dift_case) (rec : dift_record) (addrs : list Z) (a : abs) : abs :=
  let x0 := nth 0 addrs 0 in
  let x1 := nth 1 addrs 0 in
  let l1 := word_len x1 in
  let l2 := word_len (nth 2 addrs 0) in
  match c with
  | MEM_HD =>
      if ram_range ram x0 l2 && disk_in_range x1 l2
      then mem_upd a x0 l2 (fun x => a_hd a (x1 + (x - x0))) else a
  | HD_MEM =>
      if ram_range ram x0 l2 && disk_in_range x1 l2
      then hd_upd a x1 l2 (fun x => a_tab a (Mem, x0 + (x - x1))) else a
  | REC_CONTAMINATE_MEM_OR =>
      if api_ok (ram_range ram x0 (rec_len rec)) (rec_tag rec)
      then mem_upd a x0 (rec_len rec) (fun x => a_tab a (Mem, x) .| rec_tag rec) else a
  | REC_CONTAMINATE_MEM_AND =>
      if api_ok (ram_range ram x0 (rec_len rec)) (rec_tag rec)
      then mem_upd a x0 (rec_len rec) (fun x => a_tab a (Mem, x) .& rec_tag rec) else a
  | REC_CONTAMINATE_HD_OR =>
      if api_ok (disk_in_range x0 l1) (rec_tag rec)
      then hd_upd a x0 l1 (fun x => a_hd a x .| rec_tag rec) else a
  | REC_CONTAMINATE_HD_AND =>
      if api_ok (disk_in_range x0 l1) (rec_tag rec) && negb (rec_tag rec =? 0)
      then hd_upd a x0 l1 (fun x => a_hd a x .& rec_tag rec) else a
  | REC_CLEAR_MEM =>
      if ram_range ram x0 l1 then mem_upd a x0 l1 (fun _ => 0) else a
  | _ => Abs (apply_flows (policy ram c rec addrs) (a_tab a)) (a_hd a)
  end.

(** ** Items: a record with its addresses *)

Record item : Type := Item { it_case : dift_case; it_rec : dift_record; it_addrs : list Z }.

Definition n_addrs (c : dift_case) : nat :=
  match c with
  | MEM_HD | HD_MEM => 3
  | REC_CONTAMINATE_MEM_OR | REC_CONTAMINATE_MEM_AND => 1
  | REC_CONTAMINATE_HD_OR | REC_CONTAMINATE_HD_AND | REC_CLEAR_MEM => 2
  | _ => addrs_of c
  end.

(** Whether the first address is a guest buffer of any length. *)
Definition takes_buffer (c : dift_case) : bool :=
  match c with
  | MEM_HD | HD_MEM | REC_CONTAMINATE_MEM_OR | REC_CONTAMINATE_MEM_AND | REC_CLEAR_MEM => true
  | _ => false
  end.

Definition is_u64 (x : Z) : bool := (0 <=? x) && (x <? 2 ^ 64).

(** A record the front end may emit: its number is its case, it comes with its
    addresses, its registers exist and a buffer starts inside the RAM. *)
Definition item_ok (ram : Z) (it : item) : bool :=
  bool_decide (case_of_number (case_nb (it_rec it)) = Some (it_case it))
  && (length (it_addrs it) =? n_addrs (it_case it))%nat
  && forallb is_u64 (it_addrs it)
  && rec_ok (it_case it) (it_rec it)
  && (if takes_buffer (it_case it) then nth 0 (it_addrs it) 0 <? ram else true)
  && negb (bool_decide (it_case it ∈ [REC_BEFORE_BLOCK_BEGIN; REC_SYNC; REC_END])).

(** The disk pages a record may have to allocate. *)
Definition page_span (hdaddr len : Z) : Z :=
  if len <=? 0 then 0 else (hdaddr + len - 1) / 4096 - hdaddr / 4096 + 1.

Definition item_pages (it : item) : Z :=
  let pages hdaddr l := if disk_in_range hdaddr (word_len l) then page_span hdaddr (word_len l) else 0 in
  match it_case it with
  | HD_MEM => pages (nth 1 (it_addrs it) 0) (nth 2 (it_addrs it) 0)
  | REC_CONTAMINATE_HD_OR => pages (nth 0 (it_addrs it) 0) (nth 1 (it_addrs it) 0)
  | _ => 0
  end.

Definition items_pages (its : list item) : Z := foldr (fun it n => item_pages it + n) 0 its.

Definition run_items (ram : Z) (its : list item) (a : abs) : abs :=
  fold_left (fun a it => effect ram (it_case it) (it_rec it) (it_addrs it) a) its a.

(** The words of a run when addresses come from their own array, and when they
    follow their record. *)
Definition codes_of (its : list item) : list Z := it_rec <$> its.
Definition addrs_of_items (its : list item) : list Z := mjoin (it_addrs <$> its).
Definition inline_of (its : list item) : list Z := mjoin ((fun it => it_rec it :: it_addrs it) <$> its).

(** ** Lemmas: equality of abstract states *)

#[export] Instance abs_equiv : Equiv abs := fun a b =>
  (forall l, a_tab a l = a_tab b l) /\ (forall x, a_hd a x = a_hd b x).

#[export] Instance abs_equivalence : Equivalence (≡@{abs}).
Proof.
  split.
  - done.
  - intros a b [H1 H2]. split; intros; by rewrite ?H1, ?H2.
  - intros a b c [H1 H2] [H3 H4]. split; intros; by rewrite ?H1, ?H2.
Qed.

Lemma or_of_ext s s' ls : (forall l, s l = s' l) -> or_of s ls = or_of s' ls.
Proof. intros H. induction ls; unfold or_of in *; simpl; congruence. Qed.

Lemma apply_flows_ext fs s s' l :
  (forall l, s l = s' l) -> apply_flows fs s l = apply_flows fs s' l.
Proof. intros H. induction fs; simpl; [done|]. case_if; [by apply or_of_ext|done]. Qed.

#[export] Instance mem_upd_proper :
  Proper ((≡) ==> (=) ==> (=) ==> pointwise_relation Z (=) ==> (≡)) mem_upd.
Proof.
  intros a b [H1 H2] wa ? <- len ? <- f g Hf. split; [|done].
  intros [[] x]; simpl; [done..|]. case_if; [apply Hf|done].
Qed.

#[export] Instance hd_upd_proper :
  Proper ((≡) ==> (=) ==> (=) ==> pointwise_relation Z (=) ==> (≡)) hd_upd.
Proof.
  intros a b [H1 H2] ha ? <- len ? <- f g Hf. split; [done|].
  intros x; simpl. case_if; [apply Hf|done].
Qed.

#[export] Instance effect_proper ram c rec addrs : Proper ((≡) ==> (≡)) (effect ram c rec addrs).
Proof.
  intros a b [H1 H2].
  assert (a ≡ b) as Hab by done.
  destruct c; unfold effect; try (split; [intros; by apply apply_flows_ext|done]);
    case_if; try done.
  1, 3, 4, 7: apply mem_upd_proper; [done|done|done|]; intros x; by rewrite ?H1, ?H2.
  all: apply hd_upd_proper; [done|done|done|]; intros x; by rewrite ?H1, ?H2.
Qed.

#[export] Instance run_items_proper ram its : Proper ((≡) ==> (≡)) (run_items ram its).
Proof.
  induction its as [|it its IH]; intros a b Hab; [done|].
  unfold run_items in *. simpl. apply IH. by apply effect_proper.
Qed.

(** ** Lemmas: one record *)

(** What executing an item does to a state. *)
Record item_done (it : item) (st st' : dift_state) : Prop := {
  done_wf : dift_wf st';
  done_tags : tags_in 127 st';
  done_ram : phys_ram_size st' = phys_ram_size st;
  done_heap : Z.of_nat (heap_left st) - item_pages it <= Z.of_nat (heap_left st');
  done_abs : abs_of st' ≡ effect (phys_ram_size st) (it_case it) (it_rec it) (it_addrs it) (abs_of st)
}.

Lemma word_len_range l : 0 <= word_len l < 2 ^ 64.
Proof. apply u64_range. Qed.

Lemma rec_tag_eq rec : u8 (s32 (Z.shiftr (Z.land rec 0x000000000000ff00) 8)) = rec_tag rec.
Proof.
  assert (Z.shiftr (Z.land rec 0xff00) 8 = byte_of rec 1) as ->.
  { rewrite Z.shiftr_land. done. }
  unfold rec_tag. pose proof (byte_of_range rec 1). unfold s32, u8.
  rewrite (Z.mod_small _ (2 ^ 32)) by lia. destruct (Z.ltb_spec (byte_of rec 1) (2 ^ 31)); [|lia].
  by rewrite Z.mod_small by lia.
Qed.

Lemma rec_tag_range rec : 0 <= rec_tag rec < 256.
Proof. apply byte_of_range. Qed.

Lemma hd_need_span st a n : hd_need st a n <= page_span a n.
Proof. unfold hd_need, page_span. case_if; [lia|]. case_decide; lia. Qed.

Lemma page_span_nonneg a n : 0 <= a -> 0 <= page_span a n.
Proof.
  intros. unfold page_span. case_if; bool_to_prop; [lia|].
  assert (a / 4096 <= (a + n - 1) / 4096) by (apply Z.div_le_mono; lia). lia.
Qed.

Lemma tag_covers_127 t : 0 <= t < 128 -> covers 127 t.
Proof.
  intros. split; [lia|]. change 127 with (Z.ones 7). rewrite Z.land_ones by lia.
  by apply Z.mod_small.
Qed.

Lemma api_ok_tag b t : 0 <= t < 256 -> api_ok b t = true -> covers 127 t.
Proof. intros Ht H. unfold api_ok in H. bool_to_prop. apply tag_covers_127. lia. Qed.

Lemma mem_updates_item it st st' f :
  item_pages it = 0 -> tags_in 127 st -> mem_updates st st' f -> (forall x, covers 127 (f x)) ->
  Abs (fun l => match l with (Mem, x) => f x | _ => taint st l end) (hd_taint st)
    ≡ effect (phys_ram_size st) (it_case it) (it_rec it) (it_addrs it) (abs_of st) ->
  item_done it st st'.
Proof.
  intros Hp Ht U Hf Ha. pose proof (mupd_only _ _ _ U) as Ho. split.
  - apply U.
  - by eapply mem_updates_tags.
  - by rewrite Ho.
  - rewrite Hp, Ho. simpl. lia.
  - rewrite <- Ha. split.
    + intros [[] x]; simpl; unfold taint; simpl; [by rewrite Ho..|]. apply U.
    + intros x. simpl. by rewrite Ho.
Qed.

Lemma hd_updates_item it st st' src need f :
  need <= item_pages it -> tags_in 127 st -> hd_updates st st' src need f -> src 127 ->
  Abs (taint st) f
    ≡ effect (phys_ram_size st) (it_case it) (it_rec it) (it_addrs it) (abs_of st) ->
  item_done it st st'.
Proof.
  intros Hp Ht U Hs Ha. destruct (upd_keeps _ _ _ _ _ U) as [Ho Hwf]. split.
  - done.
  - by apply (upd_tags _ _ _ _ _ U).
  - by rewrite Ho.
  - pose proof (upd_heap _ _ _ _ _ U). lia.
  - rewrite <- Ha. split.
    + intros [[] x]; unfold taint; simpl; by rewrite Ho.
    + apply U.
Qed.

(** Taking the addresses of an item off the queue. *)
Lemma deq_n_cons n s x xs s' :
  deq_n (S n) s = Some (x :: xs, s') ->
  exists s1, deq s = Some (x, s1) /\ deq_n n s1 = Some (xs, s').
Proof.
  simpl. intros H. destruct (deq s) as [[y s1]|] eqn:E; simpl in H; [|done].
  destruct (deq_n n s1) as [[xs' s2]|] eqn:E'; simpl in H; [|done]. simplify_eq. eauto.
Qed.

Ltac take_addrs :=
  repeat match goal with
  | H : deq_n (S _) _ = Some (_ :: _, _) |- _ =>
      apply deq_n_cons in H; destruct H as (? & ? & H)
  | H : deq_n 0 _ = Some _ |- _ => cbn [deq_n] in H; injection H as <-
  end.

Lemma sink_addr_ram ram a : a < ram -> sink_addr ram a = a.
Proof. intros. unfold sink_addr. by destruct (Z.ltb_spec a ram); [|lia]. Qed.

Lemma source_addr_ram ram a : a < ram -> source_addr ram a = a.
Proof. intros. unfold source_addr. by destruct (Z.ltb_spec a ram); [|lia]. Qed.

(** A handler performs an item. *)
Definition performs (h : dift_record -> M unit) (it : item) (st : dift_state) : Prop :=
  forall s s', deq_n (n_addrs (it_case it)) s = Some (it_addrs it, s') ->
    wp (h (it_rec it)) st s (fun _ st' s1 => s1 = s' /\ item_done it st st').

(** Run the statements of a handler up to its call. *)
Ltac to_call h :=
  let HA := fresh "HA" in
  match goal with Hwf : dift_wf ?st, Ht : tags_in 127 ?st |- _ =>
    pose proof (At_init _ Hwf Ht) as HA end;
  intros s s' Hq; cbn [it_case it_addrs n_addrs] in Hq; cbn [it_rec]; take_addrs; unfold h; cbv zeta;
  repeat wp_step;
  repeat match goal with
  | H : _ = sink_addr _ _ |- _ => rewrite sink_addr_ram in H by lia; subst
  | H : _ = source_addr _ _ |- _ => rewrite source_addr_ram in H by lia; subst
  | |- context [u64 (s32 ?l)] => change (u64 (s32 l)) with (word_len l)
  end;
  rewrite ?rec_tag_eq.

Section Items.
Context (rec : dift_record) (st : dift_state).
Context (Hwf : dift_wf st) (Ht : tags_in 127 st).

Lemma ram_not_cells a : a < phys_ram_size st -> a <> clean_source st /\ a <> null_sink st.
Proof. intros. rewrite (wf_clean _ Hwf), (wf_null _ Hwf). lia. Qed.

Lemma rt_mem_hd_ok wa hd l :
  0 <= wa < phys_ram_size st -> 0 <= hd ->
  performs rt_mem_hd (Item MEM_HD rec [wa; hd; l]) st.
Proof.
  intros Hw Hh. to_call rt_mem_hd. destruct (ram_not_cells wa) as [Hc Hn]; [lia|].
  pose proof (word_len_range l) as Hl.
  destruct (copy_mem_hd_branches st wa hd (word_len l)) as (st' & E & U); try lia; try done.
  eexists _, st', _. unfold call_copy_mem_hd. rewrite E. split; [done|]. split; [done|].
  eapply mem_updates_item; [done|done|exact U| |].
  - intros y. simpl. case_if; [by apply hd_taint_covers|apply Ht].
  - unfold effect, copy_ok. simpl. change (mem_in_range st) with (ram_range (phys_ram_size st)).
    by destruct (ram_range _ _ _ && _); split; [intros [[] ?]| |intros [[] ?]|].
Qed.

Lemma hd_pages_ok hd l :
  let len := word_len l in
  (if disk_in_range hd len then page_span hd len else 0) <= Z.of_nat (heap_left st) ->
  (disk_in_range hd len = true -> hd_need st hd len <= Z.of_nat (heap_left st)) /\
  hd_need_in st hd len <= if disk_in_range hd len then page_span hd len else 0.
Proof.
  simpl. intros H. pose proof (hd_need_span st hd (word_len l)). unfold hd_need_in.
  destruct (disk_in_range hd (word_len l)); split; try lia; done.
Qed.

Lemma rt_hd_mem_ok ra hd l :
  0 <= ra < phys_ram_size st -> 0 <= hd ->
  item_pages (Item HD_MEM rec [ra; hd; l]) <= Z.of_nat (heap_left st) ->
  performs rt_hd_mem (Item HD_MEM rec [ra; hd; l]) st.
Proof.
  intros Hw Hh Hp. destruct (hd_pages_ok hd l Hp) as [Hp1 Hp2]. to_call rt_hd_mem.
  destruct (ram_not_cells ra) as [Hc Hn]; [lia|]. pose proof (word_len_range l) as Hl.
  destruct (copy_hd_mem_branches st hd ra (word_len l)) as (st' & E & U); try lia; try done.
  eexists _, st', _. unfold call_copy_hd_mem. rewrite E. split; [done|]. split; [done|].
  eapply hd_updates_item; [exact Hp2|done|exact U|done|].
  unfold effect, copy_ok. simpl. change (mem_in_range st) with (ram_range (phys_ram_size st)).
  by destruct (ram_range _ _ _ && _).
Qed.

Lemma rt_rec_contaminate_mem_or_ok wa :
  0 <= wa < phys_ram_size st ->
  performs rt_rec_contaminate_mem_or (Item REC_CONTAMINATE_MEM_OR rec [wa]) st.
Proof.
  intros Hw. to_call rt_rec_contaminate_mem_or. change (word_len (_ ≫ 16)) with (rec_len rec).
  destruct (ram_not_cells wa) as [Hc Hn]; [lia|]. pose proof (rec_tag_range rec) as Hr.
  destruct (set_mem_dirty_branches st wa (rec_len rec) (rec_tag rec) true) as (st' & E & U);
    try lia; try done; [apply word_len_range|].
  eexists _, st', _. unfold call_set_mem_dirty. rewrite E. split; [done|]. split; [done|].
  change (mem_in_range st) with (ram_range (phys_ram_size st)) in U.
  eapply mem_updates_item; [done|done|exact U| |].
  - intros y. simpl. destruct (api_ok _ _) eqn:Ek; simpl; [|apply Ht].
    apply api_ok_tag in Ek; [|done]. pose proof (tags_mem _ _ Ht). case_if; auto with mba.
  - unfold effect. simpl.
    by destruct (api_ok _ _); split; [intros [[] ?]| |intros [[] ?]|].
Qed.

Lemma rt_rec_contaminate_mem_and_ok wa :
  0 <= wa < phys_ram_size st ->
  performs rt_rec_contaminate_mem_and (Item REC_CONTAMINATE_MEM_AND rec [wa]) st.
Proof.
  intros Hw. to_call rt_rec_contaminate_mem_and. change (word_len (_ ≫ 16)) with (rec_len rec).
  destruct (ram_not_cells wa) as [Hc Hn]; [lia|]. pose proof (rec_tag_range rec) as Hr.
  destruct (and_mem_dirty_branches st wa (rec_len rec) (rec_tag rec)) as (st' & E & U);
    try lia; try done; [apply word_len_range|].
  eexists _, st', _. unfold call_and_mem_dirty. rewrite E. split; [done|]. split; [done|].
  change (mem_in_range st) with (ram_range (phys_ram_size st)) in U.
  eapply mem_updates_item; [done|done|exact U| |].
  - intros y. simpl. pose proof (tags_mem _ _ Ht). case_if; auto with mba lia.
  - unfold effect. simpl.
    by destruct (api_ok _ _); split; [intros [[] ?]| |intros [[] ?]|].
Qed.

Lemma rt_rec_contaminate_hd_or_ok hd l :
  0 <= hd ->
  item_pages (Item REC_CONTAMINATE_HD_OR rec [hd; l]) <= Z.of_nat (heap_left st) ->
  performs rt_rec_contaminate_hd_or (Item REC_CONTAMINATE_HD_OR rec [hd; l]) st.
Proof.
  intros Hh Hp. destruct (hd_pages_ok hd l Hp) as [Hp1 Hp2].
  to_call rt_rec_contaminate_hd_or. pose proof (rec_tag_range rec) as Hr.
  destruct (set_hd_dirty_or_branches st hd (word_len l) (rec_tag rec)) as (st' & E & U);
    try lia; try done; [apply word_len_range|].
  eexists _, st', _. unfold call_set_hd_dirty_or. rewrite E. split; [done|]. split; [done|].
  unfold effect. destruct (api_ok (disk_in_range hd (word_len l)) (rec_tag rec)) eqn:Ek.
  - eapply hd_updates_item; [exact Hp2|done|exact U|by eapply api_ok_tag|].
    unfold effect. simpl. by rewrite Ek.
  - assert (st' = st) as ->.
    { unfold set_hd_dirty_or in E. rewrite disk_in_range_valid, is_valid_tag_spec in E by done.
      unfold api_ok in Ek. destruct (disk_in_range _ _); simpl in *; [|by simplify_eq].
      rewrite Ek in E. simpl in E. by simplify_eq. }
    split; [done|done|done| |].
    + pose proof (page_span_nonneg hd (word_len l) Hh). unfold item_pages. simpl. case_if; lia.
    + unfold effect. simpl. by rewrite Ek.
Qed.

Lemma rt_rec_contaminate_hd_and_ok hd l :
  0 <= hd -> performs rt_rec_contaminate_hd_and (Item REC_CONTAMINATE_HD_AND rec [hd; l]) st.
Proof.
  intros Hh. to_call rt_rec_contaminate_hd_and. pose proof (rec_tag_range rec) as Hr.
  destruct (set_hd_dirty_and_branches st hd (word_len l) (rec_tag rec)) as (st' & E & U);
    try lia; try done; [apply word_len_range|].
  eexists _, st', _. unfold call_set_hd_dirty_and. rewrite E. split; [done|]. split; [done|].
  eapply hd_updates_item; [|done|exact U|done|]; [done|].
  unfold effect. simpl. by destruct (api_ok _ _ && _).
Qed.

Lemma rt_rec_clear_mem_ok wa l :
  0 <= wa < phys_ram_size st ->
  performs rt_rec_clear_mem (Item REC_CLEAR_MEM rec [wa; l]) st.
Proof.
  intros Hw. to_call rt_rec_clear_mem. destruct (ram_not_cells wa) as [Hc Hn]; [lia|].
  destruct (set_mem_dirty_branches st wa (word_len l) 0 false) as (st' & E & U);
    try lia; try done; [apply word_len_range|].
  eexists _, st', _. unfold call_set_mem_dirty. rewrite E. split; [done|]. split; [done|].
  change (mem_in_range st) with (ram_range (phys_ram_size st)) in U.
  eapply mem_updates_item; [done|done|exact U| |].
  - intros y. simpl. pose proof (tags_mem _ _ Ht). case_if; auto with mba.
  - unfold effect, api_ok. simpl. rewrite andb_true_r.
    by destruct (ram_range _ _ _); split; [intros [[] ?]| |intros [[] ?]|].
Qed.
End Items.

(** Propagation records are items. *)
Lemma propagation_item c h rec addrs st :
  is_propagation c = true -> dispatch c = Some (Handler h) -> rec_ok c rec = true ->
  dift_wf st -> tags_in 127 st -> Forall (fun a => 0 <= a < 2 ^ 64) addrs ->
  performs h (Item c rec addrs) st.
Proof.
  intros Hp Hd Hr Hwf Ht Ha s s' Hq. cbn [it_case it_addrs it_rec] in *.
  assert (n_addrs c = addrs_of c) as En by by destruct c.
  rewrite En in Hq.
  destruct (propagation_step c h rec st s addrs s') as (st' & E & F & W & T & P); try done.
  eexists _, st', s'. split; [done|]. split; [done|]. split; [done|by apply T|apply F| |].
  - rewrite (fr_heap _ _ F). assert (item_pages (Item c rec addrs) = 0) as -> by by destruct c. lia.
  - assert (effect (phys_ram_size st) c rec addrs (abs_of st) =
      Abs (apply_flows (policy (phys_ram_size st) c rec addrs) (taint st)) (hd_taint st)) as Ee
      by by destruct c.
    cbn [it_case it_addrs it_rec]. rewrite Ee. split; [apply P|].
    intros x. simpl. unfold hd_taint. by rewrite (fr_hd _ _ F).
Qed.

Lemma item_ok_facts ram it :
  item_ok ram it = true ->
  case_of_number (case_nb (it_rec it)) = Some (it_case it) /\
  length (it_addrs it) = n_addrs (it_case it) /\
  Forall (fun a => 0 <= a < 2 ^ 64) (it_addrs it) /\
  rec_ok (it_case it) (it_rec it) = true /\
  (takes_buffer (it_case it) = true -> nth 0 (it_addrs it) 0 < ram) /\
  it_case it ∉ [REC_BEFORE_BLOCK_BEGIN; REC_SYNC; REC_END].
Proof.
  unfold item_ok. intros H. rewrite !andb_true_iff in H.
  destruct H as [[[[[H1 H2] H3] H4] H5] H6].
  split_and!.
  - by apply bool_decide_eq_true in H1.
  - by apply Nat.eqb_eq.
  - apply Forall_forall. intros x Hx. rewrite forallb_forall in H3.
    apply list_elem_of_In, H3 in Hx. unfold is_u64 in Hx. bool_to_prop. lia.
  - done.
  - intros E. rewrite E in H5. by apply Z.ltb_lt.
  - apply negb_true_iff, bool_decide_eq_false in H6. done.
Qed.

(** Every well-formed item has a handler, and the handler performs it. *)
Lemma item_step it st :
  item_ok (phys_ram_size st) it = true -> dift_wf st -> tags_in 127 st ->
  item_pages it <= Z.of_nat (heap_left st) ->
  exists h, (case_of_number (case_nb (it_rec it)) ≫= dispatch) = Some (Handler h) /\
            performs h it st.
Proof.
  intros Hok Hwf Ht Hp. apply item_ok_facts in Hok as (Hc & Hl & Ha & Hr & Hb & Hn).
  destruct it as [c rec addrs]. cbn [it_case it_rec it_addrs] in *. rewrite Hc. simpl.
  destruct (is_propagation c) eqn:E.
  { assert (exists h, dispatch c = Some (Handler h)) as [h Hh] by (destruct c; eauto; done).
    exists h. split; [done|]. by apply propagation_item. }
  destruct c; try discriminate E; clear E; simpl in Hl;
    try (exfalso; apply Hn; solve [repeat constructor]);
    repeat match goal with
    | H : context [length ?l] |- _ => is_var l; destruct l; simpl in H; try discriminate H
    end; simpl in Hb; try specialize (Hb eq_refl);
    repeat match goal with H : Forall _ (_ :: _) |- _ => inversion H; clear H; subst end;
    eexists; (split; [reflexivity|]).
  - apply rt_mem_hd_ok; done || lia.
  - apply rt_hd_mem_ok; done || lia.
  - apply rt_rec_contaminate_mem_or_ok; done || lia.
  - apply rt_rec_contaminate_mem_and_ok; done || lia.
  - apply rt_rec_contaminate_hd_or_ok; done || lia.
  - apply rt_rec_contaminate_hd_and_ok; done || lia.
  - apply rt_rec_clear_mem_ok; done || lia.
  - intros s s' Hq. simpl in Hq. simplify_eq. eexists _, st, _. split; [done|]. split; [done|].
    split; [done|done|done| |]; [unfold item_pages; simpl; lia|]. simpl. by split.
Qed.

(** ** Lemmas: runs of records *)

(** The next item in the streams, and what is left after it. *)
Definition feeds (it : item) (s s' : streams) : Prop :=
  exists s1, ptr_code s = it_rec it :: ptr_code s1 /\ ptr_addr s = ptr_addr s1 /\
    deq_n (n_addrs (it_case it)) s1 = Some (it_addrs it, s').

Inductive feeds_all : list item -> streams -> streams -> Prop :=
| feeds_nil s : feeds_all [] s s
| feeds_cons it its s s1 s' :
    feeds it s s1 -> feeds_all its s1 s' -> feeds_all (it :: its) s s'.

Lemma deq_n_addr xs rest code :
  deq_n (length xs) (Streams code (Some (xs ++ rest))) = Some (xs, Streams code (Some rest)).
Proof.
  induction xs as [|x xs IH]; [done|]. simpl. by rewrite IH.
Qed.

Lemma deq_n_code xs rest :
  deq_n (length xs) (Streams (xs ++ rest) None) = Some (xs, Streams rest None).
Proof.
  induction xs as [|x xs IH]; [done|]. simpl. by rewrite IH.
Qed.

Lemma feeds_separate ram its codes rest :
  forallb (item_ok ram) its = true ->
  feeds_all its (Streams (codes_of its ++ codes) (Some (addrs_of_items its ++ rest)))
                (Streams codes (Some rest)).
Proof.
  induction its as [|it its IH]; simpl; intros H; [constructor|]. bool_to_prop.
  econstructor; [|by apply IH].
  apply item_ok_facts in H as (_ & Hl & _). eexists (Streams _ _). split; [done|]. split; [done|].
  simpl. rewrite <- Hl. unfold addrs_of_items. simpl. rewrite <- (assoc_L (++)). apply deq_n_addr.
Qed.

Lemma feeds_inline ram its rest :
  forallb (item_ok ram) its = true ->
  feeds_all its (Streams (inline_of its ++ rest) None) (Streams rest None).
Proof.
  induction its as [|it its IH]; simpl; intros H; [constructor|]. bool_to_prop.
  econstructor; [|by apply IH].
  apply item_ok_facts in H as (_ & Hl & _).
  exists (Streams (it_addrs it ++ inline_of its ++ rest) None). split_and!; [|done|].
  - simpl. by rewrite (assoc_L (++)).
  - rewrite <- Hl. apply deq_n_code.
Qed.

(** What executing a run of items does to a state. *)
Record run_done (its : list item) (st st' : dift_state) : Prop := {
  run_wf : dift_wf st';
  run_tags : tags_in 127 st';
  run_ram : phys_ram_size st' = phys_ram_size st;
  run_heap : Z.of_nat (heap_left st) - items_pages its <= Z.of_nat (heap_left st');
  run_abs : abs_of st' ≡ run_items (phys_ram_size st) its (abs_of st)
}.

Lemma item_pages_nonneg ram it : item_ok ram it = true -> 0 <= item_pages it.
Proof.
  intros H. apply item_ok_facts in H as (_ & _ & Ha & _). unfold item_pages.
  assert (forall k, 0 <= nth k (it_addrs it) 0).
  { intros k. destruct (nth_in_or_default k (it_addrs it) 0) as [Hi|Hi]; [|by rewrite Hi].
    rewrite Forall_forall in Ha. apply list_elem_of_In, Ha in Hi. lia. }
  destruct (it_case it); try lia; case_if; auto using page_span_nonneg; lia.
Qed.

Lemma items_pages_nonneg ram its : forallb (item_ok ram) its = true -> 0 <= items_pages its.
Proof.
  induction its as [|it its IH]; simpl; intros H; [lia|]. bool_to_prop.
  apply item_pages_nonneg in H. specialize (IH H0). lia.
Qed.

Lemma threaded_dispatch_items its : forall st s s' fuel,
  forallb (item_ok (phys_ram_size st)) its = true -> feeds_all its s s' ->
  dift_wf st -> tags_in 127 st -> items_pages its <= Z.of_nat (heap_left st) ->
  exists st', threaded_dispatch (length its + fuel) st s = threaded_dispatch fuel st' s' /\
    run_done its st st'.
Proof.
  induction its as [|it its IH]; intros st s s' fuel Hok Hf Hwf Ht Hp.
  - inversion Hf; subst. exists st. split; [done|]. split; simpl; try done. lia.
  - inversion Hf as [|? ? ? s1 ? Hf1 Hf2]; subst. simpl in Hok, Hp. bool_to_prop.
    pose proof (items_pages_nonneg _ its H0) as Hq.
    destruct (item_step it st) as (h & Ed & Hh); try done; [lia|].
    destruct Hf1 as (s0 & Ec & Ea & Edq).
    destruct (Hh s0 s1 Edq) as ([] & st1 & ? & E & -> & D).
    rewrite <- (done_ram _ _ _ D) in H0.
    destruct (IH st1 s1 s' fuel) as (st' & E' & R); try done; try apply D.
    { pose proof (done_heap _ _ _ D). lia. }
    exists st'. split.
    + simpl. unfold DEQ_FROM_CODE. rewrite Ec. simpl. rewrite Ea.
      destruct s0 as [c0 a0]. simpl in *. rewrite Ed, E. exact E'.
    + split; try apply R.
      * rewrite (run_ram _ _ _ R). apply D.
      * pose proof (done_heap _ _ _ D). pose proof (run_heap _ _ _ R). simpl. lia.
      * rewrite (run_abs _ _ _ R), (done_ram _ _ _ D). unfold run_items. simpl.
        apply (run_items_proper (phys_ram_size st) its). apply D.
Qed.

(** A word that ends a run. *)
Definition ends_run (w : Z) : Prop := case_of_number (case_nb w) = Some REC_END.

Lemma threaded_dispatch_end fuel st w codes addrs :
  ends_run w ->
  threaded_dispatch (S fuel) st (Streams (w :: codes) addrs) = Ret (st, Streams codes addrs).
Proof. intros Hw. cbn [threaded_dispatch]. unfold DEQ_FROM_CODE. simpl. by rewrite Hw. Qed.

Lemma REC_END_ends_run : ends_run (case_number REC_END).
Proof. vm_compute. reflexivity. Qed.

Lemma inline_of_cons it its : inline_of (it :: its) = it_rec it :: it_addrs it ++ inline_of its.
Proof. done. Qed.

Lemma inline_of_length its : (length its <= length (inline_of its))%nat.
Proof.
  induction its as [|it its IH]; [done|]. rewrite inline_of_cons. simpl. rewrite length_app. lia.
Qed.

Lemma interpret_rest_items its st w tail :
  forallb (item_ok (phys_ram_size st)) its = true -> ends_run w ->
  dift_wf st -> tags_in 127 st -> items_pages its <= Z.of_nat (heap_left st) ->
  exists st', interpret_dift_codes_rest st (inline_of its ++ w :: tail) = Ret st' /\
    run_done its st st'.
Proof.
  intros Hok Hw Hwf Ht Hp. unfold interpret_dift_codes_rest.
  set (n := length (inline_of its ++ w :: tail)).
  assert (S n = length its + S (n - length its))%nat as ->.
  { unfold n. rewrite length_app. pose proof (inline_of_length its). lia. }
  destruct (threaded_dispatch_items its st (Streams (inline_of its ++ w :: tail) None)
    (Streams (w :: tail) None) (S (n - length its))) as (st' & E & R); try done.
  { by eapply feeds_inline. }
  exists st'. rewrite E, threaded_dispatch_end by done. done.
Qed.

(** *** The word that describes a block *)

Definition block_word (loc cntr off : Z) : Z := Z.shiftl loc 32 .| Z.shiftl cntr 16 .| off.

Lemma shl_add x y k : 0 <= k -> 0 <= y < 2 ^ k -> Z.shiftl x k .| y = x * 2 ^ k + y.
Proof.
  intros Hk Hy. rewrite <- Z.shiftl_mul_pow2 by done.
  assert (Z.land (Z.shiftl x k) y = 0) as E.
  { apply Z.bits_inj'. intros i Hi. rewrite Z.land_spec, Z.bits_0.
    destruct (Z.ltb_spec i k).
    - by rewrite Z.shiftl_spec_low by lia.
    - destruct (decide (y = 0)) as [->|]; [by rewrite Z.bits_0, andb_false_r|].
      rewrite (Z.bits_above_log2 y i); [apply andb_false_r|lia|].
      assert (Z.log2 y < k) by (apply Z.log2_lt_pow2; lia). lia. }
  rewrite <- Z.lxor_lor by done. by rewrite Z.add_nocarry_lxor.
Qed.

Lemma block_word_sum loc cntr off :
  0 <= cntr < 2 ^ 16 -> 0 <= off < 2 ^ 16 ->
  block_word loc cntr off = (loc * 2 ^ 16 + cntr) * 2 ^ 16 + off.
Proof.
  intros. unfold block_word. rewrite <- Z.lor_assoc, (shl_add cntr off) by lia.
  rewrite (shl_add loc) by lia. lia.
Qed.

Lemma field_of w k n : 0 <= k -> 0 <= n -> Z.shiftr (Z.land w (Z.shiftl (Z.ones n) k)) k = w / 2 ^ k mod 2 ^ n.
Proof.
  intros. rewrite Z.shiftr_land, Z.shiftr_shiftl_l, Z.sub_diag, Z.shiftl_0_r by lia.
  by rewrite Z.land_ones, Z.shiftr_div_pow2 by lia.
Qed.

Lemma block_word_decode loc cntr off :
  0 <= loc < 2 ^ 32 -> 0 <= cntr < 2 ^ 16 -> 0 <= off < 2 ^ 16 ->
  Z.shiftr (Z.land (block_word loc cntr off) 0xffffffff00000000) 32 = loc /\
  Z.shiftr (Z.land (block_word loc cntr off) 0x00000000ffff0000) 16 = cntr /\
  Z.land (block_word loc cntr off) 0x000000000000ffff = off.
Proof.
  intros Hl Hc Ho. rewrite block_word_sum by lia.
  change 0xffffffff00000000 with (Z.shiftl (Z.ones 32) 32).
  change 0x00000000ffff0000 with (Z.shiftl (Z.ones 16) 16).
  change 0x000000000000ffff with (Z.ones 16).
  rewrite !field_of, Z.land_ones by lia.
  assert (((loc * 2 ^ 16 + cntr) * 2 ^ 16 + off) / 2 ^ 16 = loc * 2 ^ 16 + cntr) as E16.
  { rewrite Z.div_add_l, Z.div_small by lia. lia. }
  split_and!.
  - change (2 ^ 32) with (2 ^ 16 * 2 ^ 16) at 1. rewrite <- Z.div_div, E16 by lia.
    rewrite Z.div_add_l, (Z.div_small cntr), Z.add_0_r by lia. by apply Z.mod_small.
  - rewrite E16, Z.add_comm, Z.mod_add by lia. by apply Z.mod_small.
  - rewrite Z.add_comm, Z.mod_add by lia. by apply Z.mod_small.
Qed.

Lemma items_pages_app its its2 : items_pages (its ++ its2) = items_pages its + items_pages its2.
Proof. unfold items_pages. induction its as [|it its IH]; simpl; lia. Qed.

Lemma run_done_app its its2 st st1 st2 :
  run_done its st st1 -> run_done its2 st1 st2 -> run_done (its ++ its2) st st2.
Proof.
  intros R1 R2. split; try apply R2.
  - rewrite (run_ram _ _ _ R2). apply R1.
  - rewrite items_pages_app. pose proof (run_heap _ _ _ R1). pose proof (run_heap _ _ _ R2). lia.
  - rewrite (run_abs _ _ _ R2), (run_ram _ _ _ R1). unfold run_items. rewrite fold_left_app.
    apply (run_items_proper (phys_ram_size st) its2). apply R1.
Qed.

(** The code buffer from [p] on, with the end mark at [e]. *)
Lemma marked_codes (buf codes : list Z) p e w :
  (p <= e < length buf)%nat -> take (e - p) (drop p buf) = codes ->
  drop p (<[e := w]> buf) = codes ++ w :: drop (S e) buf.
Proof.
  intros Hp Hc. rewrite insert_take_drop by lia. rewrite drop_app_le by (rewrite length_take; lia).
  f_equal. rewrite <- Hc, take_drop_commute. do 2 f_equal. lia.
Qed.

(** A block's records, at their place in the code buffer. *)
Lemma interpret_block its its2 st buf loc cntr off :
  0 <= loc < 2 ^ 32 -> 0 <= cntr < 2 ^ 16 -> 0 <= off <= cntr ->
  forallb (item_ok (phys_ram_size st)) (its ++ its2) = true ->
  take (Z.to_nat (cntr - off)) (drop (Z.to_nat (loc * 160 + off)) buf) = codes_of its ->
  loc * 160 + cntr < Z.of_nat (length buf) ->
  dift_wf st -> tags_in 127 st -> items_pages (its ++ its2) <= Z.of_nat (heap_left st) ->
  exists st', interpret_dift_codes st buf (block_word loc cntr off)
      (addrs_of_items its ++ inline_of its2 ++ [case_number REC_END]) = Ret (st', buf) /\
    run_done (its ++ its2) st st'.
Proof.
  intros Hl Hc Ho Hok Hb Hlen Hwf Ht Hp. rewrite forallb_app in Hok. bool_to_prop.
  rewrite items_pages_app in Hp.
  pose proof (items_pages_nonneg _ its H). pose proof (items_pages_nonneg _ its2 H0).
  destruct (block_word_decode loc cntr off) as (E1 & E2 & E3); [lia..|].
  unfold interpret_dift_codes. rewrite E1, E2, E3.
  destruct (Z.ltb_spec cntr off); [lia|]. change CONFIG_IF_CODES_PER_TB with 160.
  set (p := Z.to_nat (loc * 160 + off)) in *.
  replace (loc * 160 + off + (cntr - off)) with (loc * 160 + cntr) by lia.
  set (e := Z.to_nat (loc * 160 + cntr)).
  destruct (lookup_lt_is_Some_2 buf e) as [v Hv]; [lia|]. rewrite Hv.
  rewrite (marked_codes buf (codes_of its)); [|lia|rewrite <- Hb; f_equal; lia].
  set (codes := codes_of its ++ case_number REC_END :: drop (S e) buf).
  assert (S (length codes) = length its + S (length codes - length its))%nat as ->.
  { unfold codes, codes_of. rewrite length_app, length_fmap. lia. }
  destruct (threaded_dispatch_items its st
    (Streams codes (Some (addrs_of_items its ++ inline_of its2 ++ [case_number REC_END])))
    (Streams (case_number REC_END :: drop (S e) buf)
             (Some (inline_of its2 ++ [case_number REC_END])))
    (S (length codes - length its))) as (st1 & Ed & R1); try done; [by eapply feeds_separate|lia|].
  rewrite Ed, threaded_dispatch_end by apply REC_END_ends_run. simpl.
  rewrite <- (run_ram _ _ _ R1) in H0. pose proof (run_heap _ _ _ R1).
  destruct (interpret_rest_items its2 st1 (case_number REC_END) []) as (st2 & -> & R2);
    [done|apply REC_END_ends_run|apply R1|apply R1|lia|].
  simpl. rewrite list_insert_insert_eq, list_insert_id by done.
  exists st2. split; [done|]. by eapply run_done_app.
Qed.

(** ** Lemmas: the main loop *)

(** A word the main loop keeps for the interpreter. *)
Definition plain (w : Z) : bool :=
  negb (w =? REC_END_SYMBOL .| case_number REC_SYNC)
  && negb (w =? REC_END_SYMBOL .| case_number REC_BEFORE_BLOCK_BEGIN).

Definition with_q (a : analysis) (q : list Z) : analysis :=
  Analysis (an_dc a) (an_code_buffer a) q (dift_thread_ok_signal a).

Lemma mainloop_step_plain a w next :
  plain w = true -> mainloop_step a w next = (q ← push_addr (q_addrs a) w; Ret (with_q a q, false)).
Proof. unfold plain, mainloop_step. intros H. bool_to_prop. apply Z.eqb_neq in H, H0. by rewrite H, H0. Qed.

Lemma push_addr_ok q w : Z.of_nat (length q) < 4096 -> push_addr q w = Ret (q ++ [w]).
Proof. intros. unfold push_addr. by destruct (Z.ltb_spec (Z.of_nat (length q)) 4096); [|lia]. Qed.

Lemma mainloop_plain a w ws :
  plain w = true -> analysis_mainloop (w :: ws) a =
    (q ← push_addr (q_addrs a) w; analysis_mainloop ws (with_q a q)).
Proof.
  intros Hw. destruct ws as [|next ws]; cbn [analysis_mainloop].
  - assert ((w =? REC_END_SYMBOL .| case_number REC_BEFORE_BLOCK_BEGIN) = false) as ->.
    { unfold plain in Hw. bool_to_prop. by apply Z.eqb_neq. }
    rewrite mainloop_step_plain by done. by destruct (push_addr _ _).
  - rewrite mainloop_step_plain by done. by destruct (push_addr _ _).
Qed.

Lemma mainloop_collect ws : forall a rest,
  forallb plain ws = true -> Z.of_nat (length (q_addrs a) + length ws) <= 4096 ->
  analysis_mainloop (ws ++ rest) a = analysis_mainloop rest (with_q a (q_addrs a ++ ws)).
Proof.
  induction ws as [|w ws IH]; intros a rest Hp Hl; simpl in *.
  - rewrite app_nil_r. by destruct a.
  - bool_to_prop. change (w :: ws ++ rest) with (w :: (ws ++ rest)).
    pose proof (mainloop_plain a w (ws ++ rest) H) as E. simpl in E. rewrite E. clear E.
    rewrite push_addr_ok by lia. simpl. rewrite IH; [|done|].
    + simpl. by rewrite <- (assoc_L (++)).
    + simpl. rewrite length_app. simpl. lia.
Qed.

Lemma mainloop_overflow a w ws :
  plain w = true -> length (q_addrs a) = 4096%nat -> analysis_mainloop (w :: ws) a = UB.
Proof.
  intros Hw Hl. rewrite mainloop_plain by done. unfold push_addr. by rewrite Hl.
Qed.

Lemma mainloop_block a bw ws :
  Z.of_nat (length (q_addrs a)) < 4096 ->
  analysis_mainloop ((REC_END_SYMBOL .| case_number REC_BEFORE_BLOCK_BEGIN) :: bw :: ws) a =
    ('(dc, buf) ← interpret_dift_codes (an_dc a) (an_code_buffer a) bw
                    (q_addrs a ++ [case_number REC_END]);
     analysis_mainloop ws (Analysis dc buf [] (dift_thread_ok_signal a))).
Proof.
  intros Hl. cbn [analysis_mainloop]. unfold mainloop_step.
  assert ((REC_END_SYMBOL .| case_number REC_BEFORE_BLOCK_BEGIN =?
           REC_END_SYMBOL .| case_number REC_SYNC) = false) as -> by (vm_compute; reflexivity).
  rewrite Z.eqb_refl, push_addr_ok by done. simpl.
  by destruct (interpret_dift_codes _ _ _ _) as [[]| |].
Qed.

Lemma mainloop_sync a ws :
  analysis_mainloop ((REC_END_SYMBOL .| case_number REC_SYNC) :: ws) a =
    analysis_mainloop ws (Analysis (an_dc a) (an_code_buffer a) (q_addrs a) 1).
Proof.
  destruct ws as [|next ws]; cbn [analysis_mainloop]; unfold mainloop_step; rewrite Z.eqb_refl.
  - assert ((REC_END_SYMBOL .| case_number REC_SYNC =?
             REC_END_SYMBOL .| case_number REC_BEFORE_BLOCK_BEGIN) = false) as -> by (vm_compute; reflexivity).
    done.
  - done.
Qed.

Lemma dift_sync_words_eq loc cntr :
  0 <= loc < 2 ^ 32 -> 0 <= cntr < 2 ^ 16 ->
  dift_sync_words loc cntr =
    [REC_END_SYMBOL .| case_number REC_BEFORE_BLOCK_BEGIN; block_word loc cntr 0;
     REC_END_SYMBOL .| case_number REC_SYNC].
Proof.
  intros Hl Hc. unfold dift_sync_words. cbv zeta. rewrite Z.lor_0_l, block_word_sum by lia.
  assert (u64 (Z.shiftl loc 0x10) = Z.shiftl loc 16) as ->.
  { unfold u64. rewrite Z.shiftl_mul_pow2 by lia. apply Z.mod_small. lia. }
  rewrite shl_add, (Z.shiftl_mul_pow2 _ 0x10) by lia. unfold u64.
  rewrite Z.mod_small by lia. by rewrite Z.add_0_r.
Qed.

Lemma mainloop_app n : forall ws a a' left ws',
  (length ws <= n)%nat -> analysis_mainloop ws a = Ret (a', left) ->
  analysis_mainloop (ws ++ ws') a = analysis_mainloop (left ++ ws') a'.
Proof.
  induction n as [|n IH]; intros ws a a' left ws' Hl E.
  - destruct ws; [|simpl in Hl; lia]. simpl in E. by simplify_eq.
  - destruct ws as [|w [|next ws]]; cbn [analysis_mainloop] in E; [by simplify_eq| |].
    + destruct (Z.eqb_spec w (REC_END_SYMBOL .| case_number REC_BEFORE_BLOCK_BEGIN)) as [|Hw];
        [by simplify_eq|].
      destruct (Z.eqb_spec w (REC_END_SYMBOL .| case_number REC_SYNC)) as [->|Hs].
      * unfold mainloop_step in E. rewrite Z.eqb_refl in E. simpl in E. simplify_eq.
        apply (mainloop_sync a ws').
      * assert (plain w = true) as Hp.
        { unfold plain. apply Z.eqb_neq in Hw, Hs. by rewrite Hw, Hs. }
        rewrite mainloop_step_plain in E by done. simpl ([w] ++ ws'). rewrite mainloop_plain by done.
        destruct (push_addr (q_addrs a) w); simpl in E |- *; by simplify_eq.
    + destruct (mainloop_step a w next) as [[a1 took]| |] eqn:Es; simpl in E; try done.
      cbn [app analysis_mainloop]. rewrite Es. simpl. simpl in Hl. destruct took.
      * apply IH; [lia|done].
      * apply (IH (next :: ws)); [simpl; lia|done].
Qed.

(** The words of a block and of its synchronisation, taken off the queue. *)
Lemma sync_block its its2 a loc cntr ws :
  q_addrs a = [] ->
  0 <= loc < 2 ^ 32 -> 0 <= cntr < 2 ^ 16 ->
  forallb (item_ok (phys_ram_size (an_dc a))) (its ++ its2) = true ->
  take (Z.to_nat cntr) (drop (Z.to_nat (loc * 160)) (an_code_buffer a)) = codes_of its ->
  loc * 160 + cntr < Z.of_nat (length (an_code_buffer a)) ->
  forallb plain (addrs_of_items its ++ inline_of its2) = true ->
  Z.of_nat (length (addrs_of_items its ++ inline_of its2)) < 4096 ->
  dift_wf (an_dc a) -> tags_in 127 (an_dc a) ->
  items_pages (its ++ its2) <= Z.of_nat (heap_left (an_dc a)) ->
  exists st', analysis_mainloop
      ((addrs_of_items its ++ inline_of its2) ++ dift_sync_words loc cntr ++ ws) a =
      analysis_mainloop ws (Analysis st' (an_code_buffer a) [] 1) /\
    abs_of st' ≡ run_items (phys_ram_size (an_dc a)) (its ++ its2) (abs_of (an_dc a)).
Proof.
  intros Hq Hl Hc Hok Hb Hlen Hpl Hn Hwf Ht Hp.
  destruct (interpret_block its its2 (an_dc a) (an_code_buffer a) loc cntr 0) as (st' & E & R);
    try done; [lia|by rewrite Z.sub_0_r, Z.add_0_r|].
  exists st'. split; [|apply R].
  rewrite mainloop_collect; [|done|rewrite Hq; simpl; lia].
  rewrite dift_sync_words_eq by lia. rewrite Hq. simpl ([] ++ _). cbn [app].
  rewrite mainloop_block by (simpl; lia).
  cbn [with_q q_addrs an_dc an_code_buffer dift_thread_ok_signal].
  rewrite <- (assoc_L (++)), E, res_bind_ret. by rewrite mainloop_sync.
Qed.

(** * Properties *)

(** C4: Interpreting a block: for well-formed records at their place in the code
    buffer, their addresses in order, and further records with inline addresses
    after them, [interpret_dift_codes] returns, leaves the code buffer exactly
    as it was in spite of the end mark it writes there, and gives registers,
    memory and disk the taint that the abstract machine computes by running the
    records one after the other. *)
Theorem interpret_dift_codes_refines its its2 st buf loc cntr off :
  0 <= loc < 2 ^ 32 -> 0 <= cntr < 2 ^ 16 -> 0 <= off <= cntr ->
  forallb (item_ok (phys_ram_size st)) (its ++ its2) = true ->
  take (Z.to_nat (cntr - off)) (drop (Z.to_nat (loc * 160 + off)) buf) = codes_of its ->
  loc * 160 + cntr < Z.of_nat (length buf) ->
  dift_wf st -> tags_in 127 st -> items_pages (its ++ its2) <= Z.of_nat (heap_left st) ->
  exists st', interpret_dift_codes st buf (block_word loc cntr off)
      (addrs_of_items its ++ inline_of its2 ++ [case_number REC_END]) = Ret (st', buf) /\
    dift_wf st' /\ tags_in 127 st' /\
    abs_of st' ≡ run_items (phys_ram_size st) (its ++ its2) (abs_of st).
Proof.
  intros. destruct (interpret_block its its2 st buf loc cntr off) as (st' & E & R); [done..|].
  exists st'. split_and!; [done|apply R|apply R|apply R].
Qed.

(** A block of two records and a contamination record, for examples. *)
Definition demo_items : list item :=
  [Item REC_BLOCK_BEGIN (case_number REC_BLOCK_BEGIN) [];
   Item REG_MEM_MIX_APPEND_MO32 (demo_rec REG_MEM_MIX_APPEND_MO32 2) [16]].
Definition demo_rest : list item :=
  [Item REC_CONTAMINATE_MEM_OR
     (case_number REC_CONTAMINATE_MEM_OR .| Z.shiftl 3 8 .| Z.shiftl 4 16) [16];
   Item HD_MEM (case_number HD_MEM) [16; 4094; 8]].
Definition demo_buffer : list Z := codes_of demo_items ++ replicate 200 7.

Lemma interpret_dift_codes_refines_witness :
  exists st', interpret_dift_codes demo_tainted demo_buffer (block_word 0 2 0)
      (addrs_of_items demo_items ++ inline_of demo_rest ++ [case_number REC_END])
      = Ret (st', demo_buffer) /\ dift_wf st'.
Proof.
  destruct (interpret_dift_codes_refines demo_items demo_rest demo_tainted demo_buffer 0 2 0)
    as (st' & E & W & _).
  - lia.
  - lia.
  - lia.
  - vm_compute. reflexivity.
  - vm_compute. reflexivity.
  - vm_compute. reflexivity.
  - apply demo_tainted_wf.
  - apply demo_tainted_tags. split; [lia|reflexivity].
  - vm_compute. discriminate.
  - exists st'. split; [exact E|exact W].
Defined.

(** A synchronisation is complete: when the analysis thread has taken a
    block's addresses, its inline records and the three words of [dift_sync] off
    the queue, every record has taken effect, the address buffer is empty again
    and the thread has signalled the emulation thread. *)
Theorem dift_sync_completes its its2 a loc cntr ws :
  q_addrs a = [] ->
  0 <= loc < 2 ^ 32 -> 0 <= cntr < 2 ^ 16 ->
  forallb (item_ok (phys_ram_size (an_dc a))) (its ++ its2) = true ->
  take (Z.to_nat cntr) (drop (Z.to_nat (loc * 160)) (an_code_buffer a)) = codes_of its ->
  loc * 160 + cntr < Z.of_nat (length (an_code_buffer a)) ->
  forallb plain (addrs_of_items its ++ inline_of its2) = true ->
  Z.of_nat (length (addrs_of_items its ++ inline_of its2)) < 4096 ->
  dift_wf (an_dc a) -> tags_in 127 (an_dc a) ->
  items_pages (its ++ its2) <= Z.of_nat (heap_left (an_dc a)) ->
  exists st', analysis_mainloop
      ((addrs_of_items its ++ inline_of its2) ++ dift_sync_words loc cntr ++ ws) a =
      analysis_mainloop ws (Analysis st' (an_code_buffer a) [] 1) /\
    abs_of st' ≡ run_items (phys_ram_size (an_dc a)) (its ++ its2) (abs_of (an_dc a)).
Proof. exact (sync_block its its2 a loc cntr ws). Qed.

Lemma dift_sync_completes_witness :
  exists st', analysis_mainloop
      ((addrs_of_items demo_items ++ inline_of demo_rest) ++ dift_sync_words 0 2 ++ [])
      (Analysis demo_tainted demo_buffer [] 0) =
    Ret (Analysis st' demo_buffer [] 1, []).
Proof.
  destruct (dift_sync_completes demo_items demo_rest (Analysis demo_tainted demo_buffer [] 0) 0 2 [])
    as (st' & E & _).
  - reflexivity.
  - lia.
  - lia.
  - vm_compute. reflexivity.
  - vm_compute. reflexivity.
  - vm_compute. reflexivity.
  - vm_compute. reflexivity.
  - vm_compute. reflexivity.
  - apply demo_tainted_wf.
  - apply demo_tainted_tags. split; [lia|reflexivity].
  - vm_compute. discriminate.
  - exists st'. exact E.
Defined.

(** What the analysis thread does does not depend on where the queue lets it
    wait: processing some words and then the words it could not take yet with
    the next ones is processing all of them at once. *)
Theorem analysis_mainloop_resumes ws a a' left ws' :
  analysis_mainloop ws a = Ret (a', left) ->
  analysis_mainloop (ws ++ ws') a = analysis_mainloop (left ++ ws') a'.
Proof. intros. by eapply (mainloop_app (length ws)). Qed.

Lemma analysis_mainloop_resumes_witness :
  analysis_mainloop ([7; 8] ++ [9]) (Analysis demo_state [] [] 0) =
  analysis_mainloop ([] ++ [9]) (Analysis demo_state [] [7; 8] 0).
Proof. apply analysis_mainloop_resumes. reflexivity. Defined.

(** The address buffer of the analysis thread has no bound check: the 4097th
    word that arrives before a block ends is written past its end. *)
Theorem q_addrs_overflow ws rest a :
  q_addrs a = [] -> length ws = 4097%nat -> forallb plain ws = true ->
  analysis_mainloop (ws ++ rest) a = UB.
Proof.
  intros Hq Hl Hp. destruct ws as [|w ws0 _] using rev_ind; [done|].
  rewrite length_app in Hl. simpl in Hl. rewrite forallb_app in Hp. bool_to_prop.
  simpl in H0. rewrite andb_true_r in H0. rewrite <- (assoc_L (++)).
  rewrite mainloop_collect; [|done|rewrite Hq; simpl; lia]. simpl ([w] ++ rest).
  apply mainloop_overflow; [done|]. simpl. rewrite Hq. simpl. lia.
Qed.

Lemma q_addrs_overflow_witness :
  analysis_mainloop (replicate 4097 16 ++ []) (Analysis demo_state [] [] 0) = UB.
Proof. apply q_addrs_overflow; [reflexivity|reflexivity|vm_compute; reflexivity]. Defined.
