(* ===== verification/DiftType.v ===== *)
(** * Typing of the taint engine

    The type of a taint state is the sizes of its tables and the range of its tags.
    Operations of the interface and runs of records take typed states to typed
    states and never leave the tables. *)

From S2P Require Import Prelude DiftState DiftPolicy DiftFlow DiftInterp.

#[local] Open Scope Z_scope.

(** A state whose tables have their sizes and hold 7-bit tags. *)
Definition typed (st : dift_state) : Prop := dift_wf st /\ tags_in 127 st.

(** What the emulator asks of the engine: the calls of the interface, the transfers
    between disk and memory, and runs of records with their addresses. *)
Inductive dift_op : Type :=
| Memory_or (addr len tag : Z) | Memory_and (addr len tag : Z)
| Disk_or (hdaddr len tag : Z) | Disk_and (hdaddr len tag : Z)
| Disk_from_memory (hdaddr ra len : Z) | Memory_from_disk (wa hdaddr len : Z)
| Records (its : list item).

Definition run_op (st : dift_state) (op : dift_op) : res dift_state :=
  match op with
  | Memory_or a l t => r ← dift_contaminate_memory_or st a l t; Ret r.2
  | Memory_and a l t => r ← dift_contaminate_memory_and st a l t; Ret r.2
  | Disk_or a l t => r ← dift_contaminate_disk_or st a l t; Ret r.2
  | Disk_and a l t => r ← dift_contaminate_disk_and st a l t; Ret r.2
  | Disk_from_memory a ra l => copy_contamination_hd_mem st a ra l
  | Memory_from_disk wa a l => copy_contamination_mem_hd st wa a l
  | Records its => interpret_dift_codes_rest st (inline_of its ++ [case_number REC_END])
  end.

Definition run_ops (st : dift_state) (ops : list dift_op) : res dift_state :=
  foldl (fun r op => st ← r; run_op st op) (Ret st) ops.

(** Arguments of the C types, records that the front end may emit. The range check
    lets every length through at the two special cells after the RAM of [ram] bytes;
    from there an operation must stay within the page that follows the RAM. *)
Definition op_ok (ram : Z) (op : dift_op) : bool :=
  let mem a l := (0 <=? a) && (0 <=? l) && (negb (a =? ram) && negb (a =? ram + 1) || (a + l <=? ram + 4096)) in
  let tag t := (0 <=? t) && (t <? 256) in
  match op with
  | Memory_or a l t | Memory_and a l t => mem a l && tag t
  | Disk_or a l t | Disk_and a l t => (0 <=? a) && (0 <=? l) && tag t
  | Disk_from_memory a m l | Memory_from_disk m a l => (0 <=? a) && mem m l
  | Records its => forallb (item_ok ram) its
  end.

(** The disk pages that an operation may have to allocate. *)
Definition op_pages (op : dift_op) : Z :=
  let pages a l := if disk_in_range a l then page_span a l else 0 in
  match op with
  | Disk_or a l _ | Disk_from_memory a _ l => pages a l
  | Records its => items_pages its
  | _ => 0
  end.

Definition ops_pages (ops : list dift_op) : Z := foldr (fun op n => op_pages op + n) 0 ops.

(** What one operation does to the type. *)
Definition stays_typed (op : dift_op) (st st' : dift_state) : Prop :=
  typed st' /\ phys_ram_size st' = phys_ram_size st /\
  Z.of_nat (heap_left st) - op_pages op <= Z.of_nat (heap_left st').

Lemma op_pages_nonneg ram op : op_ok ram op = true -> 0 <= op_pages op.
Proof.
  destruct op; simpl; intros H; bool_to_prop; try lia; [case_if; auto using page_span_nonneg with lia..|].
  by eapply items_pages_nonneg.
Qed.

Lemma ops_pages_nonneg ram ops : forallb (op_ok ram) ops = true -> 0 <= ops_pages ops.
Proof.
  induction ops as [|op ops IH]; simpl; intros H; [lia|]. bool_to_prop.
  pose proof (op_pages_nonneg _ _ H). specialize (IH H0). lia.
Qed.

Lemma mem_updates_typed op st st' f : typed st -> op_pages op = 0 -> mem_updates st st' f ->
  (forall x, covers 127 (f x)) -> stays_typed op st st'.
Proof.
  intros [_ Ht] Hp U Hf. pose proof (mupd_only _ _ _ U) as Ho. split_and!.
  - split; [apply U|by eapply mem_updates_tags].
  - by rewrite Ho.
  - rewrite Hp, Ho. simpl. lia.
Qed.

Lemma hd_updates_typed op st st' src need f : typed st -> need <= op_pages op -> hd_updates st st' src need f ->
  src 127 -> stays_typed op st st'.
Proof.
  intros [_ Ht] Hp U Hs. destruct (upd_keeps _ _ _ _ _ U) as [Ho Hwf]. split_and!.
  - split; [done|by apply (upd_tags _ _ _ _ _ U)].
  - by rewrite Ho.
  - pose proof (upd_heap _ _ _ _ _ U). lia.
Qed.

Lemma need_pages st a l : 0 <= a -> hd_need_in st a l <= (if disk_in_range a l then page_span a l else 0).
Proof. intros. unfold hd_need_in. case_if; [apply hd_need_span|lia]. Qed.

Lemma op_ok_table st a l : dift_wf st ->
  negb (a =? phys_ram_size st) && negb (a =? phys_ram_size st + 1) || (a + l <=? phys_ram_size st + 4096) = true ->
  mem_accepts st a l = true -> a + l <= tbl_size (mem_dirty_tbl st).
Proof.
  intros Hwf H Hm. pose proof (wf_mem _ Hwf). apply orb_true_iff in H as [H|H]; bool_to_prop; [|lia].
  apply mem_accepts_table; [done|by rewrite (wf_clean _ Hwf)|by rewrite (wf_null _ Hwf)|done].
Qed.

Lemma run_op_typed op st : typed st -> op_ok (phys_ram_size st) op = true -> op_pages op <= Z.of_nat (heap_left st) ->
  exists st', run_op st op = Ret st' /\ stays_typed op st st'.
Proof.
  intros [Hwf Ht] Hok Hp. pose proof (conj Hwf Ht) as Hty.
  pose proof (wf_clean _ Hwf) as Hc. pose proof (wf_null _ Hwf) as Hn.
  destruct op as [a l t|a l t|a l t|a l t|a m l|m a l|its]; simpl in Hok; bool_to_prop.
  - destruct (set_mem_dirty_any st a l t true) as (st' & E & U); [done|lia..|by apply op_ok_table|].
    exists st'. split; [by simpl; unfold dift_contaminate_memory_or; rewrite E|].
    eapply mem_updates_typed; [done|done|exact U|]. intros x. cbv beta. case_if; bool_to_prop; [|apply Ht].
    apply covers_lor; [apply Ht|by eapply api_ok_tag].
  - destruct (and_mem_dirty_any st a l t) as (st' & E & U); [done|lia..|by apply op_ok_table|].
    exists st'. split; [by simpl; unfold dift_contaminate_memory_and; rewrite E|].
    eapply mem_updates_typed; [done|done|exact U|]. intros x. cbv beta. case_if; [|apply Ht]. apply covers_land; [apply Ht|lia].
  - destruct (Z.ltb_spec t 128) as [Ht128|Ht128].
    + destruct (set_hd_dirty_or_branches st a l t) as (st' & E & U); [done|lia..| |].
      { intros Hd. simpl in Hp. rewrite Hd in Hp. pose proof (hd_need_span st a l). lia. }
      exists st'. split; [by simpl; unfold dift_contaminate_disk_or; rewrite E|].
      eapply hd_updates_typed; [done|by apply need_pages|exact U|]. apply tag_covers_127. lia.
    + exists st. split; [|by split_and!; [..|pose proof (op_pages_nonneg (phys_ram_size st) (Disk_or a l t)); simpl in *; lia]].
      simpl. unfold dift_contaminate_disk_or, set_hd_dirty_or. rewrite is_valid_tag_spec by lia.
      destruct (Z.ltb_spec t 128); [lia|]. by destruct (is_valid_disk_range a l).
  - destruct (set_hd_dirty_and_branches st a l t) as (st' & E & U); [done|lia..|].
    exists st'. split; [by simpl; unfold dift_contaminate_disk_and; rewrite E|].
    by eapply hd_updates_typed; [done| |exact U|].
  - destruct (copy_hd_mem_any st a m l) as (st' & E & U); [done|lia..|by intros; apply op_ok_table| |].
    { intros Hd. simpl in Hp. rewrite Hd in Hp. pose proof (hd_need_span st a l). lia. }
    exists st'. split; [done|]. by eapply hd_updates_typed; [done|by apply need_pages|exact U|].
  - destruct (copy_mem_hd_any st m a l) as (st' & E & U); [done|lia..|by intros; apply op_ok_table|].
    exists st'. split; [done|]. eapply mem_updates_typed; [done|done|exact U|]. intros x. cbv beta.
    case_if; [by apply hd_taint_covers|apply Ht].
  - destruct (interpret_rest_items its st (case_number REC_END) []) as (st' & E & R); [done|apply REC_END_ends_run|done..|].
    exists st'. split; [done|]. split_and!; [by split; apply R|apply R|apply R].
Qed.

Lemma run_ops_typed ops : forall st, typed st -> forallb (op_ok (phys_ram_size st)) ops = true ->
  ops_pages ops <= Z.of_nat (heap_left st) ->
  exists st', run_ops st ops = Ret st' /\ typed st' /\ phys_ram_size st' = phys_ram_size st.
Proof.
  induction ops as [|op ops IH]; intros st Hty Hok Hp; [by exists st|].
  simpl in Hok, Hp. bool_to_prop.
  assert (0 <= ops_pages ops) as Hq by (by eapply ops_pages_nonneg).
  destruct (run_op_typed op st) as (st1 & E & Hty1 & Hram & Hheap); [done|done|lia|].
  destruct (IH st1) as (st' & E' & Hty' & Hram'); [done|by rewrite Hram|lia|].
  exists st'. unfold run_ops in *. simpl. rewrite E. split_and!; [done|done|congruence].
Qed.

(** C9: The taint engine is type safe: from its initialisation on, any sequence
    of interface calls, disk transfers and runs of well-formed records, as long
    as the allocator has the disk pages they may need, runs to its end without an
    access outside a table and without exiting, and the state it ends in has
    tables of their declared sizes that hold nothing but 7-bit tags. The memory
    addresses are arbitrary, in range or not, except that an operation that starts at the clean source
    or the null sink, the two cells after the RAM, where the range check lets every
    length through, must stay within the 4096 bytes that follow the RAM. *)
Theorem dift_type_safety ram page heap ops :
  0 <= ram -> 4096 <= page -> ram + page < 2 ^ 64 ->
  forallb (op_ok ram) ops = true -> 2 + ops_pages ops <= Z.of_nat heap ->
  exists st, init_dift_context ram page heap = Ret st /\
    exists st', run_ops st ops = Ret st' /\ typed st' /\ phys_ram_size st' = ram.
Proof.
  intros Hr Hp Hs Hok Hh.
  assert (0 <= ops_pages ops) as Hq by (by eapply ops_pages_nonneg).
  destruct heap as [|[|n]]; [lia..|]. rewrite init_dift_context_eq by done. eexists. split; [done|].
  apply (run_ops_typed ops (DiftState ram ram (ram + 1) (tbl_new 192) (tbl_new 256) (tbl_new (ram + page)) ∅ n)); simpl; [|done|lia].
  split; constructor; simpl; try lia; try done; intros; apply covers_0.
Qed.

Lemma dift_type_safety_witness :
  ops_pages [Memory_or 60 4 5; Memory_and 65 100 1; Memory_or 9999 4 1; Disk_from_memory 8190 60 4; Memory_from_disk 0 8190 4; Disk_or 0 1 200] = 3 /\
  exists st, init_dift_context 64 4096 8 = Ret st /\
    exists st', run_ops st [Memory_or 60 4 5; Memory_and 65 100 1; Memory_or 9999 4 1; Disk_from_memory 8190 60 4; Memory_from_disk 0 8190 4; Disk_or 0 1 200] = Ret st' /\
      typed st' /\ phys_ram_size st' = 64.
Proof. split; [reflexivity|]. apply dift_type_safety; [lia|lia|lia|reflexivity|vm_compute; discriminate]. Defined.
