(* ===== verification/DiftCase.v ===== *)
(** * Case numbers of DIFT records

    The encoding of operand kinds, operand size and effect into case numbers:
    [case_list], [init_case_mapping] and [dift_rec_case_nb] of
    [ext/dift/dift.c], with the constants of [ext/dift/dift.h]. *)

From S2P Require Import Prelude DiftState DiftPolicy.

(** ** Constants *)

Definition EFFECT_CLEAR : Z := Z.shiftl 1 0.
Definition EFFECT_ASSIGN : Z := Z.shiftl 1 1.
Definition EFFECT_APPEND : Z := Z.shiftl 1 2.
Definition EFFECT_ONE_TO_ONE : Z := Z.shiftl 1 3.
Definition EFFECT_MIX : Z := Z.shiftl 1 4.
Definition EFFECT_INSIDE_REG : Z := Z.shiftl 1 5.
Definition XMM_EFFECT_ASSIGN : Z := Z.shiftl 0 0.
Definition XMM_EFFECT_APPEND : Z := Z.shiftl 1 0.
Definition XMM_EFFECT_ONE_TO_ONE : Z := Z.shiftl 0 1.
Definition XMM_EFFECT_MIX : Z := Z.shiftl 1 1.
Definition XMM_EFFECT_LOW : Z := Z.shiftl 0 2.
Definition XMM_EFFECT_HIGH : Z := Z.shiftl 1 2.
Definition XMM_EFFECT_H2L : Z := Z.shiftl 1 3.
Definition XMM_EFFECT_L2H : Z := Z.shiftl 1 4.
Definition XMM_EFFECT_DUP : Z := Z.shiftl 1 5.
Definition XMM_EFFECT_CLEAR : Z := Z.shiftl 1 6.
Definition MO_8 : Z := 0.
Definition MO_16 : Z := 1.
Definition MO_32 : Z := 2.
Definition MO_64 : Z := 3.
Definition XMM_MO_32 : Z := 0.
Definition XMM_MO_64 : Z := 1.
Definition XMM_MO_128 : Z := 2.
Definition OPT_REG : Z := 0.
Definition OPT_MEM : Z := 1.
Definition OPT_IM : Z := 2.
Definition OPT_XMM : Z := 3.

(** ** The case mapping *)

(** The key of a case: source type, destination type, operand size, effect. *)
Definition case_key (src_type dst_type ot effect : Z) : Z :=
  Z.shiftl (0xc0 .| Z.shiftl src_type 4 .| Z.shiftl dst_type 2 .| ot) 8 .| effect.

Definition case_list : list Z := [
  case_key OPT_REG OPT_REG MO_8 (EFFECT_INSIDE_REG .| EFFECT_ASSIGN);
  case_key OPT_REG OPT_REG MO_8 (EFFECT_INSIDE_REG .| EFFECT_APPEND);
  case_key OPT_REG OPT_REG MO_8 (EFFECT_ONE_TO_ONE .| EFFECT_ASSIGN);
  case_key OPT_REG OPT_REG MO_16 (EFFECT_ONE_TO_ONE .| EFFECT_ASSIGN);
  case_key OPT_REG OPT_REG MO_32 (EFFECT_ONE_TO_ONE .| EFFECT_ASSIGN);
  case_key OPT_REG OPT_REG MO_64 (EFFECT_ONE_TO_ONE .| EFFECT_ASSIGN);
  case_key OPT_REG OPT_REG MO_8 (EFFECT_ONE_TO_ONE .| EFFECT_APPEND);
  case_key OPT_REG OPT_REG MO_16 (EFFECT_ONE_TO_ONE .| EFFECT_APPEND);
  case_key OPT_REG OPT_REG MO_32 (EFFECT_ONE_TO_ONE .| EFFECT_APPEND);
  case_key OPT_REG OPT_REG MO_64 (EFFECT_ONE_TO_ONE .| EFFECT_APPEND);
  case_key OPT_REG OPT_REG MO_8 (EFFECT_MIX .| EFFECT_APPEND);
  case_key OPT_REG OPT_REG MO_16 (EFFECT_MIX .| EFFECT_APPEND);
  case_key OPT_REG OPT_REG MO_32 (EFFECT_MIX .| EFFECT_APPEND);
  case_key OPT_REG OPT_REG MO_64 (EFFECT_MIX .| EFFECT_APPEND);
  case_key OPT_MEM OPT_REG MO_8 (EFFECT_ONE_TO_ONE .| EFFECT_ASSIGN);
  case_key OPT_MEM OPT_REG MO_16 (EFFECT_ONE_TO_ONE .| EFFECT_ASSIGN);
  case_key OPT_MEM OPT_REG MO_32 (EFFECT_ONE_TO_ONE .| EFFECT_ASSIGN);
  case_key OPT_MEM OPT_REG MO_64 (EFFECT_ONE_TO_ONE .| EFFECT_ASSIGN);
  case_key OPT_MEM OPT_REG MO_8 (EFFECT_ONE_TO_ONE .| EFFECT_APPEND);
  case_key OPT_MEM OPT_REG MO_16 (EFFECT_ONE_TO_ONE .| EFFECT_APPEND);
  case_key OPT_MEM OPT_REG MO_32 (EFFECT_ONE_TO_ONE .| EFFECT_APPEND);
  case_key OPT_MEM OPT_REG MO_64 (EFFECT_ONE_TO_ONE .| EFFECT_APPEND);
  case_key OPT_MEM OPT_REG MO_16 (EFFECT_MIX .| EFFECT_ASSIGN);
  case_key OPT_MEM OPT_REG MO_32 (EFFECT_MIX .| EFFECT_ASSIGN);
  case_key OPT_MEM OPT_REG MO_64 (EFFECT_MIX .| EFFECT_ASSIGN);
  case_key OPT_MEM OPT_REG MO_8 (EFFECT_MIX .| EFFECT_APPEND);
  case_key OPT_MEM OPT_REG MO_16 (EFFECT_MIX .| EFFECT_APPEND);
  case_key OPT_MEM OPT_REG MO_32 (EFFECT_MIX .| EFFECT_APPEND);
  case_key OPT_MEM OPT_REG MO_64 (EFFECT_MIX .| EFFECT_APPEND);
  case_key OPT_REG OPT_MEM MO_8 (EFFECT_ONE_TO_ONE .| EFFECT_ASSIGN);
  case_key OPT_REG OPT_MEM MO_16 (EFFECT_ONE_TO_ONE .| EFFECT_ASSIGN);
  case_key OPT_REG OPT_MEM MO_32 (EFFECT_ONE_TO_ONE .| EFFECT_ASSIGN);
  case_key OPT_REG OPT_MEM MO_64 (EFFECT_ONE_TO_ONE .| EFFECT_ASSIGN);
  case_key OPT_REG OPT_MEM MO_8 (EFFECT_ONE_TO_ONE .| EFFECT_APPEND);
  case_key OPT_REG OPT_MEM MO_16 (EFFECT_ONE_TO_ONE .| EFFECT_APPEND);
  case_key OPT_REG OPT_MEM MO_32 (EFFECT_ONE_TO_ONE .| EFFECT_APPEND);
  case_key OPT_REG OPT_MEM MO_64 (EFFECT_ONE_TO_ONE .| EFFECT_APPEND);
  case_key OPT_REG OPT_MEM MO_16 (EFFECT_MIX .| EFFECT_ASSIGN);
  case_key OPT_REG OPT_MEM MO_32 (EFFECT_MIX .| EFFECT_ASSIGN);
  case_key OPT_REG OPT_MEM MO_64 (EFFECT_MIX .| EFFECT_ASSIGN);
  case_key OPT_REG OPT_MEM MO_8 (EFFECT_MIX .| EFFECT_APPEND);
  case_key OPT_REG OPT_MEM MO_16 (EFFECT_MIX .| EFFECT_APPEND);
  case_key OPT_REG OPT_MEM MO_32 (EFFECT_MIX .| EFFECT_APPEND);
  case_key OPT_REG OPT_MEM MO_64 (EFFECT_MIX .| EFFECT_APPEND);
  case_key OPT_MEM OPT_MEM MO_8 (EFFECT_ONE_TO_ONE .| EFFECT_ASSIGN);
  case_key OPT_MEM OPT_MEM MO_16 (EFFECT_ONE_TO_ONE .| EFFECT_ASSIGN);
  case_key OPT_MEM OPT_MEM MO_32 (EFFECT_ONE_TO_ONE .| EFFECT_ASSIGN);
  case_key OPT_MEM OPT_MEM MO_64 (EFFECT_ONE_TO_ONE .| EFFECT_ASSIGN);
  case_key OPT_IM OPT_REG MO_8 (EFFECT_CLEAR);
  case_key OPT_IM OPT_REG MO_16 (EFFECT_CLEAR);
  case_key OPT_IM OPT_REG MO_32 (EFFECT_CLEAR);
  case_key OPT_IM OPT_REG MO_64 (EFFECT_CLEAR);
  case_key OPT_IM OPT_MEM MO_8 (EFFECT_CLEAR);
  case_key OPT_IM OPT_MEM MO_16 (EFFECT_CLEAR);
  case_key OPT_IM OPT_MEM MO_32 (EFFECT_CLEAR);
  case_key OPT_IM OPT_MEM MO_64 (EFFECT_CLEAR);
  case_key OPT_XMM OPT_XMM XMM_MO_32 (XMM_EFFECT_ONE_TO_ONE .| XMM_EFFECT_ASSIGN .| XMM_EFFECT_LOW);
  case_key OPT_XMM OPT_XMM XMM_MO_64 (XMM_EFFECT_ONE_TO_ONE .| XMM_EFFECT_ASSIGN .| XMM_EFFECT_LOW);
  case_key OPT_XMM OPT_XMM XMM_MO_64 (XMM_EFFECT_ONE_TO_ONE .| XMM_EFFECT_ASSIGN .| XMM_EFFECT_L2H);
  case_key OPT_XMM OPT_XMM XMM_MO_64 (XMM_EFFECT_ONE_TO_ONE .| XMM_EFFECT_ASSIGN .| XMM_EFFECT_H2L);
  case_key OPT_XMM OPT_XMM XMM_MO_128 (XMM_EFFECT_ONE_TO_ONE .| XMM_EFFECT_ASSIGN .| XMM_EFFECT_LOW);
  case_key OPT_REG OPT_XMM XMM_MO_32 (XMM_EFFECT_ONE_TO_ONE .| XMM_EFFECT_ASSIGN .| XMM_EFFECT_LOW);
  case_key OPT_REG OPT_XMM XMM_MO_64 (XMM_EFFECT_ONE_TO_ONE .| XMM_EFFECT_ASSIGN .| XMM_EFFECT_LOW);
  case_key OPT_XMM OPT_REG XMM_MO_32 (XMM_EFFECT_ONE_TO_ONE .| XMM_EFFECT_ASSIGN .| XMM_EFFECT_LOW);
  case_key OPT_XMM OPT_REG XMM_MO_64 (XMM_EFFECT_ONE_TO_ONE .| XMM_EFFECT_ASSIGN .| XMM_EFFECT_LOW);
  case_key OPT_MEM OPT_XMM XMM_MO_32 (XMM_EFFECT_ONE_TO_ONE .| XMM_EFFECT_ASSIGN .| XMM_EFFECT_LOW);
  case_key OPT_MEM OPT_XMM XMM_MO_64 (XMM_EFFECT_ONE_TO_ONE .| XMM_EFFECT_ASSIGN .| XMM_EFFECT_LOW);
  case_key OPT_MEM OPT_XMM XMM_MO_64 (XMM_EFFECT_ONE_TO_ONE .| XMM_EFFECT_ASSIGN .| XMM_EFFECT_HIGH);
  case_key OPT_MEM OPT_XMM XMM_MO_128 (XMM_EFFECT_ONE_TO_ONE .| XMM_EFFECT_ASSIGN .| XMM_EFFECT_LOW);
  case_key OPT_XMM OPT_MEM XMM_MO_32 (XMM_EFFECT_ONE_TO_ONE .| XMM_EFFECT_ASSIGN .| XMM_EFFECT_LOW);
  case_key OPT_XMM OPT_MEM XMM_MO_64 (XMM_EFFECT_ONE_TO_ONE .| XMM_EFFECT_ASSIGN .| XMM_EFFECT_LOW);
  case_key OPT_XMM OPT_MEM XMM_MO_64 (XMM_EFFECT_ONE_TO_ONE .| XMM_EFFECT_ASSIGN .| XMM_EFFECT_HIGH);
  case_key OPT_XMM OPT_MEM XMM_MO_128 (XMM_EFFECT_ONE_TO_ONE .| XMM_EFFECT_ASSIGN .| XMM_EFFECT_LOW);
  case_key OPT_XMM OPT_XMM XMM_MO_32 (XMM_EFFECT_ONE_TO_ONE .| XMM_EFFECT_ASSIGN .| XMM_EFFECT_LOW .| XMM_EFFECT_DUP);
  case_key OPT_XMM OPT_XMM XMM_MO_32 (XMM_EFFECT_ONE_TO_ONE .| XMM_EFFECT_ASSIGN .| XMM_EFFECT_HIGH .| XMM_EFFECT_DUP);
  case_key OPT_XMM OPT_XMM XMM_MO_64 (XMM_EFFECT_ONE_TO_ONE .| XMM_EFFECT_ASSIGN .| XMM_EFFECT_LOW .| XMM_EFFECT_DUP);
  case_key OPT_MEM OPT_XMM XMM_MO_32 (XMM_EFFECT_ONE_TO_ONE .| XMM_EFFECT_ASSIGN .| XMM_EFFECT_LOW .| XMM_EFFECT_DUP);
  case_key OPT_MEM OPT_XMM XMM_MO_32 (XMM_EFFECT_ONE_TO_ONE .| XMM_EFFECT_ASSIGN .| XMM_EFFECT_HIGH .| XMM_EFFECT_DUP);
  case_key OPT_MEM OPT_XMM XMM_MO_64 (XMM_EFFECT_ONE_TO_ONE .| XMM_EFFECT_ASSIGN .| XMM_EFFECT_LOW .| XMM_EFFECT_DUP);
  case_key OPT_IM OPT_XMM XMM_MO_128 (XMM_EFFECT_CLEAR) ].

(** [for(j = 0 ; j < sizeof(case_mapping) ; j++) case_mapping[j] = 0xff]. *)
Fixpoint fill_ff (n : nat) (t : table) (j : Z) : res table :=
  match n with
  | O => Ret t
  | S m => t' ← tbl_write t j 0xff; fill_ff m t' (j + 1)
  end.

(** [case_mapping[case_list[i]] = i] for each [i]. *)
Fixpoint map_cases (l : list Z) (t : table) (i : Z) : res table :=
  match l with
  | [] => Ret t
  | key :: l' => t' ← tbl_write t (u16 key) (u8 i); map_cases l' t' (i + 1)
  end.

Definition init_case_mapping : res table :=
  t ← fill_ff (2 ^ 16) (tbl_new (2 ^ 16)) 0;
  map_cases case_list t 0.

(** [exit( 1 )] when no case has the key. *)
Definition dift_rec_case_nb (case_mapping : table) (dst_type src_type ot effect : Z) : res Z :=
  ret ← tbl_read case_mapping (case_key src_type dst_type ot effect);
  if ret =? 0xff then Exit else Ret ret.

(** What the name of a case says about its operands: destination type, source
    type, operand size, effect. *)
Definition key_of (c : dift_case) : option (Z * Z * Z * Z) :=
  match c with
  | INSIDE_REG_ASSIGN => Some (OPT_REG, OPT_REG, MO_8, EFFECT_INSIDE_REG .| EFFECT_ASSIGN)
  | INSIDE_REG_APPEND => Some (OPT_REG, OPT_REG, MO_8, EFFECT_INSIDE_REG .| EFFECT_APPEND)
  | REG_REG_OO_ASSIGN_MO8 => Some (OPT_REG, OPT_REG, MO_8, EFFECT_ONE_TO_ONE .| EFFECT_ASSIGN)
  | REG_REG_OO_ASSIGN_MO16 => Some (OPT_REG, OPT_REG, MO_16, EFFECT_ONE_TO_ONE .| EFFECT_ASSIGN)
  | REG_REG_OO_ASSIGN_MO32 => Some (OPT_REG, OPT_REG, MO_32, EFFECT_ONE_TO_ONE .| EFFECT_ASSIGN)
  | REG_REG_OO_ASSIGN_MO64 => Some (OPT_REG, OPT_REG, MO_64, EFFECT_ONE_TO_ONE .| EFFECT_ASSIGN)
  | REG_REG_OO_APPEND_MO8 => Some (OPT_REG, OPT_REG, MO_8, EFFECT_ONE_TO_ONE .| EFFECT_APPEND)
  | REG_REG_OO_APPEND_MO16 => Some (OPT_REG, OPT_REG, MO_16, EFFECT_ONE_TO_ONE .| EFFECT_APPEND)
  | REG_REG_OO_APPEND_MO32 => Some (OPT_REG, OPT_REG, MO_32, EFFECT_ONE_TO_ONE .| EFFECT_APPEND)
  | REG_REG_OO_APPEND_MO64 => Some (OPT_REG, OPT_REG, MO_64, EFFECT_ONE_TO_ONE .| EFFECT_APPEND)
  | REG_REG_MIX_APPEND_MO8 => Some (OPT_REG, OPT_REG, MO_8, EFFECT_MIX .| EFFECT_APPEND)
  | REG_REG_MIX_APPEND_MO16 => Some (OPT_REG, OPT_REG, MO_16, EFFECT_MIX .| EFFECT_APPEND)
  | REG_REG_MIX_APPEND_MO32 => Some (OPT_REG, OPT_REG, MO_32, EFFECT_MIX .| EFFECT_APPEND)
  | REG_REG_MIX_APPEND_MO64 => Some (OPT_REG, OPT_REG, MO_64, EFFECT_MIX .| EFFECT_APPEND)
  | REG_MEM_OO_ASSIGN_MO8 => Some (OPT_REG, OPT_MEM, MO_8, EFFECT_ONE_TO_ONE .| EFFECT_ASSIGN)
  | REG_MEM_OO_ASSIGN_MO16 => Some (OPT_REG, OPT_MEM, MO_16, EFFECT_ONE_TO_ONE .| EFFECT_ASSIGN)
  | REG_MEM_OO_ASSIGN_MO32 => Some (OPT_REG, OPT_MEM, MO_32, EFFECT_ONE_TO_ONE .| EFFECT_ASSIGN)
  | REG_MEM_OO_ASSIGN_MO64 => Some (OPT_REG, OPT_MEM, MO_64, EFFECT_ONE_TO_ONE .| EFFECT_ASSIGN)
  | REG_MEM_OO_APPEND_MO8 => Some (OPT_REG, OPT_MEM, MO_8, EFFECT_ONE_TO_ONE .| EFFECT_APPEND)
  | REG_MEM_OO_APPEND_MO16 => Some (OPT_REG, OPT_MEM, MO_16, EFFECT_ONE_TO_ONE .| EFFECT_APPEND)
  | REG_MEM_OO_APPEND_MO32 => Some (OPT_REG, OPT_MEM, MO_32, EFFECT_ONE_TO_ONE .| EFFECT_APPEND)
  | REG_MEM_OO_APPEND_MO64 => Some (OPT_REG, OPT_MEM, MO_64, EFFECT_ONE_TO_ONE .| EFFECT_APPEND)
  | REG_MEM_MIX_ASSIGN_MO16 => Some (OPT_REG, OPT_MEM, MO_16, EFFECT_MIX .| EFFECT_ASSIGN)
  | REG_MEM_MIX_ASSIGN_MO32 => Some (OPT_REG, OPT_MEM, MO_32, EFFECT_MIX .| EFFECT_ASSIGN)
  | REG_MEM_MIX_ASSIGN_MO64 => Some (OPT_REG, OPT_MEM, MO_64, EFFECT_MIX .| EFFECT_ASSIGN)
  | REG_MEM_MIX_APPEND_MO8 => Some (OPT_REG, OPT_MEM, MO_8, EFFECT_MIX .| EFFECT_APPEND)
  | REG_MEM_MIX_APPEND_MO16 => Some (OPT_REG, OPT_MEM, MO_16, EFFECT_MIX .| EFFECT_APPEND)
  | REG_MEM_MIX_APPEND_MO32 => Some (OPT_REG, OPT_MEM, MO_32, EFFECT_MIX .| EFFECT_APPEND)
  | REG_MEM_MIX_APPEND_MO64 => Some (OPT_REG, OPT_MEM, MO_64, EFFECT_MIX .| EFFECT_APPEND)
  | MEM_REG_OO_ASSIGN_MO8 => Some (OPT_MEM, OPT_REG, MO_8, EFFECT_ONE_TO_ONE .| EFFECT_ASSIGN)
  | MEM_REG_OO_ASSIGN_MO16 => Some (OPT_MEM, OPT_REG, MO_16, EFFECT_ONE_TO_ONE .| EFFECT_ASSIGN)
  | MEM_REG_OO_ASSIGN_MO32 => Some (OPT_MEM, OPT_REG, MO_32, EFFECT_ONE_TO_ONE .| EFFECT_ASSIGN)
  | MEM_REG_OO_ASSIGN_MO64 => Some (OPT_MEM, OPT_REG, MO_64, EFFECT_ONE_TO_ONE .| EFFECT_ASSIGN)
  | MEM_REG_OO_APPEND_MO8 => Some (OPT_MEM, OPT_REG, MO_8, EFFECT_ONE_TO_ONE .| EFFECT_APPEND)
  | MEM_REG_OO_APPEND_MO16 => Some (OPT_MEM, OPT_REG, MO_16, EFFECT_ONE_TO_ONE .| EFFECT_APPEND)
  | MEM_REG_OO_APPEND_MO32 => Some (OPT_MEM, OPT_REG, MO_32, EFFECT_ONE_TO_ONE .| EFFECT_APPEND)
  | MEM_REG_OO_APPEND_MO64 => Some (OPT_MEM, OPT_REG, MO_64, EFFECT_ONE_TO_ONE .| EFFECT_APPEND)
  | MEM_REG_MIX_ASSIGN_MO16 => Some (OPT_MEM, OPT_REG, MO_16, EFFECT_MIX .| EFFECT_ASSIGN)
  | MEM_REG_MIX_ASSIGN_MO32 => Some (OPT_MEM, OPT_REG, MO_32, EFFECT_MIX .| EFFECT_ASSIGN)
  | MEM_REG_MIX_ASSIGN_MO64 => Some (OPT_MEM, OPT_REG, MO_64, EFFECT_MIX .| EFFECT_ASSIGN)
  | MEM_REG_MIX_APPEND_MO8 => Some (OPT_MEM, OPT_REG, MO_8, EFFECT_MIX .| EFFECT_APPEND)
  | MEM_REG_MIX_APPEND_MO16 => Some (OPT_MEM, OPT_REG, MO_16, EFFECT_MIX .| EFFECT_APPEND)
  | MEM_REG_MIX_APPEND_MO32 => Some (OPT_MEM, OPT_REG, MO_32, EFFECT_MIX .| EFFECT_APPEND)
  | MEM_REG_MIX_APPEND_MO64 => Some (OPT_MEM, OPT_REG, MO_64, EFFECT_MIX .| EFFECT_APPEND)
  | MEM_MEM_OO_ASSIGN_MO8 => Some (OPT_MEM, OPT_MEM, MO_8, EFFECT_ONE_TO_ONE .| EFFECT_ASSIGN)
  | MEM_MEM_OO_ASSIGN_MO16 => Some (OPT_MEM, OPT_MEM, MO_16, EFFECT_ONE_TO_ONE .| EFFECT_ASSIGN)
  | MEM_MEM_OO_ASSIGN_MO32 => Some (OPT_MEM, OPT_MEM, MO_32, EFFECT_ONE_TO_ONE .| EFFECT_ASSIGN)
  | MEM_MEM_OO_ASSIGN_MO64 => Some (OPT_MEM, OPT_MEM, MO_64, EFFECT_ONE_TO_ONE .| EFFECT_ASSIGN)
  | REG_IM_CLEAR_MO8 => Some (OPT_REG, OPT_IM, MO_8, EFFECT_CLEAR)
  | REG_IM_CLEAR_MO16 => Some (OPT_REG, OPT_IM, MO_16, EFFECT_CLEAR)
  | REG_IM_CLEAR_MO32 => Some (OPT_REG, OPT_IM, MO_32, EFFECT_CLEAR)
  | REG_IM_CLEAR_MO64 => Some (OPT_REG, OPT_IM, MO_64, EFFECT_CLEAR)
  | MEM_IM_CLEAR_MO8 => Some (OPT_MEM, OPT_IM, MO_8, EFFECT_CLEAR)
  | MEM_IM_CLEAR_MO16 => Some (OPT_MEM, OPT_IM, MO_16, EFFECT_CLEAR)
  | MEM_IM_CLEAR_MO32 => Some (OPT_MEM, OPT_IM, MO_32, EFFECT_CLEAR)
  | MEM_IM_CLEAR_MO64 => Some (OPT_MEM, OPT_IM, MO_64, EFFECT_CLEAR)
  | XMM_XMM_OO_ASSIGN_MO32 => Some (OPT_XMM, OPT_XMM, XMM_MO_32, XMM_EFFECT_ONE_TO_ONE .| XMM_EFFECT_ASSIGN .| XMM_EFFECT_LOW)
  | XMM_XMM_OO_ASSIGN_MO64 => Some (OPT_XMM, OPT_XMM, XMM_MO_64, XMM_EFFECT_ONE_TO_ONE .| XMM_EFFECT_ASSIGN .| XMM_EFFECT_LOW)
  | XMM_XMM_OO_ASSIGN_MO64LH => Some (OPT_XMM, OPT_XMM, XMM_MO_64, XMM_EFFECT_ONE_TO_ONE .| XMM_EFFECT_ASSIGN .| XMM_EFFECT_L2H)
  | XMM_XMM_OO_ASSIGN_MO64HL => Some (OPT_XMM, OPT_XMM, XMM_MO_64, XMM_EFFECT_ONE_TO_ONE .| XMM_EFFECT_ASSIGN .| XMM_EFFECT_H2L)
  | XMM_XMM_OO_ASSIGN_MO128 => Some (OPT_XMM, OPT_XMM, XMM_MO_128, XMM_EFFECT_ONE_TO_ONE .| XMM_EFFECT_ASSIGN .| XMM_EFFECT_LOW)
  | XMM_REG_OO_ASSIGN_MO32 => Some (OPT_XMM, OPT_REG, XMM_MO_32, XMM_EFFECT_ONE_TO_ONE .| XMM_EFFECT_ASSIGN .| XMM_EFFECT_LOW)
  | XMM_REG_OO_ASSIGN_MO64 => Some (OPT_XMM, OPT_REG, XMM_MO_64, XMM_EFFECT_ONE_TO_ONE .| XMM_EFFECT_ASSIGN .| XMM_EFFECT_LOW)
  | REG_XMM_OO_ASSIGN_MO32 => Some (OPT_REG, OPT_XMM, XMM_MO_32, XMM_EFFECT_ONE_TO_ONE .| XMM_EFFECT_ASSIGN .| XMM_EFFECT_LOW)
  | REG_XMM_OO_ASSIGN_MO64 => Some (OPT_REG, OPT_XMM, XMM_MO_64, XMM_EFFECT_ONE_TO_ONE .| XMM_EFFECT_ASSIGN .| XMM_EFFECT_LOW)
  | XMM_MEM_OO_ASSIGN_MO32 => Some (OPT_XMM, OPT_MEM, XMM_MO_32, XMM_EFFECT_ONE_TO_ONE .| XMM_EFFECT_ASSIGN .| XMM_EFFECT_LOW)
  | XMM_MEM_OO_ASSIGN_MO64 => Some (OPT_XMM, OPT_MEM, XMM_MO_64, XMM_EFFECT_ONE_TO_ONE .| XMM_EFFECT_ASSIGN .| XMM_EFFECT_LOW)
  | XMM_MEM_OO_ASSIGN_MO64H => Some (OPT_XMM, OPT_MEM, XMM_MO_64, XMM_EFFECT_ONE_TO_ONE .| XMM_EFFECT_ASSIGN .| XMM_EFFECT_HIGH)
  | XMM_MEM_OO_ASSIGN_MO128 => Some (OPT_XMM, OPT_MEM, XMM_MO_128, XMM_EFFECT_ONE_TO_ONE .| XMM_EFFECT_ASSIGN .| XMM_EFFECT_LOW)
  | MEM_XMM_OO_ASSIGN_MO32 => Some (OPT_MEM, OPT_XMM, XMM_MO_32, XMM_EFFECT_ONE_TO_ONE .| XMM_EFFECT_ASSIGN .| XMM_EFFECT_LOW)
  | MEM_XMM_OO_ASSIGN_MO64 => Some (OPT_MEM, OPT_XMM, XMM_MO_64, XMM_EFFECT_ONE_TO_ONE .| XMM_EFFECT_ASSIGN .| XMM_EFFECT_LOW)
  | MEM_XMM_OO_ASSIGN_MO64H => Some (OPT_MEM, OPT_XMM, XMM_MO_64, XMM_EFFECT_ONE_TO_ONE .| XMM_EFFECT_ASSIGN .| XMM_EFFECT_HIGH)
  | MEM_XMM_OO_ASSIGN_MO128 => Some (OPT_MEM, OPT_XMM, XMM_MO_128, XMM_EFFECT_ONE_TO_ONE .| XMM_EFFECT_ASSIGN .| XMM_EFFECT_LOW)
  | XMM_XMM_OO_ASSIGN_DUP_MO32L => Some (OPT_XMM, OPT_XMM, XMM_MO_32, XMM_EFFECT_ONE_TO_ONE .| XMM_EFFECT_ASSIGN .| XMM_EFFECT_LOW .| XMM_EFFECT_DUP)
  | XMM_XMM_OO_ASSIGN_DUP_MO32H => Some (OPT_XMM, OPT_XMM, XMM_MO_32, XMM_EFFECT_ONE_TO_ONE .| XMM_EFFECT_ASSIGN .| XMM_EFFECT_HIGH .| XMM_EFFECT_DUP)
  | XMM_XMM_OO_ASSIGN_DUP_MO64 => Some (OPT_XMM, OPT_XMM, XMM_MO_64, XMM_EFFECT_ONE_TO_ONE .| XMM_EFFECT_ASSIGN .| XMM_EFFECT_LOW .| XMM_EFFECT_DUP)
  | XMM_MEM_OO_ASSIGN_DUP_MO32L => Some (OPT_XMM, OPT_MEM, XMM_MO_32, XMM_EFFECT_ONE_TO_ONE .| XMM_EFFECT_ASSIGN .| XMM_EFFECT_LOW .| XMM_EFFECT_DUP)
  | XMM_MEM_OO_ASSIGN_DUP_MO32H => Some (OPT_XMM, OPT_MEM, XMM_MO_32, XMM_EFFECT_ONE_TO_ONE .| XMM_EFFECT_ASSIGN .| XMM_EFFECT_HIGH .| XMM_EFFECT_DUP)
  | XMM_MEM_OO_ASSIGN_DUP_MO64 => Some (OPT_XMM, OPT_MEM, XMM_MO_64, XMM_EFFECT_ONE_TO_ONE .| XMM_EFFECT_ASSIGN .| XMM_EFFECT_LOW .| XMM_EFFECT_DUP)
  | XMM_IM_CLEAR => Some (OPT_XMM, OPT_IM, XMM_MO_128, XMM_EFFECT_CLEAR)
  | _ => None
  end.

(** ** Lemmas: the case mapping *)

Lemma fill_ff_ok n : forall t j,
  0 <= j -> j + Z.of_nat n <= tbl_size t ->
  exists t', fill_ff n t j = Ret t' /\
    tbl_agrees t t' (fun x => if within j (Z.of_nat n) x then 255 else tbl_get t x).
Proof.
  induction n as [|n IH]; intros t j Hj Hs.
  - exists t. split; [done|]. split; [done|]. intros. by split_tests; [lia|].
  - cbn [fill_ff]. rewrite tbl_write_ok by lia. simpl.
    destruct (IH (tbl_set t j 255) (j + 1)) as (t' & -> & Hz & Hg); [lia|simpl; lia|].
    exists t'. split; [done|]. split; [done|]. intros x. rewrite Hg, tbl_get_set.
    split_tests; lia.
Qed.

Lemma map_cases_ok l : forall t i,
  NoDup l -> Forall (fun k => 0 <= k < 2 ^ 16) l -> tbl_size t = 2 ^ 16 ->
  0 <= i -> i + Z.of_nat (length l) < 256 ->
  exists t', map_cases l t i = Ret t' /\ tbl_size t' = 2 ^ 16 /\
    (forall p k, l !! p = Some k -> tbl_get t' k = i + Z.of_nat p) /\
    (forall k, k ∉ l -> tbl_get t' k = tbl_get t k).
Proof.
  induction l as [|key l IH]; intros t i Hnd Hk Hs Hi Hl.
  - exists t. split_and!; [done|done| |done]. by intros [].
  - inversion Hnd as [|? ? Hni Hnd']; subst. inversion Hk as [|? ? Hk1 Hk2]; subst.
    cbn [map_cases]. simpl length in Hl.
    unfold u16. rewrite Z.mod_small by lia. rewrite tbl_write_ok by lia. simpl.
    unfold u8. rewrite Z.mod_small by lia.
    destruct (IH (tbl_set t key i) (i + 1)) as (t' & -> & Hz & Hin & Hout); [done..|lia|lia|].
    exists t'. split_and!; [done|done| |].
    + intros [|p] k E; simpl in E.
      * simplify_eq. rewrite Hout, tbl_get_set, Z.eqb_refl by done. lia.
      * rewrite (Hin p k E). lia.
    + intros k Hnk. rewrite Hout by set_solver. rewrite tbl_get_set.
      destruct (Z.eqb_spec key k); [set_solver|done].
Qed.

Lemma case_list_ok : NoDup case_list /\ Forall (fun k => 0 <= k < 2 ^ 16) case_list.
Proof.
  split; [apply (bool_decide_unpack _); vm_compute; done|].
  apply (bool_decide_unpack _). vm_compute. done.
Qed.

Lemma init_case_mapping_ok :
  exists cm, init_case_mapping = Ret cm /\ tbl_size cm = 2 ^ 16 /\
    (forall p k, case_list !! p = Some k -> tbl_get cm k = Z.of_nat p) /\
    (forall k, k ∉ case_list -> 0 <= k < 2 ^ 16 -> tbl_get cm k = 255).
Proof.
  unfold init_case_mapping. change (2 ^ 16)%nat with (Z.to_nat 65536).
  destruct (fill_ff_ok (Z.to_nat 65536) (tbl_new (2 ^ 16)) 0) as (t & -> & Hz & Hg);
    [lia|rewrite Z2Nat.id by lia; done|].
  rewrite Z2Nat.id in Hg by lia. destruct case_list_ok as [Hnd Hr].
  destruct (map_cases_ok case_list t 0) as (cm & E & Hs & Hin & Hout); [done..|].
  exists cm. split; [exact E|]. split_and!; [done| |].
  - intros p k Hp. by rewrite (Hin p k Hp).
  - intros k Hk Hb. rewrite Hout, Hg by done. split_tests; lia.
Qed.

(** Its value is the table of [init_case_mapping_ok]; nothing computes it. *)
#[global] Opaque init_case_mapping.

(** The fields of a key. *)
Definition key_fields (key : Z) : Z * Z * Z * Z :=
  (Z.land (Z.shiftr key 10) 3, Z.land (Z.shiftr key 12) 3, Z.land (Z.shiftr key 8) 3,
   Z.land key 255).

Definition key_checks : bool :=
  forallb (fun d => forallb (fun s => forallb (fun o => forallb (fun e =>
    let key := case_key s d o e in
    bool_decide (key_fields key = (d, s, o, e)) && (0 <=? key) && (key <? 2 ^ 16))
    (seqZ 0 256)) (seqZ 0 4)) (seqZ 0 4)) (seqZ 0 4).

Lemma key_checks_true : key_checks = true.
Proof. vm_compute. reflexivity. Qed.

Lemma case_key_fields d s o e :
  0 <= d < 4 -> 0 <= s < 4 -> 0 <= o < 4 -> 0 <= e < 256 ->
  key_fields (case_key s d o e) = (d, s, o, e) /\ 0 <= case_key s d o e < 2 ^ 16.
Proof.
  intros Hd Hs Ho He. pose proof key_checks_true as H. unfold key_checks in H.
  rewrite forallb_forall in H. specialize (H d ltac:(apply list_elem_of_In, elem_of_seqZ; lia)).
  rewrite forallb_forall in H. specialize (H s ltac:(apply list_elem_of_In, elem_of_seqZ; lia)).
  rewrite forallb_forall in H. specialize (H o ltac:(apply list_elem_of_In, elem_of_seqZ; lia)).
  rewrite forallb_forall in H. specialize (H e ltac:(apply list_elem_of_In, elem_of_seqZ; lia)).
  cbv zeta in H. rewrite !andb_true_iff in H. destruct H as [[H1 H2] H3].
  apply bool_decide_eq_true in H1. bool_to_prop. done.
Qed.

(** Every case stands in [case_list] at its number, under the key its name
    says. *)
Lemma case_list_matches c d s o e :
  key_of c = Some (d, s, o, e) ->
  case_list !! Z.to_nat (case_number c) = Some (case_key s d o e) /\ 0 <= case_number c < 80 /\
  0 <= d < 4 /\ 0 <= s < 4 /\ 0 <= o < 4 /\ 0 <= e < 256.
Proof.
  intros H. destruct c; try discriminate H; injection H as <- <- <- <-;
    split_and!; vm_compute; try reflexivity; discriminate.
Qed.

Lemma case_list_inv p k :
  case_list !! p = Some k ->
  exists c d s o e, key_of c = Some (d, s, o, e) /\ case_number c = Z.of_nat p /\
    k = case_key s d o e.
Proof.
  intros H. assert (p < 80)%nat as Hp by (by apply lookup_lt_Some in H).
  assert (Forall (fun c => is_Some (key_of c)) (take 80 all_cases)) as Hk.
  { apply (bool_decide_unpack _). vm_compute. done. }
  destruct (lookup_lt_is_Some_2 (take 80 all_cases) p) as [c Hc]; [vm_compute; lia|].
  rewrite Forall_lookup in Hk. destruct (Hk p c Hc) as [[[[d s] o] e] Hkey].
  assert (case_number c = Z.of_nat p) as Hn.
  { clear -Hc Hp. do 80 (destruct p as [|p]; [injection Hc as <-; reflexivity|]). lia. }
  destruct (case_list_matches c d s o e Hkey) as (Hl & _).
  rewrite Hn, Nat2Z.id in Hl. exists c, d, s, o, e. split_and!; [done|done|congruence].
Qed.

Lemma dift_rec_case_nb_ok cm c d s o e :
  init_case_mapping = Ret cm -> key_of c = Some (d, s, o, e) ->
  dift_rec_case_nb cm d s o e = Ret (case_number c).
Proof.
  intros Hi Hk. destruct init_case_mapping_ok as (cm' & E & Hs & Hin & _).
  rewrite Hi in E. injection E as <-.
  destruct (case_list_matches c d s o e Hk) as (Hl & Hn & Hd & Hs' & Ho & He).
  destruct (case_key_fields d s o e) as [_ Hr]; [done..|].
  unfold dift_rec_case_nb. rewrite tbl_read_ok by lia. simpl.
  rewrite (Hin _ _ Hl), Z2Nat.id by lia.
  rewrite (proj2 (Z.eqb_neq (case_number c) 255)) by lia. reflexivity.
Qed.

(** What the front end needs of a case mapping. *)
Definition serves_cases (cm : table) : Prop := forall c d s o e,
  key_of c = Some (d, s, o, e) -> dift_rec_case_nb cm d s o e = Ret (case_number c).

Lemma init_case_mapping_serves : exists cm, init_case_mapping = Ret cm /\ serves_cases cm.
Proof.
  destruct init_case_mapping_ok as (cm & E & _). exists cm. split; [exact E|].
  intros c d s o e Hk. apply (dift_rec_case_nb_ok cm c d s o e E Hk).
Qed.

Lemma dift_rec_case_nb_inv cm d s o e :
  init_case_mapping = Ret cm -> 0 <= d < 4 -> 0 <= s < 4 -> 0 <= o < 4 -> 0 <= e < 256 ->
  (forall c, key_of c <> Some (d, s, o, e)) -> dift_rec_case_nb cm d s o e = Exit.
Proof.
  intros Hi Hd Hs Ho He Hno. destruct init_case_mapping_ok as (cm' & E & Hz & _ & Hout).
  rewrite Hi in E. injection E as <-.
  destruct (case_key_fields d s o e) as [Hf Hr]; [done..|].
  unfold dift_rec_case_nb. rewrite tbl_read_ok by lia. simpl. rewrite Hout; [reflexivity| |lia].
  intros Hin. apply list_elem_of_lookup in Hin as [p Hp].
  destruct (case_list_inv p _ Hp) as (c & d' & s' & o' & e' & Hk & _ & Ek).
  destruct (case_list_matches c d' s' o' e' Hk) as (_ & _ & Hd' & Hs' & Ho' & He').
  destruct (case_key_fields d' s' o' e') as [Hf' _]; [done..|].
  apply (Hno c). rewrite Hk, <- Hf', <- Ek, Hf. done.
Qed.

Lemma case_number_range c : 0 <= case_number c < 256.
Proof. destruct c; vm_compute; split; discriminate || reflexivity. Qed.

Lemma case_of_case_number c : case_of_number (case_number c) = Some c.
Proof. by destruct c; vm_compute. Qed.

(** * Properties *)

(** C17: The case mapping is right and complete: for every combination of operand
    kinds, operand size and effect, [dift_rec_case_nb] returns the number of the
    one case whose name says that combination, and exits when there is none; so
    the order of [case_list] matches the enum, as its comment demands. *)
Theorem dift_rec_case_nb_spec cm d s o e :
  init_case_mapping = Ret cm -> 0 <= d < 4 -> 0 <= s < 4 -> 0 <= o < 4 -> 0 <= e < 256 ->
  dift_rec_case_nb cm d s o e =
    match list_find (fun c => key_of c = Some (d, s, o, e)) all_cases with
    | Some (_, c) => Ret (case_number c)
    | None => Exit
    end.
Proof.
  intros Hi Hd Hs Ho He. destruct (list_find _ all_cases) as [[p c]|] eqn:E.
  - apply list_find_Some in E as (_ & Hk & _). by apply dift_rec_case_nb_ok.
  - apply list_find_None in E. apply dift_rec_case_nb_inv; [assumption..|]. intros c Hk.
    rewrite Forall_forall in E. apply (E c); [|done].
    apply list_elem_of_lookup. pose proof (case_of_case_number c) as Hc.
    unfold case_of_number in Hc. case_if; [done|]. by eexists.
Qed.

Lemma dift_rec_case_nb_spec_witness :
  exists cm, init_case_mapping = Ret cm /\
    dift_rec_case_nb cm OPT_MEM OPT_XMM XMM_MO_64 XMM_EFFECT_HIGH = Ret 71 /\
    dift_rec_case_nb cm OPT_IM OPT_REG MO_8 EFFECT_CLEAR = Exit.
Proof.
  destruct init_case_mapping_ok as (cm & E & _). exists cm. split; [exact E|]. split.
  - rewrite (dift_rec_case_nb_spec cm OPT_MEM OPT_XMM XMM_MO_64 XMM_EFFECT_HIGH E);
      [vm_compute; reflexivity|vm_compute; split; [discriminate|reflexivity]..].
  - rewrite (dift_rec_case_nb_spec cm OPT_IM OPT_REG MO_8 EFFECT_CLEAR E);
      [vm_compute; reflexivity|vm_compute; split; [discriminate|reflexivity]..].
Defined.
