(* ===== verification/DiftFront.v ===== *)
(** * The DIFT front end

    How the translator turns guest instructions into taint records: the
    [gen_dift_*] functions of [target-i386/translate.c] that build records and
    emit TCG operations, and the effect of these operations at run time
    ([tcg/i386/tcg-target.c]). The theorems connect the front end to the
    interpreter: what it emits is what the analysis thread expects. *)

From S2P Require Import Prelude DiftState DiftPolicy DiftFlow DiftInterp DiftCase.

(** ** Records *)

(** A record with the case number and up to four operand bytes; a wider value
    is cut to the byte of its field. *)
Definition mk_rec (case b1 b2 b3 b4 : Z) : dift_record :=
  u8 case .| Z.shiftl (u8 b1) 8 .| Z.shiftl (u8 b2) 16 .| Z.shiftl (u8 b3) 24 .| Z.shiftl (u8 b4) 32.

(** ** Translation *)

(** The TCG operations DIFT adds. *)
Inductive tcg_op : Type :=
| op_qemu_dift_inc_diftcodes (idx : Z)
| op_qemu_dift_enq_i64 (arg : Z)
| op_qemu_dift_enq_wa
| op_qemu_dift_enq_ra
| op_qemu_dift_tb_begin (code_loc : Z).

(** The operands of the instruction being translated. *)
Record DisasContext : Type := Disas {
  dst_type : Z; src_type : Z; dst_reg : Z; src_reg : Z; reg_base : Z; reg_index : Z
}.

(** The translator's DIFT state: the current block's place in the code buffer
    and its record count, whether records go straight to the queue, the buffer,
    and the operations emitted so far. *)
Record gen_state : Type := Gen {
  dift_code_loc : Z;
  dift_code_idx : Z;
  label_or_helper_appeared : bool;
  code_buffer : list Z;
  gen_opc : list tcg_op
}.

Definition G (A : Type) : Type := gen_state -> res (A * gen_state).
#[export] Instance G_ret : MRet G := fun A a g => Ret (a, g).
#[export] Instance G_bind : MBind G := fun A B f m g => '(a, g') ← m g; f a g'.
Definition lift {A} (r : res A) : G A := fun g => a ← r; Ret (a, g).

Definition tcg_gen_op (op : tcg_op) : G unit := fun g =>
  Ret (tt, Gen (dift_code_loc g) (dift_code_idx g) (label_or_helper_appeared g) (code_buffer g)
             (gen_opc g ++ [op])).

Definition gen_dift_sync_i64 : G unit := fun g =>
  if negb (label_or_helper_appeared g)
  then tcg_gen_op (op_qemu_dift_inc_diftcodes (dift_code_idx g)) g
  else Ret (tt, g).

Definition set_appeared : G unit := fun g =>
  Ret (tt, Gen (dift_code_loc g) (dift_code_idx g) true (code_buffer g) (gen_opc g)).

(** [dift_code_buffer[ loc + idx ] = arg; idx++]. *)
Definition buffer_put (arg : Z) : G unit := fun g =>
  let i := dift_code_loc g + dift_code_idx g in
  if (0 <=? i) && (i <? Z.of_nat (length (code_buffer g)))
  then Ret (tt, Gen (dift_code_loc g) (dift_code_idx g + 1) (label_or_helper_appeared g)
                  (<[Z.to_nat i := arg]> (code_buffer g)) (gen_opc g))
  else UB.

(** The last slot of the block was filled: close the cached part. *)
Definition close_when_full : G unit := fun g =>
  if dift_code_idx g =? CONFIG_IF_CODES_PER_TB - 1
  then (gen_dift_sync_i64;; set_appeared) g
  else Ret (tt, g).

Definition gen_dift_enqueue_i64 (arg : Z) : G unit := fun g =>
  if negb (label_or_helper_appeared g) then (buffer_put arg;; close_when_full) g
  else tcg_gen_op (op_qemu_dift_enq_i64 arg) g.

Definition gen_dift_enqueue_addr (is_wa : bool) : G unit :=
  if is_wa then tcg_gen_op op_qemu_dift_enq_wa else tcg_gen_op op_qemu_dift_enq_ra.

Definition WADDR : bool := true.
Definition RADDR : bool := false.

Section Gen.
(** The case mapping the engine was started with, and [dift_is_enabled()]. *)
Context (case_mapping : table) (dift_enabled : bool).

Definition gen_dift_reg_reg (dreg sreg effect ot dreg_byte sreg_byte : Z) : G unit :=
  if negb dift_enabled then mret tt else
  case ← lift (dift_rec_case_nb case_mapping OPT_REG OPT_REG (Z.land ot 3) effect);
  let rec := if ot =? MO_8 then mk_rec case sreg dreg sreg_byte dreg_byte
             else mk_rec case sreg dreg 0 0 in
  gen_dift_enqueue_i64 rec.

Definition gen_dift_reg_mem (s : DisasContext) (dst_reg_name effect ot hl_switch : Z) : G unit :=
  if negb dift_enabled then mret tt else
  case ← lift (dift_rec_case_nb case_mapping OPT_REG OPT_MEM (Z.land ot 3) effect);
  let rec := if ot =? MO_8 then mk_rec case dst_reg_name hl_switch (reg_index s) (reg_base s)
             else mk_rec case dst_reg_name (reg_index s) (reg_base s) 0 in
  gen_dift_enqueue_i64 rec;;
  gen_dift_enqueue_addr RADDR.

Definition gen_dift_mem_reg (s : DisasContext) (src_reg_name effect ot hl_switch : Z) : G unit :=
  if negb dift_enabled then mret tt else
  case ← lift (dift_rec_case_nb case_mapping OPT_MEM OPT_REG (Z.land ot 3) effect);
  let rec := if ot =? MO_8 then mk_rec case src_reg_name hl_switch (reg_index s) (reg_base s)
             else mk_rec case src_reg_name (reg_index s) (reg_base s) 0 in
  gen_dift_enqueue_i64 rec;;
  gen_dift_enqueue_addr WADDR.

Definition gen_dift_mem_mem (effect ot : Z) : G unit :=
  if negb dift_enabled then mret tt else
  case ← lift (dift_rec_case_nb case_mapping OPT_MEM OPT_MEM (Z.land ot 3) effect);
  gen_dift_enqueue_i64 (mk_rec case 0 0 0 0);;
  gen_dift_enqueue_addr WADDR;;
  gen_dift_enqueue_addr RADDR.

Definition gen_dift_reg_im (dst_reg_name ot hl_switch : Z) : G unit :=
  if negb dift_enabled then mret tt else
  case ← lift (dift_rec_case_nb case_mapping OPT_REG OPT_IM (Z.land ot 3) EFFECT_CLEAR);
  let rec := if ot =? MO_8 then mk_rec case dst_reg_name hl_switch 0 0
             else mk_rec case dst_reg_name 0 0 0 in
  gen_dift_enqueue_i64 rec.

Definition gen_dift_mem_im (ot : Z) : G unit :=
  if negb dift_enabled then mret tt else
  case ← lift (dift_rec_case_nb case_mapping OPT_MEM OPT_IM (Z.land ot 3) EFFECT_CLEAR);
  gen_dift_enqueue_i64 (mk_rec case 0 0 0 0);;
  gen_dift_enqueue_addr WADDR.

Definition gen_dift_xmm_xmm (xmm_dreg xmm_sreg xmm_ot effect : Z) : G unit :=
  if negb dift_enabled then mret tt else
  case ← lift (dift_rec_case_nb case_mapping OPT_XMM OPT_XMM (Z.land xmm_ot 3) effect);
  gen_dift_enqueue_i64 (mk_rec case xmm_sreg xmm_dreg 0 0).

Definition gen_dift_xmm_mem (s : DisasContext) (xmm_dreg xmm_ot effect : Z) : G unit :=
  if negb dift_enabled then mret tt else
  case ← lift (dift_rec_case_nb case_mapping OPT_XMM OPT_MEM (Z.land xmm_ot 3) effect);
  gen_dift_enqueue_i64 (mk_rec case xmm_dreg (reg_index s) (reg_base s) 0);;
  gen_dift_enqueue_addr RADDR.

Definition gen_dift_mem_xmm (s : DisasContext) (xmm_sreg xmm_ot effect : Z) : G unit :=
  if negb dift_enabled then mret tt else
  case ← lift (dift_rec_case_nb case_mapping OPT_MEM OPT_XMM (Z.land xmm_ot 3) effect);
  gen_dift_enqueue_i64 (mk_rec case xmm_sreg (reg_index s) (reg_base s) 0);;
  gen_dift_enqueue_addr WADDR.

Definition gen_dift_xmm_reg (xmm_dreg sreg xmm_ot effect : Z) : G unit :=
  if negb dift_enabled then mret tt else
  case ← lift (dift_rec_case_nb case_mapping OPT_XMM OPT_REG (Z.land xmm_ot 3) effect);
  gen_dift_enqueue_i64 (mk_rec case sreg xmm_dreg 0 0).

Definition gen_dift_reg_xmm (dreg xmm_sreg xmm_ot effect : Z) : G unit :=
  if negb dift_enabled then mret tt else
  case ← lift (dift_rec_case_nb case_mapping OPT_REG OPT_XMM (Z.land xmm_ot 3) effect);
  gen_dift_enqueue_i64 (mk_rec case xmm_sreg dreg 0 0).

Definition gen_dift_xmm_im (xmm_dreg xmm_ot : Z) : G unit :=
  if negb dift_enabled then mret tt else
  case ← lift (dift_rec_case_nb case_mapping OPT_XMM OPT_IM (Z.land xmm_ot 3) XMM_EFFECT_CLEAR);
  gen_dift_enqueue_i64 (mk_rec case xmm_dreg 0 0 0).

Definition gen_dift_op (s : DisasContext) (effect ot : Z) : G unit :=
  let low r := if 3 <? r then r - 4 else r in
  let high r := if 3 <? r then 1 else 0 in
  (if dst_type s =? OPT_REG then
     if src_type s =? OPT_REG then
       if ot =? MO_8
       then gen_dift_reg_reg (low (dst_reg s)) (low (src_reg s)) effect ot
              (high (dst_reg s)) (high (src_reg s))
       else gen_dift_reg_reg (dst_reg s) (src_reg s) effect ot 0 0
     else if src_type s =? OPT_MEM then
       if ot =? MO_8
       then gen_dift_reg_mem s (low (dst_reg s)) effect ot (high (dst_reg s))
       else gen_dift_reg_mem s (dst_reg s) effect ot 0
     else mret tt
   else if dst_type s =? OPT_MEM then
     if src_type s =? OPT_REG then
       if ot =? MO_8
       then gen_dift_mem_reg s (low (src_reg s)) effect ot (high (src_reg s))
       else gen_dift_mem_reg s (src_reg s) effect ot 0
     else if src_type s =? OPT_MEM then gen_dift_mem_mem effect ot
     else if src_type s =? OPT_IM then gen_dift_mem_im ot
     else mret tt
   else mret tt);;
  gen_dift_sync_i64.

Definition gen_dift_inside_reg (reg dst_byte src_byte effect : Z) : G unit :=
  if negb dift_enabled then mret tt else
  case ← lift (dift_rec_case_nb case_mapping OPT_REG OPT_REG MO_8 (effect .| EFFECT_INSIDE_REG));
  gen_dift_enqueue_i64 (mk_rec case reg dst_byte src_byte 0).

Definition gen_dift_block_begin : G unit := fun g =>
  (if negb dift_enabled then mret tt else
   tcg_gen_op (op_qemu_dift_tb_begin (dift_code_loc g));;
   gen_dift_enqueue_i64 (case_number REC_BLOCK_BEGIN);;
   gen_dift_sync_i64) g.
End Gen.

(** Whether the byte register [reg] is AH, CH, DH or BH; [x86_64_hregs] is set
    when the instruction has a REX prefix. *)
Definition byte_reg_is_xH (x86_64_hregs : bool) (reg : Z) : bool :=
  if reg <? 4 then false
  else if (8 <=? reg) || x86_64_hregs then false
  else true.

(** ** Run time *)

(** The emulation thread's side: the current block's number, record count and
    offset, and the words put on the queue so far. *)
Record runtime : Type := Runtime {
  rt_loc : Z; rt_cntr : Z; rt_off : Z; rt_words : list Z
}.

Definition enq (r : runtime) (w : Z) : runtime :=
  Runtime (rt_loc r) (rt_cntr r) (rt_off r) (rt_words r ++ [w]).

(** The code the backend emits for an operation. [ra] and [wa] are the words
    rt_enqueue_raddr and rt_enqueue_waddr queue when it runs: the guest addresses
    last_mem_read_addr and last_mem_write_addr less phys_ram_base. *)
Definition tcg_out_dift (op : tcg_op) (ra wa : Z) (r : runtime) : runtime :=
  match op with
  | op_qemu_dift_inc_diftcodes idx => Runtime (rt_loc r) (u32 idx) (rt_off r) (rt_words r)
  | op_qemu_dift_enq_i64 arg => enq r arg
  | op_qemu_dift_enq_wa => enq r wa
  | op_qemu_dift_enq_ra => enq r ra
  | op_qemu_dift_tb_begin code_loc =>
      let r1 := enq r (REC_END_SYMBOL .| case_number REC_BEFORE_BLOCK_BEGIN) in
      let rdx := u64 (Z.shiftl (rt_loc r) 0x20) in
      let rdx := rdx .| u64 (Z.shiftl (rt_cntr r) 0x10) in
      let rdx := rdx .| rt_off r in
      let r2 := enq r1 rdx in
      Runtime (u32 (code_loc / CONFIG_IF_CODES_PER_TB)) 0 0 (rt_words r2)
  end.

(** ** Lemmas: the bytes of a record *)

Lemma u8_range x : 0 <= u8 x < 256.
Proof. apply Z.mod_pos_bound. lia. Qed.

Lemma u8_small x : 0 <= x < 256 -> u8 x = x.
Proof. apply Z.mod_small. Qed.

Lemma byte_of_byte b j k :
  0 <= b < 256 -> 0 <= j -> 0 <= k -> byte_of (Z.shiftl b (8 * j)) k = if k =? j then b else 0.
Proof.
  intros Hb Hj Hk. unfold byte_of. destruct (Z.eqb_spec k j) as [->|].
  - rewrite Z.shiftr_shiftl_l, Z.sub_diag, Z.shiftl_0_r by lia. by apply land_byte.
  - destruct (Z.ltb_spec k j).
    + rewrite Z.shiftr_shiftl_l by lia. replace (8 * j - 8 * k) with (8 + (8 * (j - k) - 8)) by lia.
      rewrite land_255, Z.shiftl_mul_pow2, Z.pow_add_r by lia. change (2 ^ 8) with 256.
      rewrite (Z.mul_comm 256), Z.mul_assoc. apply Z.mod_mul. lia.
    + rewrite Z.shiftr_shiftl_r, Z.shiftr_div_pow2 by lia.
      assert (2 ^ 8 <= 2 ^ (8 * k - 8 * j)) by (apply Z.pow_le_mono_r; lia).
      rewrite Z.div_small by lia. apply Z.land_0_l.
Qed.

Lemma mk_rec_byte case b1 b2 b3 b4 k :
  0 <= k -> byte_of (mk_rec case b1 b2 b3 b4) k =
    if k =? 0 then u8 case else if k =? 1 then u8 b1 else if k =? 2 then u8 b2
    else if k =? 3 then u8 b3 else if k =? 4 then u8 b4 else 0.
Proof.
  intros Hk. unfold mk_rec. rewrite !byte_of_lor.
  rewrite <- (Z.shiftl_0_r (u8 case)). change 0 with (8 * 0) at 1. change 8 with (8 * 1) at 2.
  change 16 with (8 * 2). change 24 with (8 * 3). change 32 with (8 * 4).
  rewrite !byte_of_byte by (apply u8_range || lia).
  rewrite Z.shiftl_0_r.
  destruct (Z.eqb_spec k 0), (Z.eqb_spec k 1), (Z.eqb_spec k 2), (Z.eqb_spec k 3), (Z.eqb_spec k 4);
    try lia; rewrite ?Z.lor_0_l, ?Z.lor_0_r; done.
Qed.

Lemma mk_rec_case c b1 b2 b3 b4 :
  case_of_number (case_nb (mk_rec (case_number c) b1 b2 b3 b4)) = Some c.
Proof.
  unfold case_nb. rewrite mk_rec_byte by lia. simpl. rewrite u8_small by apply case_number_range.
  apply case_of_case_number.
Qed.

(** ** Lemmas: what the generators emit *)

(** Put a record and the operations for its addresses into the block. *)
Fixpoint emit_addrs (ks : list bool) : G unit :=
  match ks with
  | [] => mret tt
  | k :: ks' => gen_dift_enqueue_addr k;; emit_addrs ks'
  end.

Definition emit (rec : dift_record) (ks : list bool) : G unit :=
  gen_dift_enqueue_i64 rec;; emit_addrs ks.

(** The addresses a case takes, in the order its handler takes them. *)
Definition addr_kinds (c : dift_case) : list bool :=
  match key_of c with
  | Some (d, s, _, _) =>
      (if d =? OPT_MEM then [WADDR] else []) ++ (if s =? OPT_MEM then [RADDR] else [])
  | None => []
  end.

Lemma addr_kinds_length c : key_of c <> None -> length (addr_kinds c) = n_addrs c.
Proof. by destruct c. Qed.

(** A call emits one record of case [c] with the operations for its addresses. *)
Definition emits (m : G unit) (c : dift_case) (rec : dift_record) : Prop :=
  (forall g, m g = emit rec (addr_kinds c) g) /\
  case_of_number (case_nb rec) = Some c /\ rec_ok c rec = true.

Lemma G_bind_eq {A B} (m : G A) (f : A -> G B) g :
  (m ≫= f) g = ('(a, g') ← m g; f a g').
Proof. done. Qed.

Lemma lift_bind {A B} (r : res A) (f : A -> G B) a g : r = Ret a -> (lift r ≫= f) g = f a g.
Proof. by intros ->. Qed.

Lemma emit_nil rec g : gen_dift_enqueue_i64 rec g = emit rec [] g.
Proof.
  unfold emit. rewrite G_bind_eq. destruct (gen_dift_enqueue_i64 rec g) as [[[] ?]| |]; done.
Qed.

Lemma emit_one rec k g : (gen_dift_enqueue_i64 rec;; gen_dift_enqueue_addr k) g = emit rec [k] g.
Proof.
  unfold emit. rewrite !G_bind_eq. destruct (gen_dift_enqueue_i64 rec g) as [[[] g']| |]; try done.
  by destruct k.
Qed.

Lemma emit_two rec k k' g :
  (gen_dift_enqueue_i64 rec;; gen_dift_enqueue_addr k;; gen_dift_enqueue_addr k') g
  = emit rec [k; k'] g.
Proof.
  unfold emit. rewrite !G_bind_eq. destruct (gen_dift_enqueue_i64 rec g) as [[[] g']| |]; try done.
  by destruct k, k'.
Qed.

Lemma ot_land o : 0 <= o < 4 -> Z.land o 3 = o.
Proof. intros. change 3 with (Z.ones 2). rewrite Z.land_ones by lia. by apply Z.mod_small. Qed.

Lemma key_of_ot c d s o e : key_of c = Some (d, s, o, e) -> 0 <= o < 4.
Proof. intros H. by destruct (case_list_matches c d s o e H) as (_ & _ & _ & _ & Ho & _). Qed.

Section Emits.
Context (cm : table) (Hcm : serves_cases cm).

(** Replace the case lookup of a generator and compare with [emit]. *)
Ltac gen_emit c :=
  match goal with
  | Hk : key_of c = Some _ |- _ =>
      let E := fresh in
      pose proof (Hcm c _ _ _ _ Hk) as E;
      intros g; cbn [negb];
      rewrite (lift_bind _ _ _ g E); clear E
  end.

(** A generator is [emit], by the operand size of its case. *)
Ltac emit_goal c f :=
  match goal with
  | Hk : key_of c = Some _ |- _ =>
      let Ho := fresh in pose proof (key_of_ot c _ _ _ _ Hk) as Ho;
      unfold f; rewrite ?ot_land by (exact Ho || (unfold XMM_MO_128; lia));
      gen_emit c; unfold addr_kinds; rewrite Hk;
      first [apply emit_nil | apply emit_one | apply emit_two]
  end.

(** Read a field of a record that was just built. *)
Ltac fields :=
  unfold inside_r_reg, inside_r_d_byte, inside_r_s_byte, r2r_sreg, r2r_dreg,
    r2r_byte_sreg, r2r_byte_dreg, r2r_byte_sreg_byte, r2r_byte_dreg_byte,
    r2m_m2r_reg, r2m_m2r_reg_index, r2m_m2r_reg_base, r2m_m2r_byte_reg, r2m_m2r_byte_hl,
    r2m_m2r_byte_reg_index, r2m_m2r_byte_reg_base in *;
  rewrite ?mk_rec_byte by lia; cbn [Z.eqb Pos.eqb];
  rewrite ?u8_small by (unfold R_NONE in *; lia).

(** Shapes of the cases between a given pair of operand kinds. *)
Lemma shape_reg_reg c o e :
  key_of c = Some (OPT_REG, OPT_REG, o, e) -> Z.testbit e 5 = false ->
  shape_of c = if o =? MO_8 then RegReg8 else RegReg.
Proof. intros H. destruct c; try discriminate H; injection H as <- <-; done. Qed.

Lemma shape_inside c o e :
  key_of c = Some (OPT_REG, OPT_REG, o, e) -> Z.testbit e 5 = true -> shape_of c = InsideReg.
Proof. intros H. destruct c; try discriminate H; injection H as <- <-; done. Qed.

Lemma shape_reg_mem c o e :
  key_of c = Some (OPT_REG, OPT_MEM, o, e) \/ key_of c = Some (OPT_MEM, OPT_REG, o, e) ->
  shape_of c = if o =? MO_8 then RegMem8 else RegMem.
Proof. intros [H|H]; destruct c; try discriminate H; injection H as <- <-; done. Qed.

Lemma shape_mem_only c s o e :
  key_of c = Some (OPT_MEM, s, o, e) -> s = OPT_MEM \/ s = OPT_IM -> shape_of c = MemOnly.
Proof. intros H [->| ->]; destruct c; try discriminate H; done. Qed.

Lemma gen_dift_reg_reg_emits c dreg sreg effect ot db sb :
  key_of c = Some (OPT_REG, OPT_REG, ot, effect) -> Z.testbit effect 5 = false ->
  0 <= dreg < 24 -> 0 <= sreg < 24 -> 0 <= db < 8 -> 0 <= sb < 8 ->
  let rec := if ot =? MO_8 then mk_rec (case_number c) sreg dreg sb db
             else mk_rec (case_number c) sreg dreg 0 0 in
  emits (gen_dift_reg_reg cm true dreg sreg effect ot db sb) c rec.
Proof.
  intros Hk He Hd Hs Hdb Hsb rec.
  split_and!.
  - emit_goal c gen_dift_reg_reg.
  - unfold rec. destruct (ot =? MO_8); apply mk_rec_case.
  - unfold rec_ok. rewrite (shape_reg_reg c ot effect) by done. unfold rec.
    destruct (ot =? MO_8); fields; rewrite !andb_true_iff, !Z.ltb_lt; lia.
Qed.

(** Registers an address is formed from. *)
Definition addr_regs_ok (s : DisasContext) : Prop :=
  0 <= reg_base s <= R_NONE /\ 0 <= reg_index s <= R_NONE.

Lemma gen_dift_reg_mem_emits c s r effect ot hl :
  key_of c = Some (OPT_REG, OPT_MEM, ot, effect) ->
  0 <= r < 24 -> 0 <= hl < 8 -> addr_regs_ok s ->
  let rec := if ot =? MO_8 then mk_rec (case_number c) r hl (reg_index s) (reg_base s)
             else mk_rec (case_number c) r (reg_index s) (reg_base s) 0 in
  emits (gen_dift_reg_mem cm true s r effect ot hl) c rec.
Proof.
  intros Hk Hr Hh [Hb Hi] rec.
  split_and!.
  - emit_goal c gen_dift_reg_mem.
  - unfold rec. destruct (ot =? MO_8); apply mk_rec_case.
  - unfold rec_ok. rewrite (shape_reg_mem c ot effect) by auto. unfold rec.
    destruct (ot =? MO_8); fields; rewrite !andb_true_iff, !Z.ltb_lt, !Z.leb_le; lia.
Qed.

Lemma gen_dift_mem_reg_emits c s r effect ot hl :
  key_of c = Some (OPT_MEM, OPT_REG, ot, effect) ->
  0 <= r < 24 -> 0 <= hl < 8 -> addr_regs_ok s ->
  let rec := if ot =? MO_8 then mk_rec (case_number c) r hl (reg_index s) (reg_base s)
             else mk_rec (case_number c) r (reg_index s) (reg_base s) 0 in
  emits (gen_dift_mem_reg cm true s r effect ot hl) c rec.
Proof.
  intros Hk Hr Hh [Hb Hi] rec.
  split_and!.
  - emit_goal c gen_dift_mem_reg.
  - unfold rec. destruct (ot =? MO_8); apply mk_rec_case.
  - unfold rec_ok. rewrite (shape_reg_mem c ot effect) by auto. unfold rec.
    destruct (ot =? MO_8); fields; rewrite !andb_true_iff, !Z.ltb_lt, !Z.leb_le; lia.
Qed.

Lemma gen_dift_mem_mem_emits c effect ot :
  key_of c = Some (OPT_MEM, OPT_MEM, ot, effect) ->
  emits (gen_dift_mem_mem cm true effect ot) c (mk_rec (case_number c) 0 0 0 0).
Proof.
  intros Hk.
  split_and!.
  - emit_goal c gen_dift_mem_mem.
  - apply mk_rec_case.
  - unfold rec_ok. by rewrite (shape_mem_only c OPT_MEM ot effect) by auto.
Qed.

Lemma gen_dift_mem_im_emits c ot :
  key_of c = Some (OPT_MEM, OPT_IM, ot, EFFECT_CLEAR) ->
  emits (gen_dift_mem_im cm true ot) c (mk_rec (case_number c) 0 0 0 0).
Proof.
  intros Hk.
  split_and!.
  - emit_goal c gen_dift_mem_im.
  - apply mk_rec_case.
  - unfold rec_ok. by rewrite (shape_mem_only c OPT_IM ot EFFECT_CLEAR) by auto.
Qed.

Lemma gen_dift_reg_im_emits c r ot hl :
  key_of c = Some (OPT_REG, OPT_IM, ot, EFFECT_CLEAR) -> 0 <= r < 24 -> 0 <= hl < 8 ->
  let rec := if ot =? MO_8 then mk_rec (case_number c) r hl 0 0
             else mk_rec (case_number c) r 0 0 0 in
  emits (gen_dift_reg_im cm true r ot hl) c rec.
Proof.
  intros Hk Hr Hh rec.
  split_and!.
  - emit_goal c gen_dift_reg_im.
  - unfold rec. destruct (ot =? MO_8); apply mk_rec_case.
  - assert (shape_of c = if ot =? MO_8 then RegIm8 else RegIm) as Hsh.
    { destruct c; try discriminate Hk; injection Hk as <-; done. }
    unfold rec_ok. rewrite Hsh. unfold rec.
    destruct (ot =? MO_8); fields; rewrite ?andb_true_iff, !Z.ltb_lt; lia.
Qed.

Lemma gen_dift_inside_reg_emits c r db sb effect :
  key_of c = Some (OPT_REG, OPT_REG, MO_8, effect .| EFFECT_INSIDE_REG) ->
  0 <= r < 24 -> 0 <= db < 8 -> 0 <= sb < 8 ->
  emits (gen_dift_inside_reg cm true r db sb effect) c (mk_rec (case_number c) r db sb 0).
Proof.
  intros Hk Hr Hd Hs. split_and!.
  - emit_goal c gen_dift_inside_reg.
  - apply mk_rec_case.
  - unfold rec_ok. rewrite (shape_inside c MO_8 _ Hk).
    + fields. rewrite !andb_true_iff, !Z.ltb_lt. lia.
    + rewrite Z.lor_spec. unfold EFFECT_INSIDE_REG. simpl. apply orb_true_r.
Qed.

(** The SSE generators. *)
Lemma gen_dift_xmm_xmm_emits c d s ot effect :
  key_of c = Some (OPT_XMM, OPT_XMM, ot, effect) -> 0 <= d < 16 -> 0 <= s < 16 ->
  emits (gen_dift_xmm_xmm cm true d s ot effect) c (mk_rec (case_number c) s d 0 0).
Proof.
  intros Hk Hd Hs.
  split_and!.
  - emit_goal c gen_dift_xmm_xmm.
  - apply mk_rec_case.
  - assert (shape_of c = XmmXmm) as Hsh by (destruct c; try discriminate Hk; done).
    unfold rec_ok. rewrite Hsh. fields. rewrite andb_true_iff, !Z.ltb_lt. lia.
Qed.

Lemma gen_dift_xmm_mem_emits c s d ot effect :
  key_of c = Some (OPT_XMM, OPT_MEM, ot, effect) -> 0 <= d < 16 ->
  emits (gen_dift_xmm_mem cm true s d ot effect) c
    (mk_rec (case_number c) d (reg_index s) (reg_base s) 0).
Proof.
  intros Hk Hd.
  split_and!.
  - emit_goal c gen_dift_xmm_mem.
  - apply mk_rec_case.
  - assert (shape_of c = XmmMem) as Hsh by (destruct c; try discriminate Hk; done).
    unfold rec_ok. rewrite Hsh. fields. rewrite Z.ltb_lt. lia.
Qed.

Lemma gen_dift_mem_xmm_emits c s x ot effect :
  key_of c = Some (OPT_MEM, OPT_XMM, ot, effect) -> 0 <= x < 16 ->
  emits (gen_dift_mem_xmm cm true s x ot effect) c
    (mk_rec (case_number c) x (reg_index s) (reg_base s) 0).
Proof.
  intros Hk Hd.
  split_and!.
  - emit_goal c gen_dift_mem_xmm.
  - apply mk_rec_case.
  - assert (shape_of c = XmmMem) as Hsh by (destruct c; try discriminate Hk; done).
    unfold rec_ok. rewrite Hsh. fields. rewrite Z.ltb_lt. lia.
Qed.

Lemma gen_dift_xmm_reg_emits c d s ot effect :
  key_of c = Some (OPT_XMM, OPT_REG, ot, effect) -> 0 <= d < 16 -> 0 <= s < 24 ->
  emits (gen_dift_xmm_reg cm true d s ot effect) c (mk_rec (case_number c) s d 0 0).
Proof.
  intros Hk Hd Hs.
  split_and!.
  - emit_goal c gen_dift_xmm_reg.
  - apply mk_rec_case.
  - assert (shape_of c = XmmReg) as Hsh by (destruct c; try discriminate Hk; done).
    unfold rec_ok. rewrite Hsh. fields. rewrite andb_true_iff, !Z.ltb_lt. lia.
Qed.

Lemma gen_dift_reg_xmm_emits c d s ot effect :
  key_of c = Some (OPT_REG, OPT_XMM, ot, effect) -> 0 <= d < 24 -> 0 <= s < 16 ->
  emits (gen_dift_reg_xmm cm true d s ot effect) c (mk_rec (case_number c) s d 0 0).
Proof.
  intros Hk Hd Hs.
  split_and!.
  - emit_goal c gen_dift_reg_xmm.
  - apply mk_rec_case.
  - assert (shape_of c = RegXmm) as Hsh by (destruct c; try discriminate Hk; done).
    unfold rec_ok. rewrite Hsh. fields. rewrite andb_true_iff, !Z.ltb_lt. lia.
Qed.

Lemma gen_dift_xmm_im_emits c d :
  key_of c = Some (OPT_XMM, OPT_IM, XMM_MO_128, XMM_EFFECT_CLEAR) -> 0 <= d < 16 ->
  emits (gen_dift_xmm_im cm true d XMM_MO_128) c (mk_rec (case_number c) d 0 0 0).
Proof.
  intros Hk Hd. split_and!.
  - emit_goal c gen_dift_xmm_im.
  - apply mk_rec_case.
  - assert (shape_of c = XmmIm) as Hsh by (destruct c; try discriminate Hk; done).
    unfold rec_ok. rewrite Hsh. fields. rewrite Z.ltb_lt. lia.
Qed.
End Emits.

(** ** A translation block, from generation to run time *)

(** What happens while a block is translated: records are emitted, one or more for
    an instruction, and then the record count is brought up to date; or a label or a
    helper call appears. *)
Inductive event : Type :=
| EvItems (its : list item)
| EvLabel.

Fixpoint emit_items (its : list item) : G unit :=
  match its with
  | [] => mret tt
  | it :: its' => emit (it_rec it) (addr_kinds (it_case it));; emit_items its'
  end.

Definition gen_event (ev : event) : G unit :=
  match ev with
  | EvItems its => emit_items its;; gen_dift_sync_i64
  | EvLabel => set_appeared
  end.

Fixpoint gen_events (evs : list event) : G unit :=
  match evs with
  | [] => mret tt
  | ev :: evs' => gen_event ev;; gen_events evs'
  end.

Fixpoint items_of (evs : list event) : list item :=
  match evs with
  | [] => []
  | EvItems its :: evs' => its ++ items_of evs'
  | EvLabel :: evs' => items_of evs'
  end.

(** The block's operations, run with the addresses the guest produces; an address is
    in the variable of its kind only. *)
Fixpoint run_ops (ops : list tcg_op) (xs : list Z) (r : runtime) : runtime * list Z :=
  match ops with
  | [] => (r, xs)
  | op :: ops' =>
      match op with
      | op_qemu_dift_enq_wa => run_ops ops' (tail xs) (tcg_out_dift op 0 (hd 0 xs) r)
      | op_qemu_dift_enq_ra => run_ops ops' (tail xs) (tcg_out_dift op (hd 0 xs) 0 r)
      | _ => run_ops ops' xs (tcg_out_dift op 0 0 r)
      end
  end.

Lemma run_ops_app ops ops' xs r :
  run_ops (ops ++ ops') xs r = let '(r', xs') := run_ops ops xs r in run_ops ops' xs' r'.
Proof. revert xs r. induction ops as [|[] ops IH]; intros xs r; simpl; done. Qed.

Definition addr_op (is_wa : bool) : tcg_op :=
  if is_wa then op_qemu_dift_enq_wa else op_qemu_dift_enq_ra.

Definition with_words (r : runtime) (cntr : Z) (ws : list Z) : runtime :=
  Runtime (rt_loc r) cntr (rt_off r) (rt_words r ++ ws).

Lemma run_addr_ops ks xs rest r :
  length ks = length xs ->
  run_ops (addr_op <$> ks) (xs ++ rest) r = (with_words r (rt_cntr r) xs, rest).
Proof.
  revert xs r. induction ks as [|k ks IH]; intros [|x xs] r Hl; simpl in Hl; try lia.
  - unfold with_words. simpl. rewrite app_nil_r. by destruct r.
  - assert (run_ops (addr_op <$> k :: ks) ((x :: xs) ++ rest) r =
      run_ops (addr_op <$> ks) (xs ++ rest) (enq r x)) as -> by by destruct k.
    rewrite IH by lia. unfold with_words. simpl. by rewrite <- (assoc_L (++)).
Qed.

(** State changes of the generators. *)
Definition with_ops (g : gen_state) (ops : list tcg_op) : gen_state :=
  Gen (dift_code_loc g) (dift_code_idx g) (label_or_helper_appeared g) (code_buffer g)
    (gen_opc g ++ ops).

Lemma emit_addrs_ok ks g : emit_addrs ks g = Ret (tt, with_ops g (addr_op <$> ks)).
Proof.
  revert g. induction ks as [|k ks IH]; intros g.
  - unfold with_ops. simpl. rewrite app_nil_r. by destruct g.
  - simpl. rewrite G_bind_eq. destruct k; simpl; rewrite IH; unfold with_ops; simpl;
      by rewrite <- (assoc_L (++)).
Qed.

Lemma sync_ok g :
  gen_dift_sync_i64 g =
    Ret (tt, if label_or_helper_appeared g then g
             else with_ops g [op_qemu_dift_inc_diftcodes (dift_code_idx g)]).
Proof. unfold gen_dift_sync_i64, tcg_gen_op, with_ops. by destruct (label_or_helper_appeared g). Qed.

(** *** The invariant of a block under translation *)

(** [its] are in the code buffer, [its2] went to the queue. [b0] is the buffer
    before the block, [pre] the operations emitted before its first record, and [c]
    the record count that the operations set at run time: between a record and the
    next update of the count it may lag behind, but not once records go to the
    queue. *)
Record block_inv (L : Z) (b0 : list Z) (pre : list tcg_op) (g : gen_state)
    (its its2 : list item) (c : Z) : Prop := {
  bi_loc : dift_code_loc g = 160 * L;
  bi_idx : dift_code_idx g = Z.of_nat (length its);
  bi_max : (length its <= 159)%nat;
  bi_open : label_or_helper_appeared g = false -> its2 = [] /\ (length its < 159)%nat;
  bi_size : length (code_buffer g) = length b0;
  bi_codes : take (length its) (drop (Z.to_nat (160 * L)) (code_buffer g)) = codes_of its;
  bi_frame : forall i, (i < Z.to_nat (160 * L) \/ Z.to_nat (160 * L) + 160 <= i)%nat ->
               code_buffer g !! i = b0 !! i;
  bi_count : label_or_helper_appeared g = true -> c = Z.of_nat (length its);
  bi_ops : exists ops, gen_opc g = pre ++ ops /\ forall r rest, rt_cntr r = 0 ->
    run_ops ops (addrs_of_items (its ++ its2) ++ rest) r =
    (with_words r c (addrs_of_items its ++ inline_of its2), rest)
}.

Lemma addrs_of_items_app its its2 :
  addrs_of_items (its ++ its2) = addrs_of_items its ++ addrs_of_items its2.
Proof. unfold addrs_of_items. by rewrite fmap_app, join_app. Qed.

Lemma inline_of_app its its2 : inline_of (its ++ its2) = inline_of its ++ inline_of its2.
Proof. unfold inline_of. by rewrite fmap_app, join_app. Qed.

Lemma addrs_of_items_one it : addrs_of_items [it] = it_addrs it.
Proof. unfold addrs_of_items. simpl. apply app_nil_r. Qed.

Lemma inline_of_one it : inline_of [it] = it_rec it :: it_addrs it.
Proof. rewrite inline_of_cons. unfold inline_of. simpl. by rewrite app_nil_r. Qed.

Lemma take_insert_snoc {A} (b : list A) p n x codes :
  (p + n < length b)%nat -> take n (drop p b) = codes ->
  take (S n) (drop p (<[(p + n)%nat := x]> b)) = codes ++ [x].
Proof.
  intros Hl Hc. rewrite drop_insert_ge by lia. replace (p + n - p)%nat with n by lia.
  rewrite (take_S_r _ _ x).
  - f_equal. rewrite take_insert_ge by lia. done.
  - apply list_lookup_insert_eq. rewrite length_drop. lia.
Qed.

(** An item whose record came with its addresses. *)
Definition emittable (it : item) : Prop :=
  length (addr_kinds (it_case it)) = length (it_addrs it).

Lemma with_ops_app g o1 o2 : with_ops (with_ops g o1) o2 = with_ops g (o1 ++ o2).
Proof. unfold with_ops. simpl. by rewrite <- (assoc_L (++)). Qed.

Lemma block_item_inline L b0 pre g its its2 c it :
  block_inv L b0 pre g its its2 c -> emittable it -> label_or_helper_appeared g = true ->
  exists g', emit (it_rec it) (addr_kinds (it_case it)) g = Ret (tt, g') /\
    block_inv L b0 pre g' its (its2 ++ [it]) c.
Proof.
  intros I He Ha. exists (with_ops g (op_qemu_dift_enq_i64 (it_rec it) :: (addr_op <$> addr_kinds (it_case it)))).
  split.
  - unfold emit. rewrite !G_bind_eq. unfold gen_dift_enqueue_i64. rewrite Ha. simpl.
    rewrite emit_addrs_ok. unfold with_ops. simpl. by rewrite Ha, <- (assoc_L (++)).
  - destruct I. split; simpl; try done; [by rewrite Ha|].
    destruct bi_ops0 as (ops & Eo & Hops).
    eexists. rewrite Eo, <- (assoc_L (++)). split; [done|]. intros r rest Hr.
    rewrite run_ops_app, (assoc_L (++)), addrs_of_items_app, <- (assoc_L (++)), Hops by done.
    rewrite addrs_of_items_one. simpl. rewrite run_addr_ops by done.
    rewrite inline_of_app, inline_of_one. unfold with_words. simpl. do 2 f_equal.
    by rewrite <- !(assoc_L (++)).
Qed.

(** The count is set at once when the block's slots are used up. *)
Lemma block_item_cached L b0 pre g its c it :
  0 <= L -> 160 * L + 160 <= Z.of_nat (length b0) ->
  block_inv L b0 pre g its [] c -> emittable it -> label_or_helper_appeared g = false ->
  exists g' c', emit (it_rec it) (addr_kinds (it_case it)) g = Ret (tt, g') /\ block_inv L b0 pre g' (its ++ [it]) [] c'.
Proof.
  intros HL Hb I He Ha. destruct (bi_open _ _ _ _ _ _ _ I Ha) as [_ Hmax].
  set (n := length its) in *. set (p := Z.to_nat (160 * L)).
  set (full := Z.of_nat (S n) =? 159).
  set (inc := op_qemu_dift_inc_diftcodes (Z.of_nat (S n))).
  set (ks := addr_op <$> addr_kinds (it_case it)).
  exists (Gen (dift_code_loc g) (Z.of_nat (S n)) full (<[(p + n)%nat := it_rec it]> (code_buffer g))
            (gen_opc g ++ (if full then [inc] else []) ++ ks)), (if full then Z.of_nat (S n) else c).
  split.
  - unfold emit. rewrite !G_bind_eq. unfold gen_dift_enqueue_i64. rewrite Ha. simpl.
    rewrite G_bind_eq. unfold buffer_put.
    rewrite (bi_loc _ _ _ _ _ _ _ I), (bi_idx _ _ _ _ _ _ _ I), Ha, (bi_size _ _ _ _ _ _ _ I). fold n.
    destruct (Z.leb_spec 0 (160 * L + Z.of_nat n)), (Z.ltb_spec (160 * L + Z.of_nat n) (Z.of_nat (length b0)));
      try lia. simpl. unfold close_when_full. simpl.
    replace (Z.of_nat n + 1) with (Z.of_nat (S n)) by lia. change (CONFIG_IF_CODES_PER_TB - 1) with 159.
    replace (Z.to_nat (160 * L + Z.of_nat n)) with (p + n)%nat by lia. fold full.
    destruct full; simpl; rewrite emit_addrs_ok; unfold with_ops; simpl;
      do 3 f_equal; fold ks inc; by rewrite <- ?(assoc_L (++)), ?app_nil_r.
  - destruct (bi_ops _ _ _ _ _ _ _ I) as (ops & Eo & Hops). split; simpl; try apply I.
    + rewrite length_app. simpl. fold n. lia.
    + rewrite length_app. simpl. fold n. lia.
    + intros Hf. split; [done|]. rewrite length_app. simpl. fold n. unfold full in Hf.
      apply Z.eqb_neq in Hf. lia.
    + rewrite length_insert. apply I.
    + rewrite length_app. simpl. fold n. rewrite Nat.add_1_r. unfold codes_of. rewrite fmap_app.
      apply take_insert_snoc; [rewrite (bi_size _ _ _ _ _ _ _ I); lia|apply I].
    + intros i Hi. rewrite list_lookup_insert_ne by lia. by apply I.
    + intros ->. rewrite length_app. simpl. fold n. lia.
    + eexists. rewrite Eo, <- (assoc_L (++)). split; [done|].
      intros r rest Hr. rewrite !app_nil_r in *. rewrite addrs_of_items_app, addrs_of_items_one.
      rewrite run_ops_app, <- (assoc_L (++)), (Hops r (it_addrs it ++ rest) Hr).
      unfold inline_of. simpl. rewrite ?app_nil_r.
      destruct full; cbn [app run_ops inc]; unfold ks;
        rewrite run_addr_ops by done; cbn [tcg_out_dift with_words rt_cntr];
        unfold with_words; simpl; unfold u32; rewrite ?Z.mod_small, <- ?(assoc_L (++)) by lia; done.
Qed.

Lemma block_item L b0 pre g its its2 c it :
  0 <= L -> 160 * L + 160 <= Z.of_nat (length b0) -> block_inv L b0 pre g its its2 c -> emittable it ->
  exists g' its' its2' c', emit (it_rec it) (addr_kinds (it_case it)) g = Ret (tt, g') /\
    block_inv L b0 pre g' its' its2' c' /\ its' ++ its2' = (its ++ its2) ++ [it].
Proof.
  intros HL Hb I He. destruct (label_or_helper_appeared g) eqn:Ha.
  - destruct (block_item_inline L b0 pre g its its2 c it) as (g' & E & I'); try done.
    exists g', its, (its2 ++ [it]), c. split_and!; [exact E|done|by rewrite (assoc_L (++))].
  - destruct (bi_open _ _ _ _ _ _ _ I Ha) as [-> _].
    destruct (block_item_cached L b0 pre g its c it) as (g' & c' & E & I'); try done.
    exists g', (its ++ [it]), [], c'. split_and!; [exact E|done|by rewrite !app_nil_r].
Qed.

Lemma block_items L b0 pre new : forall g its its2 c,
  0 <= L -> 160 * L + 160 <= Z.of_nat (length b0) -> block_inv L b0 pre g its its2 c -> Forall emittable new ->
  exists g' its' its2' c', emit_items new g = Ret (tt, g') /\ block_inv L b0 pre g' its' its2' c' /\
    its' ++ its2' = (its ++ its2) ++ new.
Proof.
  induction new as [|it new IH]; intros g its its2 c HL Hb I He.
  - exists g, its, its2, c. split_and!; [done|done|by rewrite app_nil_r].
  - inversion He; subst. destruct (block_item L b0 pre g its its2 c it) as (g1 & i1 & j1 & c1 & E1 & I1 & S1); try done.
    destruct (IH g1 i1 j1 c1) as (g' & i' & j' & c' & E' & I' & S'); try done.
    exists g', i', j', c'. split_and!; [|done|by rewrite S', S1, <- (assoc_L (++))].
    cbn [emit_items]. by rewrite G_bind_eq, E1, res_bind_ret.
Qed.

(** The count is up to date after its update. *)
Lemma block_sync L b0 pre g its its2 c : block_inv L b0 pre g its its2 c ->
  exists g', gen_dift_sync_i64 g = Ret (tt, g') /\ block_inv L b0 pre g' its its2 (Z.of_nat (length its)).
Proof.
  intros I. rewrite sync_ok. destruct (label_or_helper_appeared g) eqn:Ha; eexists; (split; [done|]).
  - by rewrite <- (bi_count _ _ _ _ _ _ _ I Ha).
  - destruct (bi_open _ _ _ _ _ _ _ I Ha) as [-> Hmax].
    destruct (bi_ops _ _ _ _ _ _ _ I) as (ops & Eo & Hops). destruct I. split; simpl; try done.
    eexists. rewrite Eo, <- (assoc_L (++)). split; [done|]. intros r rest Hr.
    rewrite run_ops_app, (Hops r rest Hr), bi_idx0. unfold with_words. simpl. unfold u32. rewrite Z.mod_small by lia. done.
Qed.

Lemma block_event L b0 pre g its its2 ev :
  0 <= L -> 160 * L + 160 <= Z.of_nat (length b0) -> block_inv L b0 pre g its its2 (Z.of_nat (length its)) ->
  Forall emittable (items_of [ev]) ->
  exists g' its' its2', gen_event ev g = Ret (tt, g') /\ block_inv L b0 pre g' its' its2' (Z.of_nat (length its')) /\
    its' ++ its2' = (its ++ its2) ++ items_of [ev].
Proof.
  intros HL Hb I He. destruct ev as [new|]; simpl in *.
  - rewrite app_nil_r in *. destruct (block_items L b0 pre new g its its2 _ HL Hb I He) as (g1 & i1 & j1 & c1 & E1 & I1 & S1).
    destruct (block_sync _ _ _ _ _ _ _ I1) as (g' & E' & I'). exists g', i1, j1. split_and!; [|done|done].
    by rewrite G_bind_eq, E1, res_bind_ret.
  - exists (Gen (dift_code_loc g) (dift_code_idx g) true (code_buffer g) (gen_opc g)), its, its2.
    split_and!; [done| |by rewrite app_nil_r]. destruct I. by split.
Qed.

Lemma items_of_cons ev evs : items_of (ev :: evs) = items_of [ev] ++ items_of evs.
Proof. destruct ev; simpl; [by rewrite app_nil_r|done]. Qed.

Lemma block_events L b0 pre evs : forall g its its2,
  0 <= L -> 160 * L + 160 <= Z.of_nat (length b0) -> block_inv L b0 pre g its its2 (Z.of_nat (length its)) ->
  Forall emittable (items_of evs) ->
  exists g' its' its2', gen_events evs g = Ret (tt, g') /\ block_inv L b0 pre g' its' its2' (Z.of_nat (length its')) /\
    its' ++ its2' = (its ++ its2) ++ items_of evs.
Proof.
  induction evs as [|ev evs IH]; intros g its its2 HL Hb I He.
  - exists g, its, its2. split_and!; [done|done|by rewrite app_nil_r].
  - rewrite items_of_cons in *. apply Forall_app in He as [He1 He2].
    destruct (block_event L b0 pre g its its2 ev) as (g1 & i1 & j1 & E1 & I1 & S1); try done.
    destruct (IH g1 i1 j1) as (g' & i' & j' & E' & I' & S'); try done.
    exists g', i', j'. split_and!; [|done|by rewrite S', S1, <- (assoc_L (++))].
    cbn [gen_events]. by rewrite G_bind_eq, E1, res_bind_ret.
Qed.

(** A block before its first record. *)
Lemma block_inv_start L b0 pre :
  0 <= L -> block_inv L b0 pre (Gen (160 * L) 0 false b0 pre) [] [] 0.
Proof.
  intros. split; simpl; try done; try lia.
  { intros _. split; [done|lia]. }
  exists []. split; [by rewrite app_nil_r|].
  intros r rest Hr. unfold with_words, addrs_of_items, inline_of. simpl.
  rewrite app_nil_r. destruct r. simpl in *. by subst.
Qed.

(** The record that opens every block. *)
Definition begin_item : item := Item REC_BLOCK_BEGIN (case_number REC_BLOCK_BEGIN) [].

Lemma gen_dift_block_begin_event g :
  gen_dift_block_begin true g = gen_event (EvItems [begin_item])
    (with_ops g [op_qemu_dift_tb_begin (dift_code_loc g)]).
Proof.
  unfold gen_dift_block_begin, gen_event, emit_items, emit. simpl. rewrite !G_bind_eq.
  unfold tcg_gen_op. simpl. fold (with_ops g [op_qemu_dift_tb_begin (dift_code_loc g)]).
  rewrite !G_bind_eq. by destruct (gen_dift_enqueue_i64 _ _) as [[[] ?]| |]; simpl; rewrite ?G_bind_eq.
Qed.

(** ** Lemmas: the operands of [gen_dift_op] *)

(** The byte or register an operand of the guest names; no REX prefix. *)
Definition guest_operand (ot reg : Z) : loc :=
  if (ot =? MO_8) && byte_reg_is_xH false reg then rloc (reg - 4) 1 else rloc reg 0.

(** The destination and source registers a record names. *)
Definition rec_dst (c : dift_case) (rec : dift_record) : loc :=
  match shape_of c with
  | RegReg8 => rloc (r2r_byte_dreg rec) (r2r_byte_dreg_byte rec)
  | RegReg => rloc (r2r_dreg rec) 0
  | RegMem8 => reg_mem_8 rec
  | _ => reg_mem rec
  end.
Definition rec_src (c : dift_case) (rec : dift_record) : loc :=
  match shape_of c with
  | RegReg8 => rloc (r2r_byte_sreg rec) (r2r_byte_sreg_byte rec)
  | RegReg => rloc (r2r_sreg rec) 0
  | RegMem8 => reg_mem_8 rec
  | _ => reg_mem rec
  end.

Definition byte_low (r : Z) : Z := if 3 <? r then r - 4 else r.
Definition byte_high (r : Z) : Z := if 3 <? r then 1 else 0.

Lemma byte_low_range r : 0 <= r < 16 -> 0 <= byte_low r < 24 /\ 0 <= byte_high r < 8.
Proof. intros. unfold byte_low, byte_high. destruct (Z.ltb_spec 3 r); lia. Qed.

Lemma guest_operand_8 r : 0 <= r < 8 -> guest_operand MO_8 r = rloc (byte_low r) (byte_high r).
Proof.
  intros. unfold guest_operand, byte_reg_is_xH, byte_low, byte_high. simpl.
  destruct (Z.ltb_spec r 4), (Z.ltb_spec 3 r), (Z.leb_spec 8 r); try lia; done.
Qed.

Lemma guest_operand_wide ot r : ot <> MO_8 -> guest_operand ot r = rloc r 0.
Proof. intros. unfold guest_operand. by destruct (Z.eqb_spec ot MO_8). Qed.

(** The fields of a record, as the accessors read them. *)
Lemma mk_rec_field case b1 b2 b3 b4 :
  0 <= b1 < 256 -> 0 <= b2 < 256 -> 0 <= b3 < 256 -> 0 <= b4 < 256 ->
  byte_of (mk_rec case b1 b2 b3 b4) 1 = b1 /\ byte_of (mk_rec case b1 b2 b3 b4) 2 = b2 /\
  byte_of (mk_rec case b1 b2 b3 b4) 3 = b3 /\ byte_of (mk_rec case b1 b2 b3 b4) 4 = b4.
Proof. intros. rewrite !mk_rec_byte by lia. simpl. rewrite !u8_small by done. done. Qed.

Ltac rec_fields :=
  unfold rec_dst, rec_src, reg_mem_8, reg_mem, r2r_byte_dreg, r2r_byte_dreg_byte, r2r_dreg,
    r2r_byte_sreg, r2r_byte_sreg_byte, r2r_sreg, r2m_m2r_byte_reg, r2m_m2r_byte_hl, r2m_m2r_reg;
  match goal with |- context [mk_rec ?c ?b1 ?b2 ?b3 ?b4] =>
    destruct (mk_rec_field c b1 b2 b3 b4) as (F1 & F2 & F3 & F4);
      [unfold R_NONE in *; lia..|]; rewrite ?F1, ?F2, ?F3, ?F4; clear F1 F2 F3 F4
  end.

(** ** Lemmas: the words of a block *)

(** No word of an item looks like a mark of the queue protocol. *)
Definition item_plain (it : item) : bool := plain (it_rec it) && forallb plain (it_addrs it).

Lemma plain_words its its2 :
  forallb item_plain (its ++ its2) = true ->
  forallb plain (addrs_of_items its ++ inline_of its2) = true.
Proof.
  rewrite !forallb_app, !andb_true_iff. intros [H1 H2]. split.
  - induction its as [|it its IH]; [done|]. simpl in H1. bool_to_prop.
    change (addrs_of_items (it :: its)) with (it_addrs it ++ addrs_of_items its).
    rewrite forallb_app, IH by done. unfold item_plain in H. bool_to_prop. by rewrite H1.
  - induction its2 as [|it its2 IH]; [done|]. simpl in H2. bool_to_prop.
    rewrite inline_of_cons. simpl. rewrite forallb_app, IH by done.
    unfold item_plain in H. bool_to_prop. by rewrite H, H2.
Qed.

Lemma block_words_length its its2 :
  (length (addrs_of_items its ++ inline_of its2) <= length (inline_of (its ++ its2)))%nat.
Proof.
  rewrite inline_of_app, !length_app. apply Nat.add_le_mono_r.
  induction its as [|it its IH]; [done|]. rewrite inline_of_cons. simpl.
  change (addrs_of_items (it :: its)) with (it_addrs it ++ addrs_of_items its).
  rewrite !length_app. lia.
Qed.

Lemma emittable_pages ram it : item_ok ram it = true -> emittable it -> item_pages it = 0.
Proof.
  intros Hok He. apply item_ok_facts in Hok as (_ & Hl & _). unfold emittable in He.
  rewrite Hl in He. unfold item_pages. by destruct (it_case it).
Qed.

Lemma emittable_items_pages ram its :
  forallb (item_ok ram) its = true -> Forall emittable its -> items_pages its = 0.
Proof.
  induction its as [|it its IH]; simpl; intros Hok He; [done|]. bool_to_prop.
  inversion He; subst. rewrite IH by done. erewrite emittable_pages by done. done.
Qed.

Lemma begin_item_ok ram : item_ok ram begin_item = true.
Proof. vm_compute. reflexivity. Qed.

Lemma begin_item_effect ram a :
  effect ram (it_case begin_item) (it_rec begin_item) (it_addrs begin_item) a ≡ a.
Proof. done. Qed.

Lemma tb_begin_word loc cntr off :
  0 <= loc < 2 ^ 32 -> 0 <= cntr < 2 ^ 16 ->
  u64 (Z.shiftl loc 0x20) .| u64 (Z.shiftl cntr 0x10) .| off = block_word loc cntr off.
Proof.
  intros. unfold block_word, u64. rewrite !Z.shiftl_mul_pow2 by lia.
  rewrite !Z.mod_small by lia. done.
Qed.

(** The generated block and its run: the words of its records follow the two
    words that close the block before it. *)
Lemma run_block L b0 evs r rest :
  0 <= L < 2 ^ 32 -> 160 * L + 160 <= Z.of_nat (length b0) ->
  Forall emittable (items_of evs) ->
  0 <= rt_loc r < 2 ^ 32 -> 0 <= rt_cntr r < 2 ^ 16 ->
  exists g' its its2,
    (gen_dift_block_begin true;; gen_events evs) (Gen (160 * L) 0 false b0 []) = Ret (tt, g') /\
    its ++ its2 = begin_item :: items_of evs /\ (length its <= 159)%nat /\
    length (code_buffer g') = length b0 /\
    take (length its) (drop (Z.to_nat (160 * L)) (code_buffer g')) = codes_of its /\
    (forall i, (i < Z.to_nat (160 * L) \/ Z.to_nat (160 * L) + 160 <= i)%nat ->
       code_buffer g' !! i = b0 !! i) /\
    run_ops (gen_opc g') (addrs_of_items (items_of evs) ++ rest) r =
      (Runtime L (Z.of_nat (length its)) 0
         (rt_words r ++ [REC_END_SYMBOL .| case_number REC_BEFORE_BLOCK_BEGIN;
                         block_word (rt_loc r) (rt_cntr r) (rt_off r)]
          ++ addrs_of_items its ++ inline_of its2), rest).
Proof.
  intros HL Hb He Hl Hc.
  set (pre := [op_qemu_dift_tb_begin (160 * L)]).
  destruct (block_events L b0 pre (EvItems [begin_item] :: evs) (Gen (160 * L) 0 false b0 pre) [] [])
    as (g' & its & its2 & E & I & S); [lia|done|apply block_inv_start; lia|by constructor|].
  destruct (bi_ops _ _ _ _ _ _ _ I) as (ops & Eo & Hops). simpl in S.
  exists g', its, its2. split_and!; try apply I; [|done|].
  - rewrite G_bind_eq, gen_dift_block_begin_event. exact E.
  - rewrite Eo, run_ops_app. unfold pre. simpl. rewrite tb_begin_word by done.
    assert (u32 (160 * L / CONFIG_IF_CODES_PER_TB) = L) as ->.
    { change CONFIG_IF_CODES_PER_TB with 160. rewrite Z.mul_comm, Z.div_mul by lia.
      apply Z.mod_small. lia. }
    rewrite S in Hops. rewrite (Hops (Runtime _ _ _ _) rest) by done.
    unfold with_words. simpl. by rewrite <- !(assoc_L (++)).
Qed.

(** ** Lemmas: the record of an instruction *)

Lemma init_case_mapping_serving cm : init_case_mapping = Ret cm -> serves_cases cm.
Proof.
  intros E. destruct init_case_mapping_serves as (cm' & E' & S).
  rewrite E in E'. injection E' as ->. exact S.
Qed.

(** The record [gen_dift_op] makes names the case and the guest's operands. *)
Definition op_record (cm : table) (s : DisasContext) (effect ot : Z) (c : dift_case)
    (rec : dift_record) : Prop :=
  (forall g, gen_dift_op cm true s effect ot g = (emit rec (addr_kinds c);; gen_dift_sync_i64) g) /\
  case_of_number (case_nb rec) = Some c /\ rec_ok c rec = true /\
  (dst_type s = OPT_REG -> rec_dst c rec = guest_operand ot (dst_reg s)) /\
  (src_type s = OPT_REG -> rec_src c rec = guest_operand ot (src_reg s)).

Section OpRecord.
Context (cm : table) (Hcm : serves_cases cm).
Context (s : DisasContext) (effect ot : Z) (c : dift_case).
Hypothesis Hdr : 0 <= dst_reg s < 16.
Hypothesis Hsr : 0 <= src_reg s < 16.
Hypothesis H8 : ot = MO_8 -> dst_reg s < 8 /\ src_reg s < 8.
Hypothesis Ha : addr_regs_ok s.

(** The branch of [gen_dift_op] taken gives the record. *)
Lemma op_record_intro (m : G unit) rec :
  (forall g, gen_dift_op cm true s effect ot g = (m;; gen_dift_sync_i64) g) ->
  emits m c rec ->
  (dst_type s = OPT_REG -> rec_dst c rec = guest_operand ot (dst_reg s)) ->
  (src_type s = OPT_REG -> rec_src c rec = guest_operand ot (src_reg s)) ->
  op_record cm s effect ot c rec.
Proof.
  intros Hg (He & Hc & Hr) Hd Hs. split_and!; try done.
  intros g. rewrite Hg, !G_bind_eq. by rewrite He.
Qed.

Lemma guest_operand_byte r : (ot =? MO_8) = true -> 0 <= r < 8 ->
  guest_operand ot r = rloc (byte_low r) (byte_high r).
Proof. rewrite Z.eqb_eq. intros ->. apply guest_operand_8. Qed.

Lemma guest_operand_word r : (ot =? MO_8) = false -> guest_operand ot r = rloc r 0.
Proof. rewrite Z.eqb_neq. apply guest_operand_wide. Qed.

(** The byte and the wide forms share the proof, given the case's shape. *)
Ltac op_record_solve gen_emits shape_eq Hd Hs :=
  let T := fresh "T" in
  destruct (byte_low_range (dst_reg s) Hdr), (byte_low_range (src_reg s) Hsr);
  destruct (ot =? MO_8) eqn:T; [destruct (H8 (proj1 (Z.eqb_eq _ _) T))|];
  (eexists; eapply op_record_intro;
   [ intros g; unfold gen_dift_op; rewrite Hd, Hs, T;
     fold (byte_low (dst_reg s)) (byte_high (dst_reg s)) (byte_low (src_reg s)) (byte_high (src_reg s));
     reflexivity
   | apply gen_emits; (done || lia)
   | intros E; try (rewrite Hd in E; discriminate E); unfold rec_dst
   | intros E; try (rewrite Hs in E; discriminate E); unfold rec_src ]);
  rewrite shape_eq, ?T; first [rewrite (guest_operand_word _ T)|rewrite (guest_operand_byte _ T) by lia];
  rec_fields; reflexivity.

Lemma op_record_reg_reg :
  dst_type s = OPT_REG -> src_type s = OPT_REG ->
  key_of c = Some (OPT_REG, OPT_REG, ot, effect) -> Z.testbit effect 5 = false ->
  exists rec, op_record cm s effect ot c rec.
Proof.
  intros Hd Hs Hk He. pose proof (shape_reg_reg c ot effect Hk He) as Hsh.
  op_record_solve (gen_dift_reg_reg_emits cm Hcm) Hsh Hd Hs.
Qed.

Lemma op_record_reg_mem :
  dst_type s = OPT_REG -> src_type s = OPT_MEM ->
  key_of c = Some (OPT_REG, OPT_MEM, ot, effect) -> exists rec, op_record cm s effect ot c rec.
Proof.
  intros Hd Hs Hk. pose proof (shape_reg_mem c ot effect (or_introl Hk)) as Hsh.
  destruct Ha. op_record_solve (gen_dift_reg_mem_emits cm Hcm) Hsh Hd Hs.
Qed.

Lemma op_record_mem_reg :
  dst_type s = OPT_MEM -> src_type s = OPT_REG ->
  key_of c = Some (OPT_MEM, OPT_REG, ot, effect) -> exists rec, op_record cm s effect ot c rec.
Proof.
  intros Hd Hs Hk. pose proof (shape_reg_mem c ot effect (or_intror Hk)) as Hsh.
  destruct Ha. op_record_solve (gen_dift_mem_reg_emits cm Hcm) Hsh Hd Hs.
Qed.

Lemma op_record_mem_mem :
  dst_type s = OPT_MEM -> src_type s = OPT_MEM ->
  key_of c = Some (OPT_MEM, OPT_MEM, ot, effect) -> exists rec, op_record cm s effect ot c rec.
Proof.
  intros Hd Hs Hk. eexists. eapply op_record_intro.
  - intros g. unfold gen_dift_op. rewrite Hd, Hs. reflexivity.
  - by apply gen_dift_mem_mem_emits.
  - by rewrite Hd.
  - by rewrite Hs.
Qed.
End OpRecord.

(** * Properties *)

(** C1: From the translator to the taint tables: for any sequence of groups of
    records, the count brought up to date after each group, and of label or helper appearances between them
    in a block, the generated operations, run with
    the addresses the guest produces, first close the block before and then queue
    words that make the analysis thread, once the block is synchronised, give
    registers and memory exactly the taint of running the block's records in
    program order, whether they were cached or queued inline; and the block never
    touches another block's slots in the code buffer. *)
Theorem block_end_to_end L b0 evs r rest :
  0 <= L < 2 ^ 32 -> 160 * L + 160 <= Z.of_nat (length b0) ->
  Forall emittable (items_of evs) -> forallb item_plain (items_of evs) = true ->
  Z.of_nat (length (inline_of (items_of evs))) < 4095 ->
  0 <= rt_loc r < 2 ^ 32 -> 0 <= rt_cntr r < 2 ^ 16 ->
  exists g' r' ws,
    (gen_dift_block_begin true;; gen_events evs) (Gen (160 * L) 0 false b0 []) = Ret (tt, g') /\
    (forall i, (i < Z.to_nat (160 * L) \/ Z.to_nat (160 * L) + 160 <= i)%nat ->
       code_buffer g' !! i = b0 !! i) /\
    run_ops (gen_opc g') (addrs_of_items (items_of evs) ++ rest) r = (r', rest) /\
    rt_words r' = rt_words r ++ [REC_END_SYMBOL .| case_number REC_BEFORE_BLOCK_BEGIN;
                                 block_word (rt_loc r) (rt_cntr r) (rt_off r)] ++ ws /\
    forall a, q_addrs a = [] -> an_code_buffer a = code_buffer g' ->
      dift_wf (an_dc a) -> tags_in 127 (an_dc a) ->
      forallb (item_ok (phys_ram_size (an_dc a))) (items_of evs) = true ->
      exists st', analysis_mainloop (ws ++ dift_sync_words (rt_loc r') (rt_cntr r')) a =
          Ret (Analysis st' (code_buffer g') [] 1, []) /\
        abs_of st' ≡ run_items (phys_ram_size (an_dc a)) (items_of evs) (abs_of (an_dc a)).
Proof.
  intros HL Hb He Hpl Hn Hl Hc.
  destruct (run_block L b0 evs r rest) as (g' & its & its2 & E & S & Hm & Hz & Hcd & Hf & Er);
    [done..|].
  eexists g', _, (addrs_of_items its ++ inline_of its2). split; [done|]. split; [done|].
  split; [exact Er|]. split; [done|]. simpl. intros a Hq Hbuf Hwf Ht Hok.
  set (ram := phys_ram_size (an_dc a)) in *.
  assert (Hok' : forallb (item_ok ram) (its ++ its2) = true).
  { rewrite S. apply andb_true_iff. split; [apply begin_item_ok|done]. }
  assert (Hpg : items_pages (its ++ its2) = 0).
  { apply (emittable_items_pages ram); [done|]. rewrite S. by constructor. }
  assert (Hp : forallb plain (addrs_of_items its ++ inline_of its2) = true).
  { apply plain_words. rewrite S. simpl. by rewrite Hpl. }
  assert (Hlen : Z.of_nat (length (addrs_of_items its ++ inline_of its2)) < 4096).
  { pose proof (block_words_length its its2) as H. rewrite S, inline_of_cons in H. simpl in H. lia. }
  destruct (interpret_block its its2 (an_dc a) (an_code_buffer a) L (Z.of_nat (length its)) 0)
    as (st' & Ei & R); try done; [lia..| |rewrite Hbuf, Hz; lia|rewrite Hpg; lia|].
  { rewrite Z.sub_0_r, Z.add_0_r, Nat2Z.id, Z.mul_comm, Hbuf. exact Hcd. }
  exists st'. split.
  - rewrite mainloop_collect; [|done|rewrite Hq; simpl; lia].
    rewrite dift_sync_words_eq by lia. rewrite Hq. simpl ([] ++ _).
    rewrite mainloop_block by (simpl; lia).
    cbn [with_q q_addrs an_dc an_code_buffer dift_thread_ok_signal].
    rewrite <- (assoc_L (++)), Ei, res_bind_ret, mainloop_sync. by rewrite Hbuf.
  - rewrite (run_abs _ _ _ R), S. unfold run_items. simpl.
    by apply (run_items_proper ram (items_of evs)).
Qed.

(** A block with a cached and an inline record, for the example. *)
Definition demo_events : list event :=
  [EvItems [Item REG_MEM_MIX_APPEND_MO32 (demo_rec REG_MEM_MIX_APPEND_MO32 2) [16]];
   EvLabel;
   EvItems [Item MEM_REG_OO_ASSIGN_MO16 (demo_rec MEM_REG_OO_ASSIGN_MO16 2) [30]]].

Lemma block_end_to_end_witness :
  exists g' r' ws st',
    (gen_dift_block_begin true;; gen_events demo_events)
      (Gen 0 0 false (replicate 320 0) []) = Ret (tt, g') /\
    run_ops (gen_opc g') ([16; 30] ++ []) (Runtime 0 0 0 []) = (r', []) /\
    analysis_mainloop (ws ++ dift_sync_words (rt_loc r') (rt_cntr r'))
      (Analysis demo_tainted (code_buffer g') [] 0) = Ret (Analysis st' (code_buffer g') [] 1, []).
Proof.
  destruct (block_end_to_end 0 (replicate 320 0) demo_events (Runtime 0 0 0 []) [])
    as (g' & r' & ws & E & _ & Er & _ & H).
  - lia.
  - vm_compute. discriminate.
  - repeat constructor.
  - vm_compute. reflexivity.
  - vm_compute. reflexivity.
  - simpl. lia.
  - simpl. lia.
  - destruct (H (Analysis demo_tainted (code_buffer g') [] 0)) as (st' & Ea & _).
    + reflexivity.
    + reflexivity.
    + apply demo_tainted_wf.
    + apply demo_tainted_tags. split; [lia|reflexivity].
    + vm_compute. reflexivity.
    + exists g', r', ws, st'. split; [exact E|]. split; [exact Er|exact Ea].
Defined.

(** C15: The records of [gen_dift_op]: for register and memory operands without a
    REX prefix and any operand size and effect that has a case, the call emits
    exactly one record of that case, with the operations for its addresses in the
    order the handler takes them, followed by the count update; the record names
    the guest's own source and destination registers, high bytes included. *)
Theorem gen_dift_op_spec cm s effect ot c :
  init_case_mapping = Ret cm ->
  (dst_type s = OPT_REG \/ dst_type s = OPT_MEM) ->
  (src_type s = OPT_REG \/ src_type s = OPT_MEM) ->
  key_of c = Some (dst_type s, src_type s, ot, effect) -> Z.testbit effect 5 = false ->
  0 <= dst_reg s < 16 -> 0 <= src_reg s < 16 ->
  (ot = MO_8 -> dst_reg s < 8 /\ src_reg s < 8) -> addr_regs_ok s ->
  exists rec,
    (forall g, gen_dift_op cm true s effect ot g =
               (emit rec (addr_kinds c);; gen_dift_sync_i64) g) /\
    case_of_number (case_nb rec) = Some c /\ rec_ok c rec = true /\
    (dst_type s = OPT_REG -> rec_dst c rec = guest_operand ot (dst_reg s)) /\
    (src_type s = OPT_REG -> rec_src c rec = guest_operand ot (src_reg s)).
Proof.
  intros Hcm%init_case_mapping_serving Hd Hs Hk He Hdr Hsr H8 Ha. change (exists rec, op_record cm s effect ot c rec).
  destruct Hd as [Hd|Hd], Hs as [Hs|Hs]; rewrite Hd, Hs in Hk.
  - by apply op_record_reg_reg.
  - by apply op_record_reg_mem.
  - by apply op_record_mem_reg.
  - by apply op_record_mem_mem.
Qed.

(** [mov al, bh]: byte operands, the source a high byte. *)
Definition demo_disas : DisasContext := Disas OPT_REG OPT_REG 0 7 R_NONE R_NONE.

Lemma gen_dift_op_spec_witness :
  exists cm rec, init_case_mapping = Ret cm /\
    (forall g, gen_dift_op cm true demo_disas (EFFECT_ONE_TO_ONE .| EFFECT_ASSIGN) MO_8 g =
               (emit rec [];; gen_dift_sync_i64) g) /\
    rec_dst REG_REG_OO_ASSIGN_MO8 rec = rloc 0 0 /\ rec_src REG_REG_OO_ASSIGN_MO8 rec = rloc 3 1.
Proof.
  destruct init_case_mapping_serves as (cm & E & _).
  destruct (gen_dift_op_spec cm demo_disas (EFFECT_ONE_TO_ONE .| EFFECT_ASSIGN) MO_8 REG_REG_OO_ASSIGN_MO8)
    as (rec & Hg & _ & _ & Hd & Hs).
  - exact E.
  - left. reflexivity.
  - left. reflexivity.
  - reflexivity.
  - reflexivity.
  - simpl. lia.
  - simpl. lia.
  - simpl. lia.
  - vm_compute. intuition discriminate.
  - exists cm, rec. split; [exact E|]. split; [exact Hg|].
    split; [apply Hd; reflexivity|apply Hs; reflexivity].
Defined.

(** Byte registers above 3 are always recorded as high bytes: when the guest's
    destination is a low byte (one of r8b to r15b, or spl, bpl, sil, dil under a
    REX prefix, so that [byte_reg_is_xH] is false), [gen_dift_op] emits a record
    whose destination is byte 1 of the register four below it, a different byte
    of the register table from the one the instruction writes. *)
Theorem gen_dift_op_rex_byte cm s hregs :
  init_case_mapping = Ret cm -> dst_type s = OPT_REG -> src_type s = OPT_REG ->
  4 <= dst_reg s < 16 -> 0 <= src_reg s < 16 -> byte_reg_is_xH hregs (dst_reg s) = false ->
  exists rec,
    (forall g, gen_dift_op cm true s (EFFECT_ONE_TO_ONE .| EFFECT_ASSIGN) MO_8 g =
               (emit rec [];; gen_dift_sync_i64) g) /\
    rec_dst REG_REG_OO_ASSIGN_MO8 rec = rloc (dst_reg s - 4) 1 /\
    rec_dst REG_REG_OO_ASSIGN_MO8 rec <> rloc (dst_reg s) 0.
Proof.
  intros Hcm%init_case_mapping_serving Hd Hs Hdr Hsr Hx.
  destruct (byte_low_range (dst_reg s)) as [L1 L2]; [lia|].
  destruct (byte_low_range (src_reg s)) as [L3 L4]; [lia|].
  set (rec := mk_rec (case_number REG_REG_OO_ASSIGN_MO8) (byte_low (src_reg s))
                (byte_low (dst_reg s)) (byte_high (src_reg s)) (byte_high (dst_reg s))).
  assert (rec_dst REG_REG_OO_ASSIGN_MO8 rec = rloc (dst_reg s - 4) 1) as Er.
  { unfold rec, rec_dst. cbv iota beta delta [shape_of]. rec_fields. unfold byte_low, byte_high.
    by destruct (Z.ltb_spec 3 (dst_reg s)); [|lia]. }
  exists rec. split; [|split; [exact Er|rewrite Er; unfold rloc; intros [=]; lia]].
  destruct (gen_dift_reg_reg_emits cm Hcm REG_REG_OO_ASSIGN_MO8 (byte_low (dst_reg s))
              (byte_low (src_reg s)) (EFFECT_ONE_TO_ONE .| EFFECT_ASSIGN) MO_8
              (byte_high (dst_reg s)) (byte_high (src_reg s))) as (He & _); [done..|].
  intros g. unfold gen_dift_op. rewrite !G_bind_eq, Hd, Hs. simpl (_ =? _).
  exact (f_equal (fun m => '(_, g') ← m; gen_dift_sync_i64 g') (He g)).
Qed.

Lemma gen_dift_op_rex_byte_witness :
  exists cm rec, init_case_mapping = Ret cm /\
    (forall g, gen_dift_op cm true (Disas OPT_REG OPT_REG 8 0 R_NONE R_NONE)
                 (EFFECT_ONE_TO_ONE .| EFFECT_ASSIGN) MO_8 g =
               (emit rec [];; gen_dift_sync_i64) g) /\
    rec_dst REG_REG_OO_ASSIGN_MO8 rec = rloc 4 1.
Proof.
  destruct init_case_mapping_serves as (cm & E & _).
  destruct (gen_dift_op_rex_byte cm (Disas OPT_REG OPT_REG 8 0 R_NONE R_NONE) true)
    as (rec & Hg & Hd & _).
  - exact E.
  - reflexivity.
  - reflexivity.
  - simpl. lia.
  - simpl. lia.
  - reflexivity.
  - exists cm, rec. split; [exact E|]. split; [exact Hg|exact Hd].
Defined.
