(* ===== verification/DiftQueue.v ===== *)
(** * The record queue

    The ring of chunks between the emulation thread and the analysis thread
    (init_queue, dift_rec_enqueue, kick_enqptr, dift_sync, next_block and
    rec_dequeue of src/ext/dift/dift.c, with the chunk constants of dift.h).

    The two threads run as separate programs, one step per access to shared
    memory, so that every interleaving is an execution. Memory is sequentially
    consistent, which the fence before a chunk is handed over and the ordering of
    loads and of stores on the x86 host provide. The variables [sent] and [recv]
    record the words put on and taken off the queue; no step depends on them. *)

From S2P Require Import Prelude DiftState DiftPolicy DiftFlow DiftInterp.

(** ** Constants *)

Definition CHUNK_AVAILABLE : Z := 0.
Definition CHUNK_FILLING : Z := 1.
Definition CHUNK_FILLED : Z := 2.
Definition CHUNK_CONSUMING : Z := 3.

Definition CONFIG_SIZE_OF_QUEUE : Z := 16 * 1024 * 1024.
Definition SIZE_OF_CHUNK : Z := Z.shiftl 1 12.
Definition Q_CHUNKS_SIZE : Z := CONFIG_SIZE_OF_QUEUE / SIZE_OF_CHUNK.
(** [SIZE_OF_CHUNK / sizeof(uint64_t)], the words of a chunk. *)
Definition CHUNK_WORDS : Z := SIZE_OF_CHUNK / 8.

Definition SYNC_MARK : Z := REC_END_SYMBOL .| case_number REC_SYNC.
Definition BLOCK_MARK : Z := REC_END_SYMBOL .| case_number REC_BEFORE_BLOCK_BEGIN.

(** ** State *)

(** What the emulation thread still does, call by call. *)
Inductive qcmd : Type :=
| QEnq (data_in : Z)   (* dift_rec_enqueue( data_in ) *)
| QKick                (* kick_enqptr() *)
| QWait                (* wait_dift_analysis() *)
| QClear.              (* dift_thread_ok_signal = 0 *)

(** Where it is: at the next call, or inside the code that hands over a chunk:
    about to mark it filled, waiting for the next one, about to take that. *)
Inductive ppc : Type := PCmd | PFinish | PWait | PTake.

(** Where the analysis thread is: about to call rec_dequeue, waiting in
    next_block, about to take the chunk it found filled, about to load a word. *)
Inductive cpc : Type := CDeq | CWait | CGrab | CRead.

(** A pointer into [q_records] is the index of its word, NULL is [None]. *)
Record qstate : Type := QState {
  q_prog : list qcmd;
  q_ppc : ppc;
  enqptr : option Z;
  head : Z;
  prev_head : Z;
  q_cpc : cpc;
  deqptr : option Z;
  tail : Z;
  prev_tail : Z;
  in_block : bool;        (* the next word is the one interpret_dift_codes takes *)
  ok_signal : Z;          (* dift_thread_ok_signal *)
  q_chunks_flag : gmap Z Z;
  q_records : gmap Z Z;
  sent : list Z;
  recv : list Z
}.

(** A step: it moves, it finds a wait loop's condition still true, there is
    nothing left to do, or it accesses memory outside [q_records]. *)
Inductive outcome : Type :=
| Moves (s : qstate)
| Spins
| Done
| Faults.

Definition flag (flags : gmap Z Z) (i : Z) : Z := default CHUNK_AVAILABLE (flags !! i).
Definition word_at (s : qstate) (i : Z) : Z := default 0 (q_records s !! i).

(** The calls of [dift_sync]. *)
Definition dift_sync_calls (loc cntr : Z) : list qcmd :=
  map QEnq (dift_sync_words loc cntr) ++ [QKick; QWait; QClear].

Section Ring.
Context (N W : Z).

(** [((uint64_t)ptr & ~CHUNK_BITSIZEMASK) == 0]: NULL, or the start of a chunk,
    as [q_records] is aligned to a chunk. *)
Definition at_chunk (ptr : option Z) : bool :=
  match ptr with
  | None => true
  | Some i => i mod W =? 0
  end.

Definition in_records (i : Z) : bool := (0 <=? i) && (i <? N * W).

(** [init_queue], and the queue fields of [init_dift_context]. *)
Definition init_queue (prog : list qcmd) : qstate :=
  QState prog PCmd (Some 0) 1 0 CDeq None 0 (N - 1) false 0
    {[0 := CHUNK_FILLING]} ∅ [] [].

(** ** The emulation thread *)

Definition with_prog (s : qstate) (p : list qcmd) (pc : ppc) (sig : Z) : qstate :=
  QState p pc (enqptr s) (head s) (prev_head s) (q_cpc s) (deqptr s) (tail s) (prev_tail s)
    (in_block s) sig (q_chunks_flag s) (q_records s) (sent s) (recv s).

Definition with_flag (s : qstate) (pc : ppc) (i v : Z) : qstate :=
  QState (q_prog s) pc (enqptr s) (head s) (prev_head s) (q_cpc s) (deqptr s) (tail s)
    (prev_tail s) (in_block s) (ok_signal s) (<[i := v]> (q_chunks_flag s)) (q_records s)
    (sent s) (recv s).

(** [*(enqptr++) = data_in], and the test for the end of the chunk. *)
Definition dift_rec_enqueue (s : qstate) (p : list qcmd) (data_in : Z) : outcome :=
  match enqptr s with
  | None => Faults
  | Some i =>
      if in_records i then
        let enqptr' := Some (i + 1) in
        Moves (QState p (if at_chunk enqptr' then PFinish else PCmd) enqptr' (head s)
                 (prev_head s) (q_cpc s) (deqptr s) (tail s) (prev_tail s) (in_block s)
                 (ok_signal s) (q_chunks_flag s) (<[i := data_in]> (q_records s))
                 (sent s ++ [data_in]) (recv s))
      else Faults
  end.

Definition kick_enqptr (s : qstate) (p : list qcmd) : outcome :=
  Moves (with_prog s p (if at_chunk (enqptr s) then PCmd else PFinish) (ok_signal s)).

(** [q_chunks_flag[head] = CHUNK_FILLING; enqptr = q_chunks_ptr[head]; ...]. *)
Definition take_chunk (s : qstate) : qstate :=
  QState (q_prog s) PCmd (Some (head s * W)) ((head s + 1) mod N) (head s) (q_cpc s) (deqptr s)
    (tail s) (prev_tail s) (in_block s) (ok_signal s)
    (<[head s := CHUNK_FILLING]> (q_chunks_flag s)) (q_records s) (sent s) (recv s).

Definition producer_step (s : qstate) : outcome :=
  match q_ppc s with
  | PCmd =>
      match q_prog s with
      | [] => Done
      | QEnq w :: p => dift_rec_enqueue s p w
      | QKick :: p => kick_enqptr s p
      | QWait :: p => if ok_signal s =? 0 then Spins else Moves (with_prog s p PCmd (ok_signal s))
      | QClear :: p => Moves (with_prog s p PCmd 0)
      end
  | PFinish => Moves (with_flag s PWait (prev_head s) CHUNK_FILLED)
  | PWait => if flag (q_chunks_flag s) (head s) =? CHUNK_AVAILABLE
             then Moves (with_prog s (q_prog s) PTake (ok_signal s)) else Spins
  | PTake => Moves (take_chunk s)
  end.

(** ** The analysis thread *)

Definition with_cpc (s : qstate) (pc : cpc) (flags : gmap Z Z) : qstate :=
  QState (q_prog s) (q_ppc s) (enqptr s) (head s) (prev_head s) pc (deqptr s) (tail s)
    (prev_tail s) (in_block s) (ok_signal s) flags (q_records s) (sent s) (recv s).

(** The last lines of [next_block]. *)
Definition grab_chunk (s : qstate) : qstate :=
  QState (q_prog s) (q_ppc s) (enqptr s) (head s) (prev_head s) CRead (Some (tail s * W))
    ((tail s + 1) mod N) (tail s) (in_block s) (ok_signal s)
    (<[tail s := CHUNK_CONSUMING]> (q_chunks_flag s)) (q_records s) (sent s) (recv s).

(** [ret = *dc->deqptr; dc->deqptr++], and what the caller does with the word:
    after a block mark the next word is taken inside interpret_dift_codes; the
    main loop answers a sync mark with the signal and drops its pointer. *)
Definition rec_dequeue (s : qstate) : outcome :=
  match deqptr s with
  | None => Faults
  | Some i =>
      if in_records i then
        let w := word_at s i in
        let sync := negb (in_block s) && (w =? SYNC_MARK) in
        Moves (QState (q_prog s) (q_ppc s) (enqptr s) (head s) (prev_head s) CDeq
                 (if sync then None else Some (i + 1)) (tail s) (prev_tail s)
                 (negb (in_block s) && (w =? BLOCK_MARK))
                 (if sync then 1 else ok_signal s) (q_chunks_flag s) (q_records s)
                 (sent s) (recv s ++ [w]))
      else Faults
  end.

Definition consumer_step (s : qstate) : outcome :=
  match q_cpc s with
  | CDeq => if at_chunk (deqptr s)
            then Moves (with_cpc s CWait (<[prev_tail s := CHUNK_AVAILABLE]> (q_chunks_flag s)))
            else Moves (with_cpc s CRead (q_chunks_flag s))
  | CWait => if flag (q_chunks_flag s) (tail s) =? CHUNK_FILLED
             then Moves (with_cpc s CGrab (q_chunks_flag s)) else Spins
  | CGrab => Moves (grab_chunk s)
  | CRead => rec_dequeue s
  end.

(** Either thread moves. *)
Inductive qstep : qstate -> qstate -> Prop :=
| step_producer s s' : producer_step s = Moves s' -> qstep s s'
| step_consumer s s' : consumer_step s = Moves s' -> qstep s s'.

(** The queue once the analysis thread has entered its first wait. *)
Definition queue_started (prog : list qcmd) : qstate :=
  with_cpc (init_queue prog) CWait (<[N - 1 := CHUNK_AVAILABLE]> {[0 := CHUNK_FILLING]}).
End Ring.

(** ** Framed programs

    A sync mark is the last word before a kick, the wait and the reset of the
    signal; the word after a block mark is never read as a mark. *)

Fixpoint framed (inner : bool) (p : list qcmd) : bool :=
  match p with
  | [] => true
  | QEnq w :: p' =>
      if inner then framed false p'
      else if w =? SYNC_MARK then
        match p' with
        | QKick :: QWait :: QClear :: p'' => framed false p''
        | _ => false
        end
      else framed (w =? BLOCK_MARK) p'
  | _ => false
  end.

(** Reading [ws] from the given mode: the mode afterwards, and whether the last
    word was a sync mark; [None] if a sync mark has words after it. *)
Fixpoint scan (inner : bool) (ws : list Z) : option (bool * bool) :=
  match ws with
  | [] => Some (inner, false)
  | w :: ws' =>
      if inner then scan false ws'
      else if w =? SYNC_MARK then (if decide (ws' = []) then Some (false, true) else None)
      else scan (w =? BLOCK_MARK) ws'
  end.

(** ** The invariant

    Chunks have sequence numbers; number [k] lives in slot [k mod N]. [taken] chunks
    were taken by the analysis thread, the last of them is still [held] or was
    given back; [rest] is what it has not read of it. [chunks] are filled and
    waiting, and the emulation thread is filling [cur]. *)

Record ghost : Type := Ghost {
  taken : Z;
  held : bool;
  rest : list Z;
  chunks : list (list Z);
  cur : list Z
}.

Definition unread (h : ghost) : list Z := rest h ++ concat (chunks h) ++ cur h.
(** The first chunk in use, and the one being filled. *)
Definition first_used (h : ghost) : Z := if held h then taken h - 1 else taken h.
Definition filling (h : ghost) : Z := taken h + Z.of_nat (length (chunks h)).

(** The emulation thread is past the sync mark and has not reset the signal. *)
Definition syncing (p : list qcmd) : bool :=
  match p with
  | QKick :: _ | QWait :: _ | QClear :: _ => true
  | _ => false
  end.

(** The emulation thread owns a chunk, except between two of them. *)
Definition owns (pc : ppc) : bool := match pc with PCmd | PFinish => true | _ => false end.

Section Inv.
Context (N W : Z).

Definition slot (k : Z) : Z := k mod N.

(** The words [ws] are stored from word [off] of chunk [k] on. *)
Definition stored (m : gmap Z Z) (k off : Z) (ws : list Z) : Prop :=
  forall (i : nat) w, ws !! i = Some w -> m !! (slot k * W + off + Z.of_nat i) = Some w.

Definition flags_ok (s : qstate) (h : ghost) : Prop :=
  (held h = true -> flag (q_chunks_flag s) (slot (taken h - 1)) = CHUNK_CONSUMING) /\
  (forall k, taken h <= k < filling h -> flag (q_chunks_flag s) (slot k) = CHUNK_FILLED) /\
  (owns (q_ppc s) = true -> flag (q_chunks_flag s) (slot (filling h)) = CHUNK_FILLING) /\
  (forall k, (if owns (q_ppc s) then filling h + 1 else filling h) <= k < first_used h + N ->
     flag (q_chunks_flag s) (slot k) = CHUNK_AVAILABLE).

Definition producer_ok (s : qstate) (h : ghost) : Prop :=
  match q_ppc s with
  | PCmd => enqptr s = Some (slot (filling h) * W + Z.of_nat (length (cur h))) /\
            Z.of_nat (length (cur h)) < W /\
            (match q_prog s with QWait :: _ => cur h = [] | _ => True end)
  | PFinish => 1 <= Z.of_nat (length (cur h)) <= W /\
               (Z.of_nat (length (cur h)) = W \/ syncing (q_prog s) = true)
  | PWait => cur h = []
  | PTake => cur h = [] /\ filling h < first_used h + N
  end /\
  (if owns (q_ppc s) then prev_head s = slot (filling h) /\ head s = slot (filling h + 1)
   else head s = slot (filling h)).

(** [off] is how far the analysis thread is in the chunk it holds. *)
Definition consumer_ok (s : qstate) (h : ghost) : Prop :=
  tail s = slot (taken h) /\ prev_tail s = slot (taken h - 1) /\
  match q_cpc s with
  | CWait => held h = false /\ rest h = []
  | CGrab => held h = false /\ rest h = [] /\ chunks h <> []
  | CDeq | CRead => held h = true /\
      (if decide (rest h = []) then q_cpc s = CDeq /\ at_chunk W (deqptr s) = true
       else exists off, deqptr s = Some (slot (taken h - 1) * W + off) /\
         0 <= off /\ off + Z.of_nat (length (rest h)) <= W /\
         (q_cpc s = CDeq -> 0 < off) /\ stored (q_records s) (taken h - 1) off (rest h) /\
         (off + Z.of_nat (length (rest h)) = W \/
          (chunks h = [] /\ cur h = [] /\ syncing (q_prog s) = true)))
  end.

(** Only the last chunk before a sync may be short. *)
Definition chunks_ok (s : qstate) (h : ghost) : Prop :=
  forall (i : nat) c, chunks h !! i = Some c ->
    stored (q_records s) (taken h + Z.of_nat i) 0 c /\ 1 <= Z.of_nat (length c) <= W /\
    (Z.of_nat (length c) = W \/
     (S i = length (chunks h) /\ cur h = [] /\ syncing (q_prog s) = true)).

Definition drained (s : qstate) (h : ghost) : Prop :=
  unread h = [] /\ ok_signal s = 1 /\ in_block s = false.

Definition program_ok (s : qstate) (h : ghost) : Prop :=
  match q_prog s with
  | QKick :: QWait :: QClear :: p | QWait :: QClear :: p =>
      framed false p = true /\
      ((unread h <> [] /\ scan (in_block s) (unread h) = Some (false, true) /\ ok_signal s = 0) \/
       drained s h)
  | QClear :: p => framed false p = true /\ drained s h
  | p => ok_signal s = 0 /\
         exists i, scan (in_block s) (unread h) = Some (i, false) /\ framed i p = true
  end.

Record queue_inv (s : qstate) (h : ghost) : Prop := {
  inv_words : sent s = recv s ++ unread h;
  inv_taken : 0 <= taken h;
  inv_held : held h = true -> 1 <= taken h;
  inv_room : filling h + (if owns (q_ppc s) then 1 else 0) <= first_used h + N;
  inv_flags : flags_ok s h;
  inv_cur : stored (q_records s) (filling h) 0 (cur h);
  inv_chunks : chunks_ok s h;
  inv_producer : producer_ok s h;
  inv_consumer : consumer_ok s h;
  inv_program : program_ok s h
}.
End Inv.

(** ** Lemmas: slots and words *)

Section Lemmas.
Context (N W : Z) (HN : 2 <= N) (HW : 1 <= W).
Local Abbreviation slot := (slot N).
Local Abbreviation stored := (stored N W).

Lemma slot_range k : 0 <= slot k < N.
Proof. apply Z.mod_pos_bound. lia. Qed.

Lemma slot_inj k k' : slot k = slot k' -> - N < k - k' < N -> k = k'.
Proof.
  unfold DiftQueue.slot. intros E H. pose proof (Z.div_mod k N). pose proof (Z.div_mod k' N).
  assert (k / N = k' / N) by nia. nia.
Qed.

Lemma slot_neq k k' : k <> k' -> - N < k - k' < N -> slot k <> slot k'.
Proof. intros Hk H E. by apply Hk, slot_inj. Qed.

Lemma slot_next k : (slot k + 1) mod N = slot (k + 1).
Proof. unfold DiftQueue.slot. apply Zplus_mod_idemp_l. Qed.

Lemma slot_add_N k : slot (k + N) = slot k.
Proof. unfold DiftQueue.slot. rewrite <- (Z.mul_1_l N) at 1. apply Z_mod_plus_full. Qed.

Lemma at_chunk_offset k o : at_chunk W (Some (k * W + o)) = (o mod W =? 0).
Proof. unfold at_chunk. by rewrite Z.add_comm, Z_mod_plus_full. Qed.

Lemma at_chunk_inside k o : 0 < o < W -> at_chunk W (Some (k * W + o)) = false.
Proof. intros. rewrite at_chunk_offset, Z.mod_small by lia. apply Z.eqb_neq. lia. Qed.

Lemma at_chunk_end k : at_chunk W (Some (k * W + W)) = true.
Proof. rewrite at_chunk_offset, Z_mod_same_full. done. Qed.

Lemma in_records_offset k o : 0 <= o < W -> in_records N W (slot k * W + o) = true.
Proof.
  intros. pose proof (slot_range k). unfold in_records.
  rewrite andb_true_iff, Z.leb_le, Z.ltb_lt. nia.
Qed.

Lemma addr_neq k k' o o' :
  slot k <> slot k' -> 0 <= o < W -> 0 <= o' < W -> slot k * W + o <> slot k' * W + o'.
Proof. intros. destruct (Z.lt_trichotomy (slot k) (slot k')) as [|[]]; nia. Qed.

Lemma stored_other m k k' o o' w ws :
  stored m k o ws -> slot k <> slot k' -> 0 <= o -> o + Z.of_nat (length ws) <= W -> 0 <= o' < W ->
  stored (<[slot k' * W + o' := w]> m) k o ws.
Proof.
  intros S Hk Ho Hl Ho' i x Hx. pose proof (lookup_lt_Some _ _ _ Hx).
  rewrite lookup_insert_ne; [by apply S|]. rewrite <- Z.add_assoc.
  apply not_eq_sym, addr_neq; [done|lia..].
Qed.

Lemma stored_snoc m k w ws :
  stored m k 0 ws -> stored (<[slot k * W + Z.of_nat (length ws) := w]> m) k 0 (ws ++ [w]).
Proof.
  intros S i x Hx. apply lookup_app_Some in Hx as [Hx|[Hi Hx]].
  - pose proof (lookup_lt_Some _ _ _ Hx). rewrite lookup_insert_ne by lia. by apply S.
  - apply list_lookup_singleton_Some in Hx as [Hi0 ->].
    replace (slot k * W + 0 + Z.of_nat i) with (slot k * W + Z.of_nat (length ws)) by lia.
    by rewrite lookup_insert_eq.
Qed.

Lemma stored_tail m k o w ws : stored m k o (w :: ws) -> stored m k (o + 1) ws.
Proof.
  intros S i x Hx. specialize (S (Datatypes.S i) x Hx).
  by replace (slot k * W + (o + 1) + Z.of_nat i) with (slot k * W + o + Z.of_nat (Datatypes.S i)) by lia.
Qed.

(** ** Lemmas: marks *)

Lemma scan_snoc ws w i j :
  scan i ws = Some (j, false) ->
  scan i (ws ++ [w]) =
    Some (if j then (false, false) else if w =? SYNC_MARK then (false, true)
          else (w =? BLOCK_MARK, false)).
Proof.
  revert i. induction ws as [|x ws IH]; simpl; intros i E.
  - injection E as ->. destruct j, (w =? SYNC_MARK); done.
  - destruct i; [by apply IH|]. destruct (x =? SYNC_MARK); [|by apply IH].
    destruct (decide (ws = [])); [injection E as <-; done|done].
Qed.

Lemma framed_not_syncing i p : framed i p = true -> syncing p = false.
Proof. by destruct p as [|[] p]. Qed.

Lemma flag_eq m i v : flag (<[i := v]> m) i = v.
Proof. unfold flag. by rewrite lookup_insert_eq. Qed.

Lemma flag_ne m i v k : i <> k -> flag (<[i := v]> m) k = flag m k.
Proof. intros. unfold flag. by rewrite lookup_insert_ne. Qed.

(** ** Lemmas: steps of the emulation thread *)

Lemma chunk_distinct h k :
  first_used h <= k < filling h -> filling h < first_used h + N -> slot k <> slot (filling h).
Proof. intros. apply slot_neq; lia. Qed.

Lemma first_used_taken h : first_used h <= taken h <= filling h.
Proof. unfold first_used, filling. destruct (held h); lia. Qed.

Lemma Moves_inj a b : Moves a = Moves b -> b = a.
Proof. congruence. Qed.

(** A step of the emulation thread leaves the other thread's variables alone. *)
Definition same_consumer (s s' : qstate) : Prop :=
  q_cpc s' = q_cpc s /\ deqptr s' = deqptr s /\ tail s' = tail s /\ prev_tail s' = prev_tail s.

Lemma consumer_frame s s' h h' :
  same_consumer s s' -> taken h' = taken h -> held h' = held h -> rest h' = rest h ->
  (chunks h <> [] -> chunks h' <> []) ->
  (forall o, held h = true -> 0 <= o -> o + Z.of_nat (length (rest h)) <= W ->
     stored (q_records s) (taken h - 1) o (rest h) -> stored (q_records s') (taken h - 1) o (rest h)) ->
  (rest h <> [] -> chunks h = [] /\ cur h = [] /\ syncing (q_prog s) = true ->
     chunks h' = [] /\ cur h' = [] /\ syncing (q_prog s') = true) ->
  consumer_ok N W s h -> consumer_ok N W s' h'.
Proof.
  intros (C1 & C2 & C3 & C4) G1 G2 G3 Hc Hst Hsy (T1 & T2 & Io). unfold consumer_ok.
  rewrite C1, C2, C3, C4, G1, G2, G3. split_and!; [done..|].
  assert (held h = true -> (exists off, deqptr s = Some (slot (taken h - 1) * W + off) /\
      0 <= off /\ off + Z.of_nat (length (rest h)) <= W /\ (q_cpc s = CDeq -> 0 < off) /\
      stored (q_records s) (taken h - 1) off (rest h) /\
      (off + Z.of_nat (length (rest h)) = W \/
       (chunks h = [] /\ cur h = [] /\ syncing (q_prog s) = true))) -> rest h <> [] ->
    exists off, deqptr s = Some (slot (taken h - 1) * W + off) /\
      0 <= off /\ off + Z.of_nat (length (rest h)) <= W /\ (q_cpc s = CDeq -> 0 < off) /\
      stored (q_records s') (taken h - 1) off (rest h) /\
      (off + Z.of_nat (length (rest h)) = W \/
       (chunks h' = [] /\ cur h' = [] /\ syncing (q_prog s') = true))) as Hex.
  { intros Hh (o & E1 & E2 & E3 & E4 & E5 & E6) Hr. exists o.
    split_and!; auto. destruct E6; [by left|right; auto]. }
  destruct (q_cpc s); intuition; destruct (decide (rest h = [])); intuition.
Qed.

Definition put (h : ghost) (w : Z) : ghost :=
  Ghost (taken h) (held h) (rest h) (chunks h) (cur h ++ [w]).

Lemma unread_put h w : unread (put h w) = unread h ++ [w].
Proof. unfold unread. simpl. by rewrite !(assoc_L (++)). Qed.

(** Where the program stands when it is not synchronising. *)
Lemma program_enq s h w p :
  q_prog s = QEnq w :: p -> program_ok s h ->
  ok_signal s = 0 /\ exists i, scan (in_block s) (unread h) = Some (i, false) /\
    framed i (QEnq w :: p) = true.
Proof. unfold program_ok. by intros ->. Qed.

Lemma program_put s s' h w p :
  q_prog s = QEnq w :: p -> q_prog s' = p -> in_block s' = in_block s ->
  ok_signal s' = ok_signal s -> program_ok s h -> program_ok s' (put h w).
Proof.
  intros Hp Hp' Hb Hs Hok. destruct (program_enq s h w p Hp Hok) as (Hz & i & Hsc & Hf).
  unfold program_ok. rewrite Hp', Hb, Hs, unread_put, (scan_snoc _ _ _ _ Hsc). simpl in Hf.
  destruct i; [|destruct (w =? SYNC_MARK) eqn:Ew].
  - destruct p as [|[] p]; try discriminate Hf; eauto.
  - destruct p as [|[] [|[] [|[] p]]]; try discriminate Hf.
    split; [done|]. left. split_and!; [by destruct (unread h)|done|done].
  - destruct p as [|[] p]; try discriminate Hf; eauto.
Qed.

Lemma enqueue_prog_not_wait i w p p' : framed i (QEnq w :: p) = true -> p <> QWait :: p'.
Proof.
  intros Hf ->. simpl in Hf. by destruct i, (w =? SYNC_MARK).
Qed.

Lemma step_enqueue s s' h w p :
  queue_inv N W s h -> q_ppc s = PCmd -> q_prog s = QEnq w :: p ->
  dift_rec_enqueue N W s p w = Moves s' -> queue_inv N W s' (put h w).
Proof.
  intros I Hpc Hp. destruct I as [Iw Ig Ih Ir If Ic Ik Ip Io Iq].
  destruct (program_enq s h w p Hp Iq) as (Hz & i & Hsc & Hf).
  assert (syncing (q_prog s) = false) as Hns by (by rewrite Hp).
  unfold producer_ok in Ip. rewrite Hpc in Ip, Ir. simpl in Ip, Ir.
  destruct Ip as ((Ee & Hl & _) & Hph & Hh).
  pose proof (first_used_taken h) as Hu.
  unfold dift_rec_enqueue. rewrite Ee, in_records_offset by lia. intros ->%Moves_inj.
  set (pc' := if at_chunk W (Some (slot (filling h) * W + Z.of_nat (length (cur h)) + 1))
              then PFinish else PCmd).
  assert (pc' = if Z.of_nat (length (cur h)) + 1 =? W then PFinish else PCmd) as Hpc'.
  { unfold pc'. rewrite <- Z.add_assoc. destruct (Z.eqb_spec (Z.of_nat (length (cur h)) + 1) W) as [->|].
    - by rewrite at_chunk_end.
    - rewrite at_chunk_inside by lia. done. }
  assert (owns pc' = true) as Ho by (rewrite Hpc'; by case_match).
  clearbody pc'. split; simpl.
  - by rewrite unread_put, Iw, (assoc_L (++)).
  - done.
  - done.
  - rewrite Ho. exact Ir.
  - unfold flags_ok in *. simpl. rewrite Hpc in If. rewrite Ho. exact If.
  - by apply stored_snoc.
  - intros j c Hc. simpl in Hc. destruct (Ik j c Hc) as (S & L & F). pose proof (lookup_lt_Some _ _ _ Hc).
    split_and!; try lia.
    + apply stored_other; [done| |lia..]. simpl. apply chunk_distinct; [unfold filling in *|]; lia.
    + destruct F as [F|(_ & _ & F)]; [by left|congruence].
  - split; simpl.
    + rewrite Hpc'. rewrite length_app. simpl. destruct (Z.eqb_spec (Z.of_nat (length (cur h)) + 1) W).
      * split; [lia|left; lia].
      * change (filling (put h w)) with (filling h). split_and!; [f_equal; lia|lia|]. destruct p as [|[] p]; try done.
        by destruct (enqueue_prog_not_wait _ _ _ p Hf).
    + by rewrite Ho.
  - apply (consumer_frame s _ h); try done.
    + intros o Hh' H1 H2 S. apply stored_other; [done| |lia..].
      unfold first_used in *. rewrite Hh' in *. apply slot_neq; lia.
    + intros _ (_ & _ & F). congruence.
  - by eapply (program_put s).
Qed.

Lemma step_kick s s' h p :
  queue_inv N W s h -> q_ppc s = PCmd -> q_prog s = QKick :: p ->
  kick_enqptr W s p = Moves s' -> queue_inv N W s' h.
Proof.
  intros I Hpc Hp. destruct I as [Iw Ig Ih Ir If Ic Ik Ip Io Iq].
  unfold program_ok in Iq. rewrite Hp in Iq.
  destruct p as [|[] [|[] p]]; try (destruct Iq as (_ & i & _ & Hf); by destruct i).
  unfold producer_ok in Ip. rewrite Hpc, Hp in Ip. simpl in Ip. destruct Ip as ((Ee & Hl & _) & Hh).
  unfold kick_enqptr. intros ->%Moves_inj. rewrite Ee, at_chunk_offset, Z.mod_small by lia.
  rewrite Hpc in Ir. unfold flags_ok in If. rewrite Hpc in If.
  assert (forall b : bool, owns (if b then PCmd else PFinish) = true) as Ho by (by intros []).
  split; simpl; rewrite ?Ho; try done.
  - unfold flags_ok. simpl. by rewrite Ho.
  - intros j c Hc. destruct (Ik j c Hc) as (S & L & F). rewrite Hp in F. done.
  - split; simpl; [|by rewrite Ho]. destruct (Z.eqb_spec (Z.of_nat (length (cur h))) 0).
    + split_and!; [by rewrite Ee|lia|]. destruct (cur h); done.
    + split; [lia|by right].
  - apply (consumer_frame s _ h); try done. by rewrite Hp.
Qed.

Lemma program_wait s h p :
  q_prog s = QWait :: p -> program_ok s h ->
  exists p', p = QClear :: p' /\ framed false p' = true /\
    ((unread h <> [] /\ scan (in_block s) (unread h) = Some (false, true) /\ ok_signal s = 0) \/
     drained s h).
Proof.
  unfold program_ok. intros -> H. destruct p as [|[] p]; try (destruct H as (_ & i & _ & Hf); by destruct i).
  by exists p.
Qed.

Lemma step_wait s h p :
  queue_inv N W s h -> q_ppc s = PCmd -> q_prog s = QWait :: p -> ok_signal s <> 0 ->
  queue_inv N W (with_prog s p PCmd (ok_signal s)) h.
Proof.
  intros I Hpc Hp Hz. destruct I as [Iw Ig Ih Ir If Ic Ik Ip Io Iq].
  destruct (program_wait s h p Hp Iq) as (p' & -> & Hf & [(_ & _ & Hz')|Hd]); [done|].
  unfold flags_ok, producer_ok in *. rewrite Hpc in Ir, If, Ip. rewrite Hp in Ip.
  split; simpl; try done.
  - intros j c Hc. destruct (Ik j c Hc) as (S & L & F). by rewrite Hp in F.
  - split; [|apply Ip]. destruct Ip as ((? & ? & ?) & _). by split_and!.
  - apply (consumer_frame s _ h); try done. by rewrite Hp.
Qed.

Lemma unread_nil h : unread h = [] -> rest h = [] /\ concat (chunks h) = [] /\ cur h = [].
Proof. unfold unread. intros H. apply app_nil in H as [? H]. by apply app_nil in H as [? ?]. Qed.

Lemma step_clear s h p :
  queue_inv N W s h -> q_ppc s = PCmd -> q_prog s = QClear :: p ->
  queue_inv N W (with_prog s p PCmd 0) h.
Proof.
  intros I Hpc Hp. destruct I as [Iw Ig Ih Ir If Ic Ik Ip Io Iq].
  unfold program_ok in Iq. rewrite Hp in Iq. destruct Iq as (Hf & Hu & Hs & Hb).
  destruct (unread_nil h Hu) as (Hr & Hc & Hcur).
  assert (chunks h = []) as Hch.
  { destruct (chunks h) as [|c cs] eqn:E; [done|]. destruct (Ik 0%nat c) as (_ & L & _); [by rewrite E|].
    simpl in Hc. apply app_nil in Hc as [-> _]. simpl in L. lia. }
  unfold flags_ok, producer_ok in *. rewrite Hpc in Ir, If, Ip. rewrite Hp in Ip.
  split; simpl; try done.
  - intros j c Hj. by rewrite Hch, lookup_nil in Hj.
  - split; [|apply Ip]. destruct Ip as ((? & ? & ?) & _). split_and!; try done. by destruct p as [|[] p].
  - apply (consumer_frame s _ h); done.
  - unfold program_ok. simpl. rewrite Hu, Hb. destruct p as [|[] p]; try discriminate Hf; split; eauto.
Qed.

Definition close (h : ghost) : ghost :=
  Ghost (taken h) (held h) (rest h) (chunks h ++ [cur h]) [].

Lemma filling_close h : filling (close h) = filling h + 1.
Proof. unfold filling. simpl. rewrite length_app. simpl. lia. Qed.

Lemma unread_close h : unread (close h) = unread h.
Proof. unfold unread. simpl. rewrite concat_app. simpl. by rewrite !app_nil_r. Qed.

Lemma program_frame s s' h h' :
  q_prog s' = q_prog s -> ok_signal s' = ok_signal s -> in_block s' = in_block s ->
  unread h' = unread h -> program_ok s h -> program_ok s' h'.
Proof. unfold program_ok, drained. by intros -> -> -> ->. Qed.

Lemma flags_finish s h :
  filling h + 1 <= first_used h + N -> q_ppc s = PFinish -> flags_ok N s h ->
  flags_ok N (with_flag s PWait (slot (filling h)) CHUNK_FILLED) (close h).
Proof.
  intros Hr Hpc (F1 & F2 & F3 & F4). rewrite Hpc in F3, F4. pose proof (first_used_taken h).
  unfold flags_ok. rewrite filling_close. simpl. split_and!.
  - intros Hh. rewrite flag_ne; [auto|]. unfold first_used in *. rewrite Hh in *.
    apply slot_neq; lia.
  - intros k Hk. destruct (Z.eq_dec k (filling h)) as [->|]; [apply flag_eq|].
    rewrite flag_ne; [apply F2; lia|apply slot_neq; lia].
  - done.
  - intros k Hk. change (first_used (close h)) with (first_used h) in Hk.
    rewrite flag_ne; [apply F4; simpl; lia|apply slot_neq; lia].
Qed.

Lemma step_finish s h :
  queue_inv N W s h -> q_ppc s = PFinish ->
  queue_inv N W (with_flag s PWait (prev_head s) CHUNK_FILLED) (close h).
Proof.
  intros I Hpc. destruct I as [Iw Ig Ih Ir If Ic Ik Ip Io Iq].
  unfold producer_ok in Ip. rewrite Hpc in Ir, Ip. simpl in Ir, Ip.
  destruct Ip as ((L & Hl) & -> & Hh).
  split; simpl; try done.
  - by rewrite unread_close.
  - rewrite filling_close. change (first_used (close h)) with (first_used h). lia.
  - by apply flags_finish.
  - intros j c Hc. simpl in Hc. apply lookup_app_Some in Hc as [Hc|[Hj Hc]].
    + destruct (Ik j c Hc) as (S & L' & F). split_and!; [done|lia..|].
      destruct F as [F|(_ & F & _)]; [by left|]. rewrite F in L. simpl in L. lia.
    + apply list_lookup_singleton_Some in Hc as [Hj0 <-].
      assert (j = length (chunks h)) as -> by lia. split_and!; [done|lia..|].
      destruct Hl as [Hl|Hl]; [by left|right]. simpl. rewrite length_app. simpl. split_and!; [lia|done..].
  - unfold producer_ok. simpl. rewrite filling_close. done.
  - apply (consumer_frame s _ h); try done.
    + intros _ H. simpl in H. by destruct (chunks h).
    + intros _ (_ & H & _). rewrite H in L. simpl in L. lia.
  - apply (program_frame s _ h); [done..| |done]. apply unread_close.
Qed.

(** A slot past the chunks in use is available, and only such a slot is. *)
Lemma available_room s h :
  flags_ok N s h -> filling h <= first_used h + N ->
  flag (q_chunks_flag s) (slot (filling h)) = CHUNK_AVAILABLE -> filling h < first_used h + N.
Proof.
  intros (F1 & F2 & _) Hr Ha. apply Z.lt_nge. intros Hge.
  assert (filling h = first_used h + N) as E by lia. rewrite E, slot_add_N in Ha.
  unfold first_used in *. destruct (held h) eqn:Hh.
  - rewrite F1 in Ha by done. done.
  - rewrite F2 in Ha; [done|]. unfold first_used, filling in *. lia.
Qed.

Lemma step_pwait s h :
  queue_inv N W s h -> q_ppc s = PWait -> flag (q_chunks_flag s) (head s) = CHUNK_AVAILABLE ->
  queue_inv N W (with_prog s (q_prog s) PTake (ok_signal s)) h.
Proof.
  intros I Hpc Ha. destruct I as [Iw Ig Ih Ir If Ic Ik Ip Io Iq].
  unfold producer_ok in Ip. rewrite Hpc in Ip, Ir. simpl in Ip, Ir. destruct Ip as (Hc & Hh).
  rewrite Hh in Ha. assert (filling h < first_used h + N) as Hroom.
  { eapply available_room; [done|lia|done]. }
  split; simpl; try done.
  unfold flags_ok in *. by rewrite Hpc in If.
Qed.

Lemma step_take s h :
  queue_inv N W s h -> q_ppc s = PTake -> queue_inv N W (take_chunk N W s) h.
Proof.
  intros I Hpc. destruct I as [Iw Ig Ih Ir If Ic Ik Ip Io Iq].
  unfold producer_ok in Ip. rewrite Hpc in Ip, Ir. simpl in Ip, Ir.
  destruct Ip as ((Hc & Hroom) & Hh). pose proof (first_used_taken h).
  destruct If as (F1 & F2 & F3 & F4). rewrite Hpc in F4. simpl in F4.
  split; simpl; try done.
  - lia.
  - unfold flags_ok. simpl. rewrite Hh. split_and!.
    + intros Hd. rewrite flag_ne; [auto|]. unfold first_used in *. rewrite Hd in *.
      apply slot_neq; lia.
    + intros k Hk. rewrite flag_ne; [by apply F2|apply slot_neq; lia].
    + intros _. apply flag_eq.
    + intros k Hk. rewrite flag_ne; [apply F4; lia|apply slot_neq; lia].
  - unfold producer_ok. simpl. rewrite Hh, slot_next, Hc. simpl. split_and!; try done; try lia.
    + f_equal. lia.
    + by case_match; [|case_match].
Qed.

(** ** Lemmas: steps of the analysis thread *)

(** A step of the analysis thread leaves the other thread's variables alone. *)
Definition same_producer (s s' : qstate) : Prop :=
  q_prog s' = q_prog s /\ q_ppc s' = q_ppc s /\ enqptr s' = enqptr s /\ head s' = head s /\
  prev_head s' = prev_head s.

Lemma producer_frame s s' h h' :
  same_producer s s' -> filling h' = filling h -> cur h' = cur h ->
  first_used h <= first_used h' -> producer_ok N W s h -> producer_ok N W s' h'.
Proof.
  intros (P1 & P2 & P3 & P4 & P5) Hf Hc Hu. unfold producer_ok.
  rewrite P1, P2, P3, P4, P5, Hf, Hc. intros [H1 H2]. split; [|done].
  destruct (q_ppc s); [done..|]. split; [apply H1|]. destruct H1. lia.
Qed.

Definition release (h : ghost) : ghost := Ghost (taken h) false (rest h) (chunks h) (cur h).

Lemma step_release s h :
  queue_inv N W s h -> q_cpc s = CDeq -> at_chunk W (deqptr s) = true ->
  queue_inv N W (with_cpc s CWait (<[prev_tail s := CHUNK_AVAILABLE]> (q_chunks_flag s))) (release h).
Proof.
  intros I Hpc Ha. destruct I as [Iw Ig Ih Ir If Ic Ik Ip Io Iq].
  unfold consumer_ok in Io. rewrite Hpc in Io. destruct Io as (T1 & T2 & Hh & Io).
  destruct (decide (rest h = [])) as [Hr|Hr].
  2: { destruct Io as (o & E & H1 & H2 & H3 & _). rewrite E in Ha.
       assert (rest h <> [] -> 1 <= Z.of_nat (length (rest h))) by (destruct (rest h); simpl; [done|lia]).
       rewrite at_chunk_inside in Ha; [done|]. specialize (H3 eq_refl). specialize (H Hr). lia. }
  pose proof (Ih Hh). assert (first_used h = taken h - 1) as Hu by (unfold first_used; by rewrite Hh).
  rewrite Hu in Ir. assert (taken h <= filling h) by (unfold filling; lia).
  split; simpl; try done.
  - change (filling (release h)) with (filling h). unfold first_used. simpl. lia.
  - destruct If as (F1 & F2 & F3 & F4). rewrite T2. unfold flags_ok.
    change (filling (release h)) with (filling h). unfold first_used. simpl. split_and!.
    + done.
    + intros k Hk. rewrite flag_ne; [by apply F2|]. apply slot_neq; [lia|destruct (owns (q_ppc s)); lia].
    + intros Ho. rewrite flag_ne; [auto|]. rewrite Ho in Ir. apply slot_neq; lia.
    + intros k Hk. destruct (Z.eq_dec k (taken h - 1 + N)) as [->|].
      * rewrite slot_add_N. apply flag_eq.
      * rewrite flag_ne; [apply F4; rewrite Hu; lia|]. destruct (owns (q_ppc s)); apply slot_neq; lia.
  - apply (producer_frame s _ h); try done. unfold first_used. simpl. rewrite Hh. lia.
Qed.

Lemma step_deq s h :
  queue_inv N W s h -> q_cpc s = CDeq -> at_chunk W (deqptr s) = false ->
  queue_inv N W (with_cpc s CRead (q_chunks_flag s)) h.
Proof.
  intros I Hpc Ha. destruct I as [Iw Ig Ih Ir If Ic Ik Ip Io Iq].
  unfold consumer_ok in Io. rewrite Hpc in Io. destruct Io as (T1 & T2 & Hh & Io).
  split; simpl; try done. split_and!; try done. simpl. split; [done|].
  destruct (decide (rest h = [])) as [Hr|Hr]; [destruct Io; congruence|].
  destruct Io as (o & E & H1 & H2 & _ & H4). by exists o.
Qed.

(** A filled chunk is one of those waiting. *)
Lemma filled_waiting s h :
  flags_ok N s h -> first_used h = taken h -> filling h + (if owns (q_ppc s) then 1 else 0) <= first_used h + N ->
  flag (q_chunks_flag s) (slot (taken h)) = CHUNK_FILLED -> chunks h <> [].
Proof.
  intros (F1 & F2 & F3 & F4) Hu Hr Hf E.
  assert (filling h = taken h) as Hg by (unfold filling; rewrite E; simpl; lia).
  destruct (owns (q_ppc s)) eqn:Ho.
  - rewrite <- Hg, F3 in Hf by done. done.
  - rewrite F4 in Hf by lia. done.
Qed.

Lemma step_cwait s h :
  queue_inv N W s h -> q_cpc s = CWait -> flag (q_chunks_flag s) (tail s) = CHUNK_FILLED ->
  queue_inv N W (with_cpc s CGrab (q_chunks_flag s)) h.
Proof.
  intros I Hpc Hf. destruct I as [Iw Ig Ih Ir If Ic Ik Ip Io Iq].
  unfold consumer_ok in Io. rewrite Hpc in Io. destruct Io as (T1 & T2 & Hh & Hr).
  split; simpl; try done. split_and!; try done. simpl. split_and!; try done. rewrite T1 in Hf.
  eapply filled_waiting; [done| |done..]. unfold first_used. by rewrite Hh.
Qed.

Definition grab (h : ghost) (c : list Z) (cs : list (list Z)) : ghost :=
  Ghost (taken h + 1) true c cs (cur h).

Lemma filling_grab h c cs : chunks h = c :: cs -> filling (grab h c cs) = filling h.
Proof. intros E. unfold filling. rewrite E. simpl. lia. Qed.

Lemma step_grab s h :
  queue_inv N W s h -> q_cpc s = CGrab ->
  exists c cs, queue_inv N W (grab_chunk N W s) (grab h c cs).
Proof.
  intros I Hpc. destruct I as [Iw Ig Ih Ir If Ic Ik Ip Io Iq].
  unfold consumer_ok in Io. rewrite Hpc in Io. destruct Io as (T1 & T2 & Hh & Hr & Hc).
  destruct (chunks h) as [|c cs] eqn:Ech; [done|]. exists c, cs.
  pose proof (filling_grab h c cs Ech) as Hf.
  assert (unread (grab h c cs) = unread h) as Hun.
  { unfold unread. simpl. rewrite Hr, Ech. simpl. by rewrite (assoc_L (++)). }
  assert (first_used h = taken h) as Hu by (unfold first_used; by rewrite Hh).
  assert (first_used (grab h c cs) = taken h) as Hu' by (unfold first_used; simpl; lia).
  assert (taken h < filling h) by (unfold filling; rewrite Ech; simpl; lia).
  destruct (Ik 0%nat c) as (S0 & L0 & F0); [by rewrite Ech|].
  replace (taken h + Z.of_nat 0) with (taken h) in S0 by lia.
  split; simpl; rewrite ?Hf, ?Hun, ?Hu'; try done; try lia.
  - destruct If as (F1 & F2 & F3 & F4). unfold flags_ok. simpl. rewrite Hf, Hu', T1.
    rewrite Hu in F4, Ir. split_and!.
    + intros _. replace (taken h + 1 - 1) with (taken h) by lia. apply flag_eq.
    + intros k Hk. rewrite flag_ne; [apply F2; lia|]. apply slot_neq; [lia|destruct (owns (q_ppc s)); lia].
    + intros Ho. rewrite flag_ne; [auto|]. rewrite Ho in Ir. apply slot_neq; lia.
    + intros k Hk. rewrite flag_ne; [by apply F4|]. destruct (owns (q_ppc s)); apply slot_neq; lia.
  - intros i x Hx. simpl in Hx. destruct (Ik (S i) x) as (S1 & L1 & F1); [by rewrite Ech|].
    rewrite Ech in F1. simpl in F1. simpl.
    replace (taken h + Z.of_nat (S i)) with (taken h + 1 + Z.of_nat i) in S1 by lia.
    split_and!; [done|lia..|]. destruct F1 as [?|(? & ? & ?)]; [by left|right]. split_and!; [lia|done..].
  - apply (producer_frame s _ h); try done. lia.
  - unfold consumer_ok. simpl. rewrite T1, slot_next. replace (taken h + 1 - 1) with (taken h) by lia.
    split_and!; try done. rewrite decide_False by (intros ->; simpl in L0; lia).
    exists 0. split_and!; try done; try lia.
    + f_equal. lia.
    + rewrite Ech in F0. simpl in F0. destruct F0 as [?|(? & ? & ?)]; [left; lia|right].
      split_and!; try done. destruct cs; [done|simpl in *; lia].
  - apply (program_frame s _ h); done.
Qed.

Definition read (h : ghost) (ws : list Z) : ghost :=
  Ghost (taken h) (held h) ws (chunks h) (cur h).

Lemma unread_read h w ws : rest h = w :: ws -> unread h = w :: unread (read h ws).
Proof. intros E. unfold unread. by rewrite E. Qed.

(** Whether the main loop takes the word [w] as a sync mark. *)
Definition is_sync (i : bool) (w : Z) : bool := negb i && (w =? SYNC_MARK).

Lemma scan_cons i w us r :
  scan i (w :: us) = Some r ->
  (is_sync i w = true /\ us = [] /\ r = (false, true)) \/
  (is_sync i w = false /\ scan (negb i && (w =? BLOCK_MARK)) us = Some r).
Proof.
  unfold is_sync. simpl. destruct i; simpl; [by right|]. destruct (w =? SYNC_MARK) eqn:E.
  - destruct (decide (us = [])); [|done]. intros [= <-]. by left.
  - by right.
Qed.

(** The words still to be read scan, and end in a sync mark if one is under way. *)
Lemma program_scan s h :
  program_ok s h -> unread h <> [] ->
  exists r, scan (in_block s) (unread h) = Some r /\ (syncing (q_prog s) = true -> r = (false, true)).
Proof.
  unfold program_ok, drained. intros H Hu.
  destruct (q_prog s) as [|[] [|[] [|[] p]]]; simpl;
    first [ destruct H as (_ & i & H & _); by exists (i, false)
          | destruct H as (_ & i & _ & H); by destruct i
          | destruct H as (_ & [(_ & H & _)|(H & _)]); [by exists (false, true)|done]
          | destruct H as (_ & H & _); done ].
Qed.

Lemma mark_neq : (SYNC_MARK =? BLOCK_MARK) = false.
Proof. vm_compute. reflexivity. Qed.

Lemma program_read s s' h w ws :
  rest h = w :: ws -> q_prog s' = q_prog s ->
  in_block s' = negb (in_block s) && (w =? BLOCK_MARK) ->
  ok_signal s' = (if is_sync (in_block s) w then 1 else ok_signal s) ->
  program_ok s h -> program_ok s' (read h ws).
Proof.
  intros Hr Hp Hb Hs Hok. pose proof (unread_read h w ws Hr) as Hu.
  destruct (program_scan s h) as (r & Hsc & Hsy); [done|by rewrite Hu|].
  rewrite Hu in Hsc. destruct (scan_cons _ _ _ _ Hsc) as [(Y & Hn & ->)|(Y & Hsc')]; rewrite Y in Hs.
  - assert (drained s' (read h ws)) as Hd.
    { split_and!; [done|done|]. rewrite Hb. unfold is_sync in Y. apply andb_true_iff in Y as [-> Y].
      apply Z.eqb_eq in Y as ->. apply mark_neq. }
    unfold program_ok in *. rewrite Hp, Hu in *.
    destruct (q_prog s) as [|[] [|[] [|[] p]]]; try (split; [apply Hok|]); auto;
      destruct Hok as (_ & i & E & _); rewrite Hsc in E; discriminate E.
  - rewrite <- Hb in Hsc'. unfold program_ok, drained in *. rewrite Hp, Hs, Hu in *.
    assert (unread (read h ws) <> [] \/ r.2 = false) as Hne.
    { destruct (unread (read h ws)); [right|by left]. by injection Hsc' as <-. }
    destruct (q_prog s) as [|[] [|[] [|[] p]]];
      first [ destruct Hok as (Hz & i & E & Hf); rewrite Hsc in E; injection E as ->; by eauto
            | destruct Hok as (_ & H & _); discriminate H
            | destruct Hok as (Hf & [(_ & E & Hz)|(H & _)]); [|discriminate H];
              rewrite Hsc in E; injection E as ->; split; [done|]; left;
              destruct Hne; [done|discriminate] ].
Qed.

Lemma consumer_read s s' h w ws off :
  rest h = w :: ws -> q_cpc s' = CDeq -> tail s' = tail s -> prev_tail s' = prev_tail s ->
  q_prog s' = q_prog s -> q_records s' = q_records s ->
  deqptr s' = (if is_sync (in_block s) w then None else Some (slot (taken h - 1) * W + off + 1)) ->
  tail s = slot (taken h) -> prev_tail s = slot (taken h - 1) -> held h = true ->
  0 <= off -> off + Z.of_nat (length (rest h)) <= W -> stored (q_records s) (taken h - 1) off (rest h) ->
  (off + Z.of_nat (length (rest h)) = W \/ (chunks h = [] /\ cur h = [] /\ syncing (q_prog s) = true)) ->
  program_ok s h -> consumer_ok N W s' (read h ws).
Proof.
  intros Hr C1 C2 C3 C4 C5 C6 T1 T2 Hh H0 Hl Hst Hend Hok. rewrite Hr in *. simpl length in *.
  unfold consumer_ok. rewrite C1, C2, C3, C4, C5, C6. split_and!; [done..|].
  pose proof (unread_read h w ws Hr) as Hu.
  destruct (program_scan s h) as (r & Hsc & Hsy); [done|by rewrite Hu|].
  rewrite Hu in Hsc. simpl rest. destruct (decide (ws = [])) as [->|Hws].
  - split; [done|]. destruct (is_sync (in_block s) w) eqn:Y; [done|]. rewrite <- Z.add_assoc.
    destruct Hend as [Hend|(E1 & E2 & E3)].
    + replace (off + 1) with W by (simpl in Hend; lia). apply at_chunk_end.
    + rewrite (Hsy E3) in Hsc. unfold unread in Hsc. simpl in Hsc. rewrite E1, E2 in Hsc.
      apply scan_cons in Hsc as [(Y' & _)|(_ & Hsc)]; [congruence|discriminate Hsc].
  - assert (is_sync (in_block s) w = false) as ->.
    { apply scan_cons in Hsc as [(_ & Hn & _)|(Y & _)]; [|done].
      apply unread_nil in Hn as (Hn & _). by destruct Hws. }
    exists (off + 1). simpl. split_and!; try lia.
    + f_equal. lia.
    + by eapply stored_tail.
    + destruct Hend as [Hend|Hend]; [left; lia|by right].
Qed.

Lemma step_read s h :
  queue_inv N W s h -> q_cpc s = CRead ->
  exists s' ws, rec_dequeue N W s = Moves s' /\ queue_inv N W s' (read h ws).
Proof.
  intros I Hpc. destruct I as [Iw Ig Ih Ir If Ic Ik Ip Io Iq].
  unfold consumer_ok in Io. rewrite Hpc in Io. destruct Io as (T1 & T2 & Hh & Io).
  destruct (rest h) as [|w ws] eqn:Hr; simpl in Io; [by destruct Io|].
  destruct Io as (off & E & H0 & Hl & _ & Hst & Hend).
  unfold rec_dequeue. rewrite E, in_records_offset by lia. eexists _, ws. split; [reflexivity|].
  assert (word_at s (slot (taken h - 1) * W + off) = w) as ->.
  { unfold word_at. specialize (Hst 0%nat w eq_refl). rewrite Z.add_0_r in Hst. by rewrite Hst. }
  split; simpl; try done.
  - by rewrite Iw, (unread_read h w ws Hr), <- (assoc_L (++)).
  - eapply (consumer_read s _ h w ws off); rewrite ?Hr; try done.
  - by apply (program_read s _ h w ws).
Qed.

Ltac destruct_if := match goal with |- context [if ?b then _ else _] => destruct b end.

(** ** Lemmas: runs *)

Lemma producer_preserves s s' h :
  queue_inv N W s h -> producer_step N W s = Moves s' -> exists h', queue_inv N W s' h'.
Proof.
  intros I. unfold producer_step. destruct (q_ppc s) eqn:Hpc.
  - destruct (q_prog s) as [|[w| | |] p] eqn:Hp; [done|..].
    + intros E. exists (put h w). by eapply step_enqueue.
    + intros E. exists h. by eapply step_kick.
    + destruct (Z.eqb_spec (ok_signal s) 0); [done|]. intros ->%Moves_inj. exists h. by apply step_wait.
    + intros ->%Moves_inj. exists h. by apply step_clear.
  - intros ->%Moves_inj. exists (close h). by apply step_finish.
  - destruct (Z.eqb_spec (flag (q_chunks_flag s) (head s)) CHUNK_AVAILABLE); [|done].
    intros ->%Moves_inj. exists h. by apply step_pwait.
  - intros ->%Moves_inj. exists h. by apply step_take.
Qed.

Lemma consumer_preserves s s' h :
  queue_inv N W s h -> consumer_step N W s = Moves s' -> exists h', queue_inv N W s' h'.
Proof.
  intros I. unfold consumer_step. destruct (q_cpc s) eqn:Hpc.
  - destruct (at_chunk W (deqptr s)) eqn:Ha; intros ->%Moves_inj.
    + exists (release h). by apply step_release.
    + exists h. by apply step_deq.
  - destruct (Z.eqb_spec (flag (q_chunks_flag s) (tail s)) CHUNK_FILLED); [|done].
    intros ->%Moves_inj. exists h. by apply step_cwait.
  - intros ->%Moves_inj. destruct (step_grab s h) as (c & cs & I'); eauto.
  - destruct (step_read s h) as (s1 & ws & E & I'); [done..|]. rewrite E.
    intros ->%Moves_inj. eauto.
Qed.

Lemma inv_started prog : framed false prog = true ->
  queue_inv N W (queue_started N prog) (Ghost 0 false [] [] []).
Proof.
  intros Hf. split; simpl; try done; try lia.
  - unfold first_used, filling. simpl. lia.
  - unfold flags_ok, first_used, filling. simpl.
    refine (conj _ (conj _ (conj _ _))); [done|lia|..].
    + intros _. rewrite flag_ne; [done|]. unfold DiftQueue.slot. rewrite Z.mod_0_l by lia. lia.
    + intros k Hk. destruct (Z.eq_dec k (N - 1)) as [->|].
      * unfold DiftQueue.slot. rewrite Z.mod_small by lia. apply flag_eq.
      * unfold DiftQueue.slot. rewrite Z.mod_small by lia. rewrite flag_ne by lia.
        unfold flag. by rewrite lookup_singleton_ne by lia.
  - unfold producer_ok, filling, DiftQueue.slot. simpl. rewrite Z.mod_0_l by lia.
    split_and!; try done; try lia; [|by rewrite Z.mod_small by lia].
    by destruct prog as [|[] p].
  - unfold consumer_ok, DiftQueue.slot. simpl. rewrite Z.mod_0_l by lia. split_and!; try done.
    rewrite <- (Z_mod_plus_full (0 - 1) 1 N). rewrite Z.mod_small; lia.
  - unfold program_ok. simpl. destruct prog as [|[] p]; try discriminate Hf; split; eauto.
Qed.

Lemma inv_reachable prog s :
  framed false prog = true -> rtc (qstep N W) (queue_started N prog) s -> exists h, queue_inv N W s h.
Proof.
  intros Hf. assert (exists h, queue_inv N W (queue_started N prog) h) as H0 by eauto using inv_started.
  intros Hr. revert H0. induction Hr as [|a b c Hs _ IH]; intros [h I]; [eauto|].
  apply IH. destruct Hs; [by eapply producer_preserves|by eapply consumer_preserves].
Qed.

Lemma enqueue_moves s h w p :
  queue_inv N W s h -> q_ppc s = PCmd -> exists s', dift_rec_enqueue N W s p w = Moves s'.
Proof.
  intros I Hpc. pose proof (inv_producer _ _ _ _ I) as Ip. unfold producer_ok in Ip. rewrite Hpc in Ip.
  destruct Ip as ((E & L & _) & _). unfold dift_rec_enqueue. rewrite E, in_records_offset by lia. eauto.
Qed.

Lemma no_faults s h :
  queue_inv N W s h -> producer_step N W s <> Faults /\ consumer_step N W s <> Faults.
Proof.
  intros I. split.
  - unfold producer_step. destruct (q_ppc s) eqn:Hpc; [|done|by destruct (_ =? _)|done].
    destruct (q_prog s) as [|[w| | |] p]; [done| |done|by destruct (_ =? _)|done].
    destruct (enqueue_moves s h w p I Hpc) as [s' ->]. done.
  - unfold consumer_step. destruct (q_cpc s) eqn:Hpc; [by destruct (at_chunk _ _)|by destruct (_ =? _)|done|].
    destruct (step_read s h I Hpc) as (s' & ws & -> & _). done.
Qed.

(** ** Lemmas: progress and termination *)

(** The analysis thread waits only when no filled chunk is left. *)
Lemma consumer_progress s h :
  queue_inv N W s h -> (exists s', consumer_step N W s = Moves s') \/
  (rest h = [] /\ chunks h = [] /\ held h = false).
Proof.
  intros I. unfold consumer_step. destruct (q_cpc s) eqn:Hpc.
  - left. destruct (at_chunk W (deqptr s)); eauto.
  - pose proof (inv_consumer _ _ _ _ I) as Io. unfold consumer_ok in Io. rewrite Hpc in Io.
    destruct Io as (T1 & _ & Hh & Hr). destruct (chunks h) as [|c cs] eqn:Hc; [by right|left].
    destruct (inv_flags _ _ _ _ I) as (_ & F2 & _). rewrite T1, F2; [simpl; eauto|].
    unfold filling. rewrite Hc. simpl. lia.
  - eauto.
  - left. destruct (step_read s h I Hpc) as (s' & ws & -> & _). eauto.
Qed.

Lemma queue_progress s h :
  queue_inv N W s h -> (exists s', qstep N W s s') \/
  (q_prog s = [] /\ q_ppc s = PCmd /\ unread h = cur h /\ Z.of_nat (length (cur h)) < W).
Proof.
  intros I. destruct (consumer_progress s h I) as [[s' E]|(Hr & Hc & Hh)].
  { left. exists s'. by apply step_consumer. }
  assert (unread h = cur h) as Hu by (unfold unread; by rewrite Hr, Hc).
  pose proof (inv_producer _ _ _ _ I) as [Ip Iw]. destruct (q_ppc s) eqn:Hpc.
  - destruct (q_prog s) as [|[w| | |] p] eqn:Hp.
    + right. split_and!; try done. apply Ip.
    + destruct (enqueue_moves s h w p I Hpc) as [s' E]. left. exists s'. apply step_producer.
      unfold producer_step. by rewrite Hpc, Hp.
    + left. eexists. apply step_producer. unfold producer_step. by rewrite Hpc, Hp.
    + left. eexists. apply step_producer. unfold producer_step. rewrite Hpc, Hp.
      destruct (program_wait s h p Hp (inv_program _ _ _ _ I)) as (_ & _ & _ & [(Hn & _)|(_ & -> & _)]).
      * destruct Ip as (_ & _ & Ip). congruence.
      * reflexivity.
    + left. eexists. apply step_producer. unfold producer_step. by rewrite Hpc, Hp.
  - left. eexists. apply step_producer. unfold producer_step. by rewrite Hpc.
  - left. eexists. apply step_producer. unfold producer_step. rewrite Hpc. simpl in Iw. rewrite Iw.
    destruct (inv_flags _ _ _ _ I) as (_ & _ & _ & F4). rewrite Hpc in F4. simpl in F4.
    rewrite F4; [reflexivity|]. unfold first_used, filling. rewrite Hh, Hc. simpl. lia.
  - left. eexists. apply step_producer. unfold producer_step. by rewrite Hpc.
Qed.

Definition prank (pc : ppc) : Z := match pc with PCmd => 0 | PTake => 1 | PWait => 2 | PFinish => 3 end.
Definition crank (pc : cpc) : Z := match pc with CRead => 0 | CGrab => 1 | CWait => 2 | CDeq => 3 end.

(** The words the calls put on the queue. *)
Fixpoint enq_words (p : list qcmd) : list Z :=
  match p with
  | [] => []
  | QEnq w :: p' => w :: enq_words p'
  | _ :: p' => enq_words p'
  end.

Definition work (s : qstate) : Z :=
  5 * Z.of_nat (length (q_prog s)) + prank (q_ppc s) +
  5 * (Z.of_nat (length (sent s ++ enq_words (q_prog s))) - Z.of_nat (length (recv s))) + crank (q_cpc s).

Lemma producer_work s s' :
  producer_step N W s = Moves s' ->
  work s' < work s /\ sent s' ++ enq_words (q_prog s') = sent s ++ enq_words (q_prog s).
Proof.
  unfold producer_step, work. destruct (q_ppc s) eqn:Hpc.
  - destruct (q_prog s) as [|[w| | |] p] eqn:Hp; [done|..].
    + unfold dift_rec_enqueue. destruct (enqptr s) as [i|]; [|done]. destruct (in_records N W i); [|done].
      intros ->%Moves_inj. cbn [q_prog q_ppc q_cpc sent recv]. change (enq_words (QEnq w :: p)) with (w :: enq_words p).
      rewrite <- (assoc_L (++)). split; [|done]. simpl app. simpl length. destruct (at_chunk _ _); simpl prank; lia.
    + unfold kick_enqptr. intros ->%Moves_inj. simpl. split; [|done].
      destruct (at_chunk W (enqptr s)); simpl; lia.
    + destruct_if; [done|]. intros ->%Moves_inj. simpl. split; [lia|done].
    + intros ->%Moves_inj. simpl. split; [lia|done].
  - intros ->%Moves_inj. simpl. split; [lia|done].
  - destruct_if; [|done]. intros ->%Moves_inj. simpl. split; [lia|done].
  - intros ->%Moves_inj. simpl. split; [lia|done].
Qed.

Lemma consumer_work s s' :
  consumer_step N W s = Moves s' ->
  work s' < work s /\ sent s' ++ enq_words (q_prog s') = sent s ++ enq_words (q_prog s).
Proof.
  unfold consumer_step, work. destruct (q_cpc s) eqn:Hpc.
  - destruct_if; intros ->%Moves_inj; simpl; split; try done; lia.
  - destruct_if; [|done]. intros ->%Moves_inj. simpl. split; [lia|done].
  - intros ->%Moves_inj. simpl. split; [lia|done].
  - unfold rec_dequeue. destruct (deqptr s) as [i|]; [|done]. destruct (in_records N W i); [|done].
    intros ->%Moves_inj. simpl. split; [|done]. rewrite (length_app (recv s)). simpl. lia.
Qed.

Lemma step_work s s' : qstep N W s s' ->
  work s' < work s /\ sent s' ++ enq_words (q_prog s') = sent s ++ enq_words (q_prog s).
Proof. intros []; [by apply producer_work|by apply consumer_work]. Qed.

Lemma reachable_words s s' : rtc (qstep N W) s s' ->
  sent s' ++ enq_words (q_prog s') = sent s ++ enq_words (q_prog s).
Proof. induction 1 as [|a b c Hs _ IH]; [done|]. rewrite IH. by apply step_work. Qed.

Lemma nsteps_work n s s' : nsteps (qstep N W) n s s' -> work s' + Z.of_nat n <= work s.
Proof.
  induction 1 as [|n a b c Hs _ IH]; [lia|]. destruct (step_work _ _ Hs) as [H _]. lia.
Qed.

Lemma work_nonneg s h : queue_inv N W s h -> 0 <= work s.
Proof.
  intros I. unfold work. rewrite (inv_words _ _ _ _ I), !length_app.
  destruct (q_ppc s), (q_cpc s); simpl; lia.
Qed.

(** ** Lemmas: the ring filled before the analysis thread starts *)

#[local] Arguments at_chunk : simpl never.

(** The state of the emulation thread, with the other thread not yet started. *)
Definition unstarted (p : list qcmd) (pc : ppc) (e : option Z) (hd ph : Z) (F M : gmap Z Z)
    (ws : list Z) : qstate :=
  QState p pc e hd ph CDeq None 0 (N - 1) false 0 F M ws [].

Lemma producer_rtc s s' : producer_step N W s = Moves s' -> rtc (qstep N W) s s'.
Proof. intros. by apply rtc_once, step_producer. Qed.

Lemma fill_rest k w p F : 0 <= k < N -> forall (n : nat) j M ws,
  0 <= j -> j + Z.of_nat (S n) = W ->
  exists M', rtc (qstep N W)
    (unstarted (replicate (S n) (QEnq w) ++ p) PCmd (Some (k * W + j)) ((k + 1) mod N) k F M ws)
    (unstarted p PWait (Some (k * W + W)) ((k + 1) mod N) k (<[k := CHUNK_FILLED]> F) M'
       (ws ++ replicate (S n) w)).
Proof.
  intros Hk. assert (forall j, 0 <= j < W -> in_records N W (k * W + j) = true) as Hin.
  { intros j Hj. unfold in_records. rewrite andb_true_iff, Z.leb_le, Z.ltb_lt. nia. }
  induction n as [|n IH]; intros j M ws Hj Hl.
  - eexists. etrans; apply producer_rtc.
    + unfold producer_step, dift_rec_enqueue. simpl. rewrite Hin by lia.
      replace (k * W + j + 1) with (k * W + W) by lia. rewrite at_chunk_end. reflexivity.
    + reflexivity.
  - destruct (IH (j + 1) (<[k * W + j := w]> M) (ws ++ [w])) as [M' R]; [lia..|].
    exists M'. etrans; [apply producer_rtc|].
    + unfold producer_step, dift_rec_enqueue. simpl. rewrite Hin by lia. rewrite <- Z.add_assoc.
      rewrite at_chunk_inside by lia. reflexivity.
    + rewrite <- (assoc_L (++)) in R. exact R.
Qed.

Definition words_of (n : nat) (w : Z) : list qcmd := replicate n (QEnq w).

(** All chunks from [k] on are filled, whatever the flags of the ones before. *)
Lemma fill_chunks w : forall (n : nat) k F M ws,
  k + Z.of_nat (S n) = N -> 0 <= k ->
  (forall i, k < i < N -> flag F i = CHUNK_AVAILABLE) ->
  exists F' M', rtc (qstep N W)
    (unstarted (words_of (S n * Z.to_nat W) w) PCmd (Some (k * W)) ((k + 1) mod N) k F M ws)
    (unstarted [] PWait (Some (N * W)) 0 (N - 1) F' M' (ws ++ replicate (S n * Z.to_nat W) w)).
Proof.
  destruct (Z_of_nat_complete (W - 1)) as [m Hm]; [lia|].
  assert (Z.to_nat W = S m) as -> by lia.
  induction n as [|n IH]; intros k F M ws Hk H0 HF.
  - destruct (fill_rest k w [] F ltac:(lia) m 0 M ws) as [M' R]; [lia..|].
    rewrite Z.add_0_r, app_nil_r in R. unfold words_of. rewrite Nat.mul_1_l.
    replace ((k + 1) mod N) with 0 in R by (replace (k + 1) with N by lia; by rewrite Z_mod_same_full).
    replace ((k + 1) mod N) with 0 by (replace (k + 1) with N by lia; by rewrite Z_mod_same_full).
    replace (k * W + W) with (N * W) in R by (replace N with (k + 1) by lia; lia).
    replace k with (N - 1) in * by lia. eauto.
  - destruct (fill_rest k w (words_of (S n * S m) w) F ltac:(lia) m 0 M ws) as [M' R]; [lia..|].
    rewrite Z.add_0_r, (Z.mod_small (k + 1)) in R by lia.
    destruct (IH (k + 1) (<[k + 1 := CHUNK_FILLING]> (<[k := CHUNK_FILLED]> F)) M'
                (ws ++ replicate (S m) w)) as (F2 & M2 & R2); [lia..| |].
    { intros i Hi. rewrite !flag_ne by lia. apply HF. lia. }
    exists F2, M2. unfold words_of in *. replace (S (S n) * S m)%nat with (S m + S n * S m)%nat by lia.
    rewrite !replicate_add, (assoc_L (++)), (Z.mod_small (k + 1)) by lia.
    etrans; [exact R|]. etrans; [|exact R2].
    etrans; apply producer_rtc.
    + unfold producer_step. simpl. rewrite flag_ne, HF by lia. reflexivity.
    + reflexivity.
Qed.
End Lemmas.

(** A run given by the thread that moves at each step. *)
Fixpoint run_threads (N W : Z) (turns : list bool) (s : qstate) : option qstate :=
  match turns with
  | [] => Some s
  | t :: turns' =>
      match (if t : bool then producer_step N W s else consumer_step N W s) with
      | Moves s' => run_threads N W turns' s'
      | _ => None
      end
  end.

Lemma run_threads_nsteps N W turns s s' :
  run_threads N W turns s = Some s' -> nsteps (qstep N W) (length turns) s s'.
Proof.
  revert s. induction turns as [|t turns IH]; simpl; intros s E.
  - injection E as ->. constructor.
  - destruct t.
    + destruct (producer_step N W s) eqn:P; try done. eapply nsteps_l; [by apply step_producer|auto].
    + destruct (consumer_step N W s) eqn:P; try done. eapply nsteps_l; [by apply step_consumer|auto].
Qed.

Lemma run_threads_rtc N W turns s s' :
  run_threads N W turns s = Some s' -> rtc (qstep N W) s s'.
Proof. intros E. by eapply rtc_nsteps_2, run_threads_nsteps. Qed.

Lemma stuck_threads N W s : producer_step N W s = Done -> consumer_step N W s = Spins -> forall s', ~ qstep N W s s'.
Proof. intros Hp Hc s' H. revert Hp Hc. destruct H as [s s' E|s s' E]; congruence. Qed.

Lemma constants_ok : 2 <= Q_CHUNKS_SIZE /\ 1 <= CHUNK_WORDS.
Proof. vm_compute. split; discriminate. Qed.

Lemma enq_words_length p : (length (enq_words p) <= length p)%nat.
Proof. induction p as [|[] p IH]; simpl; lia. Qed.

Lemma enq_words_sync ws loc cntr :
  enq_words (map QEnq ws ++ dift_sync_calls loc cntr) = ws ++ dift_sync_words loc cntr.
Proof. induction ws as [|w ws IH]; [done|]. simpl. by rewrite <- IH. Qed.

Lemma framed_sync ws loc cntr :
  forallb plain ws = true -> framed false (map QEnq ws ++ dift_sync_calls loc cntr) = true.
Proof.
  induction ws as [|w ws IH]; intros Hp.
  - done.
  - simpl in Hp. apply andb_true_iff in Hp as [Hw Hp]. unfold plain in Hw.
    apply andb_true_iff in Hw as [H1 H2]. apply negb_true_iff in H1, H2.
    simpl. unfold SYNC_MARK, BLOCK_MARK. rewrite H1, H2. by apply IH.
Qed.

(** * Properties *)

(** C5: The queue delivers: whatever the interleaving of the two threads, once
    the analysis thread has entered its first wait, no step accesses memory
    outside the ring, and the words received are at every moment a prefix of the
    words the program puts on the queue, none lost, repeated or reordered. *)
Theorem queue_delivers prog s :
  framed false prog = true ->
  rtc (qstep Q_CHUNKS_SIZE CHUNK_WORDS) (queue_started Q_CHUNKS_SIZE prog) s ->
  producer_step Q_CHUNKS_SIZE CHUNK_WORDS s <> Faults /\
  consumer_step Q_CHUNKS_SIZE CHUNK_WORDS s <> Faults /\
  exists ws, enq_words prog = recv s ++ ws.
Proof.
  intros Hf Hr. destruct constants_ok as [HN HW].
  destruct (inv_reachable _ _ HN HW prog s Hf Hr) as [h I].
  destruct (no_faults _ _ HN HW s h I) as [F1 F2]. split_and!; [done..|].
  pose proof (reachable_words _ _ _ _ Hr) as E. simpl in E.
  exists (unread h ++ enq_words (q_prog s)). by rewrite <- E, (inv_words _ _ _ _ I), <- (assoc_L (++)).
Qed.

(** A short program, and a run of it in which the threads take turns. *)
Definition demo_calls : list qcmd := map QEnq [7; 8] ++ dift_sync_calls 0 0.
Definition demo_turns : list bool :=
  [true; true; true; true; true; true; true; false; false; false; true; false; true; false; false;
   false; false; false; false; false; false; true].

(** The end of the run, and that the turns are possible. *)
Definition run_end (turns : list bool) (prog : list qcmd) : qstate :=
  default (queue_started Q_CHUNKS_SIZE prog)
    (run_threads Q_CHUNKS_SIZE CHUNK_WORDS turns (queue_started Q_CHUNKS_SIZE prog)).

Lemma run_end_reachable turns prog :
  rtc (qstep Q_CHUNKS_SIZE CHUNK_WORDS) (queue_started Q_CHUNKS_SIZE prog) (run_end turns prog).
Proof.
  unfold run_end. destruct (run_threads _ _ _ _) eqn:E; [|apply rtc_refl]. by eapply run_threads_rtc.
Qed.

Lemma queue_delivers_witness :
  recv (run_end demo_turns demo_calls) = enq_words demo_calls /\
  exists ws, enq_words demo_calls = recv (run_end demo_turns demo_calls) ++ ws.
Proof.
  split; [vm_compute; reflexivity|]. apply (queue_delivers demo_calls).
  - vm_compute. reflexivity.
  - apply run_end_reachable.
Defined.

(** C16: Runs of the queue end: once the analysis thread has entered its first
    wait, a run of a framed program of [n] calls has at most [10 n + 2] steps in
    which a thread moves; and a run that cannot be continued has made all the
    calls, each dift_sync returned, and has delivered all words but those of a last
    chunk that was not yet handed over. *)
Theorem queue_terminates prog n s :
  framed false prog = true ->
  nsteps (qstep Q_CHUNKS_SIZE CHUNK_WORDS) n (queue_started Q_CHUNKS_SIZE prog) s ->
  Z.of_nat n <= 10 * Z.of_nat (length prog) + 2 /\
  ((forall s', ~ qstep Q_CHUNKS_SIZE CHUNK_WORDS s s') ->
   q_prog s = [] /\ exists ws, enq_words prog = recv s ++ ws /\ Z.of_nat (length ws) < CHUNK_WORDS).
Proof.
  intros Hf Hn. destruct constants_ok as [HN HW]. pose proof (rtc_nsteps_2 _ _ _ Hn) as Hr.
  destruct (inv_reachable _ _ HN HW prog s Hf Hr) as [h I]. split.
  - pose proof (nsteps_work _ _ _ _ _ Hn) as E. pose proof (work_nonneg _ _ s h I).
    unfold work in E at 2. simpl in E. pose proof (enq_words_length prog). lia.
  - intros Hs. destruct (queue_progress _ _ HN HW s h I) as [[s' H]|(Hp & _ & Hu & Hl)]; [by destruct (Hs s')|].
    split; [done|]. exists (cur h). split; [|done]. pose proof (reachable_words _ _ _ _ Hr) as E.
    simpl in E. rewrite Hp, app_nil_r in E. by rewrite <- E, (inv_words _ _ _ _ I), Hu.
Qed.

(** The run to its end: dift_sync returned, both threads have nothing to do. *)
Definition demo_all_turns : list bool := demo_turns ++ [true].
Definition demo_finished : qstate := run_end demo_all_turns demo_calls.

Lemma demo_finished_stuck :
  producer_step Q_CHUNKS_SIZE CHUNK_WORDS demo_finished = Done /\
  consumer_step Q_CHUNKS_SIZE CHUNK_WORDS demo_finished = Spins.
Proof. split; vm_compute; reflexivity. Qed.

Lemma queue_terminates_witness :
  length demo_all_turns = 23%nat /\ Z.of_nat (length demo_all_turns) <= 10 * Z.of_nat (length demo_calls) + 2 /\
  q_prog demo_finished = [] /\
  exists ws, enq_words demo_calls = recv demo_finished ++ ws /\ Z.of_nat (length ws) < CHUNK_WORDS.
Proof.
  split; [reflexivity|]. destruct (queue_terminates demo_calls (length demo_all_turns) demo_finished) as [Hn Hs].
  - vm_compute. reflexivity.
  - apply run_threads_nsteps. vm_compute. reflexivity.
  - split; [exact Hn|]. apply Hs. destruct demo_finished_stuck as [Hp Hc]. by apply (stuck_threads Q_CHUNKS_SIZE CHUNK_WORDS).
Defined.

(** C7: Synchronisation through the queue: when wait_dift_analysis returns, in
    any interleaving, the analysis thread has received the words of the block and
    of dift_sync, and its main loop on them has applied the block's records in
    order to registers, memory and disk, emptied its buffer and set the signal. *)
Theorem dift_sync_through_queue its its2 a loc cntr s :
  let ws := addrs_of_items its ++ inline_of its2 in
  q_addrs a = [] -> 0 <= loc < 2 ^ 32 -> 0 <= cntr < 2 ^ 16 ->
  forallb (item_ok (phys_ram_size (an_dc a))) (its ++ its2) = true ->
  take (Z.to_nat cntr) (drop (Z.to_nat (loc * 160)) (an_code_buffer a)) = codes_of its ->
  loc * 160 + cntr < Z.of_nat (length (an_code_buffer a)) ->
  forallb plain ws = true -> Z.of_nat (length ws) < 4096 ->
  dift_wf (an_dc a) -> tags_in 127 (an_dc a) ->
  items_pages (its ++ its2) <= Z.of_nat (heap_left (an_dc a)) ->
  rtc (qstep Q_CHUNKS_SIZE CHUNK_WORDS)
    (queue_started Q_CHUNKS_SIZE (map QEnq ws ++ dift_sync_calls loc cntr)) s ->
  q_prog s = [QClear] ->
  recv s = ws ++ dift_sync_words loc cntr /\
  exists st', analysis_mainloop (recv s) a = Ret (Analysis st' (an_code_buffer a) [] 1, []) /\
    abs_of st' ≡ run_items (phys_ram_size (an_dc a)) (its ++ its2) (abs_of (an_dc a)).
Proof.
  intros ws Hq Hl Hc Hok Hb Hlen Hpl Hn Hwf Ht Hp Hr Hs. destruct constants_ok as [HN HW].
  destruct (inv_reachable _ _ HN HW _ s (framed_sync ws loc cntr Hpl) Hr) as [h I].
  assert (recv s = ws ++ dift_sync_words loc cntr) as E.
  { pose proof (reachable_words _ _ _ _ Hr) as E. rewrite Hs in E. simpl in E. rewrite app_nil_r in E.
    pose proof (inv_program _ _ _ _ I) as P. unfold program_ok in P. rewrite Hs in P.
    destruct P as (_ & Hu & _). pose proof (inv_words _ _ _ _ I) as Hw. rewrite Hu, app_nil_r in Hw.
    rewrite <- Hw, E. apply enq_words_sync. }
  split; [done|]. rewrite E.
  destruct (sync_block its its2 a loc cntr []) as (st' & Em & Ea); try done.
  rewrite app_nil_r in Em. exists st'. by split.
Qed.

(** The block of the earlier example, synchronised through the queue: the
    emulation thread first, then the analysis thread. *)
Definition demo_sync_calls : list qcmd :=
  map QEnq (addrs_of_items demo_items ++ inline_of demo_rest) ++ dift_sync_calls 0 2.
Definition demo_sync_turns : list bool :=
  let n := length (enq_words demo_sync_calls) in
  replicate (n + 4) true ++ replicate (2 * n + 1) false ++ [true].
Definition demo_synced : qstate := run_end demo_sync_turns demo_sync_calls.

Lemma dift_sync_through_queue_witness :
  exists st', analysis_mainloop (recv demo_synced) (Analysis demo_tainted demo_buffer [] 0) =
    Ret (Analysis st' demo_buffer [] 1, []).
Proof.
  destruct (dift_sync_through_queue demo_items demo_rest (Analysis demo_tainted demo_buffer [] 0) 0 2
    demo_synced)
    as (_ & st' & Em & _).
  - reflexivity.
  - lia.
  - lia.
  - vm_compute. reflexivity.
  - vm_compute. reflexivity.
  - vm_compute. reflexivity.
  - vm_compute. reflexivity.
  - vm_compute. reflexivity.
  - apply demo_tainted_wf.
  - apply demo_tainted_tags. split; [lia|reflexivity].
  - vm_compute. discriminate.
  - apply run_end_reachable.
  - vm_compute. reflexivity.
  - exists st'. exact Em.
Defined.

(** The start of the analysis thread is not part of the protocol: its first
    call of next_block marks the last chunk available. If the emulation thread
    has filled the whole ring by then, that chunk, full of words nobody has
    read, is offered for reuse. *)
Theorem init_queue_race w :
  exists s,
    rtc (qstep Q_CHUNKS_SIZE CHUNK_WORDS)
      (init_queue Q_CHUNKS_SIZE (words_of (Z.to_nat Q_CHUNKS_SIZE * Z.to_nat CHUNK_WORDS) w)) s /\
    recv s = [] /\ sent s = replicate (Z.to_nat Q_CHUNKS_SIZE * Z.to_nat CHUNK_WORDS) w /\
    flag (q_chunks_flag s) (Q_CHUNKS_SIZE - 1) = CHUNK_AVAILABLE.
Proof.
  destruct constants_ok as [HN HW]. set (N := Q_CHUNKS_SIZE) in *. set (W := CHUNK_WORDS) in *.
  clearbody N W. destruct (Z_of_nat_complete (N - 1)) as [n Hn]; [lia|].
  assert (Z.to_nat N = S n) as -> by lia.
  destruct (fill_chunks N W HN HW w n 0 {[0 := CHUNK_FILLING]} ∅ []) as (F & M & R); [lia..| |].
  { intros i Hi. unfold flag. by rewrite lookup_singleton_ne by lia. }
  rewrite Z.mul_0_l, Z.mod_small in R by lia.
  eexists. split; [eapply rtc_r; [exact R|by apply step_consumer]|].
  simpl. split_and!; [done..|]. apply flag_eq.
Qed.
