(* ===== verification/X86.v ===== *)
(** * A fragment of x86-64

    The instructions that DIFT writes as bytes (gen_rt_* of src/ext/dift/dift.c and
    tcg_out_qemu_dift_* of src/tcg/i386/tcg-target.c): a decoder from bytes, and
    the effect of each on the registers, the zero flag and a flat byte memory.
    The registers are the two the code names and the stack pointer. *)

From S2P Require Import Prelude.

(** ** Memory *)

Abbreviation memory := (gmap Z Z).

Definition byte (m : memory) (a : Z) : Z := u8 (default 0 (m !! a)).

(** An [n]-byte little-endian load and store. *)
Definition ld (n : nat) (m : memory) (a : Z) : Z := le_word (fun k => byte m (a + k)) n.

Fixpoint sd (n : nat) (m : memory) (a w : Z) : memory :=
  match n with
  | O => m
  | S k => <[a + Z.of_nat k := byte_of w (Z.of_nat k)]> (sd k m a w)
  end.

(** ** Instructions *)

Inductive reg : Type := RAX | RDX.
Inductive alu : Type := ADD | OR | SUB | XOR.
Inductive cond : Type := CE | CNE.

#[export] Instance reg_eq_dec : EqDecision reg.
Proof. solve_decision. Defined.

(** A flag [true] for the 64-bit form, [false] for the 32-bit one. *)
Inductive instr : Type :=
| Mfence
| Pause
| LoadA (wide : bool) (a : Z)            (* mov rax, [a] *)
| StoreA (wide : bool) (a : Z)           (* mov [a], rax *)
| MovImm64 (r : reg) (v : Z)
| MovImm32 (r : reg) (v : Z)
| Alu (op : alu) (wide : bool) (dst src : reg)
| MovReg (wide : bool) (dst src : reg)
| Test (wide : bool) (a b : reg)
| Load (wide : bool) (dst base : reg)    (* mov dst, [base] *)
| Store (wide : bool) (base src : reg)   (* mov [base], src *)
| StoreImm (base : reg) (v : Z)          (* mov dword [base], v *)
| Shl (r : reg) (n : Z)
| AddImm (r : reg) (v : Z)               (* a sign-extended byte *)
| TestImm (v : Z)                        (* test eax, v *)
| AndImm (v : Z)                         (* and eax, v *)
| Inc (r : reg)                          (* 32-bit *)
| CallReg (r : reg)
| Jcc (c : cond) (rel : Z)
| CallRel (rel : Z)
| Retn.

(** ** Decoding *)

Definition signed (n : Z) (x : Z) : Z := if x <? 2 ^ (n - 1) then x else x - 2 ^ n.

Definition reg_of (b : Z) : option reg :=
  if b =? 0 then Some RAX else if b =? 2 then Some RDX else None.

(** An immediate of [n] bytes. *)
Definition imm (n : nat) (bs : list Z) : option Z :=
  if (length bs <? n)%nat then None else Some (le_word (fun k => bs !!! Z.to_nat k) n).

(** The ModRM byte: mod, reg, r/m. *)
Definition modrm (bs : list Z) : option (Z * Z * Z) :=
  match bs with
  | b :: _ => Some (b / 64, (b / 8) mod 8, b mod 8)
  | [] => None
  end.

(** A register pair with the given mod. *)
Definition reg_pair (md : Z) (bs : list Z) : option (reg * reg) :=
  '(m, r, b) ← modrm bs; guard (m = md);; r' ← reg_of r; b' ← reg_of b; Some (r', b').

(** A register with the given mod and opcode extension. *)
Definition reg_ext (md ext : Z) (bs : list Z) : option reg :=
  '(m, r, b) ← modrm bs; guard (m = md);; guard (r = ext);; reg_of b.

Definition alu_of (op : Z) : option alu :=
  if op =? 0x01 then Some ADD else if op =? 0x09 then Some OR
  else if op =? 0x29 then Some SUB else if op =? 0x31 then Some XOR else None.

(** One opcode after the prefixes; the length counts from the opcode. *)
Definition decode_op (wide : bool) (op : Z) (bs : list Z) : option (instr * Z) :=
  match alu_of op with
  | Some o => '(s, d) ← reg_pair 3 bs; Some (Alu o wide d s, 2)
  | None =>
      if op =? 0xa1 then a ← imm 8 bs; Some (LoadA wide a, 9)
      else if op =? 0xa3 then a ← imm 8 bs; Some (StoreA wide a, 9)
      else if (op =? 0xb8) || (op =? 0xba) then
        r ← reg_of (op - 0xb8);
        if wide then v ← imm 8 bs; Some (MovImm64 r v, 9)
        else v ← imm 4 bs; Some (MovImm32 r v, 5)
      else if op =? 0x85 then '(s, d) ← reg_pair 3 bs; Some (Test wide d s, 2)
      else if op =? 0x8b then '(d, b) ← reg_pair 0 bs; Some (Load wide d b, 2)
      else if op =? 0x89 then
        match reg_pair 3 bs with
        | Some (s, d) => Some (MovReg wide d s, 2)
        | None => '(s, b) ← reg_pair 0 bs; Some (Store wide b s, 2)
        end
      else if wide then
        if op =? 0xc1 then r ← reg_ext 3 4 bs; n ← imm 1 (tail bs); Some (Shl r n, 3)
        else if op =? 0x83 then r ← reg_ext 3 0 bs; v ← imm 1 (tail bs); Some (AddImm r (signed 8 v), 3)
        else None
      else if op =? 0xc7 then b ← reg_ext 0 0 bs; v ← imm 4 (tail bs); Some (StoreImm b v, 6)
      else if op =? 0xa9 then v ← imm 4 bs; Some (TestImm v, 5)
      else if op =? 0x25 then v ← imm 4 bs; Some (AndImm v, 5)
      else if op =? 0xff then
        match reg_ext 3 0 bs with
        | Some r => Some (Inc r, 2)
        | None => r ← reg_ext 3 2 bs; Some (CallReg r, 2)
        end
      else if op =? 0x74 then v ← imm 1 bs; Some (Jcc CE (signed 8 v), 2)
      else if op =? 0x75 then v ← imm 1 bs; Some (Jcc CNE (signed 8 v), 2)
      else if op =? 0xe8 then v ← imm 4 bs; Some (CallRel (signed 32 v), 5)
      else if op =? 0xc3 then Some (Retn, 1)
      else None
  end.

(** The instruction at the start of the bytes, and its length. *)
Definition decode (bs : list Z) : option (instr * Z) :=
  match bs with
  | op :: bs' =>
      if op =? 0x48 then
        match bs' with
        | op' :: bs'' => '(i, n) ← decode_op true op' bs''; Some (i, n + 1)
        | [] => None
        end
      else if op =? 0x0f then guard (take 2 bs' = [0xae; 0xf0]);; Some (Mfence, 3)
      else if op =? 0xf3 then guard (take 1 bs' = [0x90]);; Some (Pause, 2)
      else decode_op false op bs'
  | [] => None
  end.

(** ** Execution *)

Record cpu : Type := Cpu { rip : Z; rax : Z; rdx : Z; rsp : Z; zf : bool; mem : memory }.

Definition get (c : cpu) (r : reg) : Z := match r with RAX => rax c | RDX => rdx c end.

(** A 32-bit result clears the upper half of the register. *)
Definition width (wide : bool) (x : Z) : Z := if wide then u64 x else u32 x.
Definition bytes (wide : bool) : nat := if wide then 8%nat else 4%nat.

Definition set (c : cpu) (r : reg) (v : Z) : cpu :=
  match r with
  | RAX => Cpu (rip c) v (rdx c) (rsp c) (zf c) (mem c)
  | RDX => Cpu (rip c) (rax c) v (rsp c) (zf c) (mem c)
  end.

Definition set_zf (c : cpu) (v : Z) : cpu :=
  Cpu (rip c) (rax c) (rdx c) (rsp c) (v =? 0) (mem c).

Definition set_mem (c : cpu) (m : memory) : cpu :=
  Cpu (rip c) (rax c) (rdx c) (rsp c) (zf c) m.

Definition jump (c : cpu) (a : Z) : cpu :=
  Cpu (u64 a) (rax c) (rdx c) (rsp c) (zf c) (mem c).

Definition push (c : cpu) (v : Z) : cpu :=
  let sp := u64 (rsp c - 8) in
  Cpu (rip c) (rax c) (rdx c) sp (zf c) (sd 8 (mem c) sp v).

Definition alu_val (op : alu) (x y : Z) : Z :=
  match op with ADD => x + y | OR => Z.lor x y | SUB => x - y | XOR => Z.lxor x y end.

(** The effect of an instruction; [rip] is already that of the next one. *)
Definition exec (i : instr) (c : cpu) : cpu :=
  match i with
  | Mfence | Pause => c
  | LoadA w a => set c RAX (ld (bytes w) (mem c) a)
  | StoreA w a => set_mem c (sd (bytes w) (mem c) a (rax c))
  | MovImm64 r v | MovImm32 r v => set c r v
  | Alu op w d s => let v := width w (alu_val op (get c d) (get c s)) in set_zf (set c d v) v
  | MovReg w d s => set c d (width w (get c s))
  | Test w a b => set_zf c (width w (Z.land (get c a) (get c b)))
  | Load w d b => set c d (ld (bytes w) (mem c) (get c b))
  | Store w b s => set_mem c (sd (bytes w) (mem c) (get c b) (get c s))
  | StoreImm b v => set_mem c (sd 4 (mem c) (get c b) v)
  | Shl r n =>
      let k := n mod 64 in
      let v := u64 (Z.shiftl (get c r) k) in
      if k =? 0 then c else set_zf (set c r v) v
  | AddImm r v => let x := u64 (get c r + v) in set_zf (set c r x) x
  | TestImm v => set_zf c (Z.land (u32 (rax c)) v)
  | AndImm v => let x := Z.land (u32 (rax c)) v in set_zf (set c RAX x) x
  | Inc r => let x := u32 (get c r + 1) in set_zf (set c r x) x
  | CallReg r => jump (push c (rip c)) (get c r)
  | Jcc k rel =>
      if (match k with CE => zf c | CNE => negb (zf c) end) then jump c (rip c + rel) else c
  | CallRel rel => jump (push c (rip c)) (rip c + rel)
  | Retn => Cpu (ld 8 (mem c) (rsp c)) (rax c) (rdx c) (u64 (rsp c + 8)) (zf c) (mem c)
  end.

(** No instruction is longer than fifteen bytes. *)
Definition fetch (m : memory) (a : Z) : list Z :=
  (fun k => byte m (a + Z.of_nat k)) <$> seq 0 15.

(** One instruction; [None] when the bytes are not one of the fragment. *)
Definition cpu_step (c : cpu) : option cpu :=
  '(i, n) ← decode (fetch (mem c) (rip c));
  Some (exec i (jump c (rip c + n))).

(** ** Lemmas: words in memory *)

Lemma byte_range m a : 0 <= byte m a < 256.
Proof. apply Z.mod_pos_bound. lia. Qed.

Lemma ld_range n m a : 0 <= ld n m a < 256 ^ Z.of_nat n.
Proof. apply le_word_range. intros. apply byte_range. Qed.

Lemma lookup_sd n m a w x :
  sd n m a w !! x = if within a (Z.of_nat n) x then Some (byte_of w (x - a)) else m !! x.
Proof.
  induction n as [|n IH]; simpl.
  - split_tests; [lia|done].
  - destruct (decide (x = a + Z.of_nat n)) as [->|Hne].
    + rewrite lookup_insert_eq. split_tests; [do 2 f_equal; lia|lia].
    + rewrite lookup_insert_ne, IH by done. split_tests; done || lia.
Qed.

Lemma byte_sd n m a w x :
  byte (sd n m a w) x = if within a (Z.of_nat n) x then byte_of w (x - a) else byte m x.
Proof.
  unfold byte. rewrite lookup_sd. case_if; [|done]. apply Z.mod_small. apply byte_of_range.
Qed.

Lemma ld_sd_same n m a w : ld n (sd n m a w) a = w mod 256 ^ Z.of_nat n.
Proof.
  rewrite <- le_word_byte_of. apply le_word_ext. intros k Hk.
  rewrite byte_sd. split_tests; [f_equal; lia|lia].
Qed.

(** The two ranges do not meet. *)
Definition apart (a : Z) (n : nat) (b : Z) (k : nat) : Prop :=
  a + Z.of_nat n <= b \/ b + Z.of_nat k <= a.

Lemma ld_sd_apart n k m a b w : apart a n b k -> ld k (sd n m a w) b = ld k m b.
Proof.
  unfold apart. intros. apply le_word_ext. intros j Hj. rewrite byte_sd. split_tests; [lia|done].
Qed.

(** A word of eight bytes by its halves. *)
Lemma ld_halves m a : ld 8 m a = ld 4 m a + 2 ^ 32 * ld 4 m (a + 4).
Proof.
  unfold ld. rewrite !le_word_S by apply byte_range. cbn [le_word].
  rewrite !Z.add_0_l, <- !Z.add_assoc.
  repeat match goal with |- context [byte m (a + ?k)] =>
    let k' := eval vm_compute in k in progress change (byte m (a + k)) with (byte m (a + k')) end.
  lia.
Qed.

Lemma ld_low m a : ld 8 m a < 2 ^ 32 -> ld 4 m a = ld 8 m a.
Proof.
  rewrite ld_halves. pose proof (ld_range 4 m a). pose proof (ld_range 4 m (a + 4)). lia.
Qed.

(** A 32-bit store over a word whose upper half is zero. *)
Lemma ld_sd_low m a w : ld 8 m a < 2 ^ 32 -> 0 <= w < 2 ^ 32 -> ld 8 (sd 4 m a w) a = w.
Proof.
  intros Hm Hw. rewrite ld_halves, ld_sd_same, ld_sd_apart by (unfold apart; lia).
  rewrite ld_halves in Hm. pose proof (ld_range 4 m a). pose proof (ld_range 4 m (a + 4)).
  rewrite Z.mod_small by lia. lia.
Qed.

(** ** Lemmas: encoded instructions

    The bytes of an instruction, the inverse of [decode]. *)

Definition reg_num (r : reg) : Z := match r with RAX => 0 | RDX => 2 end.
Definition alu_code (op : alu) : Z :=
  match op with ADD => 0x01 | OR => 0x09 | SUB => 0x29 | XOR => 0x31 end.
Definition rex (wide : bool) : list Z := if wide then [0x48] else [].
Definition modrm_byte (md r b : Z) : Z := md * 64 + r * 8 + b.

Definition encode (i : instr) : list Z :=
  match i with
  | Mfence => [0x0f; 0xae; 0xf0]
  | Pause => [0xf3; 0x90]
  | LoadA w a => rex w ++ 0xa1 :: le_bytes 8 a
  | StoreA w a => rex w ++ 0xa3 :: le_bytes 8 a
  | MovImm64 r v => 0x48 :: (0xb8 + reg_num r) :: le_bytes 8 v
  | MovImm32 r v => (0xb8 + reg_num r) :: le_bytes 4 v
  | Alu op w d s => rex w ++ [alu_code op; modrm_byte 3 (reg_num s) (reg_num d)]
  | MovReg w d s => rex w ++ [0x89; modrm_byte 3 (reg_num s) (reg_num d)]
  | Test w a b => rex w ++ [0x85; modrm_byte 3 (reg_num b) (reg_num a)]
  | Load w d b => rex w ++ [0x8b; modrm_byte 0 (reg_num d) (reg_num b)]
  | Store w b s => rex w ++ [0x89; modrm_byte 0 (reg_num s) (reg_num b)]
  | StoreImm b v => 0xc7 :: modrm_byte 0 0 (reg_num b) :: le_bytes 4 v
  | Shl r n => [0x48; 0xc1; modrm_byte 3 4 (reg_num r); u8 n]
  | AddImm r v => [0x48; 0x83; modrm_byte 3 0 (reg_num r); u8 v]
  | TestImm v => 0xa9 :: le_bytes 4 v
  | AndImm v => 0x25 :: le_bytes 4 v
  | Inc r => [0xff; modrm_byte 3 0 (reg_num r)]
  | CallReg r => [0xff; modrm_byte 3 2 (reg_num r)]
  | Jcc CE rel => [0x74; u8 rel]
  | Jcc CNE rel => [0x75; u8 rel]
  | CallRel rel => 0xe8 :: le_bytes 4 rel
  | Retn => [0xc3]
  end.

(** The immediates fit their fields. *)
Definition instr_ok (i : instr) : Prop :=
  match i with
  | LoadA _ v | StoreA _ v | MovImm64 _ v => 0 <= v < 2 ^ 64
  | MovImm32 _ v | StoreImm _ v | TestImm v | AndImm v => 0 <= v < 2 ^ 32
  | Shl _ n => 0 <= n < 2 ^ 8
  | AddImm _ v | Jcc _ v => - 2 ^ 7 <= v < 2 ^ 7
  | CallRel v => - 2 ^ 31 <= v < 2 ^ 31
  | _ => True
  end.

Lemma imm_le_bytes n v rest : imm n (le_bytes n v ++ rest) = Some (v mod 256 ^ Z.of_nat n).
Proof.
  unfold imm. rewrite length_app, le_bytes_length.
  destruct (Nat.ltb_spec (n + length rest) n); [lia|]. f_equal.
  rewrite <- le_word_byte_of. apply le_word_ext. intros k Hk.
  apply list_lookup_total_correct. rewrite lookup_app_l by (rewrite le_bytes_length; lia).
  unfold le_bytes. rewrite list_lookup_fmap, lookup_seq_lt by lia. simpl. do 2 f_equal. lia.
Qed.

Lemma imm_byte v rest : imm 1 (u8 v :: rest) = Some (u8 v).
Proof.
  unfold imm. simpl. f_equal. rewrite Z.shiftl_0_l, Z.lor_0_r. done.
Qed.

Lemma signed_wrap n v : 1 <= n -> - 2 ^ (n - 1) <= v < 2 ^ (n - 1) -> signed n (v mod 2 ^ n) = v.
Proof.
  intros Hn Hv. assert (2 ^ n = 2 * 2 ^ (n - 1)) as E by (rewrite <- Z.pow_succ_r by lia; f_equal; lia).
  unfold signed. destruct (Z.ltb_spec v 0).
  - assert (v mod 2 ^ n = v + 2 ^ n) as -> by (symmetry; apply Z.mod_unique with (-1); lia).
    destruct (Z.ltb_spec (v + 2 ^ n) (2 ^ (n - 1))); lia.
  - rewrite Z.mod_small by lia. destruct (Z.ltb_spec v (2 ^ (n - 1))); lia.
Qed.

#[local] Opaque imm le_bytes.

Lemma decode_encode i rest :
  instr_ok i -> decode (encode i ++ rest) = Some (i, Z.of_nat (length (encode i))).
Proof.
  intros Hi.
  assert (forall n v, 0 <= v < 256 ^ Z.of_nat n -> imm n (le_bytes n v ++ rest) = Some v) as Hu
    by (intros; by rewrite imm_le_bytes, Z.mod_small).
  destruct i; cbn [instr_ok] in Hi;
    repeat match goal with b : bool |- _ => destruct b | r : reg |- _ => destruct r
      | o : alu |- _ => destruct o | c : cond |- _ => destruct c end;
    cbn [encode rex app length reg_num]; rewrite ?le_bytes_length; try reflexivity.
  all: cbv [decode decode_op alu_of modrm_byte]; simpl Z.eqb; cbv iota;
    cbn [orb Z.sub reg_of reg_ext modrm mbind option_bind]; simpl.
  all: rewrite ?Hu, ?imm_byte, ?imm_le_bytes by lia; simpl; rewrite ?signed_wrap by lia; try done.
  all: unfold u8; rewrite ?(signed_wrap 8), ?(signed_wrap 32), ?Z.mod_small by lia; done.
Qed.

#[local] Transparent imm le_bytes.
