(* ===== verification/DiftAsm.v ===== *)
(** * The generated enqueue code

    The bytes that DIFT emits for the emulation thread: the routines that
    pre_generate_routine writes into a buffer (src/ext/dift/dift.c 77-113, 335-669)
    and the calls of them that the backend puts into translated code
    (src/tcg/i386/tcg-target.c 1750-1860). They run on the machine of [X86], one
    instruction at a time, against the analysis thread working on the same memory,
    and are shown to be an implementation of the queue of [DiftQueue]. *)

From S2P Require Import Prelude DiftState DiftPolicy DiftFlow DiftInterp DiftCase DiftFront DiftQueue X86.

#[local] Arguments sd : simpl never.
#[local] Arguments ld : simpl never.

(** ** The address space *)

(** The variables the code reads and writes, at the width of their type. *)
Inductive var : Type :=
| V_enqptr | V_head | V_prev_head | V_read | V_write | V_base | V_loc | V_cntr | V_off.

#[export] Instance var_eq_dec : EqDecision var.
Proof. solve_decision. Defined.

Definition var_size (v : var) : nat := match v with V_loc | V_cntr | V_off => 4%nat | _ => 8%nat end.

(** Where the linker and the loader put things: [last_mem_read_addr] and
    [last_mem_write_addr] are [V_read] and [V_write], [phys_ram_base] is [V_base],
    the [dift_code_*] are [V_loc], [V_cntr] and [V_off]. *)
Record layout : Type := Layout {
  L_var : var -> Z;
  L_flag : Z;       (* q_chunks_flag *)
  L_ptr : Z;        (* q_chunks_ptr *)
  L_rec : Z;        (* q_records *)
  L_rt : Z;         (* pre_generated_routine *)
  L_tb : Z;         (* the code of the translated block *)
  L_stack : Z       (* the top of the stack when the block starts *)
}.

(** ** Emitting bytes

    The macros [out8], [out32] and [out64] write at the pointer [s] and move it on;
    the state is the list of bytes written since a routine's start. *)

Definition emitter (A : Type) : Type := list Z -> A * list Z.
#[export] Instance emitter_ret : MRet emitter := fun A a b => (a, b).
#[export] Instance emitter_bind : MBind emitter := fun A B f m b => let '(a, b') := m b in f a b'.

Definition out8 (x : Z) : emitter unit := fun b => (tt, b ++ [u8 x]).
Definition out32 (x : Z) : emitter unit := fun b => (tt, b ++ le_bytes 4 x).
Definition out64 (x : Z) : emitter unit := fun b => (tt, b ++ le_bytes 8 x).

(** The pointer [s], as an offset in the buffer. *)
Definition cur_s (start : Z) : emitter Z := fun b => (start + Z.of_nat (length b), b).
(** [s++] over a byte of the zeroed buffer, and the later write to it. *)
Definition skip8 : emitter unit := fun b => (tt, b ++ [0]).
Definition patch8 (start p x : Z) : emitter unit := fun b => (tt, <[Z.to_nat (p - start) := u8 x]> b).

Definition emitted (m : emitter unit) : list Z := (m []).2.

(** The routines' places in [pre_generated_routine]. *)
Definition rt_get_next_enqptr : Z := 0.
Definition rt_finish_curr_block : Z := 512.
Definition rt_enqueue_one_rec : Z := 1024.
Definition rt_enqueue_raddr : Z := 1536.
Definition rt_enqueue_waddr : Z := 2048.

(** [~CHUNK_BITSIZEMASK] *)
Definition CHUNK_LOW_BITS : Z := SIZE_OF_CHUNK - 1.

Section Routines.
Context (L : layout).

Definition gen_rt_finish_curr_block : emitter unit :=
  out8 0x0f;; out8 0xae;; out8 0xf0;;                         (* mfence *)
  out8 0x48;; out8 0x31;; out8 0xc0;;                         (* xor rax, rax *)
  out8 0x48;; out8 0xa3;; out64 (L_var L V_enqptr);;          (* mov [&enqptr], rax *)
  out8 0xa1;; out64 (L_var L V_prev_head);;                   (* mov eax, [&prev_head] *)
  out8 0x48;; out8 0xc1;; out8 0xe0;; out8 0x03;;             (* shl rax, 3 *)
  out8 0x48;; out8 0xba;; out64 (L_flag L);;                  (* mov rdx, q_chunks_flag *)
  out8 0x48;; out8 0x01;; out8 0xc2;;                         (* add rdx, rax *)
  out8 0xc7;; out8 0x02;; out32 CHUNK_FILLED;;                (* mov [rdx], CHUNK_FILLED *)
  out8 0xc3.

Definition gen_rt_get_next_enqptr : emitter unit :=
  out8 0xf3;; out8 0x90;;                                     (* pause *)
  out8 0x48;; out8 0xa1;; out64 (L_var L V_head);;            (* mov rax, [&head] *)
  out8 0x48;; out8 0xc1;; out8 0xe0;; out8 0x03;;             (* shl rax, 3 *)
  out8 0x48;; out8 0xba;; out64 (L_flag L);;                  (* mov rdx, q_chunks_flag *)
  out8 0x48;; out8 0x01;; out8 0xc2;;                         (* add rdx, rax *)
  out8 0x48;; out8 0x8b;; out8 0x02;;                         (* mov rax, [rdx] *)
  out8 0x48;; out8 0x85;; out8 0xc0;;                         (* test rax, rax *)
  out8 0x75;;
  s ← cur_s rt_get_next_enqptr;
  out8 (rt_get_next_enqptr - (s + 1));;                       (* jne rt_get_next_enqptr *)
  out8 0xc7;; out8 0x02;; out32 CHUNK_FILLING;;               (* mov [rdx], CHUNK_FILLING *)
  out8 0x48;; out8 0xa1;; out64 (L_var L V_head);;            (* mov rax, [&head] *)
  out8 0x48;; out8 0xc1;; out8 0xe0;; out8 0x03;;             (* shl rax, 3 *)
  out8 0x48;; out8 0xba;; out64 (L_ptr L);;                   (* mov rdx, q_chunks_ptr *)
  out8 0x48;; out8 0x01;; out8 0xc2;;                         (* add rdx, rax *)
  out8 0x48;; out8 0x8b;; out8 0x02;;                         (* mov rax, [rdx] *)
  out8 0x48;; out8 0xa3;; out64 (L_var L V_enqptr);;          (* mov [&enqptr], rax *)
  out8 0xa1;; out64 (L_var L V_head);;                        (* mov eax, [&head] *)
  out8 0xa3;; out64 (L_var L V_prev_head);;                   (* mov [&prev_head], eax *)
  out8 0xff;; out8 0xc0;;                                     (* inc eax *)
  out8 0x25;; out32 (Q_CHUNKS_SIZE - 1);;                     (* and eax, Q_CHUNKS_SIZE - 1 *)
  out8 0xa3;; out64 (L_var L V_head);;                        (* mov [&head], eax *)
  out8 0x48;; out8 0xa1;; out64 (L_var L V_enqptr);;          (* mov rax, [&enqptr] *)
  out8 0xc3.

(** From [mov rax, [&enqptr]] on, the same lines in the three routines. *)
Definition gen_rt_enqueue_tail (start : Z) : emitter unit :=
  out8 0x48;; out8 0xa1;; out64 (L_var L V_enqptr);;          (* mov rax, [&enqptr] *)
  out8 0x48;; out8 0x89;; out8 0x10;;                         (* mov [rax], rdx *)
  out8 0x48;; out8 0x83;; out8 0xc0;; out8 0x08;;             (* add rax, 8 *)
  out8 0xa9;; out32 CHUNK_LOW_BITS;;                          (* test eax, ~CHUNK_BITSIZEMASK *)
  out8 0x48;; out8 0xa3;; out64 (L_var L V_enqptr);;          (* mov [&enqptr], rax *)
  out8 0x74;;
  label2_ptr ← cur_s start;
  skip8;;                                                     (* je label2 *)
  out8 0xc3;;                                                 (* ret *)
  s ← cur_s start;
  patch8 start label2_ptr (s - label2_ptr - 1);;              (* label2: *)
  out8 0xe8;; s ← cur_s start; out32 (rt_finish_curr_block - (s + 4));;
  out8 0xe8;; s ← cur_s start; out32 (rt_get_next_enqptr - (s + 4));;
  out8 0xc3.                                                  (* ret *)

Definition gen_rt_enqueue_one_rec : emitter unit := gen_rt_enqueue_tail rt_enqueue_one_rec.

(** The word is the address left by the last access, less the start of RAM. *)
Definition gen_rt_enqueue_addr (start : Z) (last : var) : emitter unit :=
  out8 0x48;; out8 0xba;; out64 (L_var L last);;              (* mov rdx, &last_mem_*_addr *)
  out8 0x48;; out8 0x8b;; out8 0x12;;                         (* mov rdx, [rdx] *)
  out8 0x48;; out8 0xa1;; out64 (L_var L V_base);;            (* mov rax, [&phys_ram_base] *)
  out8 0x48;; out8 0x29;; out8 0xc2;;                         (* sub rdx, rax *)
  gen_rt_enqueue_tail start.

Definition gen_rt_enqueue_raddr : emitter unit := gen_rt_enqueue_addr rt_enqueue_raddr V_read.
Definition gen_rt_enqueue_waddr : emitter unit := gen_rt_enqueue_addr rt_enqueue_waddr V_write.

(** Writing the bytes [bs] at offset [a] of the buffer. *)
Fixpoint put_bytes (t : table) (a : Z) (bs : list Z) : res table :=
  match bs with
  | [] => Ret t
  | b :: bs' => t' ← tbl_write t a b; put_bytes t' (a + 1) bs'
  end.

(** [mprotect_result] is what mprotect answers. *)
Definition pre_generate_routine (mprotect_result : Z) : res table :=
  let t := tbl_new 4096 in
  t ← put_bytes t rt_finish_curr_block (emitted gen_rt_finish_curr_block);
  t ← put_bytes t rt_get_next_enqptr (emitted gen_rt_get_next_enqptr);
  t ← put_bytes t rt_enqueue_one_rec (emitted gen_rt_enqueue_one_rec);
  t ← put_bytes t rt_enqueue_raddr (emitted gen_rt_enqueue_raddr);
  t ← put_bytes t rt_enqueue_waddr (emitted gen_rt_enqueue_waddr);
  if mprotect_result =? 0 then Ret t else Exit.

(** ** The calls in translated code *)

Definition tcg_out_qemu_dift_enq_i64 (arg : Z) : emitter unit :=
  out8 0x48;; out8 0xba;; out64 arg;;                              (* mov rdx, arg *)
  out8 0x48;; out8 0xb8;; out64 (L_rt L + rt_enqueue_one_rec);;    (* mov rax, rt_enqueue_one_rec *)
  out8 0xff;; out8 0xd0.                                           (* call rax *)

Definition tcg_out_qemu_dift_enq_raddr : emitter unit :=
  out8 0x48;; out8 0xb8;; out64 (L_rt L + rt_enqueue_raddr);;
  out8 0xff;; out8 0xd0.

Definition tcg_out_qemu_dift_enq_waddr : emitter unit :=
  out8 0x48;; out8 0xb8;; out64 (L_rt L + rt_enqueue_waddr);;
  out8 0xff;; out8 0xd0.

Definition tcg_out_qemu_dift_inc_diftcodes (idx : Z) : emitter unit :=
  out8 0x48;; out8 0xb8;; out64 idx;;                              (* mov rax, idx *)
  out8 0xa3;; out64 (L_var L V_cntr).                              (* mov [&dift_code_cntr], eax *)

Definition tcg_out_qemu_dift_tb_begin (code_loc : Z) : emitter unit :=
  out8 0x48;; out8 0xba;; out64 BLOCK_MARK;;                       (* mov rdx, ... *)
  out8 0x48;; out8 0xb8;; out64 (L_rt L + rt_enqueue_one_rec);;    (* mov rax, rt_enqueue_one_rec *)
  out8 0xff;; out8 0xd0;;                                          (* call rax *)
  out8 0xa1;; out64 (L_var L V_loc);;                              (* mov eax, [&dift_code_loc] *)
  out8 0x48;; out8 0xc1;; out8 0xe0;; out8 0x20;;                  (* shl rax, 0x20 *)
  out8 0x48;; out8 0x89;; out8 0xc2;;                              (* mov rdx, rax *)
  out8 0xa1;; out64 (L_var L V_cntr);;                             (* mov eax, [&dift_code_cntr] *)
  out8 0x48;; out8 0xc1;; out8 0xe0;; out8 0x10;;                  (* shl rax, 0x10 *)
  out8 0x48;; out8 0x09;; out8 0xc2;;                              (* or rdx, rax *)
  out8 0xa1;; out64 (L_var L V_off);;                              (* mov eax, [&dift_code_off] *)
  out8 0x48;; out8 0x09;; out8 0xc2;;                              (* or rdx, rax *)
  out8 0x48;; out8 0xb8;; out64 (L_rt L + rt_enqueue_one_rec);;    (* mov rax, rt_enqueue_one_rec *)
  out8 0xff;; out8 0xd0;;                                          (* call rax *)
  out8 0xb8;; out32 (u32 (code_loc / CONFIG_IF_CODES_PER_TB));;    (* mov eax, ... *)
  out8 0xa3;; out64 (L_var L V_loc);;                              (* mov [&dift_code_loc], eax *)
  out8 0x31;; out8 0xc0;;                                          (* xor eax, eax *)
  out8 0xa3;; out64 (L_var L V_cntr);;                             (* mov [&dift_code_cntr], eax *)
  out8 0xa3;; out64 (L_var L V_off).                               (* mov [&dift_code_off], eax *)

Definition tcg_out_op (op : tcg_op) : list Z :=
  emitted match op with
          | op_qemu_dift_inc_diftcodes idx => tcg_out_qemu_dift_inc_diftcodes idx
          | op_qemu_dift_enq_i64 arg => tcg_out_qemu_dift_enq_i64 arg
          | op_qemu_dift_enq_wa => tcg_out_qemu_dift_enq_waddr
          | op_qemu_dift_enq_ra => tcg_out_qemu_dift_enq_raddr
          | op_qemu_dift_tb_begin code_loc => tcg_out_qemu_dift_tb_begin code_loc
          end.
End Routines.

(** ** The machine with two threads

    The emulation thread runs the block's code on the processor. Before each
    operation it runs guest code, of which only this matters: for an operation
    that queues an address, the softmmu code has left that address, as a host
    address, in the two variables. The analysis thread runs next_block and
    rec_dequeue on the same memory, one access per step. *)

Record consumer : Type := Consumer {
  c_pc : cpc; c_deqptr : Z; c_tail : Z; c_prev_tail : Z;
  c_in_block : bool; c_signal : Z; c_recv : list Z
}.

(** [m_ops] are the operations from the current one on, [m_start] the address of
    its code, [m_xs] the guest addresses still to come. *)
Record machine : Type := Machine {
  m_cpu : cpu;
  m_ops : list tcg_op;
  m_start : Z;
  m_xs : list Z;
  m_running : bool;
  m_cons : consumer
}.

Definition uses_addr (op : tcg_op) : bool :=
  match op with op_qemu_dift_enq_wa | op_qemu_dift_enq_ra => true | _ => false end.

Section Machine.
Context (L : layout).

(** The guest code before [op]: registers are free to it. The access that [op] is
    about leaves its address in the variable of its kind; the other variable is that of
    some other access. *)
Definition guest_mem (op : tcg_op) (xs : list Z) (y : Z) (m : memory) : memory :=
  let haddr := u64 (ld 8 m (L_var L V_base) + hd 0 xs) in
  match op with
  | op_qemu_dift_enq_wa => sd 8 (sd 8 m (L_var L V_read) y) (L_var L V_write) haddr
  | op_qemu_dift_enq_ra => sd 8 (sd 8 m (L_var L V_read) haddr) (L_var L V_write) y
  | _ => m
  end.

Definition next_xs (op : tcg_op) (xs : list Z) : list Z := if uses_addr op then List.tl xs else xs.

Definition code_end (s : machine) : Z :=
  match m_ops s with
  | op :: _ => m_start s + Z.of_nat (length (tcg_out_op L op))
  | [] => m_start s
  end.

Definition with_mem (s : machine) (m : memory) (c : consumer) : machine :=
  Machine (set_mem (m_cpu s) m) (m_ops s) (m_start s) (m_xs s) (m_running s) c.

(** [((uint64_t)ptr & ~CHUNK_BITSIZEMASK) == 0] *)
Definition chunk_start (ptr : Z) : bool := Z.land ptr CHUNK_LOW_BITS =? 0.

(** [rec_dequeue] and [next_block] on the bytes. *)
Definition consumer_mem (m : memory) (c : consumer) : option (memory * consumer) :=
  match c_pc c with
  | CDeq =>
      if chunk_start (c_deqptr c) then
        Some (sd 8 m (L_flag L + 8 * c_prev_tail c) CHUNK_AVAILABLE,
              Consumer CWait (c_deqptr c) (c_tail c) (c_prev_tail c) (c_in_block c) (c_signal c) (c_recv c))
      else Some (m, Consumer CRead (c_deqptr c) (c_tail c) (c_prev_tail c) (c_in_block c) (c_signal c) (c_recv c))
  | CWait =>
      if ld 8 m (L_flag L + 8 * c_tail c) =? CHUNK_FILLED then
        Some (m, Consumer CGrab (c_deqptr c) (c_tail c) (c_prev_tail c) (c_in_block c) (c_signal c) (c_recv c))
      else None
  | CGrab =>
      let m' := sd 8 m (L_flag L + 8 * c_tail c) CHUNK_CONSUMING in
      Some (m', Consumer CRead (ld 8 m' (L_ptr L + 8 * c_tail c)) ((c_tail c + 1) mod Q_CHUNKS_SIZE) (c_tail c)
                  (c_in_block c) (c_signal c) (c_recv c))
  | CRead =>
      let w := ld 8 m (c_deqptr c) in
      let sync := negb (c_in_block c) && (w =? SYNC_MARK) in
      Some (m, Consumer CDeq (if sync then 0 else u64 (c_deqptr c + 8)) (c_tail c) (c_prev_tail c)
                 (negb (c_in_block c) && (w =? BLOCK_MARK)) (if sync then 1 else c_signal c)
                 (c_recv c ++ [w]))
  end.

Inductive mstep : machine -> machine -> Prop :=
| mstep_guest s op ops a d z y :
    m_running s = false -> m_ops s = op :: ops -> 0 <= a < 2 ^ 64 -> 0 <= d < 2 ^ 64 -> 0 <= y < 2 ^ 64 ->
    mstep s (Machine (Cpu (rip (m_cpu s)) a d (rsp (m_cpu s)) z (guest_mem op (m_xs s) y (mem (m_cpu s))))
               (m_ops s) (m_start s) (next_xs op (m_xs s)) true (m_cons s))
| mstep_cpu s c :
    m_running s = true -> rip (m_cpu s) <> code_end s -> cpu_step (m_cpu s) = Some c ->
    mstep s (Machine c (m_ops s) (m_start s) (m_xs s) true (m_cons s))
| mstep_next s :
    m_running s = true -> rip (m_cpu s) = code_end s ->
    mstep s (Machine (m_cpu s) (List.tl (m_ops s)) (code_end s) (m_xs s) false (m_cons s))
| mstep_consumer s m c :
    consumer_mem (mem (m_cpu s)) (m_cons s) = Some (m, c) -> mstep s (with_mem s m c).

(** ** The address space is sound *)

Inductive region : Type := R_var (v : var) | R_flag | R_ptr | R_rec | R_rt | R_tb | R_stack.

#[export] Instance region_eq_dec : EqDecision region.
Proof. solve_decision. Defined.

Definition STACK_ROOM : Z := 24.

Definition tb_bytes (ops : list tcg_op) : list Z := ops ≫= tcg_out_op L.

Definition region_at (ops : list tcg_op) (r : region) : Z * Z :=
  match r with
  | R_var v => (L_var L v, Z.of_nat (var_size v))
  | R_flag => (L_flag L, 8 * Q_CHUNKS_SIZE)
  | R_ptr => (L_ptr L, 8 * Q_CHUNKS_SIZE)
  | R_rec => (L_rec L, 8 * (Q_CHUNKS_SIZE * CHUNK_WORDS))
  | R_rt => (L_rt L, 4096)
  | R_tb => (L_tb L, Z.of_nat (length (tb_bytes ops)) + 1)
  | R_stack => (L_stack L - STACK_ROOM, STACK_ROOM)
  end.

(** Everything lies in the lower half of the address space, nothing overlaps (the
    block's code is followed by that of its exit),
    and the queue is aligned to a chunk, as the declarations demand. *)
Record layout_ok (ops : list tcg_op) : Prop := {
  lo_range : forall r, 0 < (region_at ops r).1 /\ (region_at ops r).1 + (region_at ops r).2 < 2 ^ 47;
  lo_apart : forall r r', r <> r' ->
    (region_at ops r).1 + (region_at ops r).2 <= (region_at ops r').1 \/
    (region_at ops r').1 + (region_at ops r').2 <= (region_at ops r).1;
  lo_aligned : L_rec L mod SIZE_OF_CHUNK = 0
}.

(** The bytes [bs] are in memory at [a]. *)
Definition code_at (m : memory) (a : Z) (bs : list Z) : Prop :=
  forall k b, bs !! k = Some b -> byte m (a + Z.of_nat k) = b.

(** The regions the two threads write. *)
Definition writable (r : region) : bool :=
  match r with R_ptr | R_rt | R_tb | R_var V_base => false | _ => true end.

(** The memory [m] holds the code, the variables [V], the flags [F], the records
    [R] and the stack [stk]; outside the regions that are written it is [m0]. *)
Record mem_ok (ops : list tcg_op) (m0 m : memory) (V : var -> Z) (F R : gmap Z Z) (stk : list Z) : Prop := {
  mo_rt : forall T, pre_generate_routine L 0 = Ret T ->
    forall k, 0 <= k < 4096 -> byte m (L_rt L + k) = tbl_get T k;
  mo_tb : code_at m (L_tb L) (tb_bytes ops);
  mo_var : forall v, ld (var_size v) m (L_var L v) = V v;
  mo_flag : forall i, 0 <= i < Q_CHUNKS_SIZE -> ld 8 m (L_flag L + 8 * i) = flag F i;
  mo_small : forall i, 0 <= flag F i < 4;
  mo_rec : forall i, 0 <= i < Q_CHUNKS_SIZE * CHUNK_WORDS ->
    ld 8 m (L_rec L + 8 * i) = default 0 (R !! i);
  mo_ptr : forall i, 0 <= i < Q_CHUNKS_SIZE -> ld 8 m (L_ptr L + 8 * i) = L_rec L + 8 * (i * CHUNK_WORDS);
  mo_stk : forall (k : nat) x, stk !! k = Some x ->
    ld 8 m (L_stack L - 8 * Z.of_nat (length stk) + 8 * Z.of_nat k) = x;
  mo_frame : forall a,
    (forall r, writable r = true -> within (region_at ops r).1 (region_at ops r).2 a = false) ->
    byte m a = byte m0 a;
  mo_depth : (length stk <= 3)%nat
}.

(** The block is about to run: the queue is as [init_queue] leaves it and the
    analysis thread is in its first wait. *)
Definition machine_start (ops : list tcg_op) (xs : list Z) (m : memory) : machine :=
  Machine (Cpu (L_tb L) 0 0 (L_stack L) false m) ops (L_tb L) xs false
    (Consumer CWait 0 0 (Q_CHUNKS_SIZE - 1) false 0 []).

Definition start_vars (r : runtime) (base : Z) (v : var) : Z :=
  match v with
  | V_enqptr => L_rec L
  | V_head => 1
  | V_loc => rt_loc r
  | V_cntr => rt_cntr r
  | V_off => rt_off r
  | V_base => base
  | _ => 0
  end.
End Machine.

(** ** Lemmas: the routines as instructions *)

Section Code.
Context (L : layout).

Definition finish_code : list instr :=
  [Mfence; Alu XOR true RAX RAX; StoreA true (L_var L V_enqptr); LoadA false (L_var L V_prev_head);
   Shl RAX 3; MovImm64 RDX (L_flag L); Alu ADD true RDX RAX; StoreImm RDX CHUNK_FILLED; Retn].

Definition next_code : list instr :=
  [Pause; LoadA true (L_var L V_head); Shl RAX 3; MovImm64 RDX (L_flag L); Alu ADD true RDX RAX;
   Load true RAX RDX; Test true RAX RAX; Jcc CNE (-37);
   StoreImm RDX CHUNK_FILLING; LoadA true (L_var L V_head); Shl RAX 3; MovImm64 RDX (L_ptr L);
   Alu ADD true RDX RAX; Load true RAX RDX; StoreA true (L_var L V_enqptr);
   LoadA false (L_var L V_head); StoreA false (L_var L V_prev_head); Inc RAX;
   AndImm (Q_CHUNKS_SIZE - 1); StoreA false (L_var L V_head); LoadA true (L_var L V_enqptr); Retn].

(** The tail of a routine at offset [o] of the buffer. *)
Definition tail_code (o : Z) : list instr :=
  [LoadA true (L_var L V_enqptr); Store true RAX RDX; AddImm RAX 8; TestImm CHUNK_LOW_BITS;
   StoreA true (L_var L V_enqptr); Jcc CE 1; Retn;
   CallRel (rt_finish_curr_block - (o + 40)); CallRel (rt_get_next_enqptr - (o + 45)); Retn].

Definition addr_code (last : var) : list instr :=
  [MovImm64 RDX (L_var L last); Load true RDX RDX; LoadA true (L_var L V_base); Alu SUB true RDX RAX].

Definition op_code (op : tcg_op) : list instr :=
  match op with
  | op_qemu_dift_inc_diftcodes idx => [MovImm64 RAX idx; StoreA false (L_var L V_cntr)]
  | op_qemu_dift_enq_i64 arg =>
      [MovImm64 RDX arg; MovImm64 RAX (L_rt L + rt_enqueue_one_rec); CallReg RAX]
  | op_qemu_dift_enq_wa => [MovImm64 RAX (L_rt L + rt_enqueue_waddr); CallReg RAX]
  | op_qemu_dift_enq_ra => [MovImm64 RAX (L_rt L + rt_enqueue_raddr); CallReg RAX]
  | op_qemu_dift_tb_begin code_loc =>
      [MovImm64 RDX BLOCK_MARK; MovImm64 RAX (L_rt L + rt_enqueue_one_rec); CallReg RAX;
       LoadA false (L_var L V_loc); Shl RAX 0x20; MovReg true RDX RAX;
       LoadA false (L_var L V_cntr); Shl RAX 0x10; Alu OR true RDX RAX;
       LoadA false (L_var L V_off); Alu OR true RDX RAX;
       MovImm64 RAX (L_rt L + rt_enqueue_one_rec); CallReg RAX;
       MovImm32 RAX (u32 (code_loc / CONFIG_IF_CODES_PER_TB)); StoreA false (L_var L V_loc);
       Alu XOR false RAX RAX; StoreA false (L_var L V_cntr); StoreA false (L_var L V_off)]
  end.

Definition code_bytes (cs : list instr) : list Z := cs ≫= encode.

Lemma finish_bytes : emitted (gen_rt_finish_curr_block L) = code_bytes finish_code.
Proof. reflexivity. Qed.

Lemma next_bytes : emitted (gen_rt_get_next_enqptr L) = code_bytes next_code.
Proof. reflexivity. Qed.

Lemma one_bytes : emitted (gen_rt_enqueue_one_rec L) = code_bytes (tail_code rt_enqueue_one_rec).
Proof. reflexivity. Qed.

Lemma raddr_bytes :
  emitted (gen_rt_enqueue_raddr L) = code_bytes (addr_code V_read ++ tail_code (rt_enqueue_raddr + 26)).
Proof. reflexivity. Qed.

Lemma waddr_bytes :
  emitted (gen_rt_enqueue_waddr L) = code_bytes (addr_code V_write ++ tail_code (rt_enqueue_waddr + 26)).
Proof. reflexivity. Qed.

Lemma op_bytes op : tcg_out_op L op = code_bytes (op_code op).
Proof. destruct op; reflexivity. Qed.
End Code.

(** ** Lemmas: code in memory *)

Lemma code_at_app m a bs bs' :
  code_at m a (bs ++ bs') -> code_at m a bs /\ code_at m (a + Z.of_nat (length bs)) bs'.
Proof.
  intros H. split; intros k b Hk.
  - apply H. by apply lookup_app_l_Some.
  - rewrite <- Z.add_assoc, <- Nat2Z.inj_add. apply H. rewrite lookup_app_r by lia.
    by replace (length bs + k - length bs)%nat with k by lia.
Qed.

Lemma encode_length i : (1 <= length (encode i) <= 10)%nat.
Proof.
  destruct i; repeat match goal with b : bool |- _ => destruct b | c : cond |- _ => destruct c end; simpl; lia.
Qed.

Lemma fetch_code m a bs :
  code_at m a bs -> (length bs <= 15)%nat -> exists rest, fetch m a = bs ++ rest.
Proof.
  intros Hc Hl. exists (drop (length bs) (fetch m a)). rewrite <- (take_drop (length bs) (fetch m a)) at 1.
  f_equal. apply list_eq. intros k. destruct (decide (k < length bs)%nat) as [Hk|Hk].
  - rewrite lookup_take_lt by done. unfold fetch. rewrite list_lookup_fmap, lookup_seq_lt by lia. simpl.
    destruct (lookup_lt_is_Some_2 bs k Hk) as [b Hb]. rewrite Hb. f_equal. by apply Hc.
  - rewrite lookup_take_ge by lia. symmetry. apply lookup_ge_None. lia.
Qed.

(** The step at the [k]th instruction of code that is in memory. *)
Lemma step_code c a cs k i :
  code_at (mem c) a (code_bytes cs) -> cs !! k = Some i -> instr_ok i ->
  rip c = a + Z.of_nat (length (code_bytes (take k cs))) ->
  cpu_step c = Some (exec i (jump c (rip c + Z.of_nat (length (encode i))))).
Proof.
  intros Hc Hk Hi Hr. rewrite <- (take_drop_middle cs k i Hk) in Hc.
  unfold code_bytes in Hc. rewrite bind_app, bind_cons in Hc.
  apply code_at_app in Hc as [_ Hc]. apply code_at_app in Hc as [Hc _].
  fold (code_bytes (take k cs)) in Hc. rewrite <- Hr in Hc.
  destruct (fetch_code _ _ _ Hc) as [rest E]; [pose proof (encode_length i); lia|].
  unfold cpu_step. by rewrite E, decode_encode by done.
Qed.

Lemma put_bytes_ok bs : forall t a,
  0 <= a -> a + Z.of_nat (length bs) <= tbl_size t ->
  exists t', put_bytes t a bs = Ret t' /\ tbl_size t' = tbl_size t /\
    (forall k b, bs !! k = Some b -> tbl_get t' (a + Z.of_nat k) = b) /\
    (forall x, within a (Z.of_nat (length bs)) x = false -> tbl_get t' x = tbl_get t x).
Proof.
  induction bs as [|b bs IH]; intros t a Ha Hl; [exists t; by split_and!|].
  cbn [put_bytes length] in *. rewrite tbl_write_ok by lia. simpl.
  destruct (IH (tbl_set t a b) (a + 1)) as (t' & -> & Hs & Hin & Hout); [lia|simpl; lia|].
  exists t'. split_and!; [done..| |].
  - intros [|k] x Hx; simpl in Hx.
    + injection Hx as ->. rewrite Z.add_0_r, Hout by (apply within_false; lia).
      rewrite tbl_get_set. by rewrite Z.eqb_refl.
    + rewrite <- (Hin _ _ Hx). f_equal. lia.
  - intros x Hx. apply within_false in Hx. rewrite Hout by (apply within_false; lia).
    rewrite tbl_get_set. destruct (Z.eqb_spec a x); [lia|done].
Qed.

Section Buffer.
Context (L : layout).

(** The five routines and their places. *)
Definition routines : list (Z * list instr) :=
  [(rt_finish_curr_block, finish_code L); (rt_get_next_enqptr, next_code L);
   (rt_enqueue_one_rec, tail_code L rt_enqueue_one_rec);
   (rt_enqueue_raddr, addr_code L V_read ++ tail_code L (rt_enqueue_raddr + 26));
   (rt_enqueue_waddr, addr_code L V_write ++ tail_code L (rt_enqueue_waddr + 26))].

(** Placed one after the other, in the order of pre_generate_routine. *)
Fixpoint put_all (t : table) (rs : list (Z * list instr)) : res table :=
  match rs with
  | [] => Ret t
  | (o, cs) :: rs' => t' ← put_bytes t o (code_bytes cs); put_all t' rs'
  end.

Definition extent (r : Z * list instr) : Z * Z := (r.1, Z.of_nat (length (code_bytes r.2))).

(** The extents lie in the buffer and do not meet. *)
Fixpoint extents_ok (es : list (Z * Z)) : bool :=
  match es with
  | [] => true
  | (o, n) :: es' =>
      (0 <=? o) && (o + n <=? 4096) &&
      forallb (fun '(o', n') => (o + n <=? o') || (o' + n' <=? o)) es' && extents_ok es'
  end.

Lemma put_all_ok (rs : list (Z * list instr)) : forall t, tbl_size t = 4096 -> extents_ok (extent <$> rs) = true ->
  exists T, put_all t rs = Ret T /\
    (forall o cs, (o, cs) ∈ rs -> forall k b, code_bytes cs !! k = Some b -> tbl_get T (o + Z.of_nat k) = b) /\
    (forall x, (forall r, r ∈ rs -> within (extent r).1 (extent r).2 x = false) -> tbl_get T x = tbl_get t x).
Proof.
  induction rs as [|[o cs] rs IH]; intros t Ht Hx.
  - exists t. split_and!; [done| |done]. intros ?? H. by apply elem_of_nil in H.
  - cbn [fmap list_fmap extents_ok extent fst snd] in Hx. bool_to_prop.
    destruct (put_bytes_ok (code_bytes cs) t o) as (t1 & E1 & S1 & I1 & O1); [lia..|].
    destruct (IH t1) as (T & ET & I & O); [lia|done|].
    exists T. cbn [put_all]. rewrite E1, res_bind_ret. split_and!; [done| |].
    + intros o' cs' Hin k b Hk. apply elem_of_cons in Hin as [E|Hin]; [|by eapply I].
      injection E as -> ->. rewrite O; [by apply I1|]. intros r Hr.
      pose proof (lookup_lt_Some _ _ _ Hk).
      match goal with H : forallb _ _ = true |- _ =>
        rewrite forallb_forall in H; specialize (H (extent r)); rename H into Hf end.
      apply within_false. destruct r as [o'' cs'']. simpl in *.
      assert ((o'', Z.of_nat (length (code_bytes cs''))) ∈ extent <$> rs) as Hi
        by (apply list_elem_of_fmap; by exists (o'', cs'')).
      apply list_elem_of_In in Hi. specialize (Hf Hi). apply orb_true_iff in Hf as [Hf|Hf]; bool_to_prop; lia.
    + intros x Hx'. rewrite O; [apply O1|]; intros; apply Hx' || apply (Hx' (o, cs)); by constructor.
Qed.

(** The buffer holds them all: no write leaves it, none meets another routine. *)
Lemma routine_extents : extents_ok (extent <$> routines) = true.
Proof. vm_compute. reflexivity. Qed.

Lemma pre_generate_ok :
  exists T, pre_generate_routine L 0 = Ret T /\
    forall o cs, (o, cs) ∈ routines ->
      forall k b, code_bytes cs !! k = Some b -> tbl_get T (o + Z.of_nat k) = b.
Proof.
  destruct (put_all_ok routines (tbl_new 4096) eq_refl routine_extents) as (T & E & I & _).
  exists T. split; [|done]. rewrite <- E. unfold pre_generate_routine.
  rewrite finish_bytes, next_bytes, one_bytes, raddr_bytes, waddr_bytes. reflexivity.
Qed.

Lemma routine_extent o cs : (o, cs) ∈ routines -> 0 <= o /\ o + Z.of_nat (length (code_bytes cs)) <= 4096.
Proof.
  intros Hin. unfold routines in Hin. set_unfold in Hin.
  destruct Hin as [E|[E|[E|[E|[E|[]]]]]]; injection E as -> ->; by vm_compute.
Qed.

Lemma routine_at ops m0 m V F R stk o cs :
  mem_ok L ops m0 m V F R stk -> (o, cs) ∈ routines -> code_at m (L_rt L + o) (code_bytes cs).
Proof.
  intros M Hin k b Hk. destruct pre_generate_ok as (T & E & HT).
  rewrite <- (HT _ _ Hin _ _ Hk), <- Z.add_assoc. apply (mo_rt _ _ _ _ _ _ _ _ M T E).
  pose proof (lookup_lt_Some _ _ _ Hk). pose proof (routine_extent _ _ Hin). lia.
Qed.

Lemma op_at ops m0 m V F R stk done op rest :
  mem_ok L ops m0 m V F R stk -> ops = done ++ op :: rest ->
  code_at m (L_tb L + Z.of_nat (length (tb_bytes L done))) (code_bytes (op_code L op)).
Proof.
  intros M ->. pose proof (mo_tb _ _ _ _ _ _ _ _ M) as H. unfold tb_bytes in H.
  rewrite bind_app, bind_cons in H. apply code_at_app in H as [_ H]. apply code_at_app in H as [H _].
  by rewrite op_bytes in H.
Qed.
End Buffer.

(** ** Lemmas: stores *)

Definition upd (V : var -> Z) (v : var) (x : Z) : var -> Z :=
  fun v' => if decide (v = v') then x else V v'.

Section Stores.
Context (L : layout) (ops : list tcg_op) (m0 : memory) (HL : layout_ok L ops).
Local Abbreviation mem_ok := (mem_ok L ops m0).
Local Abbreviation N := Q_CHUNKS_SIZE.
Local Abbreviation W := CHUNK_WORDS.

(** The [n] bytes at [a] lie in a region. *)
Definition inside (r : region) (a : Z) (n : nat) : Prop :=
  (region_at L ops r).1 <= a /\ a + Z.of_nat n <= (region_at L ops r).1 + (region_at L ops r).2.

Lemma inside_apart r r' a n b k : r <> r' -> inside r a n -> inside r' b k -> apart a n b k.
Proof.
  intros Hr Ha Hb. unfold inside, apart in *. pose proof (lo_apart _ _ HL r r' Hr). lia.
Qed.

Lemma ld_other r r' m a n w b k :
  r <> r' -> inside r a n -> inside r' b k -> ld k (sd n m a w) b = ld k m b.
Proof. intros. apply ld_sd_apart. by eapply inside_apart. Qed.

Lemma byte_other r r' m a n w b :
  r <> r' -> inside r a n -> inside r' b 1 -> byte (sd n m a w) b = byte m b.
Proof.
  intros Hr Ha Hb. rewrite byte_sd. pose proof (inside_apart _ _ _ _ _ _ Hr Ha Hb) as Hx.
  unfold apart in Hx. split_tests; [lia|done].
Qed.

Lemma inside_var v : inside (R_var v) (L_var L v) (var_size v).
Proof. unfold inside. simpl. lia. Qed.

Lemma inside_flag i : 0 <= i < N -> inside R_flag (L_flag L + 8 * i) 8.
Proof. unfold inside. cbn [region_at fst snd]. lia. Qed.

Lemma inside_ptr i : 0 <= i < N -> inside R_ptr (L_ptr L + 8 * i) 8.
Proof. unfold inside. cbn [region_at fst snd]. lia. Qed.

Lemma inside_rec i : 0 <= i < N * W -> inside R_rec (L_rec L + 8 * i) 8.
Proof. unfold inside. cbn [region_at fst snd]. lia. Qed.

Lemma inside_rt k : 0 <= k < 4096 -> inside R_rt (L_rt L + k) 1.
Proof. unfold inside. cbn [region_at fst snd]. lia. Qed.

Lemma inside_tb k b : tb_bytes L ops !! k = Some b -> inside R_tb (L_tb L + Z.of_nat k) 1.
Proof. intros Hk. pose proof (lookup_lt_Some _ _ _ Hk). unfold inside. cbn [region_at fst snd]. lia. Qed.

Lemma inside_stack (k n : nat) : (k < n <= 3)%nat ->
  inside R_stack (L_stack L - 8 * Z.of_nat n + 8 * Z.of_nat k) 8.
Proof. unfold inside. cbn [region_at fst snd]. unfold STACK_ROOM. lia. Qed.

(** What a store into region [r] leaves alone. *)
Lemma mem_ok_other r m a n w V F R stk :
  mem_ok m V F R stk -> writable r = true -> inside r a n -> (length stk <= 3)%nat ->
  let m' := sd n m a w in
  (forall T, pre_generate_routine L 0 = Ret T ->
     forall k, 0 <= k < 4096 -> byte m' (L_rt L + k) = tbl_get T k) /\
  code_at m' (L_tb L) (tb_bytes L ops) /\
  (forall v, r <> R_var v -> ld (var_size v) m' (L_var L v) = V v) /\
  (r <> R_flag -> forall i, 0 <= i < N -> ld 8 m' (L_flag L + 8 * i) = flag F i) /\
  (r <> R_rec -> forall i, 0 <= i < N * W -> ld 8 m' (L_rec L + 8 * i) = default 0 (R !! i)) /\
  (forall i, 0 <= i < N -> ld 8 m' (L_ptr L + 8 * i) = L_rec L + 8 * (i * W)) /\
  (r <> R_stack -> forall (k : nat) x, stk !! k = Some x ->
     ld 8 m' (L_stack L - 8 * Z.of_nat (length stk) + 8 * Z.of_nat k) = x) /\
  (forall x, (forall r, writable r = true -> within (region_at L ops r).1 (region_at L ops r).2 x = false) ->
     byte m' x = byte m0 x).
Proof.
  intros M Hw Hi Hs m'. assert (forall r', writable r' = false -> r <> r') as Hne by (intros ? ? ->; congruence).
  split_and!.
  - intros T ET k Hk. rewrite <- (mo_rt _ _ _ _ _ _ _ _ M T ET k Hk).
    apply (byte_other r R_rt); [by apply Hne|done|by apply inside_rt].
  - intros k b Hk. rewrite <- (mo_tb _ _ _ _ _ _ _ _ M k b Hk).
    apply (byte_other r R_tb); [by apply Hne|done|by eapply inside_tb].
  - intros v Hv. rewrite <- (mo_var _ _ _ _ _ _ _ _ M v).
    apply (ld_other r (R_var v)); [done..|apply inside_var].
  - intros Hr i Hi'. rewrite <- (mo_flag _ _ _ _ _ _ _ _ M i Hi').
    apply (ld_other r R_flag); [done..|by apply inside_flag].
  - intros Hr i Hi'. rewrite <- (mo_rec _ _ _ _ _ _ _ _ M i Hi').
    apply (ld_other r R_rec); [done..|by apply inside_rec].
  - intros i Hi'. rewrite <- (mo_ptr _ _ _ _ _ _ _ _ M i Hi').
    apply (ld_other r R_ptr); [by apply Hne|done|by apply inside_ptr].
  - intros Hr k x Hk. pose proof (lookup_lt_Some _ _ _ Hk). rewrite <- (mo_stk _ _ _ _ _ _ _ _ M k x Hk).
    apply (ld_other r R_stack); [done..|by apply inside_stack].
  - intros x Hx. rewrite <- (mo_frame _ _ _ _ _ _ _ _ M x Hx). unfold m'. rewrite byte_sd.
    specialize (Hx r Hw). apply within_false in Hx. destruct Hi. split_tests; [lia|done].
Qed.

Ltac from_other r :=
  match goal with
  | M : mem_ok ?m _ _ _ _ |- mem_ok (sd ?n ?m ?a ?w) _ _ _ _ =>
      let Hi := fresh "Hi" in let Hw := fresh "Hw" in
      assert (inside r a n) as Hi;
      [|assert (writable r = true) as Hw;
        [|destruct (mem_ok_other r m a n w _ _ _ _ M Hw Hi) as (P1 & P2 & P3 & P4 & P5 & P6 & P7 & P8)]]
  end.

Lemma var_neq v v' : v <> v' -> R_var v <> R_var v'.
Proof. congruence. Qed.

(** A store to a variable, in its width or, over a small value, in 32 bits. *)
Lemma store_var n m v x V F R stk :
  mem_ok m V F R stk -> v <> V_base -> (length stk <= 3)%nat ->
  (n = var_size v /\ 0 <= x < 256 ^ Z.of_nat n \/
   n = 4%nat /\ var_size v = 8%nat /\ V v < 2 ^ 32 /\ 0 <= x < 2 ^ 32) ->
  mem_ok (sd n m (L_var L v) x) (upd V v x) F R stk.
Proof.
  intros M Hv Hs Hn. from_other (R_var v).
  - destruct Hn as [[-> _]|(-> & E & _)]; [apply inside_var|].
    unfold inside. cbn [region_at fst snd]. rewrite E. lia.
  - by destruct v.
  - done.
  - constructor; [done|done| |by apply P4|apply M|by apply P5|done|by apply P7|done|done].
    intros v'. unfold upd. destruct (decide (v = v')) as [<-|Hne]; [|by apply P3, var_neq].
    destruct Hn as [[-> Hx]|(-> & E & Hx & Hx')].
    + by rewrite ld_sd_same, Z.mod_small.
    + rewrite E. apply ld_sd_low; [|done]. pose proof (mo_var _ _ _ _ _ _ _ _ M v) as Ev.
      rewrite E in Ev. by rewrite Ev.
Qed.

Lemma store_flag n m i x V F R stk :
  mem_ok m V F R stk -> 0 <= i < N -> n = 4%nat \/ n = 8%nat -> 0 <= x < 4 -> (length stk <= 3)%nat ->
  mem_ok (sd n m (L_flag L + 8 * i) x) V (<[i := x]> F) R stk.
Proof.
  intros M Hi Hn Hx Hs. from_other R_flag.
  - destruct (inside_flag i Hi). split; destruct Hn as [-> | ->]; lia.
  - done.
  - done.
  - constructor; [done|done| | | |by apply P5|done|by apply P7|done|done].
    + intros v. by apply P3.
    + intros j Hj. destruct (decide (i = j)) as [<-|Hne].
      * rewrite flag_eq. pose proof (mo_flag _ _ _ _ _ _ _ _ M i Hi) as Ef. pose proof (mo_small _ _ _ _ _ _ _ _ M i).
        destruct Hn as [-> | ->]; [apply ld_sd_low; lia|]. rewrite ld_sd_same, Z.mod_small by lia. done.
      * rewrite flag_ne, <- (mo_flag _ _ _ _ _ _ _ _ M j Hj) by done. apply ld_sd_apart.
        unfold apart. destruct Hn as [-> | ->]; lia.
    + intros j. destruct (decide (i = j)) as [<-|Hne]; [by rewrite flag_eq|].
      rewrite flag_ne by done. apply (mo_small _ _ _ _ _ _ _ _ M).
Qed.

Lemma store_rec m i x V F R stk :
  mem_ok m V F R stk -> 0 <= i < N * W -> 0 <= x < 2 ^ 64 -> (length stk <= 3)%nat ->
  mem_ok (sd 8 m (L_rec L + 8 * i) x) V F (<[i := x]> R) stk.
Proof.
  intros M Hi Hx Hs. from_other R_rec.
  - by apply inside_rec.
  - done.
  - done.
  - constructor; [done|done| |by apply P4|apply M| |done|by apply P7|done|done].
    + intros v. by apply P3.
    + intros j Hj. destruct (decide (i = j)) as [<-|Hne].
      * by rewrite lookup_insert_eq, ld_sd_same, Z.mod_small.
      * rewrite lookup_insert_ne, <- (mo_rec _ _ _ _ _ _ _ _ M j Hj) by done. apply ld_sd_apart.
        unfold apart. lia.
Qed.

Lemma store_stack m x V F R stk :
  mem_ok m V F R stk -> (length stk <= 2)%nat -> 0 <= x < 2 ^ 64 ->
  mem_ok (sd 8 m (L_stack L - 8 * Z.of_nat (length (x :: stk))) x) V F R (x :: stk).
Proof.
  intros M Hl Hx. from_other R_stack.
  - pose proof (inside_stack 0 (length (x :: stk)) ltac:(simpl; lia)) as H. by rewrite Z.add_0_r in H.
  - done.
  - lia.
  - constructor; [done|done| |by apply P4|apply M|by apply P5|done| |done|simpl; lia].
    + intros v. by apply P3.
    + intros [|k] y Hk.
      * injection Hk as <-. by rewrite Z.add_0_r, ld_sd_same, Z.mod_small.
      * simpl in Hk. rewrite <- (mo_stk _ _ _ _ _ _ _ _ M k y Hk).
        rewrite ld_sd_apart by (unfold apart; lia). f_equal. cbn [length]. lia.
Qed.

Lemma pop_stack m x V F R stk :
  mem_ok m V F R (x :: stk) -> mem_ok m V F R stk /\ ld 8 m (L_stack L - 8 * Z.of_nat (length (x :: stk))) = x.
Proof.
  intros M. split.
  - destruct M. constructor; [done..| |done|simpl in *; lia]. intros k y Hk. rewrite <- (mo_stk0 (S k) y Hk).
    f_equal. cbn [length]. lia.
  - pose proof (mo_stk _ _ _ _ _ _ _ _ M 0%nat x eq_refl) as E. by rewrite Z.add_0_r in E.
Qed.
End Stores.

(** ** Silent instructions

    The processor and the variables, without the memory that is shared: most
    instructions neither read nor write a flag or a record, so that their effect
    is the same whatever the analysis thread does. *)

Record ustate : Type := U {
  u_rip : Z; u_rax : Z; u_rdx : Z; u_zf : bool; u_var : var -> Z; u_stk : list Z
}.

Definition off (cs : list instr) (k : nat) : Z := Z.of_nat (length (code_bytes (take k cs))).
(** The address of instruction [k] of the code at [a]. *)
Definition pos (a : Z) (cs : list instr) (k : nat) : Z := a + off cs k.

Section Silent.
Context (L : layout) (ops : list tcg_op) (m0 : memory) (HL : layout_ok L ops).
Local Abbreviation mem_ok := (mem_ok L ops m0).
Local Abbreviation N := Q_CHUNKS_SIZE.
Local Abbreviation W := CHUNK_WORDS.

Definition to_cpu (u : ustate) (m : memory) : cpu :=
  Cpu (u_rip u) (u_rax u) (u_rdx u) (L_stack L - 8 * Z.of_nat (length (u_stk u))) (u_zf u) m.

Definition effect (i : instr) (u u' : ustate) : Prop :=
  forall m F R, mem_ok m (u_var u) F R (u_stk u) ->
  exists m', exec i (to_cpu u m) = to_cpu u' m' /\ mem_ok m' (u_var u') F R (u_stk u').

Definition silent (u u' : ustate) : Prop :=
  forall m F R, mem_ok m (u_var u) F R (u_stk u) ->
  exists m', cpu_step (to_cpu u m) = Some (to_cpu u' m') /\ mem_ok m' (u_var u') F R (u_stk u').

(** The code [cs] is at [a] whenever the memory is sound. *)
Definition knows (a : Z) (cs : list instr) : Prop :=
  0 <= a /\ a + Z.of_nat (length (code_bytes cs)) < 2 ^ 47 /\
  forall m V F R stk, mem_ok m V F R stk -> code_at m a (code_bytes cs).

Lemma off_S cs k i : cs !! k = Some i -> off cs (S k) = off cs k + Z.of_nat (length (encode i)).
Proof.
  intros Hk. unfold off, code_bytes. rewrite (take_S_r _ _ _ Hk), bind_app, length_app.
  simpl. rewrite app_nil_r. lia.
Qed.

Lemma off_le cs k : 0 <= off cs k <= Z.of_nat (length (code_bytes cs)).
Proof.
  assert (code_bytes cs = code_bytes (take k cs) ++ code_bytes (drop k cs)) as ->
    by (unfold code_bytes; by rewrite <- bind_app, take_drop).
  unfold off. rewrite length_app. lia.
Qed.

Lemma pos_range a cs k : knows a cs -> 0 <= pos a cs k < 2 ^ 47.
Proof. intros (Ha & Hl & _). unfold pos. pose proof (off_le cs k). lia. Qed.

Lemma to_cpu_step a cs k i ra d z V stk m F R :
  knows a cs -> cs !! k = Some i -> instr_ok i -> mem_ok m V F R stk ->
  cpu_step (to_cpu (U (pos a cs k) ra d z V stk) m) =
    Some (exec i (to_cpu (U (pos a cs (S k)) ra d z V stk) m)).
Proof.
  intros Hk Hi Ho M. pose proof (pos_range a cs (S k) Hk). destruct Hk as (Ha & Hl & Hc).
  erewrite step_code; [|by eapply Hc|done..]. do 2 f_equal. unfold jump, to_cpu. simpl.
  unfold pos in *. rewrite (off_S _ _ _ Hi), Z.add_assoc in *. unfold u64. by rewrite Z.mod_small by lia.
Qed.

Lemma silent_code a cs k i ra d z V stk u' :
  knows a cs -> cs !! k = Some i -> instr_ok i ->
  effect i (U (pos a cs (S k)) ra d z V stk) u' -> silent (U (pos a cs k) ra d z V stk) u'.
Proof.
  intros Hk Hi Ho He m F R M. destruct (He m F R M) as (m' & E & M'). exists m'. split; [|done].
  rewrite <- E. by eapply to_cpu_step.
Qed.

(** *** Effects *)

(** The instructions that only touch registers. *)
Definition pure (i : instr) : bool :=
  match i with
  | Mfence | Pause | MovImm64 _ _ | MovImm32 _ _ | Alu _ _ _ _ | MovReg _ _ _ | Test _ _ _
  | Shl _ _ | AddImm _ _ | TestImm _ | AndImm _ | Inc _ => true
  | _ => false
  end.

Definition run_pure (i : instr) (u : ustate) : ustate :=
  let c := exec i (to_cpu u ∅) in U (rip c) (rax c) (rdx c) (zf c) (u_var u) (u_stk u).

Lemma effect_pure i u : pure i = true -> effect i u (run_pure i u).
Proof.
  intros Hi m F R M. exists m. split; [|done]. destruct i as [| | | | | |? ? [] []|? [] []|? [] []| | | |[] n|[]| | |[]| | | |];
    try discriminate; try reflexivity;
    repeat match goal with r : reg |- _ => destruct r end;
    unfold run_pure; simpl; try case_if; reflexivity.
Qed.

Lemma effect_loadA wide v p ra d z V stk :
  (wide = true -> var_size v = 8%nat) -> (wide = false -> V v < 2 ^ 32) ->
  effect (LoadA wide (L_var L v)) (U p ra d z V stk) (U p (V v) d z V stk).
Proof.
  intros H8 H4 m F R M. exists m. split; [|done]. simpl. unfold to_cpu, set. simpl. f_equal.
  pose proof (mo_var _ _ _ _ _ _ _ _ M v) as E. simpl in E. destruct wide; simpl.
  - by rewrite H8 in E.
  - destruct v; simpl in E; try done; rewrite ld_low; rewrite E; auto.
Qed.

Lemma sd_low m a x : sd 4 m a x = sd 4 m a (u32 x).
Proof.
  assert (forall k, 0 <= k < 4 -> byte_of (u32 x) k = byte_of x k) as E.
  { intros k Hk. rewrite !byte_of_div by lia. unfold u32. change (2 ^ 32) with (256 ^ 4).
    assert (256 ^ 4 = 256 ^ k * 256 ^ (4 - k)) as -> by (rewrite <- Z.pow_add_r by lia; f_equal; lia).
    rewrite Z.rem_mul_r by lia. rewrite Z.mul_comm, Z.div_add, Z.div_small by (try apply Z.mod_pos_bound; lia).
    assert (256 ^ (4 - k) = 256 * 256 ^ (3 - k)) as -> by (rewrite <- Z.pow_succ_r by lia; f_equal; lia).
    rewrite Z.add_0_l, Z.rem_mul_r by lia. rewrite Z.mul_comm, Z_mod_plus_full. apply Zmod_mod. }
  unfold sd. by rewrite !E.
Qed.

Lemma effect_storeA wide v p ra d z V stk :
  v <> V_base -> (length stk <= 3)%nat ->
  (wide = true -> var_size v = 8%nat /\ 0 <= ra < 2 ^ 64) ->
  (wide = false -> var_size v = 4%nat \/ V v < 2 ^ 32) ->
  effect (StoreA wide (L_var L v)) (U p ra d z V stk)
    (U p ra d z (upd V v (if wide then ra else u32 ra)) stk).
Proof.
  intros Hv Hs H8 H4 m F R M. eexists. split; [reflexivity|]. cbn [u_var u_stk to_cpu mem rax] in *.
  assert (0 <= u32 ra < 2 ^ 32) by (apply Z.mod_pos_bound; lia).
  destruct wide; simpl.
  - destruct (H8 eq_refl) as [E Hr]. apply store_var; [done..|]. left. by rewrite E.
  - rewrite sd_low. apply store_var; [done..|].
    destruct (H4 eq_refl) as [E|E]; [left; by rewrite E|].
    destruct (decide (var_size v = 8%nat)); [by right|].
    left. destruct v; done.
Qed.

Lemma effect_load_var r v p ra z V stk :
  var_size v = 8%nat ->
  effect (Load true r RDX) (U p ra (L_var L v) z V stk)
    (match r with RAX => U p (V v) (L_var L v) z V stk | RDX => U p ra (V v) z V stk end).
Proof.
  intros Hv m F R M. exists m. pose proof (mo_var _ _ _ _ _ _ _ _ M v) as E. rewrite Hv in E.
  cbn [exec get to_cpu rdx u_rdx bytes mem]. rewrite E. by destruct r.
Qed.

Lemma effect_load_ptr i p ra d z V stk :
  0 <= i < N -> d = L_ptr L + 8 * i ->
  effect (Load true RAX RDX) (U p ra d z V stk) (U p (L_rec L + 8 * (i * W)) d z V stk).
Proof.
  intros Hi -> m F R M. exists m. split; [|done].
  cbn [exec get to_cpu rdx u_rdx bytes mem]. by rewrite (mo_ptr _ _ _ _ _ _ _ _ M i Hi).
Qed.

Lemma stack_range : 24 < L_stack L < 2 ^ 47.
Proof. pose proof (lo_range _ _ HL R_stack) as H. cbn [region_at fst snd] in H. unfold STACK_ROOM in H. lia. Qed.

Lemma push_stack p ra d z V stk m :
  (length stk <= 2)%nat ->
  push (to_cpu (U p ra d z V stk) m) p =
    to_cpu (U p ra d z V (p :: stk)) (sd 8 m (L_stack L - 8 * Z.of_nat (length (p :: stk))) p).
Proof.
  intros Hl. pose proof stack_range. unfold push, to_cpu. cbn [rip rsp rax rdx zf mem u_rip u_rax u_rdx u_zf u_stk length].
  unfold u64. rewrite Z.mod_small by lia. f_equal; [|f_equal]; lia.
Qed.

Lemma effect_call i p ra d z V stk t :
  (i = CallReg RAX /\ t = ra) \/ (exists rel, i = CallRel rel /\ t = p + rel) ->
  0 <= t < 2 ^ 64 -> 0 <= p < 2 ^ 64 -> (length stk <= 2)%nat ->
  effect i (U p ra d z V stk) (U t ra d z V (p :: stk)).
Proof.
  intros Hi Ht Hp Hl m F R M. eexists. split; [|by apply store_stack; [done|exact M|done..]].
  destruct Hi as [[-> ->]|(rel & -> & ->)]; simpl exec;
    change (rip (to_cpu (U p ra d z V stk) m)) with p; rewrite push_stack by done;
    unfold jump, to_cpu; simpl; unfold u64; by rewrite Z.mod_small by lia.
Qed.

Lemma effect_ret p ra d z V t stk :
  (length stk <= 2)%nat -> effect Retn (U p ra d z V (t :: stk)) (U t ra d z V stk).
Proof.
  intros Hl m F R M. exists m. apply pop_stack in M as [M E]. split; [|done].
  pose proof stack_range. unfold exec, to_cpu. cbn [rip rsp rax rdx zf mem u_rip u_rax u_rdx u_zf u_stk] in *.
  rewrite E. f_equal. unfold u64. cbn [length]. rewrite Z.mod_small by lia. lia.
Qed.

Lemma effect_jump c rel p ra d z V stk t :
  match c with CE => z | CNE => negb z end = true -> t = p + rel -> 0 <= t < 2 ^ 64 ->
  effect (Jcc c rel) (U p ra d z V stk) (U t ra d z V stk).
Proof.
  intros Hz -> Ht m F R M. exists m. split; [|done]. cbn [exec to_cpu zf u_zf]. rewrite Hz.
  unfold jump, to_cpu. simpl. unfold u64. by rewrite Z.mod_small by lia.
Qed.

Lemma effect_no_jump c rel p ra d z V stk :
  match c with CE => z | CNE => negb z end = false ->
  effect (Jcc c rel) (U p ra d z V stk) (U p ra d z V stk).
Proof. intros Hz m F R M. exists m. split; [|done]. cbn [exec to_cpu zf u_zf]. by rewrite Hz. Qed.

(** *** Where the code is *)

Lemma knows_routine o cs : (o, cs) ∈ routines L -> knows (L_rt L + o) cs.
Proof.
  intros Hin. pose proof (lo_range _ _ HL R_rt) as Hr. cbn [region_at fst snd] in Hr.
  pose proof (routine_extent _ _ _ Hin). split_and!; [lia..|].
  intros m V F R stk M. by eapply routine_at.
Qed.

Lemma knows_suffix a cs cs' : knows a (cs ++ cs') -> knows (a + Z.of_nat (length (code_bytes cs))) cs'.
Proof.
  intros (Ha & Hl & Hc). unfold knows, code_bytes in *. rewrite bind_app, length_app in Hl. split_and!; [lia..|].
  intros m V F R stk M. specialize (Hc m V F R stk M). rewrite bind_app in Hc. by apply code_at_app in Hc as [_ Hc].
Qed.

Lemma knows_op done op rest : ops = done ++ op :: rest ->
  knows (L_tb L + Z.of_nat (length (tb_bytes L done))) (op_code L op).
Proof.
  intros E. pose proof (lo_range _ _ HL R_tb) as Hr. cbn [region_at fst snd] in Hr.
  assert (length (tb_bytes L ops) = length (tb_bytes L done) + (length (code_bytes (op_code L op)) + length (tb_bytes L rest)))%nat
    as El by (unfold tb_bytes; by rewrite E, bind_app, bind_cons, !length_app, op_bytes).
  split_and!; [lia..|]. intros m V F R stk M. by eapply op_at.
Qed.

Lemma var_range v : 0 < L_var L v < 2 ^ 47.
Proof. pose proof (lo_range _ _ HL (R_var v)) as H. cbn [region_at fst snd] in H. lia. Qed.

Lemma table_range : 0 < L_flag L < 2 ^ 47 /\ 0 < L_ptr L < 2 ^ 47 /\ 0 < L_rt L < 2 ^ 47 - 4096 /\
  0 < L_rec L < 2 ^ 47 - 8 * (N * W).
Proof.
  pose proof (lo_range _ _ HL R_flag) as H1. pose proof (lo_range _ _ HL R_ptr) as H2.
  pose proof (lo_range _ _ HL R_rt) as H3. pose proof (lo_range _ _ HL R_rec) as H4.
  cbn [region_at fst snd] in *. assert (0 <= 8 * N) by (by vm_compute). split_and!; lia.
Qed.
End Silent.

(** ** Lemmas: arithmetic of the code *)

Lemma ring_size : Q_CHUNKS_SIZE = 2 ^ 12.
Proof. reflexivity. Qed.

Lemma chunk_size : CHUNK_WORDS = 2 ^ 9 /\ SIZE_OF_CHUNK = 2 ^ 12.
Proof. split; reflexivity. Qed.

Lemma slot_address b i : 0 <= b < 2 ^ 47 -> 0 <= i < Q_CHUNKS_SIZE ->
  u64 (b + u64 (Z.shiftl i 3)) = b + 8 * i.
Proof.
  rewrite ring_size. intros Hb Hi. rewrite Z.shiftl_mul_pow2 by lia. unfold u64.
  rewrite !Z.mod_small; [|lia..|rewrite Z.mod_small; lia]. lia.
Qed.

(** [and] with the size less one is the remainder. *)
Lemma next_slot i : 0 <= i < Q_CHUNKS_SIZE ->
  Z.land (u32 (u32 (i + 1))) (Q_CHUNKS_SIZE - 1) = (i + 1) mod Q_CHUNKS_SIZE.
Proof.
  rewrite ring_size. intros Hi. unfold u32. rewrite !(Z.mod_small (i + 1)) by lia.
  change (2 ^ 12 - 1) with (Z.ones 12). by rewrite Z.land_ones.
Qed.

Lemma low_bits b i : 0 <= b -> b mod SIZE_OF_CHUNK = 0 -> 0 <= i ->
  (Z.land (u32 (b + 8 * i)) CHUNK_LOW_BITS =? 0) = (i mod CHUNK_WORDS =? 0) /\
  (Z.land (b + 8 * i) CHUNK_LOW_BITS =? 0) = (i mod CHUNK_WORDS =? 0).
Proof.
  unfold CHUNK_LOW_BITS. destruct chunk_size as [-> ->]. intros Hb Ha Hi.
  change (2 ^ 12 - 1) with (Z.ones 12). rewrite !Z.land_ones by lia.
  assert (u32 (b + 8 * i) mod 2 ^ 12 = (b + 8 * i) mod 2 ^ 12) as ->.
  { unfold u32. change (2 ^ 32) with (2 ^ 12 * 2 ^ 20). rewrite Z.rem_mul_r by lia.
    rewrite (Z.mul_comm (2 ^ 12)), Z_mod_plus_full. apply Zmod_mod. }
  assert ((b + 8 * i) mod 2 ^ 12 = 8 * (i mod 2 ^ 9)) as ->.
  { rewrite Z.add_mod, Ha, Z.add_0_l, Zmod_mod by lia. change (2 ^ 12) with (8 * 2 ^ 9).
    by rewrite Z.mul_mod_distr_l by lia. }
  split; destruct (Z.eqb_spec (8 * (i mod 2 ^ 9)) 0), (Z.eqb_spec (i mod 2 ^ 9) 0); done || lia.
Qed.

Lemma lor_range a b : 0 <= a < 2 ^ 64 -> 0 <= b < 2 ^ 64 -> 0 <= Z.lor a b < 2 ^ 64.
Proof.
  intros Ha Hb. split; [apply Z.lor_nonneg; lia|].
  destruct (decide (Z.lor a b = 0)) as [->|]; [done|].
  assert (0 <= Z.lor a b) by (apply Z.lor_nonneg; lia).
  apply Z.log2_lt_pow2; [lia|]. rewrite Z.log2_lor by lia. apply Z.max_lub_lt.
  - destruct (decide (a = 0)) as [->|]; [done|]. apply Z.log2_lt_pow2; lia.
  - destruct (decide (b = 0)) as [->|]; [done|]. apply Z.log2_lt_pow2; lia.
Qed.

Lemma off_lt cs' k i : cs' !! k = Some i -> off cs' k < off cs' (length cs').
Proof.
  intros Hk. pose proof (off_S _ _ _ Hk). pose proof (encode_length i).
  assert (off cs' (length cs') = Z.of_nat (length (code_bytes cs'))) as -> by (unfold off; by rewrite take_ge).
  pose proof (off_le cs' (S k)). lia.
Qed.

Lemma off_end cs' : off cs' (length cs') = Z.of_nat (length (code_bytes cs')).
Proof. unfold off. by rewrite take_ge. Qed.

Lemma constant_ranges : 0 <= CHUNK_LOW_BITS < 2 ^ 32 /\ 0 <= BLOCK_MARK < 2 ^ 64 /\ 0 <= Q_CHUNKS_SIZE < 2 ^ 32.
Proof. by vm_compute. Qed.

Lemma queue_ranges s h : queue_inv Q_CHUNKS_SIZE CHUNK_WORDS s h ->
  0 <= head s < Q_CHUNKS_SIZE /\ (owns (q_ppc s) = true -> 0 <= prev_head s < Q_CHUNKS_SIZE) /\
  0 <= tail s < Q_CHUNKS_SIZE /\ 0 <= prev_tail s < Q_CHUNKS_SIZE.
Proof.
  intros I. destruct constants_ok as [HN HW].
  pose proof (inv_producer _ _ _ _ I) as [_ P]. pose proof (inv_consumer _ _ _ _ I) as (C1 & C2 & _).
  rewrite C1, C2. destruct (owns (q_ppc s)).
  - destruct P as [-> ->]. repeat split; intros; apply slot_range; done.
  - rewrite P. repeat split; intros; try apply slot_range; done.
Qed.

(** ** The simulation

    An operation in execution is described by the next of its instructions that
    touches a flag or a record, its anchor; the instructions before that are
    silent. The anchors are in the routines, so they carry the place in the
    operation's own code where the routine returns. *)

Inductive rtn : Type := ONE | RADDR_RT | WADDR_RT.
Inductive cont : Type := K_end | K_first | K_second.

Definition rtn_off (rn : rtn) : Z :=
  match rn with
  | ONE => rt_enqueue_one_rec
  | RADDR_RT => rt_enqueue_raddr + 26
  | WADDR_RT => rt_enqueue_waddr + 26
  end.

Lemma rtn_range rn : 0 <= rtn_off rn <= 2074.
Proof. by destruct rn. Qed.

Section Simulation.
Context (L : layout) (ops : list tcg_op) (m0 : memory) (HL : layout_ok L ops).
(** The operation, its address, the runtime before it, the guest address, and
    the calls of the operations after it. *)
Context (op : tcg_op) (st : Z) (r : runtime) (x : Z) (fut : list qcmd).
Context (Hop : knows L ops m0 st (op_code L op)).
Context (Hst : L_tb L <= st /\ st + Z.of_nat (length (code_bytes (op_code L op))) <= L_tb L + Z.of_nat (length (tb_bytes L ops))).
Local Abbreviation mem_ok := (mem_ok L ops m0).
Local Abbreviation silent := (silent L ops m0).
Local Abbreviation knows := (knows L ops m0).
Local Abbreviation N := Q_CHUNKS_SIZE.
Local Abbreviation W := CHUNK_WORDS.
Local Abbreviation cs := (op_code L op).
Local Abbreviation tail_at rn := (L_rt L + rtn_off rn).
Local Abbreviation tcs rn := (tail_code L (rtn_off rn)).
Local Abbreviation fin_at := (L_rt L + rt_finish_curr_block).
Local Abbreviation next_at := (L_rt L + rt_get_next_enqptr).

Definition second_word : Z :=
  u64 (Z.shiftl (rt_loc r) 0x20) .| u64 (Z.shiftl (rt_cntr r) 0x10) .| rt_off r.

Definition rt_is (V : var -> Z) (r : runtime) : Prop :=
  V V_loc = rt_loc r /\ V V_cntr = rt_cntr r /\ V V_off = rt_off r.

Definition after_op : runtime := tcg_out_dift op x x r.

(** Returning to the operation: where, and what is left to do. *)
Definition ret_to (K : cont) : Z :=
  pos st cs (match K with K_end => length cs | K_first => 3 | K_second => 13 end).

Definition cont_ok (K : cont) (V : var -> Z) (p : list qcmd) : Prop :=
  match K with
  | K_end => p = fut /\ rt_is V after_op
  | K_first => (exists cl, op = op_qemu_dift_tb_begin cl) /\ rt_is V r /\ p = QEnq second_word :: fut
  | K_second => (exists cl, op = op_qemu_dift_tb_begin cl) /\ p = fut
  end.

(** The queue variables are those of the abstract state. *)
Definition ring_is (V : var -> Z) (s : qstate) : Prop :=
  exists i, enqptr s = Some i /\ 0 <= i < 2 ^ 32 /\ V V_enqptr = L_rec L + 8 * i /\
    V V_head = head s /\ V V_prev_head = prev_head s.

Inductive anchor : ustate -> qstate -> Prop :=
| at_store rn K i w z V p s :
    cont_ok K V p -> q_ppc s = PCmd -> q_prog s = QEnq w :: p -> 0 <= w < 2 ^ 64 ->
    ring_is V s -> enqptr s = Some i ->
    anchor (U (pos (tail_at rn) (tcs rn) 1) (L_rec L + 8 * i) w z V [ret_to K]) s
| at_fill rn K ra z V s :
    cont_ok K V (q_prog s) -> q_ppc s = PFinish -> V V_head = head s -> V V_prev_head = prev_head s ->
    anchor (U (pos fin_at (finish_code L) 7) ra (L_flag L + 8 * prev_head s) z V
              [pos (tail_at rn) (tcs rn) 8; ret_to K]) s
| at_load rn K ra z V s :
    cont_ok K V (q_prog s) -> q_ppc s = PWait -> V V_head = head s -> V V_prev_head < 2 ^ 32 ->
    anchor (U (pos next_at (next_code L) 5) ra (L_flag L + 8 * head s) z V
              [pos (tail_at rn) (tcs rn) 9; ret_to K]) s
| at_take rn K ra z V s :
    cont_ok K V (q_prog s) -> q_ppc s = PTake -> V V_head = head s -> V V_prev_head < 2 ^ 32 ->
    anchor (U (pos next_at (next_code L) 8) ra (L_flag L + 8 * head s) z V
              [pos (tail_at rn) (tcs rn) 9; ret_to K]) s
| at_end ra d z V s :
    rt_is V after_op -> q_ppc s = PCmd -> q_prog s = fut -> ring_is V s ->
    anchor (U (ret_to K_end) ra d z V []) s.

(** One silent instruction that is not past the operation's end. *)
Definition inner (u u' : ustate) : Prop := silent u u' /\ u_rip u <> ret_to K_end.

(** On the way to an anchor. *)
Definition heading (u : ustate) (s : qstate) : Prop := exists u1, rtc inner u u1 /\ anchor u1 s.

(** The operation's own code, or code in the buffer of routines. *)
Definition known (a : Z) (cs' : list instr) : Prop :=
  knows a cs' /\
  ((a = st /\ cs' = cs) \/ (L_rt L <= a /\ a + Z.of_nat (length (code_bytes cs')) <= L_rt L + 4096)).

Lemma known_inner a cs' k i : known a cs' -> cs' !! k = Some i -> pos a cs' k <> ret_to K_end.
Proof.
  intros [_ [[-> ->]|Ha]] Hk; pose proof (off_lt _ _ _ Hk) as Hl; unfold ret_to, pos; [lia|].
  rewrite off_end in *. pose proof (off_le cs' k). pose proof (lo_apart _ _ HL R_rt R_tb ltac:(discriminate)) as Hx.
  cbn [region_at fst snd] in Hx. lia.
Qed.

Lemma heading_code a cs' k i ra d z V stk u' s :
  known a cs' -> cs' !! k = Some i -> instr_ok i ->
  effect L ops m0 i (U (pos a cs' (S k)) ra d z V stk) u' ->
  heading u' s -> heading (U (pos a cs' k) ra d z V stk) s.
Proof.
  intros Hk Hi Ho He (u1 & R & A). exists u1. split; [|done]. eapply rtc_l; [|exact R]. split.
  - destruct Hk as [Hk _]. by eapply silent_code.
  - by eapply known_inner.
Qed.

Lemma heading_anchor u s : anchor u s -> heading u s.
Proof. intros. exists u. split; [apply rtc_refl|done]. Qed.

Lemma known_op : known st cs.
Proof. split; [exact Hop|by left]. Qed.

Lemma known_routine o cs' : (o, cs') ∈ routines L -> known (L_rt L + o) cs'.
Proof.
  intros Hin. split; [by apply knows_routine|]. right. pose proof (routine_extent _ _ _ Hin). lia.
Qed.

Lemma known_suffix a cs1 cs2 : L_rt L <= a -> a + Z.of_nat (length (code_bytes (cs1 ++ cs2))) <= L_rt L + 4096 ->
  known a (cs1 ++ cs2) -> known (a + Z.of_nat (length (code_bytes cs1))) cs2.
Proof.
  intros Ha Hl [Hk _]. split; [by apply knows_suffix|]. right.
  unfold code_bytes in *. rewrite bind_app, length_app in Hl. lia.
Qed.

Lemma known_addr rn last : (rn = RADDR_RT /\ last = V_read \/ rn = WADDR_RT /\ last = V_write) ->
  known (tail_at rn - 26) (addr_code L last ++ tcs rn) /\
  tail_at rn - 26 + Z.of_nat (length (code_bytes (addr_code L last ++ tcs rn))) <= L_rt L + 4096.
Proof.
  intros [[-> ->]|[-> ->]].
  - replace (tail_at RADDR_RT - 26) with (L_rt L + rt_enqueue_raddr) by (unfold rtn_off; lia).
    assert ((rt_enqueue_raddr, addr_code L V_read ++ tcs RADDR_RT) ∈ routines L) as Hin
      by (by apply (list_elem_of_lookup_2 _ 3)).
    pose proof (routine_extent _ _ _ Hin). split; [by apply known_routine|lia].
  - replace (tail_at WADDR_RT - 26) with (L_rt L + rt_enqueue_waddr) by (unfold rtn_off; lia).
    assert ((rt_enqueue_waddr, addr_code L V_write ++ tcs WADDR_RT) ∈ routines L) as Hin
      by (by apply (list_elem_of_lookup_2 _ 4)).
    pose proof (routine_extent _ _ _ Hin). split; [by apply known_routine|lia].
Qed.

Lemma known_tail rn : known (tail_at rn) (tcs rn).
Proof.
  assert (forall last, tail_at rn = tail_at rn - 26 + Z.of_nat (length (code_bytes (addr_code L last)))) as E
    by (intros v; change (Z.of_nat (length (code_bytes (addr_code L v)))) with 26; lia).
  destruct rn.
  - apply known_routine. by apply (list_elem_of_lookup_2 _ 2).
  - rewrite (E V_read). destruct (known_addr RADDR_RT V_read) as [K Hl]; [by left|].
    apply known_suffix; [unfold rtn_off, rt_enqueue_raddr; lia|done..].
  - rewrite (E V_write). destruct (known_addr WADDR_RT V_write) as [K Hl]; [by right|].
    apply known_suffix; [unfold rtn_off, rt_enqueue_waddr; lia|done..].
Qed.

Lemma known_finish : known fin_at (finish_code L).
Proof. apply known_routine. by apply (list_elem_of_lookup_2 _ 0). Qed.

Lemma known_next : known next_at (next_code L).
Proof. apply known_routine. by apply (list_elem_of_lookup_2 _ 1). Qed.

Lemma known_pos a cs' k : known a cs' -> 0 <= pos a cs' k < 2 ^ 47.
Proof. intros [Hk _]. by eapply pos_range. Qed.

Lemma effect_shl p ra d z V stk n : 0 < n < 64 ->
  effect L ops m0 (Shl RAX n) (U p ra d z V stk) (U p (u64 (Z.shiftl ra n)) d (u64 (Z.shiftl ra n) =? 0) V stk).
Proof.
  intros Hn m F R M. exists m. split; [|done]. cbn [exec get to_cpu rax u_rax].
  rewrite Z.mod_small by lia. destruct (Z.eqb_spec n 0); [lia|]. done.
Qed.

(** *** Running silent instructions *)

Ltac side := first
  [ assumption | reflexivity | discriminate | lia
  | intros; first [reflexivity | discriminate | assumption | lia | split; [reflexivity|assumption || lia]
                  | left; reflexivity | right; first [assumption | lia]
                  | unfold upd; simpl; lia | right; unfold upd; simpl; lia] ].

Ltac ranges := pose proof (table_range L ops HL); pose proof (var_range L ops HL V_enqptr);
  pose proof (var_range L ops HL V_head); pose proof (var_range L ops HL V_prev_head);
  pose proof (var_range L ops HL V_read); pose proof (var_range L ops HL V_write);
  pose proof (var_range L ops HL V_base); pose proof (var_range L ops HL V_loc);
  pose proof (var_range L ops HL V_cntr); pose proof (var_range L ops HL V_off).

Ltac offsets := unfold CHUNK_FILLED, CHUNK_FILLING, rt_get_next_enqptr, rt_finish_curr_block, rt_enqueue_one_rec,
  rt_enqueue_raddr, rt_enqueue_waddr in *.

Ltac fits := cbn [instr_ok];
  first [exact I | lia | apply constant_ranges | offsets; try pose proof constant_ranges; lia].

Ltac effect_tac :=
  lazymatch goal with
  | |- effect _ _ _ (LoadA _ _) _ _ => apply effect_loadA; side
  | |- effect _ _ _ (Shl _ _) _ _ => apply effect_shl; side
  | |- effect _ _ _ (CallReg _) _ _ => idtac
  | |- effect _ _ _ (CallRel _) _ _ => idtac
  | |- effect _ _ _ (StoreA _ _) _ _ => idtac
  | |- effect _ _ _ (Load _ _ _) _ _ => idtac
  | |- effect _ _ _ (Jcc _ _) _ _ => idtac
  | |- effect _ _ _ Retn _ _ => apply (effect_ret L ops m0 HL); simpl; lia
  | |- _ => apply effect_pure; reflexivity
  end.

Ltac show := cbv [run_pure exec to_cpu set set_zf get width alu_val rip rax rdx rsp zf mem
                  u_rip u_rax u_rdx u_zf u_var u_stk].

(** One silent instruction, the [k]th of the code known by [H]. *)
Ltac go H k :=
  eapply (heading_code _ _ k); [exact H|reflexivity|fits|effect_tac|show].

(** After the flag was set to filled: to the test of the next chunk. *)
Lemma run_to_load rn K ra d z V s :
  cont_ok K V (q_prog s) -> q_ppc s = PWait -> V V_head = head s -> V V_prev_head < 2 ^ 32 ->
  0 <= head s < N ->
  heading (U next_at ra d z V [pos (tail_at rn) (tcs rn) 9; ret_to K]) s.
Proof.
  intros HK Hp Hh Hph Hr. pose proof known_next as Hn. ranges.
  replace next_at with (pos next_at (next_code L) 0) at 1 by (unfold pos, off; simpl; lia).
  go Hn 0%nat. go Hn 1%nat. go Hn 2%nat. go Hn 3%nat. go Hn 4%nat.
  apply heading_anchor. rewrite Hh, slot_address by lia. by apply at_load.
Qed.

Definition ring_var (v : var) : bool :=
  match v with V_enqptr | V_head | V_prev_head => true | _ => false end.

Lemma cont_ok_upd K V p v y : ring_var v = true -> cont_ok K V p -> cont_ok K (upd V v y) p.
Proof. intros Hv. destruct K; simpl; unfold rt_is, upd; destruct v; discriminate || tauto. Qed.

(** A routine's tail, up to the store of the word. *)
Lemma run_to_store rn K ra w z V p s :
  cont_ok K V p -> q_ppc s = PCmd -> q_prog s = QEnq w :: p -> 0 <= w < 2 ^ 64 -> ring_is V s ->
  heading (U (tail_at rn) ra w z V [ret_to K]) s.
Proof.
  intros HK Hp Hq Hw HR. pose proof (known_tail rn) as Ht. ranges.
  replace (tail_at rn) with (pos (tail_at rn) (tcs rn) 0) by (unfold pos, off; simpl; lia).
  go Ht 0%nat. apply heading_anchor. destruct HR as (i & Hi & HR). rewrite (proj1 (proj2 HR)).
  eapply at_store; [done..| |done]. by exists i.
Qed.

(** A call of rt_enqueue_one_rec by instruction [k] of the operation. *)
Lemma run_call_one K k ra w z V p s :
  cs !! k = Some (CallReg RAX) -> ret_to K = pos st cs (S k) -> ra = L_rt L + rt_enqueue_one_rec ->
  cont_ok K V p -> q_ppc s = PCmd -> q_prog s = QEnq w :: p -> 0 <= w < 2 ^ 64 -> ring_is V s ->
  heading (U (pos st cs k) ra w z V []) s.
Proof.
  intros Hk HK -> Hc Hp Hq Hw HR. ranges. pose proof (known_pos st cs (S k) known_op).
  eapply heading_code; [exact known_op|exact Hk|exact I| |].
  - apply (effect_call L ops m0 HL _ _ _ _ _ _ _ (tail_at ONE)); [by left|unfold rtn_off; offsets; lia..|simpl; lia].
  - rewrite <- HK. by eapply run_to_store.
Qed.

Ltac store_tac := apply (effect_storeA L ops m0 HL); [discriminate|simpl; lia|
  first [intros; split; [reflexivity|apply u64_range] | side]|side].

Context (Hr : 0 <= rt_loc r < 2 ^ 32 /\ 0 <= rt_cntr r < 2 ^ 32 /\ 0 <= rt_off r < 2 ^ 32).

Lemma second_word_range : 0 <= second_word < 2 ^ 64.
Proof. unfold second_word. repeat apply lor_range; try apply u64_range. lia. Qed.

Lemma second_word_eq :
  u64 (u64 (u64 (u64 (Z.shiftl (rt_loc r) 32)) .| u64 (Z.shiftl (rt_cntr r) 16)) .| rt_off r) = second_word.
Proof.
  rewrite (u64_small (u64 _)) by apply u64_range.
  rewrite (u64_small (_ .| u64 _)) by (apply lor_range; apply u64_range).
  apply u64_small, second_word_range.
Qed.

(** The rest of a block begin after its second call. *)
Lemma run_second ra d z V s :
  cont_ok K_second V (q_prog s) -> q_ppc s = PCmd -> ring_is V s -> heading (U (ret_to K_second) ra d z V []) s.
Proof.
  intros ([cl E] & Hf) Hp HR. ranges.
  assert (0 <= u32 (cl / CONFIG_IF_CODES_PER_TB) < 2 ^ 32) by (apply Z.mod_pos_bound; lia).
  assert (known st (op_code L (op_qemu_dift_tb_begin cl))) as Ht by (rewrite <- E; exact known_op).
  assert (ret_to K_second = pos st (op_code L (op_qemu_dift_tb_begin cl)) 13) as ->
    by (unfold ret_to; by rewrite E).
  go Ht 13%nat. go Ht 14%nat; [store_tac|]. go Ht 15%nat. go Ht 16%nat; [store_tac|].
  go Ht 17%nat; [store_tac|]. apply heading_anchor.
  assert (pos st (op_code L (op_qemu_dift_tb_begin cl)) 18 = ret_to K_end) as ->
    by (unfold ret_to; by rewrite E).
  apply at_end; [|done..|].
  - unfold after_op. rewrite E, Z.lxor_nilpotent. unfold rt_is, upd. simpl.
    unfold u32. by rewrite Zmod_mod.
  - destruct HR as (i & HR). exists i. by unfold upd; simpl.
Qed.

(** Back in the operation. *)
Lemma run_return K ra d z V s :
  cont_ok K V (q_prog s) -> q_ppc s = PCmd -> ring_is V s -> heading (U (ret_to K) ra d z V []) s.
Proof.
  intros HK Hp HR. destruct K.
  - apply heading_anchor. destruct HK. by apply at_end.
  - destruct HK as ([cl E] & HV & Hf). ranges. destruct HV as (V1 & V2 & V3).
    assert (known st (op_code L (op_qemu_dift_tb_begin cl))) as Ht by (rewrite <- E; exact known_op).
    assert (ret_to K_first = pos st (op_code L (op_qemu_dift_tb_begin cl)) 3) as ->
      by (unfold ret_to; by rewrite E).
    go Ht 3%nat. go Ht 4%nat. go Ht 5%nat. go Ht 6%nat. go Ht 7%nat. go Ht 8%nat. go Ht 9%nat.
    go Ht 10%nat. go Ht 11%nat. rewrite <- E.
    rewrite V1, V2, V3, second_word_eq.
    eapply (run_call_one K_second); [by rewrite E|reflexivity|done|split; [by exists cl|done]|done..|
      exact second_word_range|done].
  - by apply run_second.
Qed.

Lemma tail_offsets o : off (tail_code L o) 8 = 40 /\ off (tail_code L o) 9 = 45.
Proof. split; reflexivity. Qed.

Lemma call_into o target p :
  target = p + o -> 0 <= target < 2 ^ 47 -> 0 <= p < 2 ^ 47 -> forall ra d z V stk, (length stk <= 2)%nat ->
  effect L ops m0 (CallRel o) (U p ra d z V stk) (U target ra d z V (p :: stk)).
Proof. intros Ht Hr1 Hr2 **. apply effect_call; [done|right; by exists o|lia..|done]. Qed.

(** The end of a chunk: to the store that marks it filled. *)
Lemma run_to_fill rn K ra d z V s :
  cont_ok K V (q_prog s) -> q_ppc s = PFinish -> V V_head = head s -> V V_prev_head = prev_head s ->
  0 <= prev_head s < N ->
  heading (U (pos (tail_at rn) (tcs rn) 7) ra d z V [ret_to K]) s.
Proof.
  intros HK Hp Hh Hph HN. pose proof (known_tail rn) as Ht. pose proof known_finish as Hf. ranges.
  pose proof (known_pos _ _ 8 Ht). pose proof (rtn_range rn). rewrite ring_size in HN.
  go Ht 7%nat.
  { apply (call_into _ (pos fin_at (finish_code L) 0)); [|by apply known_pos|done|simpl; lia].
    unfold pos. rewrite (proj1 (tail_offsets _)). change (off (finish_code L) 0) with 0. lia. }
  go Hf 0%nat. go Hf 1%nat. go Hf 2%nat; [store_tac|]. go Hf 3%nat.
  go Hf 4%nat. go Hf 5%nat. go Hf 6%nat. apply heading_anchor. unfold upd at 2. simpl.
  rewrite Hph, slot_address by (rewrite ?ring_size; lia). apply at_fill; [|done..].
  by apply cont_ok_upd.
Qed.

(** After the store of the word. [i] is where it was stored. *)
Lemma run_after_store rn K i w z V s :
  cont_ok K V (q_prog s) -> enqptr s = Some (i + 1) -> 0 <= i < N * W ->
  q_ppc s = (if at_chunk W (Some (i + 1)) then PFinish else PCmd) ->
  V V_head = head s -> V V_prev_head = prev_head s -> 0 <= prev_head s < N ->
  heading (U (pos (tail_at rn) (tcs rn) 2) (L_rec L + 8 * i) w z V [ret_to K]) s.
Proof.
  intros HK He Hi Hp Hh Hph HN. pose proof (known_tail rn) as Ht. ranges. pose proof (rtn_range rn).
  assert (N * W = 2 ^ 21) as EN by reflexivity.
  go Ht 2%nat. rewrite u64_small by lia. replace (L_rec L + 8 * i + 8) with (L_rec L + 8 * (i + 1)) by lia.
  go Ht 3%nat. rewrite (proj1 (low_bits (L_rec L) (i + 1) ltac:(lia) (lo_aligned _ _ HL) ltac:(lia))).
  go Ht 4%nat; [store_tac|]. change ((i + 1) mod W =? 0) with (at_chunk W (Some (i + 1))).
  destruct (at_chunk W (Some (i + 1))).
  - go Ht 5%nat; [apply (effect_jump L ops m0 _ _ _ _ _ _ _ _ (pos (tail_at rn) (tcs rn) 7));
      [done|unfold pos; rewrite (off_S _ 6 Retn) by done; simpl; lia|]|].
    { pose proof (known_pos _ _ 7 Ht). lia. }
    apply run_to_fill; [by apply cont_ok_upd|done..].
  - go Ht 5%nat; [by apply effect_no_jump|]. go Ht 6%nat.
    apply run_return; [by apply cont_ok_upd|done|]. exists (i + 1). unfold upd. simpl. split_and!; done || lia.
Qed.

(** After the chunk was marked filled. *)
Lemma run_after_fill rn K ra d z V s :
  cont_ok K V (q_prog s) -> q_ppc s = PWait -> V V_head = head s -> V V_prev_head < 2 ^ 32 -> 0 <= head s < N ->
  heading (U (pos fin_at (finish_code L) 8) ra d z V [pos (tail_at rn) (tcs rn) 8; ret_to K]) s.
Proof.
  intros HK Hp Hh Hph HN. pose proof (known_tail rn) as Ht. pose proof known_finish as Hf.
  pose proof known_next as Hn. ranges. pose proof (rtn_range rn). pose proof (known_pos _ _ 9 Ht).
  go Hf 8%nat. go Ht 8%nat.
  { apply (call_into _ next_at); [|offsets; lia|done|simpl; lia].
    unfold pos. rewrite (proj2 (tail_offsets _)). offsets. lia. }
  by apply run_to_load.
Qed.

(** After the flag of the next chunk was loaded. *)
Lemma run_after_load rn K fl z V s :
  cont_ok K V (q_prog s) -> q_ppc s = (if fl =? CHUNK_AVAILABLE then PTake else PWait) ->
  V V_head = head s -> V V_prev_head < 2 ^ 32 -> 0 <= head s < N -> 0 <= fl < 4 ->
  heading (U (pos next_at (next_code L) 6) fl (L_flag L + 8 * head s) z V [pos (tail_at rn) (tcs rn) 9; ret_to K]) s.
Proof.
  intros HK Hp Hh Hph HN Hfl. pose proof known_next as Hn. ranges.
  go Hn 6%nat. rewrite Z.land_diag, u64_small by lia. unfold CHUNK_AVAILABLE in Hp.
  destruct (fl =? 0).
  - go Hn 7%nat; [by apply effect_no_jump|]. apply heading_anchor. by apply at_take.
  - go Hn 7%nat; [apply (effect_jump L ops m0 _ _ _ _ _ _ _ _ next_at); [done| |offsets; lia]|].
    { unfold pos. change (off (next_code L) 8) with 37. lia. }
    by apply run_to_load.
Qed.

(** After the next chunk was marked as being filled: [s] has taken it already. *)
Lemma run_after_take rn K ra d z V s :
  cont_ok K V (q_prog s) -> q_ppc s = PCmd -> V V_head = prev_head s -> V V_prev_head < 2 ^ 32 ->
  0 <= prev_head s < N -> enqptr s = Some (prev_head s * W) -> head s = (prev_head s + 1) mod N ->
  heading (U (pos next_at (next_code L) 9) ra d z V [pos (tail_at rn) (tcs rn) 9; ret_to K]) s.
Proof.
  intros HK Hp Hh Hph HN He Hh'. pose proof known_next as Hn. pose proof (known_tail rn) as Ht. ranges.
  assert (0 <= prev_head s < 2 ^ 12) by (rewrite <- ring_size; done).
  assert (W = 2 ^ 9) as EW by reflexivity. assert (N * W = 2 ^ 21) as EN by reflexivity.
  go Hn 9%nat. rewrite Hh. go Hn 10%nat. go Hn 11%nat. go Hn 12%nat. rewrite slot_address by lia.
  go Hn 13%nat; [by apply (effect_load_ptr L ops m0 (prev_head s))|].
  go Hn 14%nat; [store_tac|]. go Hn 15%nat. unfold upd at 1; simpl. rewrite Hh.
  go Hn 16%nat; [store_tac|]. go Hn 17%nat. go Hn 18%nat. rewrite next_slot by done.
  go Hn 19%nat; [store_tac|]. go Hn 20%nat. go Hn 21%nat. go Ht 9%nat.
  assert (0 <= (prev_head s + 1) mod N < 2 ^ 32) by (rewrite ring_size; pose proof (Z.mod_pos_bound (prev_head s + 1) (2 ^ 12)); lia).
  apply run_return; [by repeat apply cont_ok_upd|done|].
  exists (prev_head s * W). unfold upd. simpl. rewrite Hh'. unfold u32.
  rewrite !(Z.mod_small _ (2 ^ 32)) by lia. split_and!; try done; rewrite ?EW; lia.
Qed.

(** The words an operation queues, and the immediates it is given. *)
Definition op_words : list Z :=
  match op with
  | op_qemu_dift_inc_diftcodes _ => []
  | op_qemu_dift_enq_i64 arg => [arg]
  | op_qemu_dift_enq_wa | op_qemu_dift_enq_ra => [x]
  | op_qemu_dift_tb_begin _ => [BLOCK_MARK; second_word]
  end.

Definition op_ok : Prop :=
  match op with
  | op_qemu_dift_inc_diftcodes v | op_qemu_dift_enq_i64 v => 0 <= v < 2 ^ 64
  | _ => True
  end.

(** The routines for addresses: the word is the host address less the base. *)
Lemma run_addr (rn : rtn) (last : var) ra d z V p s :
  (rn = RADDR_RT /\ last = V_read \/ rn = WADDR_RT /\ last = V_write) ->
  V last = u64 (V V_base + x) -> 0 <= x < 2 ^ 64 -> cont_ok K_end V p -> q_ppc s = PCmd ->
  q_prog s = QEnq x :: p -> ring_is V s ->
  heading (U (tail_at rn - 26) ra d z V [ret_to K_end]) s.
Proof.
  intros Hl HV Hx HK Hp Hq HR. ranges. pose proof (var_range L ops HL last) as Hv.
  destruct (known_addr rn last Hl) as [Ha _].
  replace (tail_at rn - 26) with (pos (tail_at rn - 26) (addr_code L last ++ tcs rn) 0)
    by (unfold pos, off; simpl; lia).
  assert (var_size last = 8%nat) as Hs by (by destruct Hl as [[_ ->]|[_ ->]]).
  go Ha 0%nat. go Ha 1%nat; [by apply (effect_load_var L ops m0 RDX last)|]. go Ha 2%nat. go Ha 3%nat.
  assert (u64 (V last - V V_base) = x) as ->.
  { rewrite HV. unfold u64. rewrite Zminus_mod_idemp_l. replace (V V_base + x - V V_base) with x by lia.
    by apply Z.mod_small. }
  assert (pos (tail_at rn - 26) (addr_code L last ++ tcs rn) 4 = tail_at rn) as ->
    by (unfold pos; change (off (addr_code L last ++ tcs rn) 4) with 26; lia).
  by eapply run_to_store.
Qed.

(** A whole operation, from its first instruction. *)
Lemma run_op ra d z V s :
  op_ok -> 0 <= x < 2 ^ 64 -> rt_is V r -> ring_is V s -> q_ppc s = PCmd ->
  (op = op_qemu_dift_enq_wa -> V V_write = u64 (V V_base + x)) -> (op = op_qemu_dift_enq_ra -> V V_read = u64 (V V_base + x)) ->
  q_prog s = map QEnq op_words ++ fut -> heading (U st ra d z V []) s.
Proof.
  intros Ho Hx HV HR Hp Haw Har Hq. ranges.
  unfold op_words, op_ok in *. assert (exists o, op = o) as [o E] by (by exists op).
  assert (known st (op_code L o)) as Ht by (rewrite <- E; exact known_op). rewrite E in Ho, Haw, Har, Hq.
  replace st with (pos st (op_code L o) 0) by (unfold pos, off; simpl; lia).
  destruct o as [idx|arg| | |cl]; simpl in Hq.
  - go Ht 0%nat. go Ht 1%nat; [store_tac|]. apply heading_anchor.
    assert (pos st (op_code L (op_qemu_dift_inc_diftcodes idx)) 2 = ret_to K_end) as ->
      by (unfold ret_to; by rewrite E).
    apply at_end; [|done..].
    unfold after_op. rewrite E. destruct HV as (? & ? & ?). by unfold rt_is, upd.
  - go Ht 0%nat. go Ht 1%nat. rewrite <- E.
    eapply (run_call_one K_end); [by rewrite E|unfold ret_to; by rewrite E|done| |done..].
    split; [done|]. unfold after_op. by rewrite E.
  - go Ht 0%nat. pose proof (known_pos _ _ 2 Ht). pose proof (Haw eq_refl) as Hw.
    go Ht 1%nat; [apply effect_call; [done|by left|offsets; lia|lia|simpl; lia]|].
    assert (pos st (op_code L op_qemu_dift_enq_wa) 2 = ret_to K_end) as -> by (unfold ret_to; by rewrite E).
    replace (L_rt L + rt_enqueue_waddr) with (tail_at WADDR_RT - 26) by (unfold rtn_off; lia).
    eapply (run_addr WADDR_RT V_write); [by right|done..| |done|done|done].
    split; [done|]. unfold after_op. by rewrite E.
  - go Ht 0%nat. pose proof (known_pos _ _ 2 Ht). pose proof (Har eq_refl) as Hw.
    go Ht 1%nat; [apply effect_call; [done|by left|offsets; lia|lia|simpl; lia]|].
    assert (pos st (op_code L op_qemu_dift_enq_ra) 2 = ret_to K_end) as -> by (unfold ret_to; by rewrite E).
    replace (L_rt L + rt_enqueue_raddr) with (tail_at RADDR_RT - 26) by (unfold rtn_off; lia).
    eapply (run_addr RADDR_RT V_read); [by left|done..| |done|done|done].
    split; [done|]. unfold after_op. by rewrite E.
  - go Ht 0%nat. go Ht 1%nat. rewrite <- E.
    eapply (run_call_one K_first); [by rewrite E|unfold ret_to; by rewrite E|done| |done|done|apply constant_ranges|done].
    split; [by exists cl|]. done.
Qed.

(** *** One step of the processor *)

(** What the analysis thread owns. *)
Definition cons_same (s s' : qstate) : Prop :=
  same_consumer s s' /\ in_block s' = in_block s /\ ok_signal s' = ok_signal s /\ recv s' = recv s.

(** The step leads to a state that is again on its way to an anchor, of the same
    abstract state or of the next one. *)
Definition simulated (u : ustate) (s : qstate) (m : memory) : Prop :=
  exists u' s' m', (s' = s \/ producer_step N W s = Moves s') /\ cons_same s s' /\
    cpu_step (to_cpu L u m) = Some (to_cpu L u' m') /\
    mem_ok m' (u_var u') (q_chunks_flag s') (q_records s') (u_stk u') /\ heading u' s'.

Lemma step_store rn K i w z V p s h m :
  cont_ok K V p -> q_ppc s = PCmd -> q_prog s = QEnq w :: p -> 0 <= w < 2 ^ 64 ->
  ring_is V s -> enqptr s = Some i -> queue_inv N W s h ->
  mem_ok m V (q_chunks_flag s) (q_records s) [ret_to K] ->
  simulated (U (pos (tail_at rn) (tcs rn) 1) (L_rec L + 8 * i) w z V [ret_to K]) s m.
Proof.
  intros HK Hp Hq Hw HR He I M. destruct (known_tail rn) as [Ht _].
  destruct (queue_ranges s h I) as (_ & Hph & _). rewrite Hp in Hph. specialize (Hph eq_refl).
  destruct constants_ok as [HN HW]. destruct (no_faults N W HN HW s h I) as [NF _].
  destruct HR as (i' & He' & _ & _ & Hh & Hph'). rewrite He in He'. injection He' as <-.
  unfold producer_step, dift_rec_enqueue in NF. rewrite Hp, Hq, He in NF.
  destruct (in_records N W i) eqn:Ei; [|done]. clear NF.
  assert (0 <= i < N * W) as Hi by (unfold in_records in Ei; bool_to_prop; lia).
  exists (U (pos (tail_at rn) (tcs rn) 2) (L_rec L + 8 * i) w z V [ret_to K]). eexists.
  exists (sd 8 m (L_rec L + 8 * i) w). split_and!.
  - right. unfold producer_step, dift_rec_enqueue. rewrite Hp, Hq, He, Ei. reflexivity.
  - done.
  - by eapply (to_cpu_step L ops m0 _ _ 1 (Store true RAX RDX)).
  - eapply store_rec; [done|exact M|done|done|simpl; lia].
  - by apply run_after_store.
Qed.

Lemma step_fill rn K ra z V s h m :
  cont_ok K V (q_prog s) -> q_ppc s = PFinish -> V V_head = head s -> V V_prev_head = prev_head s ->
  queue_inv N W s h -> mem_ok m V (q_chunks_flag s) (q_records s) [pos (tail_at rn) (tcs rn) 8; ret_to K] ->
  simulated (U (pos fin_at (finish_code L) 7) ra (L_flag L + 8 * prev_head s) z V
               [pos (tail_at rn) (tcs rn) 8; ret_to K]) s m.
Proof.
  intros HK Hp Hh Hph I M. destruct known_finish as [Hf _].
  destruct (queue_ranges s h I) as (Hhr & Hpr & _). rewrite Hp in Hpr. specialize (Hpr eq_refl).
  exists (U (pos fin_at (finish_code L) 8) ra (L_flag L + 8 * prev_head s) z V [pos (tail_at rn) (tcs rn) 8; ret_to K]).
  eexists. exists (sd 4 m (L_flag L + 8 * prev_head s) CHUNK_FILLED). split_and!.
  - right. unfold producer_step. rewrite Hp. reflexivity.
  - done.
  - by eapply (to_cpu_step L ops m0 _ _ 7 (StoreImm RDX CHUNK_FILLED)).
  - eapply store_flag; [done|exact M|done|by left|done|simpl; lia].
  - apply run_after_fill; [done|done|done| |done]. rewrite Hph. rewrite ring_size in Hpr. lia.
Qed.

Lemma step_load rn K ra z V s h m :
  cont_ok K V (q_prog s) -> q_ppc s = PWait -> V V_head = head s -> V V_prev_head < 2 ^ 32 ->
  queue_inv N W s h -> mem_ok m V (q_chunks_flag s) (q_records s) [pos (tail_at rn) (tcs rn) 9; ret_to K] ->
  simulated (U (pos next_at (next_code L) 5) ra (L_flag L + 8 * head s) z V
               [pos (tail_at rn) (tcs rn) 9; ret_to K]) s m.
Proof.
  intros HK Hp Hh Hph I M. destruct known_next as [Hn _].
  destruct (queue_ranges s h I) as (Hhr & _).
  pose proof (mo_flag _ _ _ _ _ _ _ _ M _ Hhr) as Ef. pose proof (mo_small _ _ _ _ _ _ _ _ M (head s)) as Hs.
  set (fl := flag (q_chunks_flag s) (head s)) in *.
  exists (U (pos next_at (next_code L) 6) fl (L_flag L + 8 * head s) z V [pos (tail_at rn) (tcs rn) 9; ret_to K]).
  exists (if fl =? CHUNK_AVAILABLE then with_prog s (q_prog s) PTake (ok_signal s) else s). exists m. split_and!.
  - unfold producer_step. rewrite Hp. fold fl. case_if; [by right|by left].
  - by case_if.
  - rewrite <- Ef. by eapply (to_cpu_step L ops m0 _ _ 5 (Load true RAX RDX)).
  - by case_if.
  - destruct (fl =? CHUNK_AVAILABLE) eqn:Ea.
    + apply (run_after_load rn K fl z V (with_prog s (q_prog s) PTake (ok_signal s))); rewrite ?Ea; done.
    + apply run_after_load; rewrite ?Ea; done.
Qed.

Lemma step_take_chunk rn K ra z V s h m :
  cont_ok K V (q_prog s) -> q_ppc s = PTake -> V V_head = head s -> V V_prev_head < 2 ^ 32 ->
  queue_inv N W s h -> mem_ok m V (q_chunks_flag s) (q_records s) [pos (tail_at rn) (tcs rn) 9; ret_to K] ->
  simulated (U (pos next_at (next_code L) 8) ra (L_flag L + 8 * head s) z V
               [pos (tail_at rn) (tcs rn) 9; ret_to K]) s m.
Proof.
  intros HK Hp Hh Hph I M. destruct known_next as [Hn _]. destruct (queue_ranges s h I) as (Hhr & _).
  exists (U (pos next_at (next_code L) 9) ra (L_flag L + 8 * head s) z V [pos (tail_at rn) (tcs rn) 9; ret_to K]).
  exists (take_chunk N W s). exists (sd 4 m (L_flag L + 8 * head s) CHUNK_FILLING). split_and!.
  - right. unfold producer_step. by rewrite Hp.
  - done.
  - by eapply (to_cpu_step L ops m0 _ _ 8 (StoreImm RDX CHUNK_FILLING)).
  - eapply store_flag; [done|exact M|done|by left|done|simpl; lia].
  - by apply run_after_take.
Qed.

(** The processor steps from every state on its way to an anchor, unless the
    operation is at its end. *)
Lemma heading_step u s h m :
  heading u s -> queue_inv N W s h -> mem_ok m (u_var u) (q_chunks_flag s) (q_records s) (u_stk u) ->
  (u_rip u <> ret_to K_end -> simulated u s m) /\
  (u_rip u = ret_to K_end -> exists ra d z V, u = U (ret_to K_end) ra d z V [] /\
     rt_is V after_op /\ q_ppc s = PCmd /\ q_prog s = fut /\ ring_is V s).
Proof.
  intros (u1 & R & A) I M. destruct R as [u1|u u' u1 [Hs He] R].
  - assert (forall a cs' k i, known a cs' -> cs' !! k = Some i -> pos a cs' k = ret_to K_end -> False) as Hne
      by (intros; by eapply known_inner).
    destruct A as [rn K i w z V p s HK Hp Hq Hw HR He|rn K ra z V s HK Hp Hh Hph|rn K ra z V s HK Hp Hh Hph
      |rn K ra z V s HK Hp Hh Hph|ra d z V s HV Hp Hq HR]; cbn [u_rip u_var u_stk] in *; split; intros E.
    + by eapply step_store.
    + exfalso. eapply (Hne _ _ 1%nat); [apply (known_tail rn)|done|exact E].
    + by eapply step_fill.
    + exfalso. eapply (Hne _ _ 7%nat); [apply known_finish|done|exact E].
    + by eapply step_load.
    + exfalso. eapply (Hne _ _ 5%nat); [apply known_next|done|exact E].
    + by eapply step_take_chunk.
    + exfalso. eapply (Hne _ _ 8%nat); [apply known_next|done|exact E].
    + done.
    + by exists ra, d, z, V.
  - split; [|done]. intros _. destruct (Hs m _ _ M) as (m' & E & M'). exists u', s, m'.
    split_and!; [by left|done..|by exists u1].
Qed.
End Simulation.

(** ** The program image

    The memory when the block starts: the code, [q_chunks_ptr] and the flags as
    init_queue sets them, the variables; the rest is zero. *)

Section Image.
Context (L : layout) (ops : list tcg_op) (r : runtime) (base : Z).

Definition rt_image : list Z :=
  match pre_generate_routine L 0 with
  | Ret T => (fun k => tbl_get T (Z.of_nat k)) <$> seq 0 (Z.to_nat 4096)
  | _ => []
  end.

Definition ptr_image : list Z :=
  seq 0 (Z.to_nat Q_CHUNKS_SIZE) ≫= fun i => le_bytes 8 (L_rec L + 8 * (Z.of_nat i * CHUNK_WORDS)).

Definition image (g : region) : list Z :=
  match g with
  | R_var v => le_bytes (var_size v) (start_vars L r base v)
  | R_flag => le_bytes 8 CHUNK_FILLING
  | R_ptr => ptr_image
  | R_rt => rt_image
  | R_tb => tb_bytes L ops
  | R_rec | R_stack => []
  end.

Definition regions : list region :=
  [R_var V_enqptr; R_var V_head; R_var V_prev_head; R_var V_read; R_var V_write; R_var V_base; R_var V_loc;
   R_var V_cntr; R_var V_off; R_flag; R_ptr; R_rec; R_rt; R_tb; R_stack].

(** Bytes placed in memory. *)
Fixpoint load_bytes (m : memory) (a : Z) (bs : list Z) : memory :=
  match bs with
  | [] => m
  | b :: bs' => load_bytes (<[a := b]> m) (a + 1) bs'
  end.

Fixpoint load_regions (gs : list region) : memory :=
  match gs with
  | [] => ∅
  | g :: gs' => load_bytes (load_regions gs') (region_at L ops g).1 (image g)
  end.

Definition start_memory : memory := load_regions regions.
End Image.

(** The words that operations queue. *)
Definition words (ops : list tcg_op) (xs : list Z) (r : runtime) : list Z :=
  rt_words (run_ops ops xs (Runtime (rt_loc r) (rt_cntr r) (rt_off r) [])).1.

(** ** Lemmas: the program image *)

Lemma byte_load_bytes bs : forall m a x,
  Forall (fun b => 0 <= b < 256) bs ->
  byte (load_bytes m a bs) x = (if within a (Z.of_nat (length bs)) x then bs !!! Z.to_nat (x - a) else byte m x).
Proof.
  induction bs as [|b bs IH]; intros m a x Hb; cbn [load_bytes length].
  - split_tests; [lia|done].
  - inversion Hb as [|? ? Hb1 Hb2]; subst. rewrite IH by done. split_tests; try lia.
    + replace (Z.to_nat (x - a)) with (S (Z.to_nat (x - (a + 1)))) by lia. done.
    + assert (x = a) as -> by lia. rewrite Z.sub_diag. unfold byte. rewrite lookup_insert_eq.
      by apply Z.mod_small.
    + unfold byte. by rewrite lookup_insert_ne by lia.
Qed.

Lemma encode_range i : Forall (fun b => 0 <= b < 256) (encode i).
Proof.
  assert (forall v, 0 <= u8 v < 256) as Hu by (intros; apply Z.mod_pos_bound; lia).
  destruct i; repeat match goal with b : bool |- _ => destruct b | c : cond |- _ => destruct c
    | q : reg |- _ => destruct q | o : alu |- _ => destruct o end;
    cbn [encode rex app reg_num alu_code modrm_byte];
    repeat (apply le_bytes_range || (constructor; [done || apply Hu|]) || constructor).
Qed.

Lemma ld_le_bytes m a n v : code_at m a (le_bytes n v) -> ld n m a = v mod 256 ^ Z.of_nat n.
Proof.
  intros H. rewrite <- le_word_byte_of. apply le_word_ext. intros k Hk.
  rewrite <- (H (Z.to_nat k) (byte_of v k)); [f_equal; lia|].
  unfold le_bytes. rewrite list_lookup_fmap, lookup_seq_lt by lia. simpl. do 2 f_equal. lia.
Qed.

Lemma code_at_bind {A} (f : A -> list Z) n m a (l : list A) i y :
  (forall y, length (f y) = n) -> code_at m a (l ≫= f) -> l !! i = Some y ->
  code_at m (a + Z.of_nat n * Z.of_nat i) (f y).
Proof.
  intros Hn. revert a i. induction l as [|z l IH]; intros a i Hc Hi; [done|].
  rewrite bind_cons in Hc. apply code_at_app in Hc as [H1 H2]. destruct i as [|i]; simpl in Hi.
  - injection Hi as ->. by rewrite Z.mul_0_r, Z.add_0_r.
  - specialize (IH _ i H2 Hi). rewrite Hn in IH.
    by replace (a + Z.of_nat n * Z.of_nat (S i)) with (a + Z.of_nat n + Z.of_nat n * Z.of_nat i) by lia.
Qed.

Lemma code_bytes_range cs : Forall (fun b => 0 <= b < 256) (code_bytes cs).
Proof. apply Forall_forall. intros b Hb. apply list_elem_of_bind in Hb as (i & Hb & _).
  revert b Hb. apply Forall_forall, encode_range. Qed.

Lemma put_bytes_range bs : forall t a t', Forall (fun b => 0 <= b < 256) bs -> bytes_ok t ->
  put_bytes t a bs = Ret t' -> bytes_ok t'.
Proof.
  induction bs as [|b bs IH]; intros t a t' Hb Ht E; cbn [put_bytes] in E.
  - injection E as <-. done.
  - apply res_bind_inv in E as (t1 & E1 & E). inversion Hb; subst. eapply IH; [done| |exact E].
    unfold tbl_write in E1. destruct (tbl_ok t a); [|done]. injection E1 as <-.
    intros k. rewrite tbl_get_set. destruct (a =? k); [done|apply Ht].
Qed.

Lemma put_all_range rs : forall t T, bytes_ok t -> put_all t rs = Ret T -> bytes_ok T.
Proof.
  induction rs as [|[o cs] rs IH]; intros t T Ht E; cbn [put_all] in E.
  - injection E as <-. done.
  - apply res_bind_inv in E as (t1 & E1 & E). eapply IH; [|exact E].
    eapply put_bytes_range; [apply code_bytes_range|exact Ht|exact E1].
Qed.

Section StartMemory.
Context (L : layout) (ops : list tcg_op) (r : runtime) (base : Z) (HL : layout_ok L ops).
Local Abbreviation image := (image L ops r base).

Lemma pre_generate_range T : pre_generate_routine L 0 = Ret T -> bytes_ok T.
Proof.
  unfold pre_generate_routine. rewrite finish_bytes, next_bytes, one_bytes, raddr_bytes, waddr_bytes.
  change (_ = Ret T) with (put_all (tbl_new 4096) (routines L) = Ret T).
  apply put_all_range. intros k. by rewrite tbl_get_new.
Qed.

Lemma tb_bytes_range : Forall (fun b => 0 <= b < 256) (tb_bytes L ops).
Proof.
  apply Forall_forall. intros b Hb. apply list_elem_of_bind in Hb as (o & Hb & _).
  revert b Hb. apply Forall_forall. rewrite op_bytes. apply code_bytes_range.
Qed.

Lemma image_range g : Forall (fun b => 0 <= b < 256) (image g).
Proof.
  destruct g; unfold DiftAsm.image; [apply le_bytes_range|apply le_bytes_range| |constructor| | |constructor].
  - unfold ptr_image. apply Forall_forall. intros b Hb. apply list_elem_of_bind in Hb as (i & Hb & _).
    revert b Hb. apply Forall_forall, le_bytes_range.
  - unfold rt_image. destruct (pre_generate_routine L 0) as [T| |] eqn:E; [|constructor..].
    apply Forall_fmap, Forall_forall. intros k _. apply (pre_generate_range T E).
  - apply tb_bytes_range.
Qed.

Lemma ptr_image_length (l : list nat) (f : nat -> Z) : length (l ≫= fun i => le_bytes 8 (f i)) = (8 * length l)%nat.
Proof. induction l as [|i l IH]; [done|]. rewrite bind_cons, length_app, IH, le_bytes_length. simpl. lia. Qed.

Lemma image_length g : Z.of_nat (length (image g)) <= (region_at L ops g).2.
Proof.
  destruct g; unfold DiftAsm.image; cbn [region_at fst snd]; rewrite ?le_bytes_length.
  - lia.
  - by vm_compute.
  - unfold ptr_image. rewrite ptr_image_length, length_seq. rewrite ring_size. lia.
  - by vm_compute.
  - unfold rt_image. destruct (pre_generate_routine L 0); [|simpl; lia..].
    rewrite length_fmap, length_seq. lia.
  - lia.
  - by vm_compute.
Qed.

Lemma load_regions_other gs x :
  (forall g, g ∈ gs -> within (region_at L ops g).1 (Z.of_nat (length (image g))) x = false) ->
  byte (load_regions L ops r base gs) x = 0.
Proof.
  induction gs as [|g gs IH]; intros H; [done|]. cbn [load_regions].
  rewrite byte_load_bytes by apply image_range. rewrite H by constructor.
  apply IH. intros g' Hg. apply H. by constructor.
Qed.

Lemma load_regions_at gs g : NoDup gs -> g ∈ gs -> code_at (load_regions L ops r base gs) (region_at L ops g).1 (image g).
Proof.
  induction gs as [|g' gs IH]; intros Hd Hg k b Hk; [by apply elem_of_nil in Hg|].
  apply NoDup_cons in Hd as [Hn Hd]. cbn [load_regions]. rewrite byte_load_bytes by apply image_range.
  pose proof (lookup_lt_Some _ _ _ Hk) as Hl. pose proof (image_length g). pose proof (image_length g').
  apply elem_of_cons in Hg as [->|Hg].
  - destruct (within _ _ _) eqn:E; [|apply within_false in E; lia].
    apply list_lookup_total_correct. rewrite <- Hk. f_equal. lia.
  - assert (g <> g') as Hne by (intros ->; contradiction).
    pose proof (lo_apart _ _ HL g g' Hne). destruct (within _ _ _) eqn:E; [apply within_true in E; lia|].
    by apply IH.
Qed.

Lemma load_regions_zero gs g x :
  within (region_at L ops g).1 (region_at L ops g).2 x = true ->
  within (region_at L ops g).1 (Z.of_nat (length (image g))) x = false ->
  byte (load_regions L ops r base gs) x = 0.
Proof.
  intros Hx Hi. apply load_regions_other. intros g' _. destruct (decide (g = g')) as [<-|Hne]; [done|].
  apply within_true in Hx. pose proof (lo_apart _ _ HL g g' Hne). pose proof (image_length g').
  apply within_false. lia.
Qed.

(** A word of zeros in a region, past its image. *)
Lemma ld_zero gs g a :
  (region_at L ops g).1 + Z.of_nat (length (image g)) <= a -> inside L ops g a 8 ->
  ld 8 (load_regions L ops r base gs) a = 0.
Proof.
  intros Ha [H1 H2]. transitivity (le_word (fun _ => 0) 8); [|done]. apply le_word_ext.
  intros k Hk. apply (load_regions_zero gs g); [apply within_true|apply within_false]; lia.
Qed.

Context (Hv : forall v, 0 <= start_vars L r base v < 256 ^ Z.of_nat (var_size v)).

Lemma regions_nodup : NoDup regions.
Proof. apply (bool_decide_unpack _). by vm_compute. Qed.

Lemma image_at g : g ∈ regions -> code_at (start_memory L ops r base) (region_at L ops g).1 (image g).
Proof. apply load_regions_at, regions_nodup. Qed.

Lemma start_flag prog i : 0 <= i < Q_CHUNKS_SIZE ->
  ld 8 (start_memory L ops r base) (L_flag L + 8 * i) =
    flag (q_chunks_flag (queue_started Q_CHUNKS_SIZE prog)) i.
Proof.
  intros Hi. unfold queue_started, with_cpc. cbn [q_chunks_flag]. destruct (decide (i = 0)) as [->|Hne].
  - rewrite flag_ne by done. rewrite Z.mul_0_r, Z.add_0_r.
    apply (ld_le_bytes _ _ 8 CHUNK_FILLING). apply (image_at R_flag). by apply (list_elem_of_lookup_2 _ 9).
  - unfold start_memory. rewrite (ld_zero regions R_flag).
    + destruct (decide (i = Q_CHUNKS_SIZE - 1)) as [->|]; [by rewrite flag_eq|].
      rewrite flag_ne by done. unfold flag. by rewrite lookup_singleton_ne by done.
    + unfold DiftAsm.image. cbn [region_at fst]. rewrite le_bytes_length. lia.
    + by apply inside_flag.
Qed.

Lemma rt_image_lookup T k : pre_generate_routine L 0 = Ret T -> 0 <= k < 4096 ->
  image R_rt !! Z.to_nat k = Some (tbl_get T k).
Proof.
  intros E Hk. unfold DiftAsm.image, rt_image. rewrite E.
  rewrite list_lookup_fmap, lookup_seq_lt by lia. cbn [fmap option_fmap option_map Nat.add].
  by rewrite Z2Nat.id by lia.
Qed.

Lemma start_routines T k : pre_generate_routine L 0 = Ret T -> 0 <= k < 4096 ->
  byte (start_memory L ops r base) (L_rt L + k) = tbl_get T k.
Proof.
  intros E Hk. pose proof (image_at R_rt ltac:(by apply (list_elem_of_lookup_2 _ 12)) _ _ (rt_image_lookup T k E Hk)) as H.
  rewrite Z2Nat.id in H by lia. exact H.
Qed.

Lemma start_var v : ld (var_size v) (start_memory L ops r base) (L_var L v) = start_vars L r base v.
Proof.
  rewrite <- (Z.mod_small (start_vars L r base v) _ (Hv v)).
  apply ld_le_bytes, (image_at (R_var v)). destruct v; apply (bool_decide_unpack _); by vm_compute.
Qed.

Lemma start_small prog i : 0 <= flag (q_chunks_flag (queue_started Q_CHUNKS_SIZE prog)) i < 4.
Proof.
  unfold queue_started, with_cpc. cbn [q_chunks_flag].
  destruct (decide (i = Q_CHUNKS_SIZE - 1)) as [->|]; [by rewrite flag_eq|]. rewrite flag_ne by done.
  unfold flag. destruct (decide (i = 0)) as [->|]; [done|]. by rewrite lookup_singleton_ne by done.
Qed.

Lemma start_rec i : 0 <= i < Q_CHUNKS_SIZE * CHUNK_WORDS ->
  ld 8 (start_memory L ops r base) (L_rec L + 8 * i) = 0.
Proof.
  intros Hi. apply (ld_zero regions R_rec); [|by apply inside_rec].
  unfold DiftAsm.image. cbn [region_at fst length]. lia.
Qed.

Lemma start_ptr i : 0 <= i < Q_CHUNKS_SIZE ->
  ld 8 (start_memory L ops r base) (L_ptr L + 8 * i) = L_rec L + 8 * (i * CHUNK_WORDS).
Proof.
  intros Hi. pose proof (image_at R_ptr ltac:(by apply (list_elem_of_lookup_2 _ 10))) as H.
  unfold DiftAsm.image, ptr_image in H. cbn [region_at fst] in H.
  eapply (code_at_bind _ 8 _ _ _ (Z.to_nat i)) in H; [|intros; apply le_bytes_length|apply lookup_seq_lt].
  - apply ld_le_bytes in H. pose proof (table_range L ops HL). rewrite ring_size in Hi.
    assert (CHUNK_WORDS = 2 ^ 9) as EW by reflexivity. assert (Q_CHUNKS_SIZE * CHUNK_WORDS = 2 ^ 21) as EN by reflexivity.
    rewrite Z.mod_small in H by lia. cbn [Nat.add] in H. rewrite Z2Nat.id in H by lia. exact H.
  - rewrite ring_size in *. lia.
Qed.

Lemma start_memory_ok prog :
  mem_ok L ops (start_memory L ops r base) (start_memory L ops r base) (start_vars L r base)
    (q_chunks_flag (queue_started Q_CHUNKS_SIZE prog)) ∅ [].
Proof.
  constructor.
  - intros T E k. by apply start_routines.
  - apply (image_at R_tb). by apply (list_elem_of_lookup_2 _ 13).
  - apply start_var.
  - apply start_flag.
  - apply start_small.
  - intros i Hi. by rewrite start_rec.
  - apply start_ptr.
  - intros k x Hx. discriminate.
  - done.
  - simpl. lia.
Qed.
End StartMemory.

(** ** Lemmas: the two threads together *)

Definition xs_ok (xs : list Z) : Prop := Forall (fun x => 0 <= x < 2 ^ 64) xs.
Definition rt_ok (r : runtime) : Prop :=
  0 <= rt_loc r < 2 ^ 32 /\ 0 <= rt_cntr r < 2 ^ 32 /\ 0 <= rt_off r < 2 ^ 32.

(** The address operation [op] is given. *)
Definition op_addr (op : tcg_op) (xs : list Z) : Z := if uses_addr op then hd 0 xs else 0.

Lemma run_ops_cons op ops xs r :
  run_ops (op :: ops) xs r =
    run_ops ops (next_xs op xs) (tcg_out_dift op (op_addr op xs) (op_addr op xs) r).
Proof. by destruct op. Qed.

(** The words queued so far do not matter. *)
Lemma run_ops_words ops : forall xs l c o ws,
  run_ops ops xs (Runtime l c o ws) =
    let '(r', xs') := run_ops ops xs (Runtime l c o []) in
    (Runtime (rt_loc r') (rt_cntr r') (rt_off r') (ws ++ rt_words r'), xs').
Proof.
  induction ops as [|op ops IH]; intros xs l c o ws.
  - simpl. by rewrite app_nil_r.
  - rewrite !run_ops_cons. destruct op; unfold tcg_out_dift, enq; cbn [rt_loc rt_cntr rt_off rt_words app];
      rewrite IH; symmetry; try (by destruct (run_ops _ _ _));
      rewrite IH; destruct (run_ops _ _ _); cbn [rt_loc rt_cntr rt_off rt_words];
      by rewrite <- ?(assoc_L (++)).
Qed.

Lemma words_cons op ops xs r :
  words (op :: ops) xs r =
    op_words op r (op_addr op xs) ++ words ops (next_xs op xs) (after_op op r (op_addr op xs)).
Proof.
  unfold words, after_op. rewrite run_ops_cons.
  destruct op; unfold tcg_out_dift, enq; cbn [rt_loc rt_cntr rt_off rt_words app op_words]; try done;
    rewrite run_ops_words; destruct (run_ops _ _ _); reflexivity.
Qed.

Lemma after_op_ok op r x : rt_ok r -> rt_ok (after_op op r x).
Proof.
  assert (forall y, 0 <= u32 y < 2 ^ 32) as Hu by (intros; apply Z.mod_pos_bound; lia).
  intros (H1 & H2 & H3). unfold rt_ok, after_op. destruct op; simpl; done.
Qed.

(** The state variables after all operations. *)
Definition final_vars (ops : list tcg_op) (xs : list Z) (r : runtime) : Z * Z * Z :=
  let r' := (run_ops ops xs r).1 in (rt_loc r', rt_cntr r', rt_off r').

Lemma final_vars_cons op ops xs r :
  final_vars (op :: ops) xs r = final_vars ops (next_xs op xs) (after_op op r (op_addr op xs)).
Proof. unfold final_vars. by rewrite run_ops_cons. Qed.

Section System.
Context (L : layout) (ops : list tcg_op) (m0 : memory) (HL : layout_ok L ops).
Context (prog : list qcmd) (Hprog : framed false prog = true) (fin : Z * Z * Z).
Local Abbreviation mem_ok := (mem_ok L ops m0).
Local Abbreviation N := Q_CHUNKS_SIZE.
Local Abbreviation W := CHUNK_WORDS.

(** The analysis thread's variables. *)
Definition cons_is (c : consumer) (s : qstate) : Prop :=
  c_pc c = q_cpc s /\ c_tail c = tail s /\ c_prev_tail c = prev_tail s /\ c_in_block c = in_block s /\
  c_signal c = ok_signal s /\ c_recv c = recv s /\
  match deqptr s with
  | None => c_deqptr c = 0
  | Some i => c_deqptr c = L_rec L + 8 * i /\ 0 <= i < 2 ^ 32
  end.

(** Between two operations, or inside one. *)
Definition emu_is (u : ustate) (s : qstate) (todo : list tcg_op) (st : Z) (xs : list Z) (running : bool) : Prop :=
  if running then
    exists op rest r x, todo = op :: rest /\ rt_ok r /\
      heading L ops m0 op st r x (map QEnq (words rest xs (after_op op r x))) u s /\
      fin = final_vars rest xs (after_op op r x)
  else
    exists ra d z V r, u = U st ra d z V [] /\ rt_is V r /\ rt_ok r /\ ring_is L V s /\ q_ppc s = PCmd /\
      q_prog s = map QEnq (words todo xs r) /\ fin = final_vars todo xs r.

Record sys_rel (M : machine) (s : qstate) : Prop := {
  sr_reach : rtc (qstep N W) (queue_started N prog) s;
  sr_code : exists gone, ops = gone ++ m_ops M /\ m_start M = L_tb L + Z.of_nat (length (tb_bytes L gone));
  sr_ops : Forall op_ok (m_ops M);
  sr_xs : xs_ok (m_xs M);
  sr_cons : cons_is (m_cons M) s;
  sr_cpu : exists u, m_cpu M = to_cpu L u (mem (m_cpu M)) /\
    mem_ok (mem (m_cpu M)) (u_var u) (q_chunks_flag s) (q_records s) (u_stk u) /\
    emu_is u s (m_ops M) (m_start M) (m_xs M) (m_running M)
}.

(** *** The analysis thread moves *)

Lemma anchor_stable op st r x fut u s s' :
  same_producer s s' -> anchor L op st r x fut u s -> anchor L op st r x fut u s'.
Proof.
  intros (E1 & E2 & E3 & E4 & E5) A. destruct A; rewrite <- ?E4, <- ?E5.
  - eapply at_store; [eassumption|congruence..| |congruence]. unfold ring_is in *. by rewrite E3, E4, E5.
  - apply at_fill; congruence.
  - apply at_load; congruence.
  - apply at_take; congruence.
  - apply at_end; [done|congruence..|]. unfold ring_is in *. by rewrite E3, E4, E5.
Qed.

Lemma emu_stable u s s' todo st xs running :
  same_producer s s' -> emu_is u s todo st xs running -> emu_is u s' todo st xs running.
Proof.
  intros Hs. destruct running; simpl.
  - intros (op & rest & r & x & E & Hr & (u1 & R & A) & Hf). exists op, rest, r, x. split_and!; [done..| |done].
    exists u1. split; [done|]. by eapply anchor_stable.
  - destruct Hs as (E1 & E2 & E3 & E4 & E5). intros (ra & d & z & V & r & Eu & HV & Hr & HR & Hp & Hq & Hf).
    exists ra, d, z, V, r. unfold ring_is in *. rewrite E1, E2, E3, E4, E5. done.
Qed.

Lemma deq_chunk c s : cons_is c s -> chunk_start (c_deqptr c) = at_chunk W (deqptr s).
Proof.
  intros (_ & _ & _ & _ & _ & _ & E). unfold chunk_start. destruct (deqptr s) as [i|].
  - destruct E as [-> Hi]. pose proof (table_range L ops HL).
    apply (low_bits (L_rec L) i ltac:(lia) (lo_aligned _ _ HL) ltac:(lia)).
  - by rewrite E.
Qed.

Lemma consumer_sim m c s h V stk m' c' :
  queue_inv N W s h -> mem_ok m V (q_chunks_flag s) (q_records s) stk -> cons_is c s ->
  consumer_mem L m c = Some (m', c') ->
  exists s', consumer_step N W s = Moves s' /\ same_producer s s' /\
    mem_ok m' V (q_chunks_flag s') (q_records s') stk /\ cons_is c' s'.
Proof.
  intros I M C E. destruct (queue_ranges s h I) as (_ & _ & Ht & Hpt).
  pose proof (deq_chunk c s C) as Ed. pose proof (mo_depth _ _ _ _ _ _ _ _ M) as Hd.
  destruct constants_ok as [HN HW]. destruct (no_faults N W HN HW s h I) as [_ NF].
  pose proof C as (C1 & C2 & C3 & C4 & C5 & C6 & C7). unfold consumer_mem in E. rewrite C1 in E.
  unfold consumer_step in NF |- *. destruct (q_cpc s) eqn:Hc.
  - rewrite Ed in E. destruct (at_chunk W (deqptr s)) eqn:Ea; injection E as <- <-; eexists; (split; [reflexivity|]).
    + split_and!; [done..| |done]. rewrite C3. eapply store_flag; [done|exact M|done|by right|done|done].
    + split_and!; done.
  - rewrite C2, (mo_flag _ _ _ _ _ _ _ _ M _ Ht) in E.
    destruct (flag (q_chunks_flag s) (tail s) =? CHUNK_FILLED); [|done]. injection E as <- <-.
    eexists. split; [reflexivity|]. split_and!; done.
  - rewrite C2 in E.
    assert (mem_ok (sd 8 m (L_flag L + 8 * tail s) CHUNK_CONSUMING) V
              (<[tail s := CHUNK_CONSUMING]> (q_chunks_flag s)) (q_records s) stk) as M'
      by (eapply store_flag; [done|exact M|done|by right|done|done]).
    rewrite (mo_ptr _ _ _ _ _ _ _ _ M' _ Ht) in E. injection E as <- <-.
    eexists. split; [reflexivity|]. split_and!; [done..|]. unfold cons_is. simpl. split_and!; try done; [lia|].
    assert (W = 2 ^ 9) as -> by reflexivity. rewrite ring_size in Ht. lia.
  - unfold rec_dequeue in NF |- *. destruct (deqptr s) as [i|]; [|done]. destruct C7 as [C7 Hi].
    destruct (in_records N W i) eqn:Er; [|done]. unfold in_records in Er. bool_to_prop.
    rewrite C7, (mo_rec _ _ _ _ _ _ _ _ M i ltac:(lia)), C4 in E. fold (word_at s i) in E.
    injection E as <- <-. eexists. split; [reflexivity|]. split_and!; [done..|].
    unfold cons_is. simpl. split_and!; try done.
    + by rewrite C5.
    + by rewrite C6.
    + pose proof (table_range L ops HL). assert (N * W = 2 ^ 21) as EN by reflexivity.
      destruct (negb (in_block s) && (word_at s i =? SYNC_MARK)); [done|].
      rewrite u64_small by lia. lia.
Qed.

(** *** The emulation thread moves *)

Lemma current_op gone op rest st : ops = gone ++ op :: rest -> st = L_tb L + Z.of_nat (length (tb_bytes L gone)) ->
  knows L ops m0 st (op_code L op) /\
  (L_tb L <= st /\ st + Z.of_nat (length (code_bytes (op_code L op))) <= L_tb L + Z.of_nat (length (tb_bytes L ops))).
Proof.
  intros E ->. split; [by eapply knows_op|]. rewrite E. unfold tb_bytes.
  rewrite bind_app, bind_cons, !length_app, op_bytes. lia.
Qed.

Lemma code_end_op M op rest : m_ops M = op :: rest -> code_end L M = ret_to L op (m_start M) K_end.
Proof. intros E. unfold code_end, ret_to, pos. by rewrite E, off_end, op_bytes. Qed.

(** The guest code leaves the address in the variable of its kind. *)
Definition guest_vars (op : tcg_op) (xs : list Z) (y : Z) (V : var -> Z) : var -> Z :=
  let haddr := u64 (V V_base + hd 0 xs) in
  match op with
  | op_qemu_dift_enq_wa => upd (upd V V_read y) V_write haddr
  | op_qemu_dift_enq_ra => upd (upd V V_read haddr) V_write y
  | _ => V
  end.

Lemma guest_mem_ok op xs y m V F R : 0 <= y < 2 ^ 64 ->
  mem_ok m V F R [] -> mem_ok (guest_mem L op xs y m) (guest_vars op xs y V) F R [].
Proof.
  intros Hy M. unfold guest_mem, guest_vars.
  rewrite (mo_var _ _ _ _ _ _ _ _ M V_base : ld 8 m (L_var L V_base) = V V_base). cbv zeta.
  set (haddr := u64 (V V_base + hd 0 xs)). assert (0 <= haddr < 2 ^ 64) by apply u64_range.
  destruct op; try done.
  all: apply store_var; [done| |done|simpl; lia|by left]; apply store_var; [done|done|done|simpl; lia|by left].
Qed.

Lemma sim_guest M s op rest a d z y :
  sys_rel M s -> m_running M = false -> m_ops M = op :: rest -> 0 <= y < 2 ^ 64 ->
  sys_rel (Machine (Cpu (rip (m_cpu M)) a d (rsp (m_cpu M)) z (guest_mem L op (m_xs M) y (mem (m_cpu M))))
             (m_ops M) (m_start M) (next_xs op (m_xs M)) true (m_cons M)) s.
Proof.
  intros [Hs (gone & Eg & Est) Ho Hx Hc (u & Eu & Hm & He)] Hrun Eo Hy. rewrite Hrun in He. simpl in He.
  destruct He as (ra & d0 & z0 & V & r & -> & HV & Hr & HR & Hp & Hq & Hf).
  assert (0 <= op_addr op (m_xs M) < 2 ^ 64) as Hxr.
  { unfold op_addr. destruct (uses_addr op), (m_xs M); simpl; try lia. by inversion Hx. }
  split; simpl; [done|by exists gone|done| |done|].
  - unfold next_xs. destruct (uses_addr op); [|done]. destruct (m_xs M); [done|]. by inversion Hx.
  - exists (U (m_start M) a d z (guest_vars op (m_xs M) y V) []). split_and!.
    + rewrite Eu. unfold to_cpu. simpl. done.
    + by apply guest_mem_ok.
    + rewrite Eo in *. rewrite Forall_cons in Ho. destruct Ho as [Ho _].
      destruct (current_op gone op rest (m_start M) Eg Est) as [Hk Hst].
      exists op, rest, r, (op_addr op (m_xs M)). split_and!; [done|done| |by rewrite <- final_vars_cons].
      apply run_op; try done.
      * destruct HV as (? & ? & ?). unfold guest_vars, rt_is. by destruct op.
      * destruct HR as (i & HR). exists i. unfold guest_vars. by destruct op.
      * by intros ->.
      * by intros ->.
      * by rewrite Hq, words_cons, map_app.
Qed.

Lemma sim_cpu M s c :
  sys_rel M s -> m_running M = true -> rip (m_cpu M) <> code_end L M -> cpu_step (m_cpu M) = Some c ->
  exists s', sys_rel (Machine c (m_ops M) (m_start M) (m_xs M) true (m_cons M)) s'.
Proof.
  intros [Hs (gone & Eg & Est) Ho Hx Hc (u & Eu & Hm & He)] Hrun Hrip Hstep. rewrite Hrun in He.
  destruct He as (op & rest & r & x & Eo & Hr & Hh & Hf). rewrite Eo in Eg.
  destruct constants_ok as [HN HW]. destruct (inv_reachable _ _ HN HW prog s Hprog Hs) as [h I].
  destruct (current_op gone op rest (m_start M) Eg Est) as [Hk Hst].
  destruct (heading_step L ops m0 HL op _ r x _ Hk Hst Hr u s h _ Hh I Hm) as [H1 _].
  destruct H1 as (u' & s' & m' & Hp & (Hsc & E1 & E2 & E3) & E & Hm' & Hh').
  { rewrite (code_end_op _ _ _ Eo), Eu in Hrip. exact Hrip. }
  rewrite <- Eu, Hstep in E. injection E as ->. exists s'. split; simpl; [|by exists gone; rewrite Eo|done|done| |].
  - destruct Hp as [->|Hp]; [done|]. eapply rtc_r; [done|by apply step_producer].
  - unfold cons_is in *. destruct Hsc as (-> & -> & -> & ->). by rewrite E1, E2, E3.
  - exists u'. split_and!; [done..|]. by exists op, rest, r, x.
Qed.

Lemma sim_next M s :
  sys_rel M s -> m_running M = true -> rip (m_cpu M) = code_end L M ->
  sys_rel (Machine (m_cpu M) (List.tl (m_ops M)) (code_end L M) (m_xs M) false (m_cons M)) s.
Proof.
  intros [Hs (gone & Eg & Est) Ho Hx Hc (u & Eu & Hm & He)] Hrun Hrip. rewrite Hrun in He.
  destruct He as (op & rest & r & x & Eo & Hr & Hh & Hf). rewrite Eo in Eg.
  destruct constants_ok as [HN HW]. destruct (inv_reachable _ _ HN HW prog s Hprog Hs) as [h I].
  destruct (current_op gone op rest (m_start M) Eg Est) as [Hk Hst].
  destruct (heading_step L ops m0 HL op _ r x _ Hk Hst Hr u s h _ Hh I Hm) as [_ H2].
  pose proof (code_end_op _ _ _ Eo) as Ee. rewrite Ee in *.
  destruct H2 as (ra & d & z & V & -> & HV & Hp & Hq & HR); [by rewrite Eu in Hrip|].
  split; simpl; rewrite ?Eo; [done| | |done|done|].
  - exists (gone ++ [op]). simpl. rewrite <- (assoc_L (++)). split; [done|].
    unfold ret_to, pos. rewrite off_end, Est. unfold tb_bytes. rewrite bind_app, length_app. simpl.
    rewrite app_nil_r, op_bytes. lia.
  - simpl. rewrite Eo, Forall_cons in Ho. apply Ho.
  - eexists. split_and!; [exact Eu|exact Hm|]. simpl. exists ra, d, z, V, (after_op op r x).
    split_and!; try done. by apply after_op_ok.
Qed.

Lemma sim_step M M' s : sys_rel M s -> mstep L M M' -> exists s', sys_rel M' s'.
Proof.
  intros H St. destruct St as [M op rest a d z y Hrun Eo Ha Hd Hy|M c Hrun Hrip E|M Hrun Hrip|M m c E].
  - exists s. by eapply sim_guest.
  - by eapply sim_cpu.
  - exists s. by apply sim_next.
  - destruct H as [Hs Hg Ho Hx Hc (u & Eu & Hm & He)].
    destruct constants_ok as [HN HW]. destruct (inv_reachable _ _ HN HW prog s Hprog Hs) as [h I].
    destruct (consumer_sim _ _ _ _ _ _ _ _ I Hm Hc E) as (s' & Hs' & Hp & Hm' & Hc').
    exists s'. split; simpl; [|done..|].
    + eapply rtc_r; [done|by apply step_consumer].
    + exists u. split_and!; [by rewrite Eu|done|by eapply emu_stable].
Qed.

(** An operation never runs into bytes that are no instruction. *)
Lemma sim_progress M s : sys_rel M s -> m_running M = true -> rip (m_cpu M) <> code_end L M ->
  exists c, cpu_step (m_cpu M) = Some c.
Proof.
  intros [Hs (gone & Eg & Est) Ho Hx Hc (u & Eu & Hm & He)] Hrun Hrip. rewrite Hrun in He.
  destruct He as (op & rest & r & x & Eo & Hr & Hh & Hf). rewrite Eo in Eg.
  destruct constants_ok as [HN HW]. destruct (inv_reachable _ _ HN HW prog s Hprog Hs) as [h I].
  destruct (current_op gone op rest (m_start M) Eg Est) as [Hk Hst].
  destruct (heading_step L ops m0 HL op _ r x _ Hk Hst Hr u s h _ Hh I Hm) as [H1 _].
  destruct H1 as (u' & s' & m' & _ & _ & E & _).
  { rewrite (code_end_op _ _ _ Eo), Eu in Hrip. exact Hrip. }
  rewrite <- Eu in E. eauto.
Qed.
End System.

(** The emulation thread alone, with registers cleared by the guest code. *)
Definition emu_step (L : layout) (s : machine) : option machine :=
  if m_running s then
    if rip (m_cpu s) =? code_end L s then
      Some (Machine (m_cpu s) (List.tl (m_ops s)) (code_end L s) (m_xs s) false (m_cons s))
    else c ← cpu_step (m_cpu s); Some (Machine c (m_ops s) (m_start s) (m_xs s) true (m_cons s))
  else
    match m_ops s with
    | op :: _ =>
        Some (Machine (Cpu (rip (m_cpu s)) 0 0 (rsp (m_cpu s)) false (guest_mem L op (m_xs s) 0 (mem (m_cpu s))))
                (m_ops s) (m_start s) (next_xs op (m_xs s)) true (m_cons s))
    | [] => None
    end.

Fixpoint emu_run (L : layout) (n : nat) (s : machine) : machine :=
  match n with
  | O => s
  | S k => match emu_step L s with Some s' => emu_run L k s' | None => s end
  end.

Lemma emu_run_rtc L n : forall s, rtc (mstep L) s (emu_run L n s).
Proof.
  induction n as [|n IH]; intros s; simpl; [apply rtc_refl|].
  destruct (emu_step L s) as [s'|] eqn:E; [|apply rtc_refl]. eapply rtc_l; [|apply IH].
  unfold emu_step in E. destruct (m_running s) eqn:Hr.
  - destruct (Z.eqb_spec (rip (m_cpu s)) (code_end L s)).
    + injection E as <-. by apply mstep_next.
    + destruct (cpu_step (m_cpu s)) as [c|] eqn:Ec; [|done]. injection E as <-. by apply mstep_cpu.
  - destruct (m_ops s) as [|op ops] eqn:Eo; [done|]. injection E as <-.
    rewrite <- Eo. eapply mstep_guest; [done|exact Eo|lia..].
Qed.

Lemma start_vars_ok L ops r base v : layout_ok L ops -> rt_ok r -> 0 <= base < 2 ^ 64 ->
  0 <= start_vars L r base v < 256 ^ Z.of_nat (var_size v).
Proof.
  intros HL (H1 & H2 & H3) Hb. pose proof (table_range L ops HL). destruct constants_ok.
  assert (0 <= 8 * (Q_CHUNKS_SIZE * CHUNK_WORDS)) by (by vm_compute).
  destruct v; simpl; lia.
Qed.

Lemma runtime_eta r : rt_words r = [] -> r = Runtime (rt_loc r) (rt_cntr r) (rt_off r) [].
Proof. destruct r. simpl. by intros ->. Qed.

(** The relation holds at the start. *)
Lemma sys_start L ops xs r base :
  layout_ok L ops -> Forall op_ok ops -> xs_ok xs -> rt_ok r -> rt_words r = [] -> 0 <= base < 2 ^ 64 ->
  sys_rel L ops (start_memory L ops r base) (map QEnq (words ops xs r)) (final_vars ops xs r)
    (machine_start L ops xs (start_memory L ops r base))
    (queue_started Q_CHUNKS_SIZE (map QEnq (words ops xs r))).
Proof.
  intros HL Ho Hx Hr Hw Hb. split; simpl; [apply rtc_refl| |done|done|done|].
  - exists []. split; [done|]. simpl. lia.
  - exists (U (L_tb L) 0 0 false (start_vars L r base) []). split_and!.
    + unfold to_cpu. simpl. by rewrite Z.sub_0_r.
    + apply (start_memory_ok L ops r base HL) with (prog := map QEnq (words ops xs r)).
      intros v. by apply start_vars_ok with ops.
    + exists 0, 0, false, (start_vars L r base), r. split_and!; try done.
      exists 0. simpl. split_and!; [done|lia..|done|done].
Qed.

Lemma sys_reachable L ops xs r base M :
  layout_ok L ops -> Forall op_ok ops -> xs_ok xs -> rt_ok r -> rt_words r = [] -> 0 <= base < 2 ^ 64 ->
  framed false (map QEnq (words ops xs r)) = true ->
  rtc (mstep L) (machine_start L ops xs (start_memory L ops r base)) M ->
  exists s, sys_rel L ops (start_memory L ops r base) (map QEnq (words ops xs r)) (final_vars ops xs r) M s.
Proof.
  intros HL Ho Hx Hr Hw Hb Hf Hm.
  assert (exists s, sys_rel L ops (start_memory L ops r base) (map QEnq (words ops xs r)) (final_vars ops xs r)
    (machine_start L ops xs (start_memory L ops r base)) s) as H0 by (eexists; by apply sys_start).
  revert H0. induction Hm as [|a b c Hs _ IH]; intros [s H]; [eauto|].
  apply IH. by eapply sim_step.
Qed.

Lemma enq_words_map ws : enq_words (map QEnq ws) = ws.
Proof. induction ws as [|w ws IH]; simpl; by rewrite ?IH. Qed.

(** * Properties *)

(** C2: The machine code implements the queue: run the bytes the backend emits for
    any operations, calling the bytes of the generated routines, one instruction
    at a time against the analysis thread, in any interleaving. The processor never meets bytes
    that are no instruction; the state is that of the queue of [DiftQueue] in a
    reachable state with the same words received, a prefix of the words of the
    operations; only the queue, its variables and the stack are written; and when the
    code is through, every word is queued, the stack pointer is restored and
    the dift_code_* variables are those of the operations. *)
Theorem block_code_enqueues L ops xs r base M :
  layout_ok L ops -> Forall op_ok ops -> xs_ok xs -> rt_ok r -> rt_words r = [] -> 0 <= base < 2 ^ 64 ->
  let ws := rt_words (run_ops ops xs r).1 in
  let m0 := start_memory L ops r base in
  framed false (map QEnq ws) = true ->
  rtc (mstep L) (machine_start L ops xs m0) M ->
  (m_running M = true -> rip (m_cpu M) <> code_end L M -> exists c, cpu_step (m_cpu M) = Some c) /\
  (exists s, rtc (qstep Q_CHUNKS_SIZE CHUNK_WORDS) (queue_started Q_CHUNKS_SIZE (map QEnq ws)) s /\
     c_recv (m_cons M) = recv s /\ (exists rest, ws = recv s ++ rest) /\ (m_ops M = [] -> sent s = ws)) /\
  (forall a, (forall g, writable g = true -> within (region_at L ops g).1 (region_at L ops g).2 a = false) ->
     byte (mem (m_cpu M)) a = byte m0 a) /\
  (m_ops M = [] -> m_running M = false ->
     rsp (m_cpu M) = L_stack L /\
     (ld 4 (mem (m_cpu M)) (L_var L V_loc), ld 4 (mem (m_cpu M)) (L_var L V_cntr),
      ld 4 (mem (m_cpu M)) (L_var L V_off)) = final_vars ops xs r).
Proof.
  intros HL Ho Hx Hr Hw Hb ws m0 Hf Hm.
  assert (ws = words ops xs r) as Ew by (unfold ws, words; by rewrite (runtime_eta r Hw) at 1).
  rewrite Ew in *. destruct (sys_reachable L ops xs r base M HL Ho Hx Hr Hw Hb Hf Hm) as [s H].
  pose proof H as [Hs _ _ _ Hc (u & Eu & HM & He)].
  pose proof (reachable_words _ _ _ _ Hs) as Es. simpl in Es. rewrite enq_words_map in Es.
  destruct constants_ok as [HN HW]. destruct (inv_reachable _ _ HN HW _ s Hf Hs) as [h I].
  split_and!.
  - by eapply sim_progress.
  - exists s. split_and!; [done|apply Hc| |].
    + exists (unread h ++ enq_words (q_prog s)). by rewrite <- Es, (inv_words _ _ _ _ I), (assoc_L (++)).
    + intros E. unfold emu_is in He. rewrite E in He. destruct (m_running M).
      * by destruct He as (? & ? & ? & ? & ? & _).
      * destruct He as (ra & d & z & V & r' & _ & _ & _ & _ & _ & Hq & _). rewrite Hq in Es.
        by rewrite app_nil_r in Es.
  - apply HM.
  - intros E Hrun. unfold emu_is in He. rewrite E, Hrun in He.
    destruct He as (ra & d & z & V & r' & -> & HV & _ & _ & _ & _ & Hfin). split.
    + rewrite Eu. simpl. lia.
    + rewrite Hfin. destruct HV as (E1 & E2 & E3). unfold final_vars. simpl. simpl in HM.
      pose proof (mo_var _ _ _ _ _ _ _ _ HM V_loc) as V1. pose proof (mo_var _ _ _ _ _ _ _ _ HM V_cntr) as V2.
      pose proof (mo_var _ _ _ _ _ _ _ _ HM V_off) as V3. simpl in V1, V2, V3. congruence.
Qed.

(** Checking a layout. *)
Definition layout_okb (L : layout) (ops : list tcg_op) : bool :=
  forallb (fun g => let '(a, n) := region_at L ops g in (0 <? a) && (a + n <? 2 ^ 47) &&
    forallb (fun g' => let '(a', n') := region_at L ops g' in
       bool_decide (g = g') || (a + n <=? a') || (a' + n' <=? a)) regions) regions &&
  (L_rec L mod SIZE_OF_CHUNK =? 0).

Lemma regions_all g : In g regions.
Proof. destruct g as [[]| | | | | |]; simpl; tauto. Qed.

Lemma layout_okb_ok L ops : layout_okb L ops = true -> layout_ok L ops.
Proof.
  unfold layout_okb. intros H. apply andb_true_iff in H as [H Ha]. rewrite forallb_forall in H.
  split; [| |by apply Z.eqb_eq].
  - intros g. specialize (H g (regions_all g)). destruct (region_at L ops g). bool_to_prop. simpl. lia.
  - intros g g' Hne. specialize (H g (regions_all g)). destruct (region_at L ops g) as [a n].
    apply andb_true_iff in H as [_ H]. rewrite forallb_forall in H. specialize (H g' (regions_all g')).
    destruct (region_at L ops g') as [a' n']. simpl.
    rewrite bool_decide_false in H by done. apply orb_true_iff in H as [H|H]; bool_to_prop; lia.
Qed.

Definition demo_layout : layout :=
  Layout (fun v => 0x10000 + 16 * match v with
                    | V_enqptr => 0 | V_head => 1 | V_prev_head => 2 | V_read => 3 | V_write => 4
                    | V_base => 5 | V_loc => 6 | V_cntr => 7 | V_off => 8 end)
    0x100000 0x200000 0x1000000 0x300000 0x400000 0x500000.
Definition demo_ops : list tcg_op :=
  [op_qemu_dift_tb_begin 160; op_qemu_dift_enq_i64 7; op_qemu_dift_enq_ra; op_qemu_dift_inc_diftcodes 3].
Definition demo_runtime : runtime := Runtime 2 3 0 [].
Definition demo_machine : machine :=
  emu_run demo_layout 100
    (machine_start demo_layout demo_ops [16] (start_memory demo_layout demo_ops demo_runtime 0x7f0000000000)).

Lemma block_code_enqueues_witness :
  (exists s, rtc (qstep Q_CHUNKS_SIZE CHUNK_WORDS)
     (queue_started Q_CHUNKS_SIZE (map QEnq [BLOCK_MARK; 0x200030000; 7; 16])) s /\
     sent s = [BLOCK_MARK; 0x200030000; 7; 16]) /\
  ld 4 (mem (m_cpu demo_machine)) (L_var demo_layout V_cntr) = 3.
Proof.
  assert (m_ops demo_machine = [] /\ m_running demo_machine = false) as [Eo Er] by (by vm_compute).
  destruct (block_code_enqueues demo_layout demo_ops [16] demo_runtime 0x7f0000000000 demo_machine)
    as (_ & (s & Hs & _ & _ & Hw) & _ & Hv).
  - apply layout_okb_ok. vm_compute. reflexivity.
  - repeat constructor; vm_compute; try discriminate; reflexivity.
  - repeat constructor; vm_compute; try discriminate; reflexivity.
  - vm_compute. repeat split; discriminate || reflexivity.
  - reflexivity.
  - lia.
  - vm_compute. reflexivity.
  - apply emu_run_rtc.
  - split; [exists s; split; [exact Hs|exact (Hw Eo)]|].
    destruct (Hv Eo Er) as [_ E]. revert E.
    generalize (ld 4 (mem (m_cpu demo_machine)) (L_var demo_layout V_cntr)).
    intros b E. change (final_vars demo_ops [16] demo_runtime) with (1, 3, 0) in E. congruence.
Defined.
