(* ===== verification/Obhook.v ===== *)
(** * Out-of-box hooks

    The hook registry of src/ext/obhook/obhook.c and the dispatcher that runs the
    callbacks (helper_obhook_dispatcher of src/target-i386/mba_helper.c).

    The registry holds callback records in two places that share them: a list per
    process and address, found through a two-level hash table, and a table indexed
    by descriptor. Records are kept in a store under their address, so that both
    places refer to the same record. A hash table of uthash is a finite map, a
    list of utlist is the list of its nodes. [callocs_left] is the number of
    further calls of calloc that succeed. The read-write lock is not modelled: each
    operation runs alone. *)

From S2P Require Import Prelude.

(** ** Data *)

Definition MASK_KERN_ADDR : Z := 0xffff000000000000.
Definition MAX_NM_OBHOOK : Z := 65535.
Definition MAX_SZ_OBHOOK_LABEL : Z := 16.

Inductive OBHOOK_ERRNO : Type :=
| OBHOOK_ERR_FAIL
| OBHOOK_ERR_FULL_HOOK
| OBHOOK_ERR_INVALID_CR3
| OBHOOK_ERR_INVALID_ADDR
| OBHOOK_ERR_INVALID_LABEL
| OBHOOK_ERR_INVALID_CALLBACK
| OBHOOK_ERR_INVALID_DESCRIPTOR.

(** [ht_rec] points to the second-level record of this process and address. *)
Record obhk_cb_record : Type := CbRecord {
  ht_rec : Z * Z;
  uniq_d : Z;
  enabled : bool;
  universal : bool;
  label : list Z;
  cb_func : Z;
  cb_arg : Z
}.

Record obhook_context : Type := Obhk {
  hook_tbl : gmap Z (gmap Z (list Z));
  index_tbl : gmap Z Z;
  top_d : Z;
  cb_store : gmap Z obhk_cb_record;
  next_ptr : Z;
  callocs_left : nat;
  obhook_errno : OBHOOK_ERRNO;
  obhook_pending_hooks : bool
}.

Definition init_obhk (callocs : nat) : obhook_context :=
  Obhk ∅ ∅ (-1) ∅ 1 callocs OBHOOK_ERR_FAIL false.

Definition with_errno (x : obhook_context) (e : OBHOOK_ERRNO) : obhook_context :=
  Obhk (hook_tbl x) (index_tbl x) (top_d x) (cb_store x) (next_ptr x) (callocs_left x) e
    (obhook_pending_hooks x).

(** A use of calloc: whether it succeeds. *)
Definition calloc (x : obhook_context) : option obhook_context :=
  match callocs_left x with
  | O => None
  | S n => Some (Obhk (hook_tbl x) (index_tbl x) (top_d x) (cb_store x) (next_ptr x) n
                   (obhook_errno x) (obhook_pending_hooks x))
  end.

Definition with_hook_tbl (x : obhook_context) (t : gmap Z (gmap Z (list Z))) : obhook_context :=
  Obhk t (index_tbl x) (top_d x) (cb_store x) (next_ptr x) (callocs_left x) (obhook_errno x)
    (obhook_pending_hooks x).

(** ** Private functions *)

(** The first free slot at or after [i]; [n] slots are left to try. *)
Fixpoint find_slot (n : nat) (t : gmap Z Z) (i : Z) : Z :=
  match n with
  | O => i
  | S m => match t !! i with None => i | Some _ => find_slot m t (i + 1) end
  end.

Definition get_obhook_descriptor (x : obhook_context) : Z :=
  let i := find_slot (Z.to_nat MAX_NM_OBHOOK) (index_tbl x) 0 in
  if i =? MAX_NM_OBHOOK then -1 else i.

Definition is_kern_addr (addr : Z) : bool := (addr .& MASK_KERN_ADDR) =? MASK_KERN_ADDR.

(** [strncpy( dst, label, MAX_SZ_OBHOOK_LABEL )] into a zeroed record. *)
Definition label_field (label : list Z) : list Z :=
  take (Z.to_nat MAX_SZ_OBHOOK_LABEL) (label ++ replicate (Z.to_nat MAX_SZ_OBHOOK_LABEL) 0).

Definition toggle_obhk (x : obhook_context) (obhook_d : Z) (on : bool) : Z * obhook_context :=
  if (obhook_d <? 0) || (MAX_NM_OBHOOK <=? obhook_d) then
    (-1, with_errno x OBHOOK_ERR_INVALID_DESCRIPTOR)
  else match index_tbl x !! obhook_d with
  | None => (-1, with_errno x OBHOOK_ERR_INVALID_DESCRIPTOR)
  | Some p =>
      (0, Obhk (hook_tbl x) (index_tbl x) (top_d x)
            (alter (fun r => CbRecord (ht_rec r) (uniq_d r) on (universal r) (label r) (cb_func r)
                               (cb_arg r)) p (cb_store x))
            (next_ptr x) (callocs_left x) (obhook_errno x) (obhook_pending_hooks x))
  end.

(** The hash table record of the process, added if there is none. *)
Definition find_proc (x : obhook_context) (cr3 : Z) : option obhook_context :=
  match hook_tbl x !! cr3 with
  | Some _ => Some x
  | None => x' ← calloc x; Some (with_hook_tbl x' (<[cr3 := ∅]> (hook_tbl x')))
  end.

(** The second-level record of the address, added if there is none. *)
Definition find_addr (x : obhook_context) (cr3 addr : Z) : option obhook_context :=
  match hook_tbl x !! cr3 ≫= (.!! addr) with
  | Some _ => Some x
  | None => x' ← calloc x; Some (with_hook_tbl x' (alter <[addr := []]> cr3 (hook_tbl x')))
  end.

(** The new record enters the list and the index table. *)
Definition link_cb (x : obhook_context) (cr3 addr new_d : Z) (label : list Z) (cb arg : Z)
  : obhook_context :=
  let p := next_ptr x in
  Obhk (alter (alter (fun l => l ++ [p]) addr) cr3 (hook_tbl x))
    (<[new_d := p]> (index_tbl x)) (if top_d x <? new_d then new_d else top_d x)
    (<[p := CbRecord (cr3, addr) new_d true (cr3 =? 0) (label_field label) cb arg]> (cb_store x))
    (p + 1) (callocs_left x) (obhook_errno x) true.

(** [label] is [None] for NULL, which reaches strncpy; [cb] is 0 for NULL. A
    failed calloc leaves what was added before it. *)
Definition add_obhk_internal (x : obhook_context) (cr3 addr : Z) (label : option (list Z))
    (cb usr_cb_arg : Z) : res (Z * obhook_context) :=
  let new_d := get_obhook_descriptor x in
  if new_d =? -1 then Ret (-1, with_errno x OBHOOK_ERR_FULL_HOOK)
  else if (cr3 =? 0) && negb (is_kern_addr addr) then Ret (-1, with_errno x OBHOOK_ERR_INVALID_ADDR)
  else if (match label with
           | Some l => MAX_SZ_OBHOOK_LABEL <=? Z.of_nat (length l)
           | None => false
           end) then Ret (-1, with_errno x OBHOOK_ERR_INVALID_LABEL)
  else if cb =? 0 then Ret (-1, with_errno x OBHOOK_ERR_INVALID_CALLBACK)
  else match find_proc x cr3 with
  | None => Ret (-1, with_errno x OBHOOK_ERR_FAIL)
  | Some x1 =>
      match find_addr x1 cr3 addr with
      | None => Ret (-1, with_errno x1 OBHOOK_ERR_FAIL)
      | Some x2 =>
          match calloc x2 with
          | None => Ret (-1, with_errno x2 OBHOOK_ERR_FAIL)
          | Some x3 =>
              match label with
              | None => UB
              | Some l => Ret (new_d, link_cb x3 cr3 addr new_d l cb usr_cb_arg)
              end
          end
      end
  end.

Definition get_obhk_cb_internal (x : obhook_context) (cr3 addr : Z) : list Z :=
  default [] (hook_tbl x !! cr3 ≫= (.!! addr)).

(** ** API *)

Definition obhook_add_process (x : obhook_context) (cr3 addr : Z) (label : option (list Z))
    (cb arg : Z) : res (Z * obhook_context) :=
  if cr3 =? 0 then Ret (-1, with_errno x OBHOOK_ERR_INVALID_CR3)
  else add_obhk_internal x cr3 addr label cb arg.

Definition obhook_add_universal (x : obhook_context) (kern_addr : Z) (label : option (list Z))
    (cb arg : Z) : res (Z * obhook_context) :=
  add_obhk_internal x 0 kern_addr label cb arg.

(** The hash tables after the list of [(cr3, addr)] lost its record [p]: the
    empty record of the address goes, and with the last one that of the process. *)
Definition unlink_cb (t : gmap Z (gmap Z (list Z))) (cr3 addr p : Z) : res (gmap Z (gmap Z (list Z))) :=
  match t !! cr3 with
  | None => UB
  | Some proc =>
      match proc !! addr with
      | None => UB
      | Some l =>
          let l' := filter (fun q => q <> p) l in
          if decide (l' = []) then
            let proc' := delete addr proc in
            if decide (proc' = ∅) then Ret (delete cr3 t) else Ret (<[cr3 := proc']> t)
          else Ret (<[cr3 := <[addr := l']> proc]> t)
      end
  end.

Definition obhook_delete (x : obhook_context) (obhook_d : Z) : res (Z * obhook_context) :=
  if (obhook_d <? 0) || (MAX_NM_OBHOOK <=? obhook_d) then
    Ret (-1, with_errno x OBHOOK_ERR_INVALID_DESCRIPTOR)
  else match index_tbl x !! obhook_d with
  | None => Ret (-1, with_errno x OBHOOK_ERR_INVALID_DESCRIPTOR)
  | Some p =>
      match cb_store x !! p with
      | None => UB
      | Some r =>
          t ← unlink_cb (hook_tbl x) (ht_rec r).1 (ht_rec r).2 p;
          Ret (0, Obhk t (delete obhook_d (index_tbl x)) (top_d x) (delete p (cb_store x))
                    (next_ptr x) (callocs_left x) (obhook_errno x) (obhook_pending_hooks x))
      end
  end.

Definition obhook_enable (x : obhook_context) (obhook_d : Z) : Z * obhook_context :=
  toggle_obhk x obhook_d true.
Definition obhook_disable (x : obhook_context) (obhook_d : Z) : Z * obhook_context :=
  toggle_obhk x obhook_d false.

Definition obhook_getcbs_univ (x : obhook_context) (kern_addr : Z) : list Z * obhook_context :=
  if negb (is_kern_addr kern_addr) then ([], with_errno x OBHOOK_ERR_INVALID_ADDR)
  else (get_obhk_cb_internal x 0 kern_addr, x).

Definition obhook_getcbs_proc (x : obhook_context) (cr3 addr : Z) : list Z * obhook_context :=
  if cr3 =? 0 then ([], with_errno x OBHOOK_ERR_INVALID_CR3)
  else (get_obhk_cb_internal x cr3 addr, x).

(** The callbacks a list of records has called, in order, with their arguments:
    [LL_FOREACH] with the test of [enabled]. A callback that changes the registry
    while it runs is outside the model. *)
Definition call_list (x : obhook_context) (cb_list : list Z) : res (list (Z * Z)) :=
  foldr (fun p acc =>
    match cb_store x !! p with
    | None => UB
    | Some r => calls ← acc; Ret (if enabled r then (cb_func r, cb_arg r) :: calls else calls)
    end) (Ret []) cb_list.

Definition helper_obhook_dispatcher (x : obhook_context) (cr3 eip : Z)
  : res (list (Z * Z) * obhook_context) :=
  let '(cb_list, x1) := obhook_getcbs_univ x eip in
  univ ← call_list x1 cb_list;
  let '(cb_list, x2) := obhook_getcbs_proc x1 cr3 eip in
  proc ← call_list x2 cb_list;
  Ret (univ ++ proc, x2).

(** ** What the registry promises

    The registered hooks, oldest first. *)

Inductive hook_op : Type :=
| AddProcess (cr3 addr : Z) (l : list Z) (cb arg : Z)
| AddUniversal (addr : Z) (l : list Z) (cb arg : Z)
| Delete (d : Z)
| Enable (d : Z)
| Disable (d : Z).

Definition exec_op (x : obhook_context) (op : hook_op) : res (Z * obhook_context) :=
  match op with
  | AddProcess cr3 addr l cb arg => obhook_add_process x cr3 addr (Some l) cb arg
  | AddUniversal addr l cb arg => obhook_add_universal x addr (Some l) cb arg
  | Delete d => obhook_delete x d
  | Enable d => Ret (obhook_enable x d)
  | Disable d => Ret (obhook_disable x d)
  end.

Definition descriptors (hs : list obhk_cb_record) : list Z := map uniq_d hs.

Definition least_free (hs : list obhk_cb_record) (d : Z) : Prop :=
  0 <= d < MAX_NM_OBHOOK /\ (d ∉ descriptors hs) /\ forall i, 0 <= i < d -> i ∈ descriptors hs.

Definition full (hs : list obhk_cb_record) : Prop :=
  forall i, 0 <= i < MAX_NM_OBHOOK -> i ∈ descriptors hs.

(** The arguments a hook at [addr] of process [cr3], or of every process, needs. *)
Definition acceptable (cr3 addr : Z) (l : list Z) (cb : Z) : Prop :=
  (cr3 = 0 -> is_kern_addr addr = true) /\ Z.of_nat (length l) < MAX_SZ_OBHOOK_LABEL /\ cb <> 0.

Definition set_enabled (d : Z) (on : bool) (r : obhk_cb_record) : obhk_cb_record :=
  if uniq_d r =? d
  then CbRecord (ht_rec r) (uniq_d r) on (universal r) (label r) (cb_func r) (cb_arg r) else r.

(** Adding takes the least free descriptor, and fails for unacceptable arguments
    or a full registry. *)
Inductive adds (hs : list obhk_cb_record) (cr3 addr : Z) (l : list Z) (cb arg : Z)
  : Z -> list obhk_cb_record -> Prop :=
| adds_ok d : acceptable cr3 addr l cb -> least_free hs d ->
    adds hs cr3 addr l cb arg d
      (hs ++ [CbRecord (cr3, addr) d true (cr3 =? 0) (label_field l) cb arg])
| adds_fail : ~ acceptable cr3 addr l cb \/ full hs -> adds hs cr3 addr l cb arg (-1) hs.

Inductive hook_step (hs : list obhk_cb_record) : hook_op -> Z -> list obhk_cb_record -> Prop :=
| hook_add_process cr3 addr l cb arg ret hs' :
    cr3 <> 0 -> adds hs cr3 addr l cb arg ret hs' -> hook_step hs (AddProcess cr3 addr l cb arg) ret hs'
| hook_add_no_process addr l cb arg : hook_step hs (AddProcess 0 addr l cb arg) (-1) hs
| hook_add_universal addr l cb arg ret hs' :
    adds hs 0 addr l cb arg ret hs' -> hook_step hs (AddUniversal addr l cb arg) ret hs'
| hook_delete d : d ∈ descriptors hs ->
    hook_step hs (Delete d) 0 (filter (fun r => uniq_d r <> d) hs)
| hook_enable d : d ∈ descriptors hs -> hook_step hs (Enable d) 0 (map (set_enabled d true) hs)
| hook_disable d : d ∈ descriptors hs -> hook_step hs (Disable d) 0 (map (set_enabled d false) hs)
| hook_unknown d op : d ∉ descriptors hs -> op = Delete d \/ op = Enable d \/ op = Disable d ->
    hook_step hs op (-1) hs.

(** The registry [x] represents the records at the addresses [ps], in order. *)
Definition hooks (x : obhook_context) (ps : list Z) : list obhk_cb_record :=
  omap (fun p => cb_store x !! p) ps.

Record repr (x : obhook_context) (ps : list Z) : Prop := {
  r_nodup : NoDup ps;
  r_store : forall p, p ∈ ps <-> is_Some (cb_store x !! p);
  r_fresh : forall p, p ∈ ps -> p < next_ptr x;
  r_lists : forall c a, get_obhk_cb_internal x c a =
              filter (fun p => (ht_rec <$> cb_store x !! p) = Some (c, a)) ps;
  r_index : forall d p, index_tbl x !! d = Some p <-> (uniq_d <$> cb_store x !! p) = Some d;
  r_range : forall d p, index_tbl x !! d = Some p -> 0 <= d < MAX_NM_OBHOOK
}.

(** ** Lemmas: descriptors *)

Lemma find_slot_spec n t i :
  i <= find_slot n t i <= i + Z.of_nat n /\
  (forall j, i <= j < find_slot n t i -> is_Some (t !! j)) /\
  (find_slot n t i < i + Z.of_nat n -> t !! (find_slot n t i) = None).
Proof.
  revert i. induction n as [|n IH]; intros i; cbn [find_slot].
  - split_and!; [lia..|intros; lia|lia].
  - destruct (t !! i) eqn:E.
    + destruct (IH (i + 1)) as (H1 & H2 & H3). split_and!; [lia..| |].
      * intros j Hj. destruct (Z.eq_dec j i) as [->|]; [by eexists|apply H2; lia].
      * intros. apply H3. lia.
    + split_and!; [lia..|intros; lia|done].
Qed.

Lemma elem_hooks x ps r : r ∈ hooks x ps <-> exists p, p ∈ ps /\ cb_store x !! p = Some r.
Proof. unfold hooks. apply list_elem_of_omap. Qed.

Lemma elem_descriptors x ps d :
  repr x ps -> d ∈ descriptors (hooks x ps) <-> is_Some (index_tbl x !! d).
Proof.
  intros R. unfold descriptors. rewrite list_elem_of_fmap. split.
  - intros (r & -> & Hr). apply elem_hooks in Hr as (p & _ & Hp). exists p.
    apply (r_index _ _ R). by rewrite Hp.
  - intros [p Hp]. pose proof (proj1 (r_index _ _ R d p) Hp) as Hd.
    destruct (cb_store x !! p) as [r|] eqn:E; [|done]. injection Hd as <-.
    exists r. split; [done|]. apply elem_hooks. exists p. split; [|done]. apply (r_store _ _ R). by eexists.
Qed.

Lemma descriptor_spec x ps :
  repr x ps ->
  (get_obhook_descriptor x = -1 /\ full (hooks x ps)) \/
  (get_obhook_descriptor x <> -1 /\ least_free (hooks x ps) (get_obhook_descriptor x)).
Proof.
  intros R. unfold get_obhook_descriptor, full, least_free.
  destruct (find_slot_spec (Z.to_nat MAX_NM_OBHOOK) (index_tbl x) 0) as (H1 & H2 & H3).
  set (i := find_slot (Z.to_nat MAX_NM_OBHOOK) (index_tbl x) 0) in *. clearbody i.
  rewrite Z2Nat.id in H1, H3 by (vm_compute; discriminate).
  destruct (Z.eqb_spec i MAX_NM_OBHOOK) as [->|Hi].
  - left. split; [done|]. intros j Hj. apply (elem_descriptors x ps j R), H2. lia.
  - right. split; [lia|]. split_and!; [lia..| |].
    + rewrite (elem_descriptors x ps i R), H3 by lia. by intros [? ?].
    + intros j Hj. apply (elem_descriptors x ps j R), H2. lia.
Qed.

(** ** Lemmas: adding *)

(** Making room in the hash tables changes no list. *)
Record same_hooks (x y : obhook_context) : Prop := {
  sh_index : index_tbl y = index_tbl x;
  sh_store : cb_store y = cb_store x;
  sh_next : next_ptr y = next_ptr x;
  sh_lists : forall c a, get_obhk_cb_internal y c a = get_obhk_cb_internal x c a
}.

Lemma same_hooks_trans x y z : same_hooks x y -> same_hooks y z -> same_hooks x z.
Proof. intros [] []. split; [congruence..|]. intros. by rewrite sh_lists1. Qed.

Lemma repr_same x y ps : same_hooks x y -> repr x ps -> repr y ps.
Proof.
  intros [E1 E2 E3 E4] [R1 R2 R3 R4 R5 R6].
  split; rewrite ?E1, ?E2, ?E3; try done. intros c a. by rewrite E4.
Qed.

Lemma hooks_same x y ps : same_hooks x y -> hooks y ps = hooks x ps.
Proof. intros [_ E _ _]. unfold hooks. by rewrite E. Qed.

Lemma same_hooks_errno x e : same_hooks x (with_errno x e).
Proof. by split. Qed.

Lemma calloc_same x y : calloc x = Some y ->
  same_hooks x y /\ hook_tbl y = hook_tbl x /\ callocs_left x = S (callocs_left y).
Proof. unfold calloc. destruct (callocs_left x) eqn:E; [done|]. intros [= <-]. by split_and!. Qed.

Lemma calloc_some x n : callocs_left x = S n -> exists y, calloc x = Some y.
Proof. unfold calloc. intros ->. eauto. Qed.

Lemma find_proc_same x y cr3 : find_proc x cr3 = Some y ->
  same_hooks x y /\ is_Some (hook_tbl y !! cr3) /\ (callocs_left x <= S (callocs_left y))%nat.
Proof.
  unfold find_proc. destruct (hook_tbl x !! cr3) eqn:E.
  - intros [= <-]. split_and!; [by split|by eexists|lia].
  - destruct (calloc x) as [x1|] eqn:Ec; [|done]. intros [= <-].
    destruct (calloc_same _ _ Ec) as ([E1 E2 E3 E4] & Et & El). split_and!; [|simpl; rewrite lookup_insert_eq; by eexists|simpl; lia].
    split; [done..|]. intros c a. unfold get_obhk_cb_internal. simpl. rewrite Et.
    destruct (decide (c = cr3)) as [->|]; [rewrite lookup_insert_eq, E; simpl; by rewrite lookup_empty|].
    by rewrite lookup_insert_ne.
Qed.

Lemma find_addr_same x y cr3 addr : is_Some (hook_tbl x !! cr3) -> find_addr x cr3 addr = Some y ->
  same_hooks x y /\ is_Some (hook_tbl y !! cr3 ≫= (.!! addr)) /\ (callocs_left x <= S (callocs_left y))%nat.
Proof.
  intros [t Ht]. unfold find_addr. rewrite Ht. simpl. destruct (t !! addr) eqn:E.
  - intros [= <-]. rewrite Ht. simpl. rewrite E. split_and!; [by split|by eexists|lia].
  - destruct (calloc x) as [x1|] eqn:Ec; [|done]. intros [= <-].
    destruct (calloc_same _ _ Ec) as ([E1 E2 E3 E4] & Et & El). split_and!.
    2: { simpl. rewrite Et, lookup_alter_eq, Ht. simpl. rewrite lookup_insert_eq. by eexists. }
    2: { simpl. lia. }
    split; [done..|]. intros c a. unfold get_obhk_cb_internal. simpl. rewrite Et.
    destruct (decide (c = cr3)) as [->|]; [|by rewrite lookup_alter_ne].
    rewrite lookup_alter_eq, Ht. simpl. destruct (decide (a = addr)) as [->|].
    + by rewrite lookup_insert_eq, E.
    + by rewrite lookup_insert_ne.
Qed.

Lemma link_lists x cr3 addr d l cb arg c a :
  is_Some (hook_tbl x !! cr3 ≫= (.!! addr)) ->
  get_obhk_cb_internal (link_cb x cr3 addr d l cb arg) c a =
    get_obhk_cb_internal x c a ++ (if decide ((cr3, addr) = (c, a)) then [next_ptr x] else []).
Proof.
  intros [ps Hps]. destruct (hook_tbl x !! cr3) as [t|] eqn:Ht; [|done]. simpl in Hps.
  unfold get_obhk_cb_internal. simpl. destruct (decide ((cr3, addr) = (c, a))) as [[= <- <-]|Hne].
  - rewrite lookup_alter_eq, Ht. simpl. rewrite lookup_alter_eq, Hps. done.
  - rewrite app_nil_r. destruct (decide (c = cr3)) as [->|]; [|by rewrite lookup_alter_ne].
    rewrite lookup_alter_eq, Ht. simpl. rewrite lookup_alter_ne by congruence. done.
Qed.

Lemma repr_link x ps cr3 addr d l cb arg :
  repr x ps -> is_Some (hook_tbl x !! cr3 ≫= (.!! addr)) -> least_free (hooks x ps) d ->
  repr (link_cb x cr3 addr d l cb arg) (ps ++ [next_ptr x]).
Proof.
  intros R He (Hd & Hf & _). pose proof R as [R1 R2 R3 R4 R5 R6].
  assert (cb_store x !! next_ptr x = None) as Hn.
  { apply eq_None_not_Some. intros Hs%R2. apply R3 in Hs. lia. }
  assert (next_ptr x ∉ ps) as Hnp by (intros Hin; apply R3 in Hin; lia).
  assert (index_tbl x !! d = None) as Hi.
  { apply eq_None_not_Some. by rewrite <- (elem_descriptors x ps d R). }
  split; simpl.
  - apply NoDup_app. split_and!; [done| |by apply NoDup_singleton].
    intros p Hp ->%list_elem_of_singleton. done.
  - intros p. rewrite elem_of_app, list_elem_of_singleton, lookup_insert_is_Some, R2.
    destruct (decide (next_ptr x = p)); naive_solver.
  - intros p [Hp| ->%list_elem_of_singleton]%elem_of_app; [apply R3 in Hp|]; lia.
  - intros c a. rewrite link_lists by done. rewrite R4, filter_app. f_equal.
    + apply filter_ext. intros p Hp. rewrite lookup_insert_ne; [done|]. by intros <-.
    + rewrite filter_cons, filter_nil, lookup_insert_eq. simpl.
      destruct (decide ((cr3, addr) = (c, a))), (decide (Some (cr3, addr) = Some (c, a))); congruence.
  - intros e p. destruct (decide (e = d)) as [->|He'].
    + rewrite lookup_insert_eq. destruct (decide (p = next_ptr x)) as [->|].
      * by rewrite lookup_insert_eq.
      * rewrite lookup_insert_ne by done. rewrite <- R5, Hi. naive_solver.
    + rewrite lookup_insert_ne by done. destruct (decide (p = next_ptr x)) as [->|].
      * rewrite lookup_insert_eq, R5, Hn. naive_solver.
      * by rewrite lookup_insert_ne.
  - intros e p. destruct (decide (e = d)) as [->|]; [done|]. rewrite lookup_insert_ne by done. apply R6.
Qed.

Lemma hooks_link x ps cr3 addr d l cb arg :
  repr x ps ->
  hooks (link_cb x cr3 addr d l cb arg) (ps ++ [next_ptr x]) =
    hooks x ps ++ [CbRecord (cr3, addr) d true (cr3 =? 0) (label_field l) cb arg].
Proof.
  intros R. unfold hooks. rewrite omap_app. simpl. rewrite lookup_insert_eq. f_equal.
  apply list_omap_ext, Forall2_same_length_lookup. split; [done|].
  intros i p q Hp Hq. assert (p = q) as -> by congruence. rewrite lookup_insert_ne; [done|].
  intros Hn. apply list_elem_of_lookup_2, (r_fresh _ _ R) in Hp. lia.
Qed.

Definition valid_args (cr3 addr : Z) (l : list Z) (cb : Z) : bool :=
  negb ((cr3 =? 0) && negb (is_kern_addr addr)) &&
  negb (MAX_SZ_OBHOOK_LABEL <=? Z.of_nat (length l)) && negb (cb =? 0).

Lemma valid_args_spec cr3 addr l cb : valid_args cr3 addr l cb = true <-> acceptable cr3 addr l cb.
Proof.
  unfold valid_args, acceptable.
  destruct (Z.eqb_spec cr3 0), (is_kern_addr addr), (Z.leb_spec MAX_SZ_OBHOOK_LABEL (Z.of_nat (length l))),
    (Z.eqb_spec cb 0); simpl; intuition (discriminate || lia).
Qed.

Lemma add_rejects x cr3 addr l cb arg :
  get_obhook_descriptor x = -1 \/ valid_args cr3 addr l cb = false ->
  exists e, add_obhk_internal x cr3 addr (Some l) cb arg = Ret (-1, with_errno x e).
Proof.
  unfold add_obhk_internal, valid_args. destruct (Z.eqb_spec (get_obhook_descriptor x) (-1)); [eauto|].
  intros [|Hv]; [done|]. destruct ((cr3 =? 0) && _); [eauto|].
  destruct (MAX_SZ_OBHOOK_LABEL <=? _); [eauto|]. destruct (cb =? 0); [eauto|done].
Qed.

Lemma find_proc_some x cr3 : (1 <= callocs_left x)%nat -> exists y, find_proc x cr3 = Some y.
Proof.
  intros H. unfold find_proc. destruct (hook_tbl x !! cr3); [eauto|].
  destruct (callocs_left x) eqn:Ec; [lia|]. destruct (calloc_some x _ Ec) as [y ->]. simpl. eauto.
Qed.

Lemma find_addr_some x cr3 addr : (1 <= callocs_left x)%nat -> exists y, find_addr x cr3 addr = Some y.
Proof.
  intros H. unfold find_addr. destruct (hook_tbl x !! cr3 ≫= (.!! addr)); [eauto|].
  destruct (callocs_left x) eqn:Ec; [lia|]. destruct (calloc_some x _ Ec) as [y ->]. simpl. eauto.
Qed.

Lemma add_accepts x cr3 addr l cb arg :
  get_obhook_descriptor x <> -1 -> valid_args cr3 addr l cb = true -> (3 <= callocs_left x)%nat ->
  exists y, same_hooks x y /\ is_Some (hook_tbl y !! cr3 ≫= (.!! addr)) /\
    add_obhk_internal x cr3 addr (Some l) cb arg =
      Ret (get_obhook_descriptor x, link_cb y cr3 addr (get_obhook_descriptor x) l cb arg).
Proof.
  intros Hd Hv Hm. apply Z.eqb_neq in Hd. unfold add_obhk_internal. rewrite Hd.
  unfold valid_args in Hv. rewrite !andb_true_iff, !negb_true_iff in Hv. destruct Hv as [[-> ->] ->].
  destruct (find_proc_some x cr3) as [x1 E1]; [lia|].
  destruct (find_proc_same _ _ _ E1) as (S1 & P1 & L1). rewrite E1.
  destruct (find_addr_some x1 cr3 addr) as [x2 E2]; [lia|].
  destruct (find_addr_same _ _ _ _ P1 E2) as (S2 & P2 & L2). rewrite E2.
  destruct (callocs_left x2) eqn:Ec; [lia|]. destruct (calloc_some x2 _ Ec) as [x3 E3]. rewrite E3.
  destruct (calloc_same _ _ E3) as (S3 & T3 & _). rewrite <- T3 in P2.
  exists x3. split_and!; [by eauto using same_hooks_trans|done|done].
Qed.

(** Adding a hook, when calloc does not fail. *)
Lemma add_internal_spec x ps cr3 addr l cb arg :
  repr x ps -> (3 <= callocs_left x)%nat ->
  exists ret x' ps', add_obhk_internal x cr3 addr (Some l) cb arg = Ret (ret, x') /\
    repr x' ps' /\ adds (hooks x ps) cr3 addr l cb arg ret (hooks x' ps').
Proof.
  intros R Hm.
  assert ((get_obhook_descriptor x = -1 \/ valid_args cr3 addr l cb = false) ->
    (~ acceptable cr3 addr l cb \/ full (hooks x ps)) -> exists ret x' ps',
    add_obhk_internal x cr3 addr (Some l) cb arg = Ret (ret, x') /\
    repr x' ps' /\ adds (hooks x ps) cr3 addr l cb arg ret (hooks x' ps')) as Hfail.
  { intros H1 H2. destruct (add_rejects x cr3 addr l cb arg H1) as [e E].
    exists (-1), (with_errno x e), ps. split_and!; [done|by apply (repr_same x)|].
    rewrite (hooks_same x (with_errno x e)) by apply same_hooks_errno. by constructor. }
  destruct (descriptor_spec x ps R) as [[Hd Hfull]|[Hd Hfree]]; [by apply Hfail; auto|].
  destruct (valid_args cr3 addr l cb) eqn:Hv.
  - destruct (add_accepts x cr3 addr l cb arg Hd Hv Hm) as (y & S & P & E).
    eexists _, _, (ps ++ [next_ptr y]). split; [exact E|].
    assert (repr y ps) as Ry by eauto using repr_same. rewrite <- (hooks_same x y ps S) in *.
    split; [by apply repr_link|]. rewrite hooks_link by done. apply adds_ok; [|done].
    by apply valid_args_spec.
  - apply Hfail; [auto|]. left. rewrite <- valid_args_spec. congruence.
Qed.

(** ** Lemmas: deleting and toggling *)

Lemma index_record x ps d p :
  repr x ps -> index_tbl x !! d = Some p ->
  exists r, cb_store x !! p = Some r /\ uniq_d r = d /\ p ∈ ps.
Proof.
  intros R Hp. pose proof (proj1 (r_index _ _ R d p) Hp) as Hd.
  destruct (cb_store x !! p) as [r|] eqn:E; [|done]. injection Hd as <-.
  exists r. split_and!; [done..|]. apply (r_store _ _ R). by eexists.
Qed.

(** Only the record in its slot has a descriptor. *)
Lemma index_unique x ps d p q s :
  repr x ps -> index_tbl x !! d = Some p -> cb_store x !! q = Some s -> uniq_d s = d <-> q = p.
Proof.
  intros R Hi Hs. split.
  - intros <-. assert (index_tbl x !! uniq_d s = Some q) by (apply (r_index _ _ R); by rewrite Hs). congruence.
  - intros ->. apply (r_index _ _ R) in Hi. rewrite Hs in Hi. by injection Hi.
Qed.

Definition at_tbl (t : gmap Z (gmap Z (list Z))) (c a : Z) : list Z :=
  default [] (t !! c ≫= (.!! a)).

Lemma at_tbl_insert t cr3 proc c a :
  at_tbl (<[cr3 := proc]> t) c a = if decide (c = cr3) then default [] (proc !! a) else at_tbl t c a.
Proof.
  unfold at_tbl. case_decide; [subst; by rewrite lookup_insert_eq|by rewrite lookup_insert_ne].
Qed.

Lemma unlink_ok t cr3 addr p :
  p ∈ at_tbl t cr3 addr ->
  exists t', unlink_cb t cr3 addr p = Ret t' /\
    forall c a, at_tbl t' c a = if decide ((c, a) = (cr3, addr))
                               then filter (fun q => q <> p) (at_tbl t c a) else at_tbl t c a.
Proof.
  intros Hp. unfold unlink_cb. destruct (t !! cr3) as [proc|] eqn:Et;
    [|unfold at_tbl in Hp; rewrite Et in Hp; by apply not_elem_of_nil in Hp].
  assert (forall a, at_tbl t cr3 a = default [] (proc !! a)) as Ha by (intros; unfold at_tbl; by rewrite Et).
  rewrite Ha in Hp. destruct (proc !! addr) as [l|] eqn:El; [|by apply not_elem_of_nil in Hp].
  destruct (decide (filter (fun q => q <> p) l = [])) as [E|E];
    [destruct (decide (delete addr proc = ∅)) as [E'|E']|]; (eexists; split; [reflexivity|]);
    intros c a; rewrite ?at_tbl_insert; destruct (decide ((c, a) = (cr3, addr))) as [[= -> ->]|Hne];
    rewrite ?decide_True by done; rewrite ?Ha, ?El; simpl.
  - unfold at_tbl. by rewrite lookup_delete_eq, E.
  - unfold at_tbl. destruct (decide (c = cr3)) as [->|]; [|by rewrite lookup_delete_ne].
    rewrite lookup_delete_eq, Et. simpl. rewrite <- (lookup_delete_ne proc addr a) by congruence.
    by rewrite E', lookup_empty.
  - by rewrite lookup_delete_eq, E.
  - destruct (decide (c = cr3)) as [->|]; [|done]. by rewrite lookup_delete_ne, Ha by congruence.
  - by rewrite lookup_insert_eq.
  - destruct (decide (c = cr3)) as [->|]; [|done]. by rewrite lookup_insert_ne, Ha by congruence.
Qed.

Definition removed (x : obhook_context) (t : gmap Z (gmap Z (list Z))) (d p : Z) : obhook_context :=
  Obhk t (delete d (index_tbl x)) (top_d x) (delete p (cb_store x)) (next_ptr x) (callocs_left x)
    (obhook_errno x) (obhook_pending_hooks x).

Lemma repr_removed x ps d p r t :
  repr x ps -> index_tbl x !! d = Some p -> cb_store x !! p = Some r ->
  (forall c a, at_tbl t c a = if decide ((c, a) = ht_rec r)
     then filter (fun q => q <> p) (at_tbl (hook_tbl x) c a) else at_tbl (hook_tbl x) c a) ->
  repr (removed x t d p) (filter (fun q => q <> p) ps).
Proof.
  intros R Hi Hr Ht. destruct (index_record x ps d p R Hi) as (r' & Hr' & Hd & Hp).
  assert (r' = r) as -> by congruence. pose proof R as [R1 R2 R3 R4 R5 R6].
  assert (forall e q, q <> p -> index_tbl x !! e = Some q -> e <> d) as Hneq by (intros e q Hq He ->; congruence).
  split; simpl.
  - by apply NoDup_filter.
  - intros q. rewrite list_elem_of_filter, lookup_delete_is_Some, R2. intuition congruence.
  - intros q [_ Hq]%list_elem_of_filter. auto.
  - intros c a. change (get_obhk_cb_internal (removed x t d p) c a) with (at_tbl t c a). rewrite Ht.
    change (at_tbl (hook_tbl x) c a) with (get_obhk_cb_internal x c a). rewrite R4, list_filter_filter.
    case_decide as Hc; rewrite ?list_filter_filter; apply filter_ext; intros q Hq.
    + destruct (decide (q = p)) as [->|]; [tauto|]. rewrite lookup_delete_ne by done. tauto.
    + destruct (decide (q = p)) as [->|]; [|rewrite lookup_delete_ne by done; tauto].
      rewrite Hr. simpl. split; [|tauto]. intros [= E]. by destruct Hc.
  - intros e q. destruct (decide (q = p)) as [->|Hq].
    + rewrite lookup_delete_eq. split; [|done]. intros He. apply lookup_delete_Some in He as [Hne He].
      apply R5 in He. rewrite Hr in He. simpl in He. congruence.
    + rewrite (lookup_delete_ne (cb_store x)) by done. rewrite <- R5, lookup_delete_Some. split; [tauto|]. intros He. split; [|done]. apply not_eq_sym. by apply (Hneq e q).
  - intros e q [_ He]%lookup_delete_Some. by eapply R6.
Qed.

Lemma hooks_cons x p ps :
  hooks x (p :: ps) = match cb_store x !! p with Some r => r :: hooks x ps | None => hooks x ps end.
Proof. done. Qed.

Lemma hooks_removed x ps d p r t :
  repr x ps -> index_tbl x !! d = Some p -> cb_store x !! p = Some r ->
  hooks (removed x t d p) (filter (fun q => q <> p) ps) = filter (fun r => uniq_d r <> d) (hooks x ps).
Proof.
  intros R Hi Hr. pose proof (fun q s => index_unique x ps d p q s R Hi) as Hu.
  assert (Forall (fun q => is_Some (cb_store x !! q)) ps) as Hall.
  { apply Forall_forall. intros q. apply (r_store _ _ R). }
  clear R Hi. induction Hall as [|q ps [s Hs] _ IH]; [done|].
  rewrite filter_cons, hooks_cons, Hs, filter_cons, <- IH. specialize (Hu q s Hs).
  destruct (decide (q <> p)) as [Hq|Hq], (decide (uniq_d s <> d)); try tauto.
  rewrite hooks_cons. simpl. by rewrite lookup_delete_ne, Hs by done.
Qed.

Definition toggled (x : obhook_context) (p : Z) (on : bool) : obhook_context :=
  Obhk (hook_tbl x) (index_tbl x) (top_d x)
    (alter (fun r => CbRecord (ht_rec r) (uniq_d r) on (universal r) (label r) (cb_func r) (cb_arg r))
       p (cb_store x)) (next_ptr x) (callocs_left x) (obhook_errno x) (obhook_pending_hooks x).

Lemma toggled_fields x p on q :
  (ht_rec <$> cb_store (toggled x p on) !! q) = (ht_rec <$> cb_store x !! q) /\
  (uniq_d <$> cb_store (toggled x p on) !! q) = (uniq_d <$> cb_store x !! q).
Proof.
  simpl. destruct (decide (q = p)) as [->|]; [rewrite lookup_alter_eq|by rewrite lookup_alter_ne].
  by destruct (cb_store x !! p).
Qed.

Lemma repr_toggled x ps p on : repr x ps -> repr (toggled x p on) ps.
Proof.
  intros [R1 R2 R3 R4 R5 R6]. split; try done.
  - intros q. rewrite R2. rewrite <- (fmap_is_Some uniq_d), <- (proj2 (toggled_fields x p on q)).
    apply fmap_is_Some.
  - intros c a. change (get_obhk_cb_internal (toggled x p on) c a) with (get_obhk_cb_internal x c a).
    rewrite R4. apply filter_ext. intros q _. by rewrite (proj1 (toggled_fields x p on q)).
  - intros d q. rewrite (proj2 (toggled_fields x p on q)). apply R5.
Qed.

Lemma hooks_toggled x ps d p on :
  repr x ps -> index_tbl x !! d = Some p -> hooks (toggled x p on) ps = map (set_enabled d on) (hooks x ps).
Proof.
  intros R Hi. assert (forall q s, cb_store x !! q = Some s -> (uniq_d s =? d) = bool_decide (q = p)) as Hu.
  { intros q s Hs. apply eq_true_iff_eq. rewrite Z.eqb_eq, bool_decide_eq_true. by apply (index_unique x ps). }
  clear R Hi. induction ps as [|q ps IH]; [done|]. rewrite !hooks_cons, IH. simpl.
  destruct (decide (q = p)) as [->|Hq].
  - rewrite lookup_alter_eq. destruct (cb_store x !! p) as [s|] eqn:Hs; [|done]. simpl. f_equal.
    unfold set_enabled. rewrite (Hu p s Hs). by rewrite bool_decide_true.
  - rewrite lookup_alter_ne by done. destruct (cb_store x !! q) as [s|] eqn:Hs; [|done]. simpl. f_equal.
    unfold set_enabled. rewrite (Hu q s Hs). by rewrite bool_decide_false.
Qed.

(** A descriptor outside the table is unknown. *)
Lemma descriptor_range x ps d :
  repr x ps -> (d <? 0) || (MAX_NM_OBHOOK <=? d) = true -> index_tbl x !! d = None.
Proof.
  intros R H. apply eq_None_not_Some. intros [p Hp]. apply (r_range _ _ R) in Hp.
  apply orb_true_iff in H as [H|H]; bool_to_prop; lia.
Qed.

Lemma toggle_spec x ps d on :
  repr x ps ->
  ((d ∈ descriptors (hooks x ps)) /\ exists p, toggle_obhk x d on = (0, toggled x p on) /\
     index_tbl x !! d = Some p) \/
  ((d ∉ descriptors (hooks x ps)) /\ exists e, toggle_obhk x d on = (-1, with_errno x e)).
Proof.
  intros R. unfold toggle_obhk. rewrite (elem_descriptors x ps d R).
  destruct ((d <? 0) || (MAX_NM_OBHOOK <=? d)) eqn:E.
  - right. rewrite (descriptor_range x ps d R E). split; [by intros [? ?]|eauto].
  - destruct (index_tbl x !! d) as [p|] eqn:Hi.
    + left. split; [by eexists|]. by exists p.
    + right. split; [by intros [? ?]|eauto].
Qed.

Lemma delete_spec x ps d :
  repr x ps ->
  ((d ∈ descriptors (hooks x ps)) /\ exists x' ps', obhook_delete x d = Ret (0, x') /\ repr x' ps' /\
     hooks x' ps' = filter (fun r => uniq_d r <> d) (hooks x ps)) \/
  ((d ∉ descriptors (hooks x ps)) /\ exists e, obhook_delete x d = Ret (-1, with_errno x e)).
Proof.
  intros R. unfold obhook_delete. rewrite (elem_descriptors x ps d R).
  destruct ((d <? 0) || (MAX_NM_OBHOOK <=? d)) eqn:E.
  { right. rewrite (descriptor_range x ps d R E). split; [by intros [? ?]|eauto]. }
  destruct (index_tbl x !! d) as [p|] eqn:Hi; [left|right; split; [by intros [? ?]|eauto]].
  split; [by eexists|]. destruct (index_record x ps d p R Hi) as (r & Hr & _ & Hp). rewrite Hr.
  destruct (ht_rec r) as [cr3 addr] eqn:Eh. simpl.
  destruct (unlink_ok (hook_tbl x) cr3 addr p) as (t & Et & Ht).
  { change (p ∈ get_obhk_cb_internal x cr3 addr). rewrite (r_lists _ _ R), list_elem_of_filter, Hr.
    simpl. by rewrite Eh. }
  rewrite Et. eexists _, (filter (fun q => q <> p) ps). split; [reflexivity|].
  split; [by eapply (repr_removed x ps d p r t); [..|rewrite Eh]|by apply (hooks_removed x ps d p r t)].
Qed.

(** ** Lemmas: dispatching *)

Definition call (r : obhk_cb_record) : Z * Z := (cb_func r, cb_arg r).

(** The enabled hooks at an address of a process, or of every process for 0. *)
Definition firing (hs : list obhk_cb_record) (cr3 addr : Z) : list obhk_cb_record :=
  filter (fun r => ht_rec r = (cr3, addr) /\ enabled r = true) hs.

Lemma call_list_spec x ps cr3 addr :
  Forall (fun p => is_Some (cb_store x !! p)) ps ->
  call_list x (filter (fun p => (ht_rec <$> cb_store x !! p) = Some (cr3, addr)) ps) =
    Ret (map call (firing (hooks x ps) cr3 addr)).
Proof.
  intros Hall. induction Hall as [|p ps [r Hr] _ IH]; [done|].
  rewrite filter_cons, hooks_cons, Hr. unfold firing in *. rewrite filter_cons. simpl.
  destruct (decide (Some (ht_rec r) = Some (cr3, addr))) as [E|E].
  - simpl. rewrite Hr, IH. simpl. injection E as E.
    destruct (enabled r) eqn:En, (decide (ht_rec r = (cr3, addr) /\ _)); intuition congruence.
  - rewrite decide_False by (intros [? _]; congruence). exact IH.
Qed.

Lemma repr_all x ps : repr x ps -> Forall (fun p => is_Some (cb_store x !! p)) ps.
Proof. intros R. apply Forall_forall. intros p. apply (r_store _ _ R). Qed.

Lemma call_place x ps cr3 addr :
  repr x ps -> call_list x (get_obhk_cb_internal x cr3 addr) = Ret (map call (firing (hooks x ps) cr3 addr)).
Proof. intros R. rewrite (r_lists _ _ R). by apply call_list_spec, repr_all. Qed.

Lemma repr_init n : repr (init_obhk n) [].
Proof.
  split; simpl; try done.
  - constructor.
  - intros p. rewrite lookup_empty. split; [by intros ?%not_elem_of_nil|by intros [? ?]].
  - by intros p ?%not_elem_of_nil.
Qed.

(** A failed calloc may leave an empty hash table record, never a hook. *)
Lemma add_failure_same x cr3 addr l cb arg x' :
  0 <= get_obhook_descriptor x \/ get_obhook_descriptor x = -1 ->
  add_obhk_internal x cr3 addr l cb arg = Ret (-1, x') -> same_hooks x x'.
Proof.
  intros Hd. unfold add_obhk_internal.
  destruct (Z.eqb_spec (get_obhook_descriptor x) (-1)); [intros [= <-]; apply same_hooks_errno|].
  destruct (_ && _); [intros [= <-]; apply same_hooks_errno|].
  destruct (match l with Some _ => _ | None => _ end); [intros [= <-]; apply same_hooks_errno|].
  destruct (cb =? 0); [intros [= <-]; apply same_hooks_errno|].
  destruct (find_proc x cr3) as [x1|] eqn:E1; [|intros [= <-]; apply same_hooks_errno].
  destruct (find_proc_same _ _ _ E1) as (S1 & P1 & _).
  destruct (find_addr x1 cr3 addr) as [x2|] eqn:E2;
    [|intros [= <-]; by eapply same_hooks_trans; [|apply same_hooks_errno]].
  destruct (find_addr_same _ _ _ _ P1 E2) as (S2 & _ & _).
  assert (same_hooks x x2) as S by eauto using same_hooks_trans.
  destruct (calloc x2); [|intros [= <-]; by eapply same_hooks_trans; [|apply same_hooks_errno]].
  destruct l; [|done]. intros [= H _]. lia.
Qed.

(** * Properties *)

(** C20: The registry implements a plain list of hooks: every operation on a
    registry that represents a list returns, with the value and the new list the
    specification gives: adding takes the least free descriptor and appends,
    deleting and toggling act on the one hook with the descriptor, and wrong
    arguments or descriptors change nothing. The allocator has the three blocks an
    operation may need, and the hooks are added with a label. *)
Theorem obhook_refines x ps op :
  repr x ps -> (3 <= callocs_left x)%nat ->
  exists ret x' ps', exec_op x op = Ret (ret, x') /\ repr x' ps' /\
    hook_step (hooks x ps) op ret (hooks x' ps').
Proof.
  intros R Hm.
  assert (forall e, repr (with_errno x e) ps /\ hooks (with_errno x e) ps = hooks x ps) as He.
  { intros e. split; [by apply (repr_same x)|by apply hooks_same, same_hooks_errno]. }
  assert (forall d on, exists ret x' ps', Ret (toggle_obhk x d on) = Ret (ret, x') /\ repr x' ps' /\
    hook_step (hooks x ps) (if on then Enable d else Disable d) ret (hooks x' ps')) as Ht.
  { intros d on. destruct (toggle_spec x ps d on R) as [(Hd & p & -> & Hi)|(Hd & e & ->)].
    - exists 0, (toggled x p on), ps. split_and!; [done|by apply repr_toggled|].
      rewrite (hooks_toggled x ps d p on R Hi). destruct on; by constructor.
    - destruct (He e) as [R' E]. exists (-1), (with_errno x e), ps. rewrite E. split_and!; try done.
      apply (hook_unknown _ d); [done|]. destruct on; auto. }
  destruct op as [cr3 addr l cb arg|addr l cb arg|d|d|d]; simpl.
  - unfold obhook_add_process. destruct (Z.eqb_spec cr3 0) as [->|].
    + destruct (He OBHOOK_ERR_INVALID_CR3) as [R' E]. exists (-1), (with_errno x OBHOOK_ERR_INVALID_CR3), ps. rewrite E.
      split_and!; [done|done|]. apply hook_add_no_process.
    + destruct (add_internal_spec x ps cr3 addr l cb arg R Hm) as (ret & x' & ps' & E & R' & A).
      exists ret, x', ps'. split_and!; [done..|]. by constructor.
  - destruct (add_internal_spec x ps 0 addr l cb arg R Hm) as (ret & x' & ps' & E & R' & A).
    exists ret, x', ps'. split_and!; [done..|]. by constructor.
  - destruct (delete_spec x ps d R) as [(Hd & x' & ps' & -> & R' & E)|(Hd & e & ->)].
    + exists 0, x', ps'. rewrite E. split_and!; [done..|]. by constructor.
    + destruct (He e) as [R' E]. exists (-1), (with_errno x e), ps. rewrite E. split_and!; try done.
      apply (hook_unknown _ d); auto.
  - apply (Ht d true).
  - apply (Ht d false).
Qed.

Lemma obhook_refines_witness :
  exists ret x' ps', exec_op (init_obhk 9) (AddProcess 4096 64 [104; 105] 7 8) = Ret (ret, x') /\
    repr x' ps' /\ hook_step [] (AddProcess 4096 64 [104; 105] 7 8) ret (hooks x' ps').
Proof. apply (obhook_refines (init_obhk 9) []); [apply repr_init|simpl; lia]. Defined.

(** C34: Dispatching: at an instruction the callbacks of the enabled universal
    hooks at its address run, if that is a kernel address, then those of the
    enabled hooks of the current process at the address, each group in the order
    of registration and no others; the registered hooks stay as they are. *)
Theorem obhook_dispatch x ps cr3 eip :
  repr x ps ->
  exists x', helper_obhook_dispatcher x cr3 eip =
      Ret (map call (if is_kern_addr eip then firing (hooks x ps) 0 eip else []) ++
           map call (if cr3 =? 0 then [] else firing (hooks x ps) cr3 eip), x') /\
    repr x' ps /\ hooks x' ps = hooks x ps.
Proof.
  intros R. unfold helper_obhook_dispatcher, obhook_getcbs_univ, obhook_getcbs_proc.
  destruct (is_kern_addr eip); simpl.
  - rewrite (call_place x ps 0 eip R). simpl. destruct (cr3 =? 0); simpl.
    + eexists. split; [reflexivity|]. by split; [apply (repr_same x)|].
    + rewrite (call_place x ps cr3 eip R). simpl. by exists x.
  - assert (repr (with_errno x OBHOOK_ERR_INVALID_ADDR) ps) as R' by (by apply (repr_same x)).
    destruct (cr3 =? 0); simpl.
    + eexists. split; [reflexivity|]. by split; [apply (repr_same x)|].
    + rewrite (call_place _ ps cr3 eip R'). simpl. by eexists.
Qed.

Lemma obhook_dispatch_witness :
  exists x x', add_obhk_internal (init_obhk 3) 4096 64 (Some []) 7 8 = Ret (0, x) /\
    helper_obhook_dispatcher x 4096 64 = Ret ([(7, 8)], x').
Proof.
  destruct (add_internal_spec (init_obhk 3) [] 4096 64 [] 7 8) as (ret & x & ps & E & R & A).
  - apply repr_init.
  - simpl. lia.
  - destruct (obhook_dispatch x ps 4096 64 R) as (x' & Ed & _). exists x, x'.
    assert (ret = 0) as -> by (vm_compute in E; congruence). split; [exact E|].
    inversion A as [d _ _ Hd Hh|]. subst d. exact Ed.
Defined.

(** Adding a hook that fails, also because any of the three calls of calloc
    does, leaves every registered hook as it was. *)
Theorem obhook_add_failure x ps cr3 addr l cb arg x' :
  repr x ps -> add_obhk_internal x cr3 addr l cb arg = Ret (-1, x') ->
  repr x' ps /\ hooks x' ps = hooks x ps.
Proof.
  intros R E. assert (same_hooks x x') as S.
  { eapply add_failure_same; [|done]. destruct (descriptor_spec x ps R) as [[-> _]|[_ (H & _)]]; [auto|left; lia]. }
  split; [by eapply repr_same|by apply hooks_same].
Qed.

Lemma obhook_add_failure_witness :
  exists x', add_obhk_internal (init_obhk 2) 4096 64 (Some []) 7 8 = Ret (-1, x') /\ repr x' [].
Proof.
  destruct (add_obhk_internal (init_obhk 2) 4096 64 (Some []) 7 8) as [[r x']| |] eqn:E;
    [|vm_compute in E; discriminate E..].
  exists x'. assert (r = -1) as -> by (vm_compute in E; congruence). split; [reflexivity|].
  apply (obhook_add_failure (init_obhk 2) [] 4096 64 (Some []) 7 8 x'); [apply repr_init|exact E].
Defined.

(** The label is documented as optional, but a hook without one, when all
    other arguments are acceptable and memory is available, makes strncpy read
    through a null pointer. *)
Theorem obhook_null_label x ps cr3 addr cb arg :
  repr x ps -> (3 <= callocs_left x)%nat -> ~ full (hooks x ps) ->
  cr3 <> 0 -> cb <> 0 -> obhook_add_process x cr3 addr None cb arg = UB.
Proof.
  intros R Hm Hf Hc Hcb. apply Z.eqb_neq in Hc, Hcb. unfold obhook_add_process, add_obhk_internal.
  destruct (descriptor_spec x ps R) as [[_ ?]|[Hd _]]; [done|]. apply Z.eqb_neq in Hd.
  rewrite Hc, Hd, Hcb. simpl.
  destruct (find_proc_some x cr3) as [x1 E1]; [lia|].
  destruct (find_proc_same _ _ _ E1) as (_ & P1 & L1). rewrite E1.
  destruct (find_addr_some x1 cr3 addr) as [x2 E2]; [lia|].
  destruct (find_addr_same _ _ _ _ P1 E2) as (_ & _ & L2). rewrite E2.
  destruct (callocs_left x2) eqn:Ec; [lia|]. destruct (calloc_some x2 _ Ec) as [x3 ->]. done.
Qed.

Lemma obhook_null_label_witness : obhook_add_process (init_obhk 3) 4096 64 None 7 8 = UB.
Proof.
  apply (obhook_null_label (init_obhk 3) []).
  - apply repr_init.
  - simpl. lia.
  - intros H. specialize (H 0). apply not_elem_of_nil in H; [exact H|]. vm_compute. split; [discriminate|reflexivity].
  - lia.
  - lia.
Defined.
