(* ===== verification/Tracer.v ===== *)
(** * Instruction and block tracers

    The tracer registry of src/ext/tracer/tracer.c and the dispatchers that run
    the callbacks (helper_tracer_dispatcher and helper_btracer_dispatcher of
    src/target-i386/mba_helper.c).

    A record is in exactly one of the six lists and is changed only through the
    pointer that the search over the lists returns, so the lists hold the records
    themselves. The read-write lock and the printing functions are not modelled. *)

From S2P Require Import Prelude.

(** ** Data *)

Module Tracer.

Definition KERN_MASK : Z := 0xffff000000000000.
Definition MAX_SZ_TRACER_LABEL : Z := 16.
Definition UINT16_MAX : Z := 65535.

Inductive TRACER_ERRNO : Type :=
| TRACER_ERR_FAIL
| TRACER_INVALID_GRANULARITY
| TRACER_INVALID_ID
| TRACER_MAX_TRACER_ID.

Definition TRACER_GRANULARITY_INSTR : Z := 0.
Definition TRACER_GRANULARITY_CODEBLOCK : Z := 1.

(** The function of the default callback, a value of [cb_func]. *)
Definition default_callback : Z := -1.

Record tracer_cb_record : Type := TracerRecord {
  uid : Z;
  enabled : Z;
  cr3 : Z;
  is_universal : bool;
  is_kernel_trace : bool;
  trace_granularity : Z;
  label : list Z;
  cb_func : Z;
  cb_arg : Z
}.

Record tracer_context : Type := TracerCtx {
  serial_num : Z;
  process_tracer_head : list tracer_cb_record;
  universal_kernel_tracer_head : list tracer_cb_record;
  universal_tracer_head : list tracer_cb_record;
  process_btracer_head : list tracer_cb_record;
  universal_kernel_btracer_head : list tracer_cb_record;
  universal_btracer_head : list tracer_cb_record;
  g_error_no : TRACER_ERRNO
}.

Definition init_tracer : tracer_context := TracerCtx 0 [] [] [] [] [] [] TRACER_ERR_FAIL.

Definition with_error (x : tracer_context) (e : TRACER_ERRNO) : tracer_context :=
  TracerCtx (serial_num x) (process_tracer_head x) (universal_kernel_tracer_head x)
    (universal_tracer_head x) (process_btracer_head x) (universal_kernel_btracer_head x)
    (universal_btracer_head x) e.

(** ** Operations *)

Definition tracer_is_kern_addr (addr : Z) : bool := (addr .& KERN_MASK) =? KERN_MASK.

Fixpoint get_tracer_in_list (head : list tracer_cb_record) (u : Z) : option tracer_cb_record :=
  match head with
  | [] => None
  | rec :: next => if u =? uid rec then Some rec else get_tracer_in_list next u
  end.

(** The six lists in the order [get_tracer] searches them. *)
Definition lists (x : tracer_context) : list (list tracer_cb_record) :=
  [process_tracer_head x; universal_kernel_tracer_head x; universal_tracer_head x;
   process_btracer_head x; universal_kernel_btracer_head x; universal_btracer_head x].

Fixpoint first_in (ls : list (list tracer_cb_record)) (u : Z) : option tracer_cb_record :=
  match ls with
  | [] => None
  | l :: ls' => match get_tracer_in_list l u with Some rec => Some rec | None => first_in ls' u end
  end.

Definition get_tracer (x : tracer_context) (u : Z) : option tracer_cb_record * tracer_context :=
  match first_in (lists x) u with
  | Some rec => (Some rec, x)
  | None => (None, with_error x TRACER_INVALID_ID)
  end.

(** A write to [enabled] through the pointer of the record with this uid. *)
Definition set_in (u on : Z) (l : list tracer_cb_record) : list tracer_cb_record :=
  map (fun r => if uid r =? u
                then TracerRecord (uid r) on (cr3 r) (is_universal r) (is_kernel_trace r)
                       (trace_granularity r) (label r) (cb_func r) (cb_arg r)
                else r) l.

Definition set_enabled (x : tracer_context) (u on : Z) : tracer_context :=
  TracerCtx (serial_num x) (set_in u on (process_tracer_head x))
    (set_in u on (universal_kernel_tracer_head x)) (set_in u on (universal_tracer_head x))
    (set_in u on (process_btracer_head x)) (set_in u on (universal_kernel_btracer_head x))
    (set_in u on (universal_btracer_head x)) (g_error_no x).

Definition tracer_get_tracer_label (x : tracer_context) (u : Z) : option (list Z) * tracer_context :=
  let '(rec, x') := get_tracer x u in (label <$> rec, x').

Definition tracer_get_tracer_status (x : tracer_context) (u : Z) : Z * tracer_context :=
  let '(rec, x') := get_tracer x u in
  match rec with None => (-1, x') | Some r => (enabled r, x') end.

Definition tracer_disable_tracer (x : tracer_context) (u : Z) : Z * tracer_context :=
  let '(rec, x') := get_tracer x u in
  match rec with None => (-1, x') | Some r => (1, set_enabled x' u 0) end.

Definition tracer_enable_tracer (x : tracer_context) (u : Z) : Z * tracer_context :=
  let '(rec, x') := get_tracer x u in
  match rec with None => (-1, x') | Some r => (1, set_enabled x' u 1) end.

Definition label_field (l : list Z) : list Z :=
  take (Z.to_nat MAX_SZ_TRACER_LABEL) (l ++ replicate (Z.to_nat MAX_SZ_TRACER_LABEL) 0).

(** [LL_APPEND] to the list that fits the new record. *)
Definition append (x : tracer_context) (r : tracer_cb_record) : tracer_context :=
  let put (b : bool) (l : list tracer_cb_record) := if b then l ++ [r] else l in
  let instr := trace_granularity r =? TRACER_GRANULARITY_INSTR in
  let block := trace_granularity r =? TRACER_GRANULARITY_CODEBLOCK in
  let proc := negb (cr3 r =? 0) in
  let kern := (cr3 r =? 0) && is_kernel_trace r in
  let user := (cr3 r =? 0) && negb (is_kernel_trace r) in
  TracerCtx (serial_num x) (put (instr && proc) (process_tracer_head x))
    (put (instr && kern) (universal_kernel_tracer_head x))
    (put (instr && user) (universal_tracer_head x))
    (put (block && proc) (process_btracer_head x))
    (put (block && kern) (universal_kernel_btracer_head x))
    (put (block && user) (universal_btracer_head x)) (g_error_no x).

(** [calloc_ok]: whether calloc returned a record; its result is used unchecked.
    [l] is [None] for a NULL label. *)
Definition add_tracer_internal (x : tracer_context) (calloc_ok : bool) (c : Z) (l : option (list Z))
    (is_kernel : bool) (granularity cb usr_cb_arg : Z) : res (Z * tracer_context) :=
  if negb (granularity =? TRACER_GRANULARITY_INSTR) && negb (granularity =? TRACER_GRANULARITY_CODEBLOCK)
  then Ret (-1, with_error x TRACER_INVALID_GRANULARITY)
  else if serial_num x =? UINT16_MAX then Ret (-1, with_error x TRACER_MAX_TRACER_ID)
  else if negb calloc_ok then UB
  else match l with
  | None => UB
  | Some s =>
      let n := serial_num x + 1 in
      let x1 := TracerCtx n (process_tracer_head x) (universal_kernel_tracer_head x)
                  (universal_tracer_head x) (process_btracer_head x)
                  (universal_kernel_btracer_head x) (universal_btracer_head x) (g_error_no x) in
      Ret (u16 n, append x1 (TracerRecord (u16 n) 0 c (c =? 0) is_kernel granularity (label_field s)
                               cb usr_cb_arg))
  end.

(** [cb] is 0 for NULL. *)
Definition tracer_add_inst_tracer (x : tracer_context) (calloc_ok : bool) (c : Z) (l : option (list Z))
    (is_kernel : bool) (cb usr_cb_arg : Z) : res (Z * tracer_context) :=
  if cb =? 0
  then add_tracer_internal x calloc_ok c l is_kernel TRACER_GRANULARITY_INSTR default_callback 0
  else add_tracer_internal x calloc_ok c l is_kernel TRACER_GRANULARITY_INSTR cb usr_cb_arg.

Definition tracer_add_block_tracer (x : tracer_context) (calloc_ok : bool) (c : Z) (l : option (list Z))
    (is_kernel : bool) (cb usr_cb_arg : Z) : res (Z * tracer_context) :=
  if cb =? 0
  then add_tracer_internal x calloc_ok c l is_kernel TRACER_GRANULARITY_CODEBLOCK default_callback 0
  else add_tracer_internal x calloc_ok c l is_kernel TRACER_GRANULARITY_CODEBLOCK cb usr_cb_arg.

Definition tracer_clean_up (x : tracer_context) : Z * tracer_context :=
  (0, TracerCtx 0 [] [] [] [] [] [] (g_error_no x)).

(** ** Dispatchers: the callbacks called, with their arguments *)

Definition call (a b : Z) (r : tracer_cb_record) : Z * Z * Z * Z := (cb_func r, a, b, cb_arg r).

Definition call_process (l : list tracer_cb_record) (env_cr3 a b : Z) : list (Z * Z * Z * Z) :=
  map (call a b) (filter (fun r => (env_cr3 =? cr3 r) && (enabled r =? 1)) l).
Definition call_universal (l : list tracer_cb_record) (a b : Z) : list (Z * Z * Z * Z) :=
  map (call a b) (filter (fun r => enabled r =? 1) l).

Definition helper_tracer_dispatcher (x : tracer_context) (env_cr3 pc : Z) : list (Z * Z * Z * Z) :=
  (if negb (tracer_is_kern_addr pc) then call_process (process_tracer_head x) env_cr3 pc 0 else []) ++
  (if tracer_is_kern_addr pc then call_universal (universal_kernel_tracer_head x) pc 0 else []) ++
  (if negb (tracer_is_kern_addr pc) then call_universal (universal_tracer_head x) pc 0 else []).

Definition helper_btracer_dispatcher (x : tracer_context) (env_cr3 bstart bend : Z)
  : list (Z * Z * Z * Z) :=
  (if negb (tracer_is_kern_addr bstart)
   then call_process (process_btracer_head x) env_cr3 bstart bend else []) ++
  (if tracer_is_kern_addr bstart
   then call_universal (universal_kernel_btracer_head x) bstart bend else []) ++
  (if negb (tracer_is_kern_addr bstart)
   then call_universal (universal_btracer_head x) bstart bend else []).

(** ** What the registry promises

    The tracers in the order they were added: the [i]-th has the uid [i + 1]. *)

(** The list a tracer belongs to. *)
Inductive class : Type := Process | Kernel | User.
#[global] Instance class_eq_dec : EqDecision class.
Proof. solve_decision. Defined.

Definition class_of (r : tracer_cb_record) : class :=
  if cr3 r =? 0 then (if is_kernel_trace r then Kernel else User) else Process.

Definition members (ts : list tracer_cb_record) (gran : Z) (c : class) : list tracer_cb_record :=
  filter (fun r => trace_granularity r = gran /\ class_of r = c) ts.

Definition valid_granularity (z : Z) : bool :=
  (z =? TRACER_GRANULARITY_INSTR) || (z =? TRACER_GRANULARITY_CODEBLOCK).

Record repr (x : tracer_context) (ts : list tracer_cb_record) : Prop := {
  r_serial : serial_num x = Z.of_nat (length ts);
  r_limit : Z.of_nat (length ts) <= UINT16_MAX;
  r_uid : forall (i : nat) r, ts !! i = Some r -> uid r = Z.of_nat i + 1;
  r_gran : Forall (fun r => valid_granularity (trace_granularity r) = true) ts;
  r_lists : lists x = [members ts TRACER_GRANULARITY_INSTR Process;
                       members ts TRACER_GRANULARITY_INSTR Kernel;
                       members ts TRACER_GRANULARITY_INSTR User;
                       members ts TRACER_GRANULARITY_CODEBLOCK Process;
                       members ts TRACER_GRANULARITY_CODEBLOCK Kernel;
                       members ts TRACER_GRANULARITY_CODEBLOCK User]
}.

Definition tracer_at (ts : list tracer_cb_record) (u : Z) : option tracer_cb_record :=
  if u <=? 0 then None else ts !! Z.to_nat (u - 1).

(** ** Lemmas *)

Lemma get_tracer_in_list_spec l u r :
  get_tracer_in_list l u = Some r -> r ∈ l /\ uid r = u.
Proof.
  induction l as [|s l IH]; simpl; [done|]. destruct (Z.eqb_spec u (uid s)) as [->|].
  - intros [= ->]. split; [constructor|done].
  - intros H. destruct (IH H). split; [by constructor|done].
Qed.

Lemma get_tracer_in_list_none l u :
  get_tracer_in_list l u = None -> forall r, r ∈ l -> uid r <> u.
Proof.
  induction l as [|s l IH]; simpl; [by intros _ r ?%not_elem_of_nil|].
  destruct (Z.eqb_spec u (uid s)); [done|]. intros H r [->|Hr]%elem_of_cons; [done|by apply IH].
Qed.

Lemma first_in_some ls u r : first_in ls u = Some r -> exists l, l ∈ ls /\ r ∈ l /\ uid r = u.
Proof.
  induction ls as [|l ls IH]; simpl; [done|]. destruct (get_tracer_in_list l u) eqn:E.
  - intros [= ->]. exists l. split; [constructor|by apply get_tracer_in_list_spec].
  - intros H. destruct (IH H) as (l' & Hl & Hr). exists l'. split; [by constructor|done].
Qed.

Lemma first_in_none ls u : first_in ls u = None -> forall l r, l ∈ ls -> r ∈ l -> uid r <> u.
Proof.
  induction ls as [|l ls IH]; simpl; [by intros _ l r ?%not_elem_of_nil|].
  destruct (get_tracer_in_list l u) eqn:E; [done|]. intros H l' r [->|Hl]%elem_of_cons Hr.
  - by apply (get_tracer_in_list_none l).
  - by apply (IH H l').
Qed.

(** Every tracer is in one of the lists, and they hold nothing else. *)
Lemma lists_members x ts r :
  repr x ts -> r ∈ ts <-> exists l, l ∈ lists x /\ r ∈ l.
Proof.
  intros R. rewrite (r_lists _ _ R). split.
  - intros Hr. assert (valid_granularity (trace_granularity r) = true) as Hg.
    { pose proof (r_gran _ _ R) as H. rewrite Forall_forall in H. auto. }
    exists (members ts (trace_granularity r) (class_of r)).
    split; [|by unfold members; apply list_elem_of_filter].
    unfold valid_granularity in Hg. apply orb_true_iff in Hg as [Hg|Hg]; apply Z.eqb_eq in Hg as ->;
      destruct (class_of r); repeat (constructor || done); set_solver.
  - intros (l & Hl & Hr). repeat (apply elem_of_cons in Hl as [->|Hl]; [unfold members in Hr; apply list_elem_of_filter in Hr; tauto|]).
    by apply not_elem_of_nil in Hl.
Qed.

Lemma tracer_at_uid x ts u r : repr x ts -> tracer_at ts u = Some r <-> (r ∈ ts /\ uid r = u).
Proof.
  intros R. unfold tracer_at. split.
  - destruct (Z.leb_spec u 0); [done|]. intros Hr. split; [by eapply list_elem_of_lookup_2|].
    rewrite (r_uid _ _ R _ _ Hr). lia.
  - intros [[i Hi]%list_elem_of_lookup_1 Hu]. pose proof (r_uid _ _ R _ _ Hi).
    destruct (Z.leb_spec u 0); [lia|]. by replace (Z.to_nat (u - 1)) with i by lia.
Qed.

Lemma get_tracer_spec x ts u :
  repr x ts -> get_tracer x u = (tracer_at ts u, match tracer_at ts u with
                                                  | Some _ => x
                                                  | None => with_error x TRACER_INVALID_ID
                                                  end).
Proof.
  intros R. unfold get_tracer. destruct (first_in (lists x) u) as [r|] eqn:E.
  - apply first_in_some in E as (l & Hl & Hr & Hu). assert (tracer_at ts u = Some r) as ->; [|done].
    apply (tracer_at_uid x ts u r R). split; [|done]. apply (lists_members x ts r R). eauto.
  - destruct (tracer_at ts u) as [r|] eqn:Et; [|done]. apply (tracer_at_uid x ts u r R) in Et as [Hr Hu].
    apply (lists_members x ts r R) in Hr as (l & Hl & Hr). by destruct (first_in_none _ _ E l r Hl Hr).
Qed.

Lemma members_app ts r gran c :
  members (ts ++ [r]) gran c =
    members ts gran c ++ (if decide (trace_granularity r = gran /\ class_of r = c) then [r] else []).
Proof. unfold members. rewrite filter_app, filter_cons, filter_nil. by case_decide. Qed.

Lemma repr_add x ts c l is_kernel gran cb arg :
  repr x ts -> valid_granularity gran = true -> Z.of_nat (length ts) < UINT16_MAX ->
  let r := TracerRecord (Z.of_nat (length ts) + 1) 0 c (c =? 0) is_kernel gran (label_field l) cb arg in
  exists x', add_tracer_internal x true c (Some l) is_kernel gran cb arg =
      Ret (Z.of_nat (length ts) + 1, x') /\ repr x' (ts ++ [r]).
Proof.
  intros R Hg Hl r. unfold add_tracer_internal. rewrite (r_serial _ _ R).
  assert (negb (gran =? TRACER_GRANULARITY_INSTR) && negb (gran =? TRACER_GRANULARITY_CODEBLOCK) = false) as ->.
  { unfold valid_granularity in Hg. rewrite <- negb_orb, Hg. done. }
  destruct (Z.eqb_spec (Z.of_nat (length ts)) UINT16_MAX); [lia|]. cbn [negb].
  unfold UINT16_MAX in *. assert (u16 (Z.of_nat (length ts) + 1) = Z.of_nat (length ts) + 1) as ->
    by (apply Z.mod_small; lia).
  eexists. split; [reflexivity|]. fold r. split; simpl.
  - rewrite length_app. simpl. lia.
  - rewrite length_app. unfold UINT16_MAX. simpl. lia.
  - intros i s [Hs|[Hi Hs]]%lookup_app_Some; [by apply (r_uid _ _ R)|].
    apply list_lookup_singleton_Some in Hs as [Hi0 <-]. simpl. lia.
  - apply Forall_app. split; [apply R|]. by constructor.
  - rewrite !members_app. pose proof (r_lists _ _ R) as E. unfold lists in E |- *.
    injection E as -> -> -> -> -> ->. simpl. unfold class_of. simpl.
    unfold valid_granularity in Hg.
    apply orb_true_iff in Hg as [Hg|Hg]; apply Z.eqb_eq in Hg; subst gran; simpl;
      destruct (c =? 0), is_kernel; simpl; rewrite ?app_nil_r; reflexivity.
Qed.

Lemma members_set_in u on ts gran c : set_in u on (members ts gran c) = members (set_in u on ts) gran c.
Proof.
  apply (map_filter_stable (fun r => trace_granularity r = gran /\ class_of r = c)).
  intros r. by destruct (uid r =? u).
Qed.

Lemma set_in_lookup u on ts i : set_in u on ts !! i =
  (fun r => if uid r =? u
            then TracerRecord (uid r) on (cr3 r) (is_universal r) (is_kernel_trace r)
                   (trace_granularity r) (label r) (cb_func r) (cb_arg r)
            else r) <$> ts !! i.
Proof. unfold set_in. apply list_lookup_fmap. Qed.

Lemma repr_set_enabled x ts u on : repr x ts -> repr (set_enabled x u on) (set_in u on ts).
Proof.
  intros R. assert (length (set_in u on ts) = length ts) as Hl by apply length_map.
  split; simpl; rewrite ?Hl; try apply R.
  - intros i r. rewrite set_in_lookup. destruct (ts !! i) as [s|] eqn:Es; [|done].
    intros [= <-]. pose proof (r_uid _ _ R _ _ Es). by destruct (uid s =? u).
  - unfold set_in. apply Forall_map. eapply Forall_impl; [apply R|]. intros r Hr.
    by destruct (uid r =? u).
  - pose proof (r_lists _ _ R) as E. unfold lists in E |- *. injection E as E1 E2 E3 E4 E5 E6. simpl.
    by rewrite E1, E2, E3, E4, E5, E6, !members_set_in.
Qed.

Lemma repr_error x ts e : repr x ts -> repr (with_error x e) ts.
Proof. by intros []. Qed.

(** ** Operations on the list of tracers *)

Inductive tracer_op : Type :=
| AddInst (c : Z) (l : list Z) (is_kernel : bool) (cb arg : Z)
| AddBlock (c : Z) (l : list Z) (is_kernel : bool) (cb arg : Z)
| Enable (u : Z)
| Disable (u : Z)
| Status (u : Z)
| CleanUp.

Definition exec_op (x : tracer_context) (op : tracer_op) : res (Z * tracer_context) :=
  match op with
  | AddInst c l k cb arg => tracer_add_inst_tracer x true c (Some l) k cb arg
  | AddBlock c l k cb arg => tracer_add_block_tracer x true c (Some l) k cb arg
  | Enable u => Ret (tracer_enable_tracer x u)
  | Disable u => Ret (tracer_disable_tracer x u)
  | Status u => Ret (tracer_get_tracer_status x u)
  | CleanUp => Ret (tracer_clean_up x)
  end.

Definition spec_add (ts : list tracer_cb_record) (gran c : Z) (l : list Z) (k : bool) (cb arg : Z)
  : Z * list tracer_cb_record :=
  let n := Z.of_nat (length ts) in
  if n =? UINT16_MAX then (-1, ts)
  else (n + 1, ts ++ [TracerRecord (n + 1) 0 c (c =? 0) k gran (label_field l)
                        (if cb =? 0 then default_callback else cb) (if cb =? 0 then 0 else arg)]).

Definition spec_set (ts : list tracer_cb_record) (u on : Z) : Z * list tracer_cb_record :=
  match tracer_at ts u with
  | None => (-1, ts)
  | Some _ => (1, set_in u on ts)
  end.

Definition spec_op (ts : list tracer_cb_record) (op : tracer_op) : Z * list tracer_cb_record :=
  match op with
  | AddInst c l k cb arg => spec_add ts TRACER_GRANULARITY_INSTR c l k cb arg
  | AddBlock c l k cb arg => spec_add ts TRACER_GRANULARITY_CODEBLOCK c l k cb arg
  | Enable u => spec_set ts u 1
  | Disable u => spec_set ts u 0
  | Status u => (match tracer_at ts u with None => -1 | Some r => enabled r end, ts)
  | CleanUp => (0, [])
  end.

Lemma add_spec x ts gran c l k cb arg :
  repr x ts -> valid_granularity gran = true ->
  exists x', (if cb =? 0 then add_tracer_internal x true c (Some l) k gran default_callback 0
              else add_tracer_internal x true c (Some l) k gran cb arg) =
      Ret ((spec_add ts gran c l k cb arg).1, x') /\ repr x' (spec_add ts gran c l k cb arg).2.
Proof.
  intros R Hg. unfold spec_add. destruct (Z.eqb_spec (Z.of_nat (length ts)) UINT16_MAX) as [E|E].
  - assert (forall b a, add_tracer_internal x true c (Some l) k gran b a =
      Ret (-1, with_error x TRACER_MAX_TRACER_ID)) as Hf.
    { intros b a. unfold add_tracer_internal. rewrite <- negb_orb. fold (valid_granularity gran).
      by rewrite Hg, (r_serial _ _ R), E. }
    exists (with_error x TRACER_MAX_TRACER_ID). rewrite !Hf. split; [by destruct (cb =? 0)|].
    by apply repr_error.
  - pose proof (r_limit _ _ R). destruct (cb =? 0).
    + apply (repr_add x ts c l k gran default_callback 0); [done..|lia].
    + apply (repr_add x ts c l k gran cb arg); [done..|lia].
Qed.

Lemma set_spec x ts u on :
  repr x ts ->
  exists x', (let '(rec, x') := get_tracer x u in
              match rec with None => (-1, x') | Some r => (1, set_enabled x' u on) end) =
      ((spec_set ts u on).1, x') /\ repr x' (spec_set ts u on).2.
Proof.
  intros R. rewrite (get_tracer_spec x ts u R). unfold spec_set. destruct (tracer_at ts u); eexists.
  - split; [done|]. by apply repr_set_enabled.
  - split; [done|]. by apply repr_error.
Qed.

Lemma tracer_repr_init : repr init_tracer [].
Proof. by split. Qed.
End Tracer.

(** * Properties *)

(** C23: The tracer registry implements the list of tracers in the order they were
    added: every operation returns and gives the value and the list of the
    specification. New tracers are disabled and get the next number, from 1 up to
    65535; enabling and disabling act on the one tracer with the number and return
    1, or -1 when there is none; cleaning up empties the registry. *)
Theorem tracer_refines x ts op :
  Tracer.repr x ts ->
  exists x', Tracer.exec_op x op = Ret ((Tracer.spec_op ts op).1, x') /\
    Tracer.repr x' (Tracer.spec_op ts op).2.
Proof.
  intros R. destruct op as [c l k cb arg|c l k cb arg|u|u|u|].
  - by apply Tracer.add_spec.
  - by apply Tracer.add_spec.
  - destruct (Tracer.set_spec x ts u 1 R) as (x' & E & R'). exists x'. split; [|done].
    simpl. unfold Tracer.tracer_enable_tracer. by rewrite E.
  - destruct (Tracer.set_spec x ts u 0 R) as (x' & E & R'). exists x'. split; [|done].
    simpl. unfold Tracer.tracer_disable_tracer. by rewrite E.
  - simpl. unfold Tracer.tracer_get_tracer_status. rewrite (Tracer.get_tracer_spec x ts u R).
    destruct (Tracer.tracer_at ts u); eexists; (split; [reflexivity|]); [done|by apply Tracer.repr_error].
  - eexists. split; [reflexivity|]. by apply (Tracer.repr_error Tracer.init_tracer), Tracer.tracer_repr_init.
Qed.

Lemma tracer_refines_witness :
  exists x', Tracer.exec_op Tracer.init_tracer (Tracer.AddInst 0 [104] true 0 5) = Ret (1, x').
Proof.
  destruct (tracer_refines Tracer.init_tracer [] (Tracer.AddInst 0 [104] true 0 5)) as (x' & E & _).
  - apply Tracer.tracer_repr_init.
  - exists x'. exact E.
Defined.

(** C35: Which tracers run: at a user address the enabled tracers of the current
    process and then the enabled universal user tracers, at a kernel address only
    the enabled universal kernel tracers, in the order they were added. So a tracer
    bound to a process never runs in the kernel, also when it was added to trace
    kernel instructions. *)
Theorem tracer_dispatch x ts env_cr3 pc bend :
  Tracer.repr x ts ->
  let on gran c := filter (fun r => Tracer.trace_granularity r = gran /\ Tracer.class_of r = c /\
    (c = Tracer.Process -> Tracer.cr3 r = env_cr3) /\ Tracer.enabled r = 1) ts in
  let run gran := if Tracer.tracer_is_kern_addr pc then on gran Tracer.Kernel
                  else on gran Tracer.Process ++ on gran Tracer.User in
  Tracer.helper_tracer_dispatcher x env_cr3 pc =
    map (Tracer.call pc 0) (run Tracer.TRACER_GRANULARITY_INSTR) /\
  Tracer.helper_btracer_dispatcher x env_cr3 pc bend =
    map (Tracer.call pc bend) (run Tracer.TRACER_GRANULARITY_CODEBLOCK).
Proof.
  intros R on run. pose proof (Tracer.r_lists _ _ R) as E. unfold Tracer.lists in E.
  injection E as E1 E2 E3 E4 E5 E6.
  unfold Tracer.helper_tracer_dispatcher, Tracer.helper_btracer_dispatcher.
  rewrite E1, E2, E3, E4, E5, E6. unfold run, on, Tracer.call_process, Tracer.call_universal, Tracer.members.
  destruct (Tracer.tracer_is_kern_addr pc); simpl; rewrite ?app_nil_r, ?map_app.
  - split; f_equal; rewrite list_filter_filter; apply filter_ext; intros r _; rewrite Is_true_true, Z.eqb_eq;
      intuition discriminate.
  - split; f_equal; f_equal; rewrite list_filter_filter; apply filter_ext; intros r _;
      rewrite Is_true_true, ?andb_true_iff, !Z.eqb_eq; intuition (discriminate || congruence).
Qed.

Lemma tracer_dispatch_witness :
  exists x, Tracer.helper_tracer_dispatcher x 4096 0xffff000000000000 = [(7, 0xffff000000000000, 0, 8)].
Proof.
  destruct (Tracer.repr_add Tracer.init_tracer [] 0 [] true Tracer.TRACER_GRANULARITY_INSTR 7 8)
    as (x & _ & R).
  - apply Tracer.tracer_repr_init.
  - reflexivity.
  - vm_compute. reflexivity.
  - exists (Tracer.set_enabled x 1 1). apply (Tracer.repr_set_enabled x _ 1 1) in R.
    destruct (tracer_dispatch _ _ 4096 0xffff000000000000 0 R) as [E _]. rewrite E. reflexivity.
Defined.
