(* ===== verification/NetTraMon.v ===== *)
(** * The network traffic monitor

    All of src/ext/nettramon/nettramon.c, with the structures of nettramon.h:
    packet parsing, the printed form of a packet, the output files and the
    filter, starting and stopping, the callbacks, and the capture of a packet,
    which uses all of them.

    A packet is a list of bytes and a pointer into it an offset, NULL is [None];
    reading outside the packet is [UB]. Text is a list of character codes.
    Parameters stand for fopen, for the filter compiler and interpreter of
    libpcap, and for the callbacks, whose calls are recorded in order. *)

From S2P Require Import Prelude.
From stdpp Require Import strings pretty.

#[local] Open Scope Z_scope.

Module NetTraMon.

(** ** Data *)

Inductive MBA_NETTRAMON_PRO : Type :=
| NETTRAMON_PRO_UNKNOWN
| NETTRAMON_PRO_TCP
| NETTRAMON_PRO_UDP
| NETTRAMON_PRO_ICMP.

#[global] Instance pro_eq_dec : EqDecision MBA_NETTRAMON_PRO.
Proof. solve_decision. Defined.

(** Sizes of the header structures. *)
Definition SZ_ETHERNET_H : Z := 14.
Definition SZ_IP_H : Z := 20.
Definition SZ_TCP_H : Z := 20.
Definition SZ_UDP_H : Z := 8.
Definition SZ_ICMP_H : Z := 8.

Definition IPPROTO_ICMP : Z := 1.
Definition IPPROTO_TCP : Z := 6.
Definition IPPROTO_UDP : Z := 17.

Definition SZ_NETTRAMON_PATH_LENGTH : Z := 64.
Definition SZ_NETTRAMON_MAX_CB : Z := 65535.

Record packet_info : Type := PacketInfo {
  packet_protocol : MBA_NETTRAMON_PRO;
  eth_head : option Z;
  ip_head : option Z;
  tcp_head : option Z;
  udp_head : option Z;
  icmp_head : option Z;
  payload : option Z;
  pkt_len : Z
}.

Abbreviation text := (list Z).

(** The characters of a literal. *)
Definition str (s : string) : text :=
  map (fun c => Z.of_N (Ascii.N_of_ascii c)) (String.list_ascii_of_string s).

(** FILE* and Monitor* are numbers. *)
Record file_ptr : Type := FilePtr {
  all_file : option Z;
  tcp_file : option Z;
  udp_file : option Z;
  icmp_file : option Z
}.

Record path_buffer : Type := PathBuffer {
  has_set : bool;
  all_file_path_buf : text;
  tcp_file_path_buf : text;
  udp_file_path_buf : text;
  icmp_file_path_buf : text
}.

Record nettramon_cb : Type := NtmCb { uid : Z; enabled : bool; user_cb : Z; cb_arg : Z }.

(** A filter is a compiled program, or [None] in the structure when it was
    allocated and never filled. [cb_list] and [cb_arr] hold addresses of records
    in [cbs]. [locked] tells whether rwlock is held between calls. *)
Record ntm_context : Type := Ntm {
  protocol_type : MBA_NETTRAMON_PRO;
  local_mon : option Z;
  filter_prog : option (option Z);
  status : bool;
  fp : file_ptr;
  pb : path_buffer;
  cb_list : list Z;
  cb_arr : gmap Z Z;
  cbs : gmap Z nettramon_cb;
  next_ptr : Z;
  locked : bool
}.

Definition no_files : file_ptr := FilePtr None None None None.
Definition zero_buf : text := replicate (Z.to_nat SZ_NETTRAMON_PATH_LENGTH) 0.
Definition zero_pb : path_buffer := PathBuffer false zero_buf zero_buf zero_buf zero_buf.

Definition ntm : ntm_context :=
  Ntm NETTRAMON_PRO_UNKNOWN None None false no_files zero_pb [] ∅ ∅ 1 false.

Definition with_protocol (x : ntm_context) p : ntm_context :=
  Ntm p (local_mon x) (filter_prog x) (status x) (fp x) (pb x) (cb_list x) (cb_arr x) (cbs x) (next_ptr x) (locked x).
Definition with_mon (x : ntm_context) m : ntm_context :=
  Ntm (protocol_type x) m (filter_prog x) (status x) (fp x) (pb x) (cb_list x) (cb_arr x) (cbs x) (next_ptr x) (locked x).
Definition with_filter (x : ntm_context) f : ntm_context :=
  Ntm (protocol_type x) (local_mon x) f (status x) (fp x) (pb x) (cb_list x) (cb_arr x) (cbs x) (next_ptr x) (locked x).
Definition with_status (x : ntm_context) b : ntm_context :=
  Ntm (protocol_type x) (local_mon x) (filter_prog x) b (fp x) (pb x) (cb_list x) (cb_arr x) (cbs x) (next_ptr x) (locked x).
Definition with_fp (x : ntm_context) f : ntm_context :=
  Ntm (protocol_type x) (local_mon x) (filter_prog x) (status x) f (pb x) (cb_list x) (cb_arr x) (cbs x) (next_ptr x) (locked x).
Definition with_pb (x : ntm_context) b : ntm_context :=
  Ntm (protocol_type x) (local_mon x) (filter_prog x) (status x) (fp x) b (cb_list x) (cb_arr x) (cbs x) (next_ptr x) (locked x).
Definition with_cbs (x : ntm_context) l a c n : ntm_context :=
  Ntm (protocol_type x) (local_mon x) (filter_prog x) (status x) (fp x) (pb x) l a c n (locked x).
Definition with_lock (x : ntm_context) b : ntm_context :=
  Ntm (protocol_type x) (local_mon x) (filter_prog x) (status x) (fp x) (pb x) (cb_list x) (cb_arr x) (cbs x) (next_ptr x) b.

(** ** Packet parsing *)

Definition clear_packet_info (i : packet_info) : packet_info :=
  PacketInfo NETTRAMON_PRO_UNKNOWN None None None None None None 0.

Definition byte_at (buf : list Z) (i : Z) : res Z :=
  if i <? 0 then UB else match buf !! Z.to_nat i with Some b => Ret b | None => UB end.

(** [ntohs] of a 16-bit field, and the field itself on a little-endian host. *)
Definition ntohs_at (buf : list Z) (i : Z) : res Z :=
  hi ← byte_at buf i; lo ← byte_at buf (i + 1); Ret (hi * 256 + lo).
Definition u_short_at (buf : list Z) (i : Z) : res Z :=
  lo ← byte_at buf i; hi ← byte_at buf (i + 1); Ret (hi * 256 + lo).

(** Fields of the headers, given where the header starts. *)
Definition IP_HL (buf : list Z) (ip : Z) : res Z := b ← byte_at buf ip; Ret (b .& 0x0f).
Definition ip_len (buf : list Z) (ip : Z) : res Z := ntohs_at buf (ip + 2).
Definition ip_p (buf : list Z) (ip : Z) : res Z := byte_at buf (ip + 9).
Definition TH_OFF (buf : list Z) (tcp : Z) : res Z :=
  b ← byte_at buf (tcp + 12); Ret (Z.shiftr (b .& 0xf0) 4).
Definition uh_leng (buf : list Z) (udp : Z) : res Z := ntohs_at buf (udp + 4).

(** The three cases of the switch; each fills every field or clears them all. *)
Definition parse_tcp (buf : list Z) (i : packet_info) (size_ip check_len : Z) : res (Z * packet_info) :=
  let ip := SZ_ETHERNET_H in
  let tcp := SZ_ETHERNET_H + size_ip in
  if check_len <? SZ_TCP_H then Ret (1, clear_packet_info i) else
  off ← TH_OFF buf tcp;
  let size_tcp := off * 4 in
  if (size_tcp <? SZ_TCP_H) || (check_len <? size_tcp) then Ret (1, clear_packet_info i) else
  let check_len := check_len - size_tcp in
  total ← ip_len buf ip;
  let len := u64 (total - (size_ip + size_tcp)) in
  if negb (check_len =? len) then Ret (1, clear_packet_info i) else
  Ret (0, PacketInfo NETTRAMON_PRO_TCP (Some 0) (Some ip) (Some tcp) None None
            (Some (SZ_ETHERNET_H + size_ip + size_tcp)) len).

Definition parse_udp (buf : list Z) (i : packet_info) (size_ip check_len : Z) : res (Z * packet_info) :=
  let ip := SZ_ETHERNET_H in
  let udp := SZ_ETHERNET_H + size_ip in
  if check_len <? SZ_UDP_H then Ret (1, clear_packet_info i) else
  leng ← uh_leng buf udp;
  if negb (check_len =? leng) then Ret (1, clear_packet_info i) else
  let check_len := check_len - SZ_UDP_H in
  total ← ip_len buf ip;
  let len := u64 (total - (size_ip + SZ_UDP_H)) in
  if negb (check_len =? len) then Ret (1, clear_packet_info i) else
  Ret (0, PacketInfo NETTRAMON_PRO_UDP (Some 0) (Some ip) None (Some udp) None
            (Some (SZ_ETHERNET_H + size_ip + SZ_UDP_H)) len).

Definition parse_icmp (buf : list Z) (i : packet_info) (size_ip check_len : Z) : res (Z * packet_info) :=
  let ip := SZ_ETHERNET_H in
  let icmp := SZ_ETHERNET_H + size_ip in
  if check_len <? SZ_ICMP_H then Ret (1, clear_packet_info i) else
  total ← ip_len buf ip;
  let len := u64 (total - (size_ip + SZ_ICMP_H)) in
  let check_len := check_len - SZ_ICMP_H in
  if negb (check_len =? len) then Ret (1, clear_packet_info i) else
  Ret (0, PacketInfo NETTRAMON_PRO_ICMP (Some 0) (Some ip) None None (Some icmp)
            (Some (SZ_ETHERNET_H + size_ip + SZ_ICMP_H)) len).

Definition nettramon_packet_parse (buf : list Z) (len : Z) (user_info : option packet_info)
  : res (Z * option packet_info) :=
  match user_info with
  | None => Ret (1, None)
  | Some i =>
      let done (r : res (Z * packet_info)) := '(c, j) ← r; Ret (c, Some j) in
      if len <? SZ_ETHERNET_H then done (Ret (1, clear_packet_info i)) else
      let check_len := len - SZ_ETHERNET_H in
      if check_len <? SZ_IP_H then done (Ret (1, clear_packet_info i)) else
      let ip := SZ_ETHERNET_H in
      hl ← IP_HL buf ip;
      let size_ip := hl * 4 in
      if (size_ip <? 20) || (check_len <? size_ip) then done (Ret (1, clear_packet_info i)) else
      let check_len := check_len - size_ip in
      p ← ip_p buf ip;
      done (if p =? IPPROTO_TCP then parse_tcp buf i size_ip check_len
            else if p =? IPPROTO_UDP then parse_udp buf i size_ip check_len
            else if p =? IPPROTO_ICMP then parse_icmp buf i size_ip check_len
            else Ret (1, clear_packet_info i))
  end.

(** ** Printing

    A printing function returns the strings it hands to nettramon_printf, one
    per call, in order. *)

Inductive sink : Type := ToMonitor (m : Z) | ToFile (f : Z).

Definition is_none {A} (o : option A) : bool := match o with None => true | Some _ => false end.

Definition no_file (f : file_ptr) : bool :=
  is_none (all_file f) && is_none (tcp_file f) && is_none (udp_file f) && is_none (icmp_file f).

Definition to_file (f : option Z) : list sink := match f with Some h => [ToFile h] | None => [] end.

(** Where nettramon_printf writes. *)
Definition sinks (x : ntm_context) : list sink :=
  let rest :=
    (match protocol_type x with
     | NETTRAMON_PRO_TCP => to_file (tcp_file (fp x))
     | NETTRAMON_PRO_UDP => to_file (udp_file (fp x))
     | NETTRAMON_PRO_ICMP => to_file (icmp_file (fp x))
     | NETTRAMON_PRO_UNKNOWN => []
     end) ++
    (if bool_decide (protocol_type x <> NETTRAMON_PRO_UNKNOWN) then to_file (all_file (fp x)) else []) in
  match local_mon x with
  | Some m => if no_file (fp x) then [ToMonitor m] else rest
  | None => rest
  end.

Definition nettramon_printf (x : ntm_context) (s : text) : list (sink * text) :=
  map (fun k => (k, s)) (sinks x).

(** [%0<w>x] of an unsigned int, [%d], and isprint in the C locale. *)
Definition hex_digit (d : Z) : Z := if d <? 10 then 48 + d else 87 + d.

Fixpoint hex_digits (fuel : nat) (n : Z) (acc : text) : text :=
  match fuel with
  | O => acc
  | S f => let acc := hex_digit (n mod 16) :: acc in
           if n <? 16 then acc else hex_digits f (n / 16) acc
  end.

Definition printf_x (w : nat) (n : Z) : text :=
  let d := hex_digits 8 (u32 n) [] in replicate (w - length d) 48 ++ d.

Definition printf_d (n : Z) : text := str (pretty n).

Definition isprint (c : Z) : bool := (32 <=? c) && (c <=? 126).

(** [n] bytes of the packet from offset [i]. *)
Fixpoint bytes_at (n : nat) (buf : list Z) (i : Z) : res (list Z) :=
  match n with
  | O => Ret []
  | S m => b ← byte_at buf i; l ← bytes_at m buf (i + 1); Ret (b :: l)
  end.

Definition newline : Z := 10.
Definition tab : Z := 9.

Definition print_hex_ascii_line (buf : list Z) (payload len offset : Z) : res (list text) :=
  bytes ← bytes_at (Z.to_nat len) buf payload;
  Ret ([str "0x" ++ printf_x 4 offset ++ str "   "]
       ++ map (fun b => printf_x 2 b ++ str " ") bytes
       ++ (if len <? 16 then replicate (Z.to_nat (16 - len)) (str "   ") else [])
       ++ [str "  "]
       ++ map (fun b => if isprint b then [b] else str ".") bytes
       ++ [[newline]]).

(** The loop for data that spans lines; [UB] when the fuel runs out. *)
Fixpoint payload_loop (fuel : nat) (buf : list Z) (pl_head len_remain offset : Z) : res (list text) :=
  match fuel with
  | O => UB
  | S f =>
      let line_width := 16 in
      let line_len := line_width mod len_remain in
      line ← print_hex_ascii_line buf pl_head line_len offset;
      let len_remain := len_remain - line_len in
      let pl_head := pl_head + line_len in
      let offset := offset + line_width in
      rest ← (if len_remain <=? line_width
              then print_hex_ascii_line buf pl_head len_remain offset
              else payload_loop f buf pl_head len_remain offset);
      Ret (line ++ rest)
  end.

Definition print_payload (buf : list Z) (payload len : Z) : res (list text) :=
  if len <=? 0 then Ret []
  else
    lines ← (if len <=? 16 then print_hex_ascii_line buf payload len 0
             else payload_loop (Z.to_nat len) buf payload len 0);
    Ret ((str "Payload: " ++ [newline]) :: lines).

(** inet_ntoa of the address stored at offset [i]. *)
Definition inet_ntoa (buf : list Z) (i : Z) : res text :=
  a ← byte_at buf i; b ← byte_at buf (i + 1); c ← byte_at buf (i + 2); d ← byte_at buf (i + 3);
  Ret (printf_d a ++ str "." ++ printf_d b ++ str "." ++ printf_d c ++ str "." ++ printf_d d).

(** A NULL pointer that is followed is [UB]. *)
Definition deref {A} (o : option A) : res A := match o with Some a => Ret a | None => UB end.

(** Addresses and ports; the TCP and UDP headers both start with the ports. *)
Definition print_ports (buf : list Z) (ip head : Z) : res (list text) :=
  src ← inet_ntoa buf (ip + 12);
  sport ← u_short_at buf head;
  dst ← inet_ntoa buf (ip + 16);
  dport ← u_short_at buf (head + 2);
  Ret [str "From: " ++ src ++ [tab; tab]; printf_d sport ++ [newline];
       str "To:   " ++ dst ++ [tab]; printf_d dport ++ [newline]].

Definition banner (s : string) : text :=
  [newline] ++ str "==========Protocol: " ++ str s ++ str "==========" ++ [newline].

(** The strings of a packet, or [None] for a protocol that is not printed. *)
Definition packet_text (buf : list Z) (i : packet_info) : res (option (list text)) :=
  match packet_protocol i with
  | NETTRAMON_PRO_TCP =>
      ip ← deref (ip_head i); tcp ← deref (tcp_head i); pl ← deref (payload i);
      ports ← print_ports buf ip tcp;
      body ← print_payload buf pl (s32 (pkt_len i));
      Ret (Some ([banner "TCP"] ++ ports ++ body))
  | NETTRAMON_PRO_UDP =>
      ip ← deref (ip_head i); udp ← deref (udp_head i); pl ← deref (payload i);
      ports ← print_ports buf ip udp;
      body ← print_payload buf pl (s32 (pkt_len i));
      Ret (Some ([banner "UDP"] ++ ports ++ body))
  | NETTRAMON_PRO_ICMP =>
      ip ← deref (ip_head i); pl ← deref (payload i);
      src ← inet_ntoa buf (ip + 12);
      dst ← inet_ntoa buf (ip + 16);
      body ← print_payload buf pl (s32 (pkt_len i));
      Ret (Some ([banner "ICMP"; str "From: " ++ src ++ [newline]; str "To:   " ++ dst ++ [newline]] ++ body))
  | NETTRAMON_PRO_UNKNOWN => Ret None
  end.

Definition print_packet (x : ntm_context) (buf : list Z) (i : packet_info)
  : res (Z * list (sink * text) * ntm_context) :=
  let x := with_protocol x (packet_protocol i) in
  t ← packet_text buf i;
  match t with
  | Some pieces => Ret (0, flat_map (nettramon_printf x) pieces, x)
  | None => Ret (1, [], x)
  end.

(** ** Files *)

Inductive fmode : Type := ModeW | ModeA.

(** The four outputs, in the order of the structures. *)
Inductive output : Type := OutAll | OutTcp | OutUdp | OutIcmp.

Definition get_file (f : file_ptr) (o : output) : option Z :=
  match o with OutAll => all_file f | OutTcp => tcp_file f | OutUdp => udp_file f | OutIcmp => icmp_file f end.

Definition set_file (f : file_ptr) (o : output) (h : option Z) : file_ptr :=
  match o with
  | OutAll => FilePtr h (tcp_file f) (udp_file f) (icmp_file f)
  | OutTcp => FilePtr (all_file f) h (udp_file f) (icmp_file f)
  | OutUdp => FilePtr (all_file f) (tcp_file f) h (icmp_file f)
  | OutIcmp => FilePtr (all_file f) (tcp_file f) (udp_file f) h
  end.

Definition set_path (b : path_buffer) (o : output) (t : text) : path_buffer :=
  match o with
  | OutAll => PathBuffer (has_set b) t (tcp_file_path_buf b) (udp_file_path_buf b) (icmp_file_path_buf b)
  | OutTcp => PathBuffer (has_set b) (all_file_path_buf b) t (udp_file_path_buf b) (icmp_file_path_buf b)
  | OutUdp => PathBuffer (has_set b) (all_file_path_buf b) (tcp_file_path_buf b) t (icmp_file_path_buf b)
  | OutIcmp => PathBuffer (has_set b) (all_file_path_buf b) (tcp_file_path_buf b) (udp_file_path_buf b) t
  end.

Definition mark_set (b : path_buffer) : path_buffer :=
  PathBuffer true (all_file_path_buf b) (tcp_file_path_buf b) (udp_file_path_buf b) (icmp_file_path_buf b).

(** The memory from the start of a buffer to the end of the structure: the
    buffers are adjacent, and a string runs on to the next zero byte. *)
Definition path_mem (b : path_buffer) (o : output) : text :=
  match o with
  | OutAll => all_file_path_buf b ++ tcp_file_path_buf b ++ udp_file_path_buf b ++ icmp_file_path_buf b
  | OutTcp => tcp_file_path_buf b ++ udp_file_path_buf b ++ icmp_file_path_buf b
  | OutUdp => udp_file_path_buf b ++ icmp_file_path_buf b
  | OutIcmp => icmp_file_path_buf b
  end.

Fixpoint c_string (m : text) : res text :=
  match m with
  | [] => UB
  | c :: m => if c =? 0 then Ret [] else s ← c_string m; Ret (c :: s)
  end.

(** [strncpy] of a string into a buffer of [n] bytes. *)
Definition strncpy (n : nat) (s : text) : text := take n s ++ replicate (n - length s) 0.

Definition nettramon_clear_file_path (x : ntm_context) : ntm_context := with_pb x zero_pb.

(** It also closes the files. *)
Definition nettramon_cleanup (x : ntm_context) : ntm_context := with_fp (with_mon x None) no_files.

Definition resume_one (fopen : text -> fmode -> option Z) (o : output) (x : ntm_context)
  : res (bool * ntm_context) :=
  c ← deref (head (path_mem (pb x) o));
  if c =? 0 then Ret (true, x)
  else
    name ← c_string (path_mem (pb x) o);
    let h := fopen name ModeA in
    let x := with_fp x (set_file (fp x) o h) in
    if is_none h then Ret (false, nettramon_clear_file_path x) else Ret (true, x).

(** Steps that stop at the first failure. *)
Fixpoint all_steps (l : list (ntm_context -> res (bool * ntm_context))) (x : ntm_context)
  : res (Z * ntm_context) :=
  match l with
  | [] => Ret (0, x)
  | f :: l => '(ok, y) ← f x; if ok : bool then all_steps l y else Ret (1, y)
  end.

Definition nettramon_file_path_resume (fopen : text -> fmode -> option Z) (x : ntm_context)
  : res (Z * ntm_context) :=
  all_steps (map (resume_one fopen) [OutAll; OutTcp; OutUdp; OutIcmp]) x.

Definition is_N (path : text) : bool := bool_decide (path = str "N").

Definition set_one (fopen : text -> fmode -> option Z) (o : output) (path : text) (x : ntm_context)
  : res (bool * ntm_context) :=
  if negb (is_N path) then
    let x := with_pb x (set_path (pb x) o (strncpy (Z.to_nat SZ_NETTRAMON_PATH_LENGTH) path)) in
    name ← c_string (path_mem (pb x) o);
    let h := fopen name ModeW in
    let x := with_fp x (set_file (fp x) o h) in
    if is_none h then Ret (false, nettramon_clear_file_path x)
    else Ret (true, with_pb x (mark_set (pb x)))
  else Ret (true, with_fp x (set_file (fp x) o None)).

(** The paths are C strings, none of them NULL. *)
Definition nettramon_set_file_path (fopen : text -> fmode -> option Z) (x : ntm_context)
  (all_file_path tcp_file_path udp_file_path icmp_file_path : text) : res (Z * ntm_context) :=
  all_steps [set_one fopen OutAll all_file_path; set_one fopen OutTcp tcp_file_path;
             set_one fopen OutUdp udp_file_path; set_one fopen OutIcmp icmp_file_path] x.

Definition nettramon_reset_file_path (x : ntm_context) : Z * ntm_context :=
  (0, nettramon_clear_file_path x).

(** ** The filter *)

Definition nettramon_clear_filter (x : ntm_context) : ntm_context := with_filter x None.

(** [compile] is pcap_compile_nopcap, which on an error leaves the structure as
    malloc returned it; malloc does not fail. *)
Definition nettramon_set_filter (compile : text -> option Z) (x : ntm_context) (s : text)
  : Z * ntm_context :=
  let x := with_filter x (Some (compile s)) in
  (if is_none (filter_prog x) then 1 else 0, x).

Definition nettramon_reset_filter (x : ntm_context) : Z * ntm_context :=
  (0, nettramon_clear_filter x).

(** ** Starting and stopping *)

Definition nettramon_is_active (x : ntm_context) : bool := status x.

Definition nettramon_start (fopen : text -> fmode -> option Z) (x : ntm_context) (mon : option Z)
  : res (Z * ntm_context) :=
  if nettramon_is_active x then Ret (0, x) else
  '(r, x) ← (if has_set (pb x) then nettramon_file_path_resume fopen x else Ret (0, x));
  if negb (r =? 0) then Ret (1, x) else
  if no_file (fp x) then
    if negb (is_none mon) || negb (bool_decide (cb_list x = []))
    then Ret (0, with_status (with_mon x mon) true)
    else Ret (2, x)
  else Ret (1, with_status (with_mon x None) true).

Definition nettramon_stop (x : ntm_context) : Z * ntm_context :=
  let x := with_status (nettramon_cleanup x) false in
  (if is_none (local_mon x) then 0 else 1, x).

(** ** Callbacks *)

(** A call returns, waits for a lock that is never released, or is undefined. *)
Inductive call_res (A : Type) : Type :=
| Returns (a : A)
| Blocks
| Undefined.
Arguments Returns {A} _.
Arguments Blocks {A}.
Arguments Undefined {A}.

(** [pthread_rwlock_wrlock]. *)
Definition wrlock {A} (x : ntm_context) (body : ntm_context -> call_res A) : call_res A :=
  if locked x then Blocks else body (with_lock x true).

Definition unlock (x : ntm_context) : ntm_context := with_lock x false.

Fixpoint first_null (n : nat) (t : gmap Z Z) (i : Z) : Z :=
  match n with
  | O => i
  | S m => match t !! i with None => i | Some _ => first_null m t (i + 1) end
  end.

Definition get_nettramon_cb_uid (x : ntm_context) : Z :=
  let i := first_null (Z.to_nat SZ_NETTRAMON_MAX_CB) (cb_arr x) 0 in
  if i =? SZ_NETTRAMON_MAX_CB then -1 else i.

(** [cb] is 0 for NULL; calloc does not fail. *)
Definition nettramon_set_cb (x : ntm_context) (cb arg : Z) : call_res (Z * ntm_context) :=
  wrlock x (fun x =>
    let next_uid := get_nettramon_cb_uid x in
    if (cb =? 0) || (next_uid =? -1) then Returns (1, x)
    else
      let tmp := next_ptr x in
      Returns (next_uid,
               unlock (with_cbs x (cb_list x ++ [tmp]) (<[next_uid := tmp]> (cb_arr x))
                         (<[tmp := NtmCb (u16 next_uid) true cb arg]> (cbs x)) (tmp + 1)))).

(** Calls that look a uid up in [cb_arr], without a check of its range. *)
Definition with_cb (x : ntm_context) (u : Z) (body : ntm_context -> Z -> ntm_context)
  : call_res (Z * ntm_context) :=
  wrlock x (fun x =>
    if (0 <=? u) && (u <? SZ_NETTRAMON_MAX_CB) then
      match cb_arr x !! u with
      | None => Returns (1, x)
      | Some p => Returns (0, unlock (body x p))
      end
    else Undefined).

Definition nettramon_delete_cb (x : ntm_context) (u : Z) : call_res (Z * ntm_context) :=
  with_cb x u (fun x _ =>
    with_cbs x (filter (fun p => (uid <$> cbs x !! p) <> Some u) (cb_list x)) (cb_arr x) (cbs x) (next_ptr x)).

Definition set_cb_enabled (on : bool) (r : nettramon_cb) : nettramon_cb :=
  NtmCb (uid r) on (user_cb r) (cb_arg r).

Definition nettramon_enable_cb (x : ntm_context) (u : Z) : call_res (Z * ntm_context) :=
  with_cb x u (fun x p =>
    with_cbs x (cb_list x) (cb_arr x) (alter (set_cb_enabled true) p (cbs x)) (next_ptr x)).

Definition nettramon_disable_cb (x : ntm_context) (u : Z) : call_res (Z * ntm_context) :=
  with_cb x u (fun x p =>
    with_cbs x (cb_list x) (cb_arr x) (alter (set_cb_enabled false) p (cbs x)) (next_ptr x)).

(** ** Capturing a packet *)

(** What a capture does: its result, the callbacks called with their arguments,
    and the text written. *)
Record captured : Type := Captured {
  result : Z;
  calls : list (Z * Z * Z * Z);
  written : list (sink * text)
}.

Definition lift {A} (r : res A) : call_res A :=
  match r with Ret a => Returns a | _ => Undefined end.

(** [bpf_filter p buf len] tells whether the program accepts the packet. *)
Definition passes_filter (bpf_filter : Z -> list Z -> Z -> bool) (x : ntm_context) (buf : list Z) (len : Z)
  : res bool :=
  match filter_prog x with
  | None => Ret true
  | Some None => UB
  | Some (Some p) => Ret (bpf_filter p buf len)
  end.

(** Callbacks of the list, enabled or not; they do not call back into the
    monitor, whose lock is held. *)
Fixpoint call_callbacks (h : gmap Z nettramon_cb) (l : list Z) (len packet_haddr : Z) : res (list (Z * Z * Z * Z)) :=
  match l with
  | [] => Ret []
  | p :: l =>
      r ← deref (h !! p); cs ← call_callbacks h l len packet_haddr;
      Ret ((user_cb r, len, packet_haddr, cb_arg r) :: cs)
  end.

Definition print_captured (x : ntm_context) (buf : list Z) (len : Z)
  : res (Z * list (sink * text) * ntm_context) :=
  if negb (is_none (local_mon x)) || negb (no_file (fp x)) then
    '(r, i) ← nettramon_packet_parse buf len
                (Some (PacketInfo NETTRAMON_PRO_UNKNOWN None None None None None None 0));
    if negb (r =? 0) then Ret (1, [], x)
    else i ← deref i; print_packet x buf i
  else Ret (0, [], x).

Definition nettramon_packet_capture (bpf_filter : Z -> list Z -> Z -> bool) (x : ntm_context)
  (buf : list Z) (len packet_haddr : Z) : call_res (captured * ntm_context) :=
  if negb (nettramon_is_active x) then Returns (Captured 0 [] [], x) else
  match passes_filter bpf_filter x buf len with
  | Ret false => Returns (Captured 0 [] [], x)
  | Ret true =>
      wrlock x (fun x =>
        lift (cs ← call_callbacks (cbs x) (cb_list x) len packet_haddr;
              '(r, out, y) ← print_captured (unlock x) buf len;
              Ret (Captured r cs out, y)))
  | _ => Undefined
  end.

(** ** Parsing: a reference definition

    A frame holds a packet when the IP header is complete, its total length is
    the length of the frame without the Ethernet header, and the header that
    follows is complete. *)

Definition get (buf : list Z) (i : Z) : Z := default 0 (buf !! Z.to_nat i).
Definition be16 (buf : list Z) (i : Z) : Z := get buf i * 256 + get buf (i + 1).

Definition ip_size (buf : list Z) : Z := 4 * (get buf 14 mod 16).

Definition tcp_size (buf : list Z) : Z := 4 * (get buf (14 + ip_size buf + 12) / 16).

(** The header after the IP header: its protocol and size. *)
Definition next_header (buf : list Z) : option (MBA_NETTRAMON_PRO * Z) :=
  let n := Z.of_nat (length buf) in
  let p := get buf 23 in
  if p =? 6 then if 20 <=? tcp_size buf then Some (NETTRAMON_PRO_TCP, tcp_size buf) else None
  else if p =? 17 then
    if be16 buf (14 + ip_size buf + 4) =? n - 14 - ip_size buf then Some (NETTRAMON_PRO_UDP, 8) else None
  else if p =? 1 then Some (NETTRAMON_PRO_ICMP, 8)
  else None.

Definition frame_packet (buf : list Z) : option packet_info :=
  let n := Z.of_nat (length buf) in
  let l4 := 14 + ip_size buf in
  '(p, h) ← next_header buf;
  if (34 <=? n) && (20 <=? ip_size buf) && (l4 + h <=? n) && (be16 buf 16 =? n - 14) then
    Some (PacketInfo p (Some 0) (Some 14)
            (if bool_decide (p = NETTRAMON_PRO_TCP) then Some l4 else None)
            (if bool_decide (p = NETTRAMON_PRO_UDP) then Some l4 else None)
            (if bool_decide (p = NETTRAMON_PRO_ICMP) then Some l4 else None)
            (Some (l4 + h)) (n - l4 - h))
  else None.

Definition bytes (l : list Z) : Prop := Forall (fun b => 0 <= b < 256) l.

Lemma byte_at_get buf i : 0 <= i < Z.of_nat (length buf) -> byte_at buf i = Ret (get buf i).
Proof.
  intros H. unfold byte_at, get. rewrite (proj2 (Z.ltb_ge i 0)) by lia.
  destruct (lookup_lt_is_Some_2 buf (Z.to_nat i)) as [b ->]; [lia|done].
Qed.

Lemma get_range buf i : bytes buf -> 0 <= get buf i < 256.
Proof.
  intros H. unfold get. destruct (buf !! _) eqn:E; simpl; [|lia].
  by apply (Forall_lookup_1 _ _ _ _ H E).
Qed.

Lemma ntohs_at_get buf i : 0 <= i -> i + 1 < Z.of_nat (length buf) -> ntohs_at buf i = Ret (be16 buf i).
Proof. intros. unfold ntohs_at. by rewrite !byte_at_get by lia. Qed.

Lemma be16_range buf i : bytes buf -> 0 <= be16 buf i < 65536.
Proof. intros H. unfold be16. pose proof (get_range buf i H). pose proof (get_range buf (i + 1) H). lia. Qed.

Lemma low_nibble b : b .& 0x0f = b mod 16.
Proof. apply (Z.land_ones b 4). lia. Qed.

Lemma high_nibble b : 0 <= b < 256 -> Z.shiftr (b .& 0xf0) 4 = b / 16.
Proof.
  intros H. rewrite Z.shiftr_land, Z.shiftr_div_pow2 by lia. change (Z.shiftr 0xf0 4) with 0x0f.
  rewrite low_nibble. apply Z.mod_small. change (2 ^ 4) with 16.
  split; [apply Z.div_pos|apply Z.div_lt_upper_bound]; lia.
Qed.

(** The size_t comparison of the lengths is the comparison of the numbers. *)
Lemma u64_eqb c t : 0 <= c < 2 ^ 63 -> - 2 ^ 63 < t < 2 ^ 63 -> (c =? u64 t) = (c =? t).
Proof.
  intros Hc Ht. unfold u64. destruct (Z.eqb_spec c t) as [->|N].
  - rewrite Z.mod_small by lia. apply Z.eqb_refl.
  - apply Z.eqb_neq. intros E. destruct (Z_lt_le_dec t 0).
    + rewrite <- (Z.mod_unique t (2 ^ 64) (-1) (t + 2 ^ 64)) in E; lia.
    + rewrite Z.mod_small in E; lia.
Qed.

Lemma ip_size_range buf : bytes buf -> 0 <= ip_size buf <= 60.
Proof. intros H. unfold ip_size. pose proof (Z.mod_pos_bound (get buf 14) 16). lia. Qed.

Lemma tcp_size_range buf : bytes buf -> 0 <= tcp_size buf <= 60.
Proof.
  intros H. unfold tcp_size. pose proof (get_range buf (14 + ip_size buf + 12) H).
  split; [apply Z.mul_nonneg_nonneg; [lia|apply Z.div_pos; lia]|].
  enough (get buf (14 + ip_size buf + 12) / 16 < 16) by lia. apply Z.div_lt_upper_bound; lia.
Qed.

Lemma TH_OFF_get buf : bytes buf ->
  14 + ip_size buf + 20 <= Z.of_nat (length buf) ->
  TH_OFF buf (SZ_ETHERNET_H + ip_size buf) = Ret (get buf (14 + ip_size buf + 12) / 16).
Proof.
  intros Hb Hn. pose proof (ip_size_range buf Hb). unfold TH_OFF, SZ_ETHERNET_H.
  rewrite byte_at_get by lia. rewrite res_bind_ret, high_nibble by by apply get_range. done.
Qed.

(** The length test of every case is the test of the total length. *)
Lemma length_test buf h : bytes buf -> Z.of_nat (length buf) < 2 ^ 63 -> 0 <= h <= 60 ->
  14 + ip_size buf + h <= Z.of_nat (length buf) ->
  (Z.of_nat (length buf) - 14 - ip_size buf - h =? u64 (be16 buf 16 - (ip_size buf + h)))
  = (be16 buf 16 =? Z.of_nat (length buf) - 14).
Proof.
  intros Hb Hn Hh Hl. pose proof (ip_size_range buf Hb). pose proof (be16_range buf 16 Hb).
  rewrite u64_eqb by lia. apply eq_iff_eq_true. rewrite !Z.eqb_eq. lia.
Qed.

(** What a case of the switch returns, when the IP header is complete. *)
Definition outcome_of (i : packet_info) (o : option packet_info) : res (Z * packet_info) :=
  Ret (match o with Some j => (0, j) | None => (1, clear_packet_info i) end).

Section Cases.
  Context (buf : list Z) (i : packet_info).
  Context (Hb : bytes buf) (Hn : Z.of_nat (length buf) < 2 ^ 63).
  Context (H34 : 34 <= Z.of_nat (length buf)) (H20 : 20 <= ip_size buf).
  Context (Hip : 14 + ip_size buf <= Z.of_nat (length buf)).

Lemma ip_len_get : ip_len buf SZ_ETHERNET_H = Ret (be16 buf 16).
Proof. apply ntohs_at_get; unfold SZ_ETHERNET_H; lia. Qed.

Lemma length_check h : 0 <= h <= 60 -> 14 + ip_size buf + h <= Z.of_nat (length buf) ->
  (Z.of_nat (length buf) - 14 - ip_size buf - h =? u64 (be16 buf 16 - (ip_size buf + h)))
  = (be16 buf 16 =? Z.of_nat (length buf) - 14).
Proof. by apply length_test. Qed.

Lemma frame_packet_header p h : next_header buf = Some (p, h) ->
  frame_packet buf
  = if (14 + ip_size buf + h <=? Z.of_nat (length buf)) && (be16 buf 16 =? Z.of_nat (length buf) - 14) then
      Some (PacketInfo p (Some 0) (Some 14)
            (if bool_decide (p = NETTRAMON_PRO_TCP) then Some (14 + ip_size buf) else None)
            (if bool_decide (p = NETTRAMON_PRO_UDP) then Some (14 + ip_size buf) else None)
            (if bool_decide (p = NETTRAMON_PRO_ICMP) then Some (14 + ip_size buf) else None)
            (Some (14 + ip_size buf + h)) (Z.of_nat (length buf) - (14 + ip_size buf) - h))
    else None.
Proof.
  intros E. unfold frame_packet. rewrite E. simpl.
  rewrite (proj2 (Z.leb_le 34 _)), (proj2 (Z.leb_le 20 _)) by lia. done.
Qed.

Lemma frame_packet_none : next_header buf = None -> frame_packet buf = None.
Proof. intros E. unfold frame_packet. by rewrite E. Qed.

(** The value the length is set to, once the test has passed. *)
Lemma length_value h : 0 <= h <= 60 -> 14 + ip_size buf + h <= Z.of_nat (length buf) ->
  be16 buf 16 = Z.of_nat (length buf) - 14 ->
  u64 (be16 buf 16 - (ip_size buf + h)) = Z.of_nat (length buf) - (14 + ip_size buf) - h.
Proof. intros ? ? ->. unfold u64. rewrite Z.mod_small; lia. Qed.

(** The end of each case, common to the three. *)
Lemma case_end h p (t u c : option Z) : 0 <= h <= 60 ->
  14 + ip_size buf + h <= Z.of_nat (length buf) ->
  (if negb (Z.of_nat (length buf) - 14 - ip_size buf - h =? u64 (be16 buf 16 - (ip_size buf + h)))
   then Ret (1, clear_packet_info i)
   else Ret (0, PacketInfo p (Some 0) (Some 14) t u c (Some (14 + ip_size buf + h))
                  (u64 (be16 buf 16 - (ip_size buf + h)))))
  = outcome_of i (if be16 buf 16 =? Z.of_nat (length buf) - 14
                  then Some (PacketInfo p (Some 0) (Some 14) t u c (Some (14 + ip_size buf + h))
                               (Z.of_nat (length buf) - (14 + ip_size buf) - h))
                  else None).
Proof.
  intros Hh Hl. rewrite length_check by done.
  destruct (Z.eqb_spec (be16 buf 16) (Z.of_nat (length buf) - 14)); simpl; [|done].
  by rewrite length_value by done.
Qed.

Lemma parse_tcp_spec : get buf 23 = 6 ->
  parse_tcp buf i (ip_size buf) (Z.of_nat (length buf) - 14 - ip_size buf) = outcome_of i (frame_packet buf).
Proof.
  intros Hp. pose proof (tcp_size_range buf Hb) as Ht.
  assert (Hnh : next_header buf = if 20 <=? tcp_size buf then Some (NETTRAMON_PRO_TCP, tcp_size buf) else None).
  { unfold next_header. by rewrite Hp. }
  unfold parse_tcp. cbv zeta. unfold SZ_TCP_H.
  destruct (Z.ltb_spec (Z.of_nat (length buf) - 14 - ip_size buf) 20) as [Hs|Hs].
  - destruct (20 <=? tcp_size buf) eqn:E; [|by rewrite frame_packet_none].
    apply Z.leb_le in E. rewrite (frame_packet_header _ _ Hnh).
    by rewrite (proj2 (Z.leb_gt (14 + ip_size buf + tcp_size buf) _)) by lia.
  - rewrite TH_OFF_get by (done || lia). rewrite res_bind_ret.
    replace (get buf (14 + ip_size buf + 12) / 16 * 4) with (tcp_size buf) by (unfold tcp_size; lia).
    destruct (Z.leb_spec 20 (tcp_size buf)) as [E|E].
    + rewrite (proj2 (Z.ltb_ge (tcp_size buf) 20)) by lia. rewrite (frame_packet_header _ _ Hnh). simpl.
      destruct (Z.ltb_spec (Z.of_nat (length buf) - 14 - ip_size buf) (tcp_size buf)).
      { by rewrite (proj2 (Z.leb_gt (14 + ip_size buf + tcp_size buf) _)) by lia. }
      rewrite (proj2 (Z.leb_le (14 + ip_size buf + tcp_size buf) _)) by lia.
      rewrite ip_len_get, res_bind_ret. apply case_end; lia.
    + rewrite (proj2 (Z.ltb_lt (tcp_size buf) 20)) by lia. by rewrite frame_packet_none.
Qed.

Lemma parse_udp_spec : get buf 23 = 17 ->
  parse_udp buf i (ip_size buf) (Z.of_nat (length buf) - 14 - ip_size buf) = outcome_of i (frame_packet buf).
Proof.
  intros Hp. set (n := Z.of_nat (length buf)) in *.
  assert (Hnh : next_header buf =
    if be16 buf (14 + ip_size buf + 4) =? n - 14 - ip_size buf then Some (NETTRAMON_PRO_UDP, 8) else None).
  { unfold next_header. by rewrite Hp. }
  unfold parse_udp. cbv zeta. unfold SZ_UDP_H.
  destruct (Z.ltb_spec (n - 14 - ip_size buf) 8) as [Hs|Hs].
  - destruct (be16 buf (14 + ip_size buf + 4) =? _) eqn:E; [|by rewrite frame_packet_none].
    rewrite (frame_packet_header _ _ Hnh).
    by rewrite (proj2 (Z.leb_gt (14 + ip_size buf + 8) _)) by lia.
  - unfold uh_leng, SZ_ETHERNET_H. rewrite ntohs_at_get by lia. rewrite res_bind_ret, Z.eqb_sym.
    destruct (be16 buf (14 + ip_size buf + 4) =? _) eqn:E; simpl; [|by rewrite frame_packet_none].
    rewrite (frame_packet_header _ _ Hnh), (proj2 (Z.leb_le (14 + ip_size buf + 8) _)) by lia.
    change (ip_len buf 14) with (ip_len buf SZ_ETHERNET_H). rewrite ip_len_get, res_bind_ret. apply case_end; lia.
Qed.

Lemma parse_icmp_spec : get buf 23 = 1 ->
  parse_icmp buf i (ip_size buf) (Z.of_nat (length buf) - 14 - ip_size buf) = outcome_of i (frame_packet buf).
Proof.
  intros Hp.
  assert (Hnh : next_header buf = Some (NETTRAMON_PRO_ICMP, 8)) by (unfold next_header; by rewrite Hp).
  unfold parse_icmp. cbv zeta. unfold SZ_ICMP_H. rewrite (frame_packet_header _ _ Hnh).
  destruct (Z.ltb_spec (Z.of_nat (length buf) - 14 - ip_size buf) 8) as [Hs|Hs].
  - by rewrite (proj2 (Z.leb_gt (14 + ip_size buf + 8) _)) by lia.
  - rewrite (proj2 (Z.leb_le (14 + ip_size buf + 8) _)) by lia.
    rewrite ip_len_get, res_bind_ret. apply case_end; lia.
Qed.

End Cases.

(** The header sizes found are never negative, so a short frame holds nothing. *)
Lemma next_header_size buf p h : bytes buf -> next_header buf = Some (p, h) -> 0 <= h <= 60.
Proof.
  intros Hb. pose proof (tcp_size_range buf Hb). unfold next_header.
  repeat case_match; intros [= <- <-]; lia.
Qed.

Lemma frame_packet_short buf : bytes buf ->
  Z.of_nat (length buf) < 34 \/ ip_size buf < 20 \/ Z.of_nat (length buf) < 14 + ip_size buf ->
  frame_packet buf = None.
Proof.
  intros Hb H. unfold frame_packet. destruct (next_header buf) as [[p h]|] eqn:E; [|done]. simpl.
  pose proof (next_header_size _ _ _ Hb E).
  destruct (Z.leb_spec 34 (Z.of_nat (length buf))), (Z.leb_spec 20 (ip_size buf)),
    (Z.leb_spec (14 + ip_size buf + h) (Z.of_nat (length buf))); simpl; try done. lia.
Qed.

Lemma parse_frame buf i : bytes buf -> Z.of_nat (length buf) < 2 ^ 63 ->
  nettramon_packet_parse buf (Z.of_nat (length buf)) (Some i)
  = '(c, j) ← outcome_of i (frame_packet buf); Ret (c, Some j).
Proof.
  intros Hb Hn. pose proof (ip_size_range buf Hb). pose proof (frame_packet_short buf Hb) as Hshort.
  unfold nettramon_packet_parse. cbv zeta. unfold SZ_ETHERNET_H at 1 2, SZ_IP_H.
  destruct (Z.ltb_spec (Z.of_nat (length buf)) 14); [by rewrite Hshort by lia|].
  destruct (Z.ltb_spec (Z.of_nat (length buf) - 14) 20); [by rewrite Hshort by lia|].
  unfold IP_HL, ip_p, SZ_ETHERNET_H. rewrite !byte_at_get by lia. rewrite !res_bind_ret, low_nibble.
  replace (get buf 14 mod 16 * 4) with (ip_size buf) by (unfold ip_size; lia).
  destruct (Z.ltb_spec (ip_size buf) 20); [by rewrite Hshort by lia|].
  destruct (Z.ltb_spec (Z.of_nat (length buf) - 14) (ip_size buf)); [by rewrite Hshort by lia|].
  cbn [orb]. change (14 + 9) with 23. f_equal. unfold IPPROTO_TCP, IPPROTO_UDP, IPPROTO_ICMP.
  destruct (Z.eqb_spec (get buf 23) 6); [by apply parse_tcp_spec; lia || done|].
  destruct (Z.eqb_spec (get buf 23) 17); [by apply parse_udp_spec; lia || done|].
  destruct (Z.eqb_spec (get buf 23) 1); [by apply parse_icmp_spec; lia || done|].
  rewrite frame_packet_none; [done|]. unfold next_header.
  by rewrite !(proj2 (Z.eqb_neq _ _)) by done.
Qed.

(** ** The dump of a payload can be read back *)

Definition unhex (c : Z) : option Z :=
  if (48 <=? c) && (c <=? 57) then Some (c - 48)
  else if (97 <=? c) && (c <=? 102) then Some (c - 87)
  else None.

(** At most [n] bytes, each two digits and a space. *)
Fixpoint read_pairs (n : nat) (t : text) : list Z :=
  match n, t with
  | S n, a :: b :: _ :: r =>
      match unhex a, unhex b with
      | Some x, Some y => x * 16 + y :: read_pairs n r
      | _, _ => []
      end
  | _, _ => []
  end.

Fixpoint from_space (t : text) : text :=
  match t with
  | [] => []
  | c :: r => if c =? 32 then t else from_space r
  end.

Definition decode_line (t : text) : list Z := read_pairs 16 (drop 3 (from_space t)).

Fixpoint split_lines (t cur : text) : list text :=
  match t with
  | [] => []
  | c :: r => if c =? newline then rev cur :: split_lines r [] else split_lines r (c :: cur)
  end.

(** The first line is the heading. *)
Definition decode_dump (t : text) : list Z := flat_map decode_line (tail (split_lines t [])).

Lemma split_lines_cur a b cur : Forall (fun c => c <> newline) a ->
  split_lines (a ++ newline :: b) cur = (rev cur ++ a) :: split_lines b [].
Proof.
  intros H. revert cur. induction H as [|c a Hc H IH]; intros cur; simpl.
  - by rewrite app_nil_r.
  - rewrite (proj2 (Z.eqb_neq _ _) Hc), IH. simpl. by rewrite <- app_assoc.
Qed.

Lemma from_space_app a b : Forall (fun c => 48 <= c) a -> from_space (a ++ 32 :: b) = 32 :: b.
Proof.
  induction 1 as [|c a Hc H IH]; [done|]. simpl. by rewrite (proj2 (Z.eqb_neq c 32)) by lia.
Qed.

Lemma hex_digits_ge f n acc : 0 <= n -> Forall (fun c => 48 <= c) acc ->
  Forall (fun c => 48 <= c) (hex_digits f n acc).
Proof.
  revert n acc. induction f as [|f IH]; intros n acc Hn H; [done|]. cbn -[Z.div Z.modulo].
  assert (Forall (fun c => 48 <= c) (hex_digit (n mod 16) :: acc)).
  { constructor; [|done]. pose proof (Z.mod_pos_bound n 16). unfold hex_digit. case_match; lia. }
  destruct (n <? 16); [done|]. apply IH; [apply Z.div_pos; lia|done].
Qed.

Lemma printf_x_ge w n : Forall (fun c => 48 <= c) (printf_x w n).
Proof.
  unfold printf_x. apply Forall_app; split; [apply Forall_replicate; lia|].
  apply hex_digits_ge; [|done]. unfold u32. apply Z.mod_pos_bound. lia.
Qed.

(** Two digits of every byte are read back; checked on the 256 of them. *)
Definition reads_back (b : Z) : bool :=
  match printf_x 2 b with
  | [x; y] => match unhex x, unhex y with Some p, Some q => p * 16 + q =? b | _, _ => false end
  | _ => false
  end.

Lemma printf_x_byte b : 0 <= b < 256 -> exists x y p q,
  printf_x 2 b = [x; y] /\ unhex x = Some p /\ unhex y = Some q /\ p * 16 + q = b.
Proof.
  intros H.
  assert (A : forallb reads_back (seqZ 0 256) = true) by (vm_compute; reflexivity).
  rewrite forallb_forall in A. specialize (A b).
  rewrite <- list_elem_of_In, elem_of_seqZ in A. specialize (A ltac:(lia)). unfold reads_back in A.
  repeat case_match; try discriminate. simplify_eq. apply Z.eqb_eq in A. eauto 10.
Qed.

Lemma read_pairs_hex l n r : bytes l -> (length l <= n)%nat ->
  (length l = n \/ exists r', r = str "   " ++ r') ->
  read_pairs n (concat (map (fun b => printf_x 2 b ++ str " ") l) ++ r) = l.
Proof.
  intros Hl. revert n. induction Hl as [|b l Hb Hl IH]; intros n Hn Hr; simpl in *.
  - destruct n; [done|]. destruct Hr as [|[r' ->]]; [lia|]. done.
  - destruct n as [|n]; [lia|]. destruct (printf_x_byte b Hb) as (x & y & p & q & -> & Ex & Ey & E).
    simpl. rewrite Ex, Ey, E. f_equal. apply IH; [lia|]. destruct Hr as [Hr|Hr]; [left; lia|by right].
Qed.

(** For literals. *)
Ltac literal := apply (bool_decide_unpack _); vm_compute; exact I.

(** A line without its newline. *)
Definition line_body (l : list Z) (offset : Z) : text :=
  (str "0x" ++ printf_x 4 offset ++ str "   ")
  ++ concat (map (fun b => printf_x 2 b ++ str " ") l)
  ++ concat (replicate (16 - length l) (str "   "))
  ++ str "  "
  ++ concat (map (fun b => if isprint b then [b] else str ".") l).

Lemma bytes_at_slice n buf i : 0 <= i -> i + Z.of_nat n <= Z.of_nat (length buf) ->
  bytes_at n buf i = Ret (take n (drop (Z.to_nat i) buf)).
Proof.
  revert i. induction n as [|n IH]; intros i Hi Hn; [done|]. cbn [bytes_at].
  rewrite byte_at_get by lia. rewrite res_bind_ret, IH by lia. rewrite res_bind_ret.
  destruct (lookup_lt_is_Some_2 buf (Z.to_nat i)) as [b E]; [lia|].
  rewrite (drop_S buf b (Z.to_nat i) E). unfold get. rewrite E. simpl.
  by replace (Z.to_nat (i + 1)) with (S (Z.to_nat i)) by lia.
Qed.

Lemma line_printed buf i len offset : 0 <= i -> 0 <= len <= 16 -> i + len <= Z.of_nat (length buf) ->
  exists pieces, print_hex_ascii_line buf i len offset = Ret pieces /\
    concat pieces = line_body (take (Z.to_nat len) (drop (Z.to_nat i) buf)) offset ++ [newline].
Proof.
  intros Hi Hl Hn. unfold print_hex_ascii_line. rewrite bytes_at_slice by lia. rewrite res_bind_ret.
  eexists; split; [reflexivity|]. set (l := take _ _).
  assert (El : length l = Z.to_nat len) by (unfold l; rewrite length_take, length_drop; lia).
  unfold line_body. rewrite El, !concat_app. cbn [concat]. rewrite !app_nil_r, <- !app_assoc.
  do 4 f_equal.
  destruct (Z.ltb_spec len 16).
  - by replace (Z.to_nat (16 - len)) with (16 - Z.to_nat len)%nat by lia.
  - by replace (16 - Z.to_nat len)%nat with 0%nat by lia.
Qed.

Lemma line_decodes l offset : bytes l -> (length l <= 16)%nat -> decode_line (line_body l offset) = l.
Proof.
  intros Hb Hl. unfold decode_line, line_body. rewrite <- !app_assoc.
  rewrite (app_assoc (str "0x")). change (str "   ") with [32; 32; 32] at 1. cbn [app].
  rewrite (from_space_app (str "0x" ++ printf_x 4 offset))
    by (apply Forall_app; split; [by apply (Forall_cons_2 _ 48), (Forall_cons_2 _ 120)|apply printf_x_ge]).
  cbn [drop]. apply read_pairs_hex; [done|done|].
  destruct (decide (length l = 16%nat)); [by left|right].
  replace (16 - length l)%nat with (S (15 - length l)) by lia. cbn [replicate concat].
  rewrite <- app_assoc. eauto.
Qed.

Lemma Forall_concat {A} (P : A -> Prop) (ls : list (list A)) : Forall (Forall P) ls -> Forall P (concat ls).
Proof. induction 1; simpl; [done|]. by apply Forall_app. Qed.

Lemma line_no_newline l offset : Forall (fun c => c <> newline) (line_body l offset).
Proof.
  assert (D : forall w n, Forall (fun c => c <> newline) (printf_x w n)).
  { intros. eapply Forall_impl; [apply printf_x_ge|]. unfold newline. simpl. lia. }
  assert (S : Forall (fun c => c <> newline) (str "   ")) by literal.
  unfold line_body. rewrite !Forall_app. split_and!; [|apply D|exact S|..].
  - literal.
  - apply Forall_concat, Forall_map, Forall_true. intros b. apply Forall_app; split; [apply D|].
    literal.
  - by apply Forall_concat, Forall_replicate.
  - literal.
  - apply Forall_concat, Forall_map, Forall_true. intros b. cbn beta. destruct (isprint b) eqn:E.
    + unfold isprint in E. bool_to_prop. constructor; [unfold newline; lia|done].
    + literal.
Qed.

(** The lines from one point of the payload on. *)
Definition decodes (t : text) (l : list Z) : Prop := flat_map decode_line (split_lines t []) = l.

Lemma decodes_line l offset t r : bytes l -> (length l <= 16)%nat -> decodes t r ->
  decodes ((line_body l offset ++ [newline]) ++ t) (l ++ r).
Proof.
  intros Hb Hl Ht. unfold decodes. rewrite <- app_assoc. cbn [app].
  rewrite split_lines_cur by apply line_no_newline. cbn [rev app flat_map].
  by rewrite line_decodes, Ht.
Qed.

Lemma bytes_slice buf n m : bytes buf -> bytes (take n (drop m buf)).
Proof. intros H. by apply Forall_take, Forall_drop. Qed.

Lemma slice_split (buf : list Z) i n m : 0 <= i -> 0 <= n -> 0 <= m ->
  take (Z.to_nat (n + m)) (drop (Z.to_nat i) buf)
  = take (Z.to_nat n) (drop (Z.to_nat i) buf) ++ take (Z.to_nat m) (drop (Z.to_nat (i + n)) buf).
Proof.
  intros. replace (Z.to_nat (n + m)) with (Z.to_nat n + Z.to_nat m)%nat by lia.
  rewrite <- take_take_drop, drop_drop. by replace (Z.to_nat i + Z.to_nat n)%nat with (Z.to_nat (i + n)) by lia.
Qed.

Lemma last_line buf i len offset : bytes buf -> 0 <= i -> 0 <= len <= 16 ->
  i + len <= Z.of_nat (length buf) ->
  exists pieces, print_hex_ascii_line buf i len offset = Ret pieces /\
    decodes (concat pieces) (take (Z.to_nat len) (drop (Z.to_nat i) buf)).
Proof.
  intros Hb Hi Hl Hn. destruct (line_printed buf i len offset) as (ps & E & T); [lia..|].
  exists ps; split; [done|]. rewrite T. rewrite <- (app_nil_r (_ ++ [newline])).
  rewrite <- (app_nil_r (take (Z.to_nat len) (drop (Z.to_nat i) buf))) at 2.
  apply decodes_line; [by apply bytes_slice|rewrite length_take; lia|done].
Qed.

Lemma loop_decodes buf fuel i rem offset : bytes buf -> 0 <= i -> 16 < rem ->
  rem <= 16 * Z.of_nat fuel -> i + rem <= Z.of_nat (length buf) ->
  exists pieces, payload_loop fuel buf i rem offset = Ret pieces /\
    decodes (concat pieces) (take (Z.to_nat rem) (drop (Z.to_nat i) buf)).
Proof.
  intros Hb. revert i rem offset. induction fuel as [|fuel IH]; intros i rem offset Hi H16 Hf Hn; [lia|].
  cbn [payload_loop]. rewrite (Z.mod_small 16 rem) by lia.
  destruct (line_printed buf i 16 offset) as (ps & -> & T); [lia..|]. rewrite res_bind_ret.
  assert (R : exists qs, (if rem - 16 <=? 16 then print_hex_ascii_line buf (i + 16) (rem - 16) (offset + 16)
                          else payload_loop fuel buf (i + 16) (rem - 16) (offset + 16)) = Ret qs /\
              decodes (concat qs) (take (Z.to_nat (rem - 16)) (drop (Z.to_nat (i + 16)) buf))).
  { destruct (Z.leb_spec (rem - 16) 16); [apply last_line|apply IH]; auto; lia. }
  destruct R as (qs & -> & Q). rewrite res_bind_ret. eexists; split; [reflexivity|].
  rewrite concat_app, T. replace rem with (16 + (rem - 16)) at 1 by lia.
  rewrite slice_split by lia. apply decodes_line; [by apply bytes_slice|rewrite length_take; lia|done].
Qed.

(** Text that is a dump of the given bytes; nothing at all for none. *)
Definition dump_of (t : text) (l : list Z) : Prop := decode_dump t = l.

Lemma payload_dump buf i len : bytes buf -> 0 <= i -> 0 <= len -> i + len <= Z.of_nat (length buf) ->
  exists pieces, print_payload buf i len = Ret pieces /\
    dump_of (concat pieces) (take (Z.to_nat len) (drop (Z.to_nat i) buf)).
Proof.
  intros Hb Hi Hl Hn. unfold print_payload. destruct (Z.leb_spec len 0).
  { assert (len = 0) as -> by lia. by eexists. }
  assert (R : exists qs, (if len <=? 16 then print_hex_ascii_line buf i len 0
                          else payload_loop (Z.to_nat len) buf i len 0) = Ret qs /\
              decodes (concat qs) (take (Z.to_nat len) (drop (Z.to_nat i) buf))).
  { destruct (Z.leb_spec len 16); [apply last_line|apply loop_decodes]; auto; lia. }
  destruct R as (qs & -> & Q). rewrite res_bind_ret. eexists; split; [reflexivity|].
  unfold dump_of, decode_dump. cbn [concat]. rewrite <- app_assoc. cbn [app].
  rewrite split_lines_cur by literal. exact Q.
Qed.

(** ** Capturing *)

Definition payload_bytes (buf : list Z) (i : packet_info) : list Z :=
  take (Z.to_nat (pkt_len i)) (drop (Z.to_nat (default 0 (payload i))) buf).

Lemma next_header_min buf p h : next_header buf = Some (p, h) -> 8 <= h.
Proof. unfold next_header. repeat case_match; intros [= <- <-]; bool_to_prop; lia. Qed.

(** *** The text of a packet: a reference definition *)

(** An address and a port as they are printed; the port is not converted from
    network order. *)
Definition dotted (buf : list Z) (i : Z) : text :=
  printf_d (get buf i) ++ str "." ++ printf_d (get buf (i + 1)) ++ str "." ++
  printf_d (get buf (i + 2)) ++ str "." ++ printf_d (get buf (i + 3)).
Definition port (buf : list Z) (i : Z) : Z := get buf (i + 1) * 256 + get buf i.

Definition protocol_name (p : MBA_NETTRAMON_PRO) : string :=
  match p with
  | NETTRAMON_PRO_TCP => "TCP" | NETTRAMON_PRO_UDP => "UDP" | NETTRAMON_PRO_ICMP => "ICMP" | NETTRAMON_PRO_UNKNOWN => ""
  end.

(** The lines above the dump: source and destination, and for TCP and UDP the ports. *)
Definition header_text (buf : list Z) (p : MBA_NETTRAMON_PRO) : text :=
  let l4 := 14 + ip_size buf in
  let ported := bool_decide (p <> NETTRAMON_PRO_ICMP) in
  [10] ++ str "==========Protocol: " ++ str (protocol_name p) ++ str "==========" ++ [10] ++
  str "From: " ++ dotted buf 26 ++ (if ported then [9; 9] ++ printf_d (port buf l4) else []) ++ [10] ++
  str "To:   " ++ dotted buf 30 ++ (if ported then [9] ++ printf_d (port buf (l4 + 2)) else []) ++ [10].

Lemma inet_ntoa_dotted buf i : 0 <= i -> i + 4 <= Z.of_nat (length buf) -> inet_ntoa buf i = Ret (dotted buf i).
Proof. intros. unfold inet_ntoa. by rewrite !byte_at_get by lia. Qed.

Lemma print_ports_text buf h : 34 <= Z.of_nat (length buf) -> 0 <= h -> h + 4 <= Z.of_nat (length buf) ->
  print_ports buf 14 h =
    Ret [str "From: " ++ dotted buf 26 ++ [9; 9]; printf_d (port buf h) ++ [10];
         str "To:   " ++ dotted buf 30 ++ [9]; printf_d (port buf (h + 2)) ++ [10]].
Proof.
  intros. unfold print_ports. rewrite (inet_ntoa_dotted buf (14 + 12)), (inet_ntoa_dotted buf (14 + 16)) by lia.
  unfold u_short_at. by rewrite !byte_at_get by lia.
Qed.

(** Decide comparisons of constants. *)
Ltac eval_tests :=
  repeat match goal with
  | |- context [bool_decide ?P] => let b := eval vm_compute in (bool_decide P) in change (bool_decide P) with b
  end; cbv iota.

(** The printed form of a packet: its header lines and the dump of its payload. *)
Lemma packet_text_frame buf i : bytes buf -> Z.of_nat (length buf) < 2 ^ 31 ->
  frame_packet buf = Some i ->
  exists pieces dump, packet_text buf i = Ret (Some pieces) /\
    concat pieces = header_text buf (packet_protocol i) ++ dump /\ dump_of dump (payload_bytes buf i).
Proof.
  intros Hb Hn. pose proof (ip_size_range buf Hb). unfold frame_packet.
  destruct (next_header buf) as [[p h]|] eqn:E; [|done]. cbn [mbind option_bind].
  pose proof (next_header_min _ _ _ E). destruct (_ && _) eqn:C; [|done]. bool_to_prop.
  intros [= <-]. unfold packet_text, payload_bytes.
  cbn [packet_protocol ip_head tcp_head udp_head icmp_head payload pkt_len default].
  assert (s32 (Z.of_nat (length buf) - (14 + ip_size buf) - h) = Z.of_nat (length buf) - (14 + ip_size buf) - h) as ->.
  { unfold s32. rewrite Z.mod_small by lia. by rewrite (proj2 (Z.ltb_lt _ _)) by lia. }
  destruct (payload_dump buf (14 + ip_size buf + h) (Z.of_nat (length buf) - (14 + ip_size buf) - h))
    as (body & Eb & Hd); [done|lia..|].
  pose proof (print_ports_text buf (14 + ip_size buf) ltac:(lia) ltac:(lia) ltac:(lia)) as Ep.
  pose proof (inet_ntoa_dotted buf (14 + 12) ltac:(lia) ltac:(lia)) as Es.
  pose proof (inet_ntoa_dotted buf (14 + 16) ltac:(lia) ltac:(lia)) as Ed.
  assert (P : p = NETTRAMON_PRO_TCP \/ p = NETTRAMON_PRO_UDP \/ p = NETTRAMON_PRO_ICMP).
  { revert E. unfold next_header. repeat case_match; intros [= <- <-]; auto. }
  destruct P as [->|[->| ->]]; eval_tests; cbn [deref]; rewrite !res_bind_ret;
    [rewrite Ep|rewrite Ep|rewrite Es, res_bind_ret, Ed]; rewrite res_bind_ret, Eb, res_bind_ret;
    (eexists _, (concat body); split_and!; [reflexivity| |exact Hd]); rewrite ?concat_app; unfold header_text; eval_tests;
    cbn [concat protocol_name]; unfold banner, newline; rewrite ?app_nil_r, <- ?(assoc_L (++)); reflexivity.
Qed.

(** *** The outputs of a packet: a reference definition *)

(** There is a monitor or a file to write to. *)
Definition prints (x : ntm_context) : Prop := is_Some (local_mon x) \/ fp x <> no_files.

(** The monitor when no file is open; else the file of the protocol and the
    file for all, those of them that are open. *)
Definition outputs_of (x : ntm_context) (p : MBA_NETTRAMON_PRO) : list sink :=
  match fp x with
  | FilePtr None None None None => match local_mon x with Some m => [ToMonitor m] | None => [] end
  | FilePtr all tcp udp icmp =>
      (fun f => ToFile f) <$>
        omap (fun f : option Z => f)
          [match p with NETTRAMON_PRO_TCP => tcp | NETTRAMON_PRO_UDP => udp | NETTRAMON_PRO_ICMP => icmp | _ => None end; all]
  end.

Lemma prints_test x : prints x <-> negb (is_none (local_mon x)) || negb (no_file (fp x)) = true.
Proof.
  unfold prints, no_file, no_files. destruct (local_mon x), (fp x) as [[] [] [] []]; simpl; split; intros H; try done;
    try (by left; eexists); try (by right); by destruct H as [[]|].
Qed.

Lemma sinks_outputs x p : p <> NETTRAMON_PRO_UNKNOWN -> sinks (with_protocol x p) = outputs_of x p.
Proof.
  intros H. unfold sinks, outputs_of, no_file. simpl. rewrite bool_decide_true by done.
  by destruct (local_mon x), (fp x) as [[] [] [] []], p.
Qed.

Lemma frame_protocol buf i : frame_packet buf = Some i -> packet_protocol i <> NETTRAMON_PRO_UNKNOWN.
Proof.
  unfold frame_packet. destruct (next_header buf) as [[p h]|] eqn:E; [|done]. simpl.
  destruct (_ && _); [|done]. intros [= <-]. simpl. revert E. unfold next_header. repeat case_match; by intros [= <- <-].
Qed.

(** A packet that parses. *)
Lemma print_captured_packet x buf i : bytes buf -> Z.of_nat (length buf) < 2 ^ 31 -> prints x -> frame_packet buf = Some i ->
  exists pieces dump,
    print_captured x buf (Z.of_nat (length buf)) =
      Ret (0, flat_map (fun s => map (fun k => (k, s)) (outputs_of x (packet_protocol i))) pieces,
           with_protocol x (packet_protocol i)) /\
    concat pieces = header_text buf (packet_protocol i) ++ dump /\ decode_dump dump = payload_bytes buf i.
Proof.
  intros Hb Hn Hp E. unfold print_captured. apply prints_test in Hp as ->.
  rewrite parse_frame by (done || lia). unfold outcome_of. rewrite res_bind_ret, E.
  destruct (packet_text_frame buf i) as (pieces & dump & Et & Hc & Hd); [done..|].
  cbv iota. rewrite ?res_bind_ret. cbn [Z.eqb negb deref]. rewrite res_bind_ret. unfold print_packet. cbv zeta. rewrite Et, res_bind_ret.
  exists pieces, dump. split_and!; [|done..]. unfold nettramon_printf.
  by rewrite sinks_outputs by by eapply frame_protocol.
Qed.

(** A packet that does not parse, and a monitor with nothing to write to. *)
Lemma print_captured_other x buf : bytes buf -> Z.of_nat (length buf) < 2 ^ 31 ->
  (prints x -> frame_packet buf = None -> print_captured x buf (Z.of_nat (length buf)) = Ret (1, [], x)) /\
  (~ prints x -> print_captured x buf (Z.of_nat (length buf)) = Ret (0, [], x)).
Proof.
  intros Hb Hn. unfold print_captured. split.
  - intros Hp E. apply prints_test in Hp as ->. rewrite parse_frame by (done || lia). unfold outcome_of.
    by rewrite res_bind_ret, E.
  - intros Hp. rewrite prints_test in Hp. by apply not_true_is_false in Hp as ->.
Qed.

(** One call for each callback of the list, with its own argument. *)
Definition called (x : ntm_context) (len haddr : Z) (cs : list (Z * Z * Z * Z)) : Prop :=
  Forall2 (fun p c => exists r, cbs x !! p = Some r /\ c = (user_cb r, len, haddr, cb_arg r)) (cb_list x) cs.

Lemma callbacks_live h l len haddr : Forall (fun p => is_Some (h !! p)) l ->
  exists cs, call_callbacks h l len haddr = Ret cs /\
    Forall2 (fun p c => exists r, h !! p = Some r /\ c = (user_cb r, len, haddr, cb_arg r)) l cs.
Proof.
  induction 1 as [|p l [r E] _ (cs & Ec & Hc)]; [by exists []|]. eexists. cbn [call_callbacks]. rewrite E. cbn [deref].
  rewrite res_bind_ret, Ec, res_bind_ret. split; [reflexivity|]. constructor; [by exists r|done].
Qed.

(** ** Files are reopened after a stop *)

Definition good_path (p : text) : Prop :=
  is_N p = true \/ (p <> [] /\ (length p < 64)%nat /\ Forall (fun c => c <> 0) p).

(** The file of a path: none for the name that stands for no file. *)
Definition want (fopen : text -> fmode -> option Z) (m : fmode) (p : text) : option Z :=
  if is_N p then None else fopen p m.

Definition opens (fopen : text -> fmode -> option Z) (m : fmode) (p : text) : Prop :=
  is_N p = true \/ is_none (fopen p m) = false.

Definition buf_of (p : text) : text :=
  if is_N p then zero_buf else strncpy (Z.to_nat SZ_NETTRAMON_PATH_LENGTH) p.

Lemma c_string_strncpy p n rest : (length p < n)%nat -> Forall (fun c => c <> 0) p ->
  c_string (strncpy n p ++ rest) = Ret p.
Proof.
  intros Hl H. unfold strncpy. rewrite take_ge by lia.
  replace (n - length p)%nat with (S (n - length p - 1)) by lia. cbn [replicate].
  generalize (n - length p - 1)%nat as k. clear Hl. intros k. rewrite <- app_assoc. cbn [app].
  induction H as [|c p Hc H IH]; [done|]. simpl. rewrite (proj2 (Z.eqb_neq _ _) Hc).
  by rewrite IH.
Qed.

Lemma path_mem_set b o t : exists rest, path_mem (set_path b o t) o = t ++ rest.
Proof. destruct o; simpl; eauto. exists []. by rewrite app_nil_r. Qed.

(** The buffers and the files after one path is set, and after it is resumed. *)
Definition add_path (b : path_buffer) (o : output) (p : text) : path_buffer :=
  if is_N p then b else mark_set (set_path b o (buf_of p)).
Definition add_file (fopen : text -> fmode -> option Z) (f : file_ptr) (o : output) (p : text) : file_ptr :=
  if is_N p then f else set_file f o (want fopen ModeA p).

Lemma set_one_good fopen o p x b f : good_path p -> opens fopen ModeW p ->
  set_one fopen o p (with_fp (with_pb x b) f)
  = Ret (true, with_fp (with_pb x (add_path b o p)) (set_file f o (want fopen ModeW p))).
Proof.
  unfold good_path, opens, set_one, want, add_path, buf_of. destruct (is_N p); cbn [negb]; [done|].
  intros [?|(Hp & Hl & Hz)] [?|Ho]; try done.
  destruct (path_mem_set b o (strncpy (Z.to_nat SZ_NETTRAMON_PATH_LENGTH) p)) as [rest E].
  cbv zeta. cbn [pb with_pb with_fp]. rewrite E, c_string_strncpy by done. rewrite res_bind_ret, Ho. done.
Qed.

Lemma resume_one_good fopen o p x f rest : good_path p -> opens fopen ModeA p ->
  path_mem (pb x) o = buf_of p ++ rest ->
  resume_one fopen o (with_fp x f) = Ret (true, with_fp x (add_file fopen f o p)).
Proof.
  unfold good_path, opens, resume_one, want, add_file, buf_of. cbn [pb with_fp].
  intros Hp Ho ->. destruct (is_N p) eqn:N; [done|].
  destruct Hp as [?|(Hp & Hl & Hz)], Ho as [?|Ho]; try done.
  rewrite c_string_strncpy by done. destruct p as [|c p]; [done|].
  inversion Hz as [|? ? Hc ?]; subst.
  change (head _) with (Some c). cbn [deref]. rewrite !res_bind_ret, (proj2 (Z.eqb_neq _ _) Hc), Ho.
  unfold want. by rewrite N.
Qed.

Lemma all_steps_cons f l x y : f x = Ret (true, y) -> all_steps (f :: l) x = all_steps l y.
Proof. intros E. simpl. by rewrite E. Qed.

Section Paths.
  Context (a t u i : text).
  #[local] Opaque is_N zero_buf strncpy.
  Context (Ga : good_path a) (Gt : good_path t) (Gu : good_path u) (Gi : good_path i).

(** The buffers after setting the paths from a cleared state. *)
Definition set_pb : path_buffer :=
  PathBuffer (negb (is_N a && is_N t && is_N u && is_N i)) (buf_of a) (buf_of t) (buf_of u) (buf_of i).

Definition wanted (fopen : text -> fmode -> option Z) (m : fmode) : file_ptr :=
  FilePtr (want fopen m a) (want fopen m t) (want fopen m u) (want fopen m i).

Definition all_open (fopen : text -> fmode -> option Z) (m : fmode) : Prop :=
  opens fopen m a /\ opens fopen m t /\ opens fopen m u /\ opens fopen m i.

Lemma set_file_path_good fopen x : pb x = zero_pb -> all_open fopen ModeW ->
  nettramon_set_file_path fopen x a t u i = Ret (0, with_fp (with_pb x set_pb) (wanted fopen ModeW)).
Proof.
  intros Hx (Oa & Ot & Ou & Oi). unfold nettramon_set_file_path.
  assert (x = with_fp (with_pb x zero_pb) (fp x)) as Ex by (rewrite <- Hx; by destruct x).
  rewrite Ex at 1. do 4 (erewrite all_steps_cons by (by apply set_one_good)). cbn [all_steps].
  do 3 f_equal. unfold add_path, set_pb, buf_of. by destruct (is_N a), (is_N t), (is_N u), (is_N i).
Qed.

Lemma resume_good fopen x : pb x = set_pb -> fp x = no_files -> all_open fopen ModeA ->
  nettramon_file_path_resume fopen x = Ret (0, with_fp x (wanted fopen ModeA)).
Proof.
  intros Hx Hf (Oa & Ot & Ou & Oi). unfold nettramon_file_path_resume. cbn [map].
  assert (x = with_fp x no_files) as Ex by (rewrite <- Hf; by destruct x). rewrite Ex at 1.
  erewrite all_steps_cons by (eapply resume_one_good; [exact Ga|exact Oa|by rewrite Hx]).
  erewrite all_steps_cons by (eapply resume_one_good; [exact Gt|exact Ot|by rewrite Hx]).
  erewrite all_steps_cons by (eapply resume_one_good; [exact Gu|exact Ou|by rewrite Hx]).
  erewrite all_steps_cons
    by (eapply (resume_one_good _ _ _ _ _ []); [exact Gi|exact Oi|by rewrite Hx, app_nil_r]).
  cbn [all_steps]. do 3 f_equal. unfold add_file, wanted, want.
  by destruct (is_N a), (is_N t), (is_N u), (is_N i).
Qed.

Lemma wanted_some fopen m : all_open fopen m -> is_N a && is_N t && is_N u && is_N i = false ->
  no_file (wanted fopen m) = false.
Proof.
  unfold all_open, opens, wanted, no_file, want. cbn [all_file tcp_file udp_file icmp_file].
  intros (Oa & Ot & Ou & Oi) H.
  destruct (is_N a), (is_N t), (is_N u), (is_N i); try done; simpl;
    repeat match goal with O : _ \/ _ |- _ => destruct O as [?|O]; [discriminate|rewrite ?O] end;
    rewrite ?andb_false_r; try done.
Qed.

End Paths.

(** ** The callbacks as a list

    The abstract registry: the callbacks in call order, how many were ever set,
    and whether a failed call left the lock held. *)

Record registry : Type := Registry { hooks : list nettramon_cb; count : Z; held : bool }.

Inductive ntm_op : Type :=
| OpSet (cb arg : Z)
| OpDelete (u : Z)
| OpEnable (u : Z)
| OpDisable (u : Z).

Definition exec_op (o : ntm_op) (x : ntm_context) : call_res (Z * ntm_context) :=
  match o with
  | OpSet cb arg => nettramon_set_cb x cb arg
  | OpDelete u => nettramon_delete_cb x u
  | OpEnable u => nettramon_enable_cb x u
  | OpDisable u => nettramon_disable_cb x u
  end.

Definition spec_uid (r : registry) (u : Z) (f : list nettramon_cb -> list nettramon_cb)
  : call_res (Z * registry) :=
  if (0 <=? u) && (u <? SZ_NETTRAMON_MAX_CB) then
    if u <? count r then Returns (0, Registry (f (hooks r)) (count r) false)
    else Returns (1, Registry (hooks r) (count r) true)
  else Undefined.

Definition mark (u : Z) (on : bool) (c : nettramon_cb) : nettramon_cb :=
  if uid c =? u then set_cb_enabled on c else c.

Definition spec_op (o : ntm_op) (r : registry) : call_res (Z * registry) :=
  if held r then Blocks else
  match o with
  | OpSet cb arg =>
      if (cb =? 0) || (count r =? SZ_NETTRAMON_MAX_CB) then Returns (1, Registry (hooks r) (count r) true)
      else Returns (count r, Registry (hooks r ++ [NtmCb (count r) true cb arg]) (count r + 1) false)
  | OpDelete u => spec_uid r u (filter (fun c => uid c <> u))
  | OpEnable u => spec_uid r u (map (mark u true))
  | OpDisable u => spec_uid r u (map (mark u false))
  end.

(** Run a sequence of calls; the results of all of them. *)
Fixpoint run_ops {St} (step : ntm_op -> St -> call_res (Z * St)) (l : list ntm_op) (s : St)
  : call_res (list Z * St) :=
  match l with
  | [] => Returns ([], s)
  | o :: l =>
      match step o s with
      | Returns (c, s) =>
          match run_ops step l s with
          | Returns (cs, s) => Returns (c :: cs, s)
          | Blocks => Blocks
          | Undefined => Undefined
          end
      | Blocks => Blocks
      | Undefined => Undefined
      end
  end.

(** The record with uid [u] is at address [u + 1]. *)
Record repr (x : ntm_context) (r : registry) : Prop := {
  repr_count : 0 <= count r <= SZ_NETTRAMON_MAX_CB;
  repr_ptr : next_ptr x = count r + 1;
  repr_lock : locked x = held r;
  repr_arr : forall u, cb_arr x !! u = if (0 <=? u) && (u <? count r) then Some (u + 1) else None;
  repr_list : Forall2 (fun p c => cbs x !! p = Some c /\ p = uid c + 1 /\ 0 <= uid c < count r) (cb_list x) (hooks r)
}.

Lemma first_null_spec t c n i : (forall u, t !! u = if (0 <=? u) && (u <? c) then Some (u + 1) else None) ->
  0 <= i <= c -> c <= i + Z.of_nat n -> first_null n t i = c.
Proof.
  intros Ht. revert i. induction n as [|n IH]; intros i Hi Hn; simpl; [lia|]. rewrite Ht.
  rewrite (proj2 (Z.leb_le 0 i)) by lia. destruct (Z.ltb_spec i c); simpl; [|lia]. apply IH; lia.
Qed.

Lemma get_uid_spec x r : repr x r ->
  get_nettramon_cb_uid x = if count r =? SZ_NETTRAMON_MAX_CB then -1 else count r.
Proof.
  intros R. pose proof (repr_count _ _ R). unfold get_nettramon_cb_uid.
  rewrite (first_null_spec _ (count r)); [done|apply R|lia|unfold SZ_NETTRAMON_MAX_CB in *; lia].
Qed.

Lemma repr_with_lock x r b : repr x r -> repr (with_lock x b) (Registry (hooks r) (count r) b).
Proof. intros []; by constructor. Qed.

(** Results and states agree. *)
Definition agree (a : call_res (Z * ntm_context)) (b : call_res (Z * registry)) : Prop :=
  match a, b with
  | Returns (c, x), Returns (d, r) => c = d /\ repr x r
  | Blocks, Blocks => True
  | Undefined, Undefined => True
  | _, _ => False
  end.

Lemma set_agrees x r cb arg : repr x r -> agree (exec_op (OpSet cb arg) x) (spec_op (OpSet cb arg) r).
Proof.
  intros R. pose proof (repr_count _ _ R) as Hc. unfold exec_op, spec_op, nettramon_set_cb, wrlock.
  rewrite (repr_lock _ _ R). destruct (held r); [done|]. cbv zeta.
  change (get_nettramon_cb_uid (with_lock x true)) with (get_nettramon_cb_uid x). rewrite (get_uid_spec x r R).
  destruct (Z.eqb_spec (count r) SZ_NETTRAMON_MAX_CB) as [E|E].
  - rewrite !orb_true_r. split; [done|]. by apply repr_with_lock.
  - rewrite (proj2 (Z.eqb_neq (count r) (-1))) by lia. rewrite !orb_false_r.
    destruct (cb =? 0); [split; [done|by apply repr_with_lock]|].
    split; [done|]. destruct R as [_ Hp _ Ha Hl]. unfold SZ_NETTRAMON_MAX_CB in *.
    constructor; cbn [count hooks held next_ptr locked cb_arr cb_list cbs unlock with_lock with_cbs];
      [unfold SZ_NETTRAMON_MAX_CB; lia|lia|done| |].
    + intros u. rewrite Hp. destruct (decide (u = count r)) as [->|N].
      * rewrite lookup_insert_eq, (proj2 (Z.leb_le 0 _)), (proj2 (Z.ltb_lt _ _)) by lia. done.
      * rewrite lookup_insert_ne, Ha by done.
        destruct (Z.ltb_spec u (count r)), (Z.ltb_spec u (count r + 1)); try done; lia.
    + unfold u16. rewrite Z.mod_small, Hp by lia. apply Forall2_app.
      * eapply Forall2_impl; [exact Hl|]. intros p c (E1 & -> & H). rewrite lookup_insert_ne by lia. auto with lia.
      * repeat constructor; cbn [uid]; [apply lookup_insert_eq|lia..].
Qed.

(** A call that looks a uid up agrees when its body does. *)
Lemma with_cb_agrees x r u body f : repr x r ->
  (0 <= u < count r -> repr (unlock (body (with_lock x true) (u + 1))) (Registry (f (hooks r)) (count r) false)) ->
  agree (with_cb x u body) (if held r then Blocks else spec_uid r u f).
Proof.
  intros R H. pose proof (repr_count _ _ R). unfold with_cb, wrlock, spec_uid. rewrite (repr_lock _ _ R).
  destruct (held r); [done|]. cbn [cb_arr with_lock].
  destruct (Z.leb_spec 0 u); [|done]. destruct (Z.ltb_spec u SZ_NETTRAMON_MAX_CB); [|done]. cbn [andb].
  rewrite (repr_arr _ _ R), (proj2 (Z.leb_le 0 u)) by done. destruct (Z.ltb_spec u (count r)); cbn [andb].
  - split; [done|]. apply H. lia.
  - split; [done|]. by apply repr_with_lock.
Qed.

Lemma delete_agrees x r u : repr x r -> agree (exec_op (OpDelete u) x) (spec_op (OpDelete u) r).
Proof.
  intros R. apply with_cb_agrees; [done|]. intros Hu. destruct R as [? ? ? ? Hl]. constructor; try done.
  cbn [cb_list cbs hooks unlock with_lock with_cbs count].
  induction Hl as [|p c ps cs (E & Ep & Hc) Hl IH]; [constructor|]. rewrite !filter_cons, E. cbn [fmap option_fmap option_map].
  destruct (decide (uid c <> u)) as [N|N], (decide (Some (uid c) <> Some u)) as [M|M]; [by constructor|..|done].
  - destruct M. congruence.
  - destruct N. congruence.
Qed.

Lemma mark_agrees x r u on : repr x r -> 0 <= u < count r ->
  repr (unlock (with_cbs (with_lock x true) (cb_list x) (cb_arr x) (alter (set_cb_enabled on) (u + 1) (cbs x)) (next_ptr x)))
    (Registry (map (mark u on) (hooks r)) (count r) false).
Proof.
  intros [? ? ? ? Hl] Hu. constructor; try done. cbn [cb_list cbs hooks unlock with_lock with_cbs count].
  apply Forall2_fmap_r. eapply Forall2_impl; [exact Hl|]. intros p c (E & Ep & Hc). unfold compose, mark.
  destruct (Z.eqb_spec (uid c) u) as [<-|N].
  - split; [by rewrite <- Ep, lookup_alter_eq, E|done].
  - split; [by rewrite lookup_alter_ne by lia|done].
Qed.

Lemma op_agrees o x r : repr x r -> agree (exec_op o x) (spec_op o r).
Proof.
  intros R. destruct o; [by apply set_agrees|by apply delete_agrees|..];
    (apply with_cb_agrees; [done|]; intros H; exact (mark_agrees x r _ _ R H)).
Qed.

Lemma ntm_repr : repr ntm (Registry [] 0 false).
Proof.
  constructor; try done. intros u. cbn [cb_arr ntm count]. rewrite lookup_empty.
  destruct (Z.leb_spec 0 u), (Z.ltb_spec u 0); try done; lia.
Qed.

Lemma run_agrees l x r : repr x r ->
  match run_ops exec_op l x, run_ops spec_op l r with
  | Returns (cs, y), Returns (ds, s) => cs = ds /\ repr y s
  | Blocks, Blocks => True
  | Undefined, Undefined => True
  | _, _ => False
  end.
Proof.
  revert x r. induction l as [|o l IH]; intros x r R; simpl; [done|].
  pose proof (op_agrees o x r R) as A. unfold agree in A.
  destruct (exec_op o x) as [[c y]| |], (spec_op o r) as [[d s]| |]; try done. destruct A as [-> A].
  specialize (IH _ _ A).
  destruct (run_ops exec_op l y) as [[]| |], (run_ops spec_op l s) as [[]| |]; try done. naive_solver.
Qed.

Lemma repr_calls x r len h : repr x r ->
  call_callbacks (cbs x) (cb_list x) len h = Ret (map (fun c => (user_cb c, len, h, cb_arg c)) (hooks r)) /\
  omap (fun p => cbs x !! p) (cb_list x) = hooks r.
Proof.
  intros [_ _ _ _ Hl]. split.
  - induction Hl as [|p c ps cs (E & _) Hl IH]; [done|]. cbn [call_callbacks]. rewrite E. cbn [deref]. rewrite res_bind_ret, IH. done.
  - induction Hl as [|p c ps cs (E & _) Hl IH]; [done|]. cbn. rewrite E. by rewrite IH.
Qed.

(** A call that fails: a NULL callback, or a uid that was never given out. *)
Definition fails (o : ntm_op) (x : ntm_context) : Prop :=
  match o with
  | OpSet cb _ => cb = 0
  | OpDelete u | OpEnable u | OpDisable u => 0 <= u < SZ_NETTRAMON_MAX_CB /\ cb_arr x !! u = None
  end.

Lemma fails_held o x : locked x = false -> fails o x -> exec_op o x = Returns (1, with_lock x true).
Proof.
  intros L F.
  assert (W : forall u body, 0 <= u < SZ_NETTRAMON_MAX_CB /\ cb_arr x !! u = None ->
              with_cb x u body = Returns (1, with_lock x true)).
  { intros u body [Hu E]. unfold with_cb, wrlock. rewrite L. cbn [cb_arr with_lock].
    by rewrite (proj2 (Z.leb_le 0 u)), (proj2 (Z.ltb_lt u _)), E by lia. }
  destruct o; simpl in *; [|by apply W..]. subst. unfold nettramon_set_cb, wrlock. by rewrite L.
Qed.

Lemma held_blocks o x : locked x = true -> exec_op o x = Blocks.
Proof. intros L. destruct o; cbn; unfold nettramon_set_cb, nettramon_delete_cb, nettramon_enable_cb, nettramon_disable_cb, with_cb, wrlock; by rewrite L. Qed.

End NetTraMon.

(** ** Theorems *)

Import NetTraMon.

(** C19: For every frame nettramon_packet_parse returns, reading nothing outside
    the frame. It reports success exactly when the frame holds a complete TCP,
    UDP or ICMP packet whose lengths agree, and then gives the protocol, the
    headers, and the payload with its length; otherwise it returns 1 with the
    structure cleared. *)
Theorem packet_parse_spec buf i :
  bytes buf -> Z.of_nat (length buf) < 2 ^ 63 ->
  nettramon_packet_parse buf (Z.of_nat (length buf)) (Some i)
  = Ret (match frame_packet buf with
         | Some j => (0, Some j)
         | None => (1, Some (clear_packet_info i))
         end).
Proof. intros Hb Hn. rewrite parse_frame by done. unfold outcome_of. by destruct (frame_packet buf). Qed.

(** A UDP packet with three bytes of payload. *)
Definition udp_frame : list Z :=
  replicate 12 0 ++ [8; 0]
  ++ [0x45; 0; 0; 31; 0; 0; 0; 0; 64; 17; 0; 0; 10; 0; 0; 1; 10; 0; 0; 2]
  ++ [0; 53; 4; 0; 0; 11; 0; 0] ++ [65; 10; 255].

Lemma packet_parse_spec_witness :
  nettramon_packet_parse udp_frame 45 (Some (PacketInfo NETTRAMON_PRO_UNKNOWN None None None None None None 0))
  = Ret (0, Some (PacketInfo NETTRAMON_PRO_UDP (Some 0) (Some 14) None (Some 34) None (Some 42) 3)).
Proof.
  etransitivity; [apply (packet_parse_spec udp_frame)|vm_compute; reflexivity];
    [apply (bool_decide_unpack _); vm_compute; exact I|vm_compute; reflexivity].
Defined.

(** The dump of a payload loses nothing. print_payload returns for every
    length, reading only the payload, and the hexadecimal columns of its lines
    spell the payload byte for byte. *)
Theorem hexdump_roundtrip buf i len :
  bytes buf -> 0 <= i -> 0 <= len -> i + len <= Z.of_nat (length buf) ->
  exists pieces, print_payload buf i len = Ret pieces /\
    decode_dump (concat pieces) = take (Z.to_nat len) (drop (Z.to_nat i) buf).
Proof. apply payload_dump. Qed.

Lemma hexdump_roundtrip_witness :
  exists pieces, print_payload udp_frame 2 40 = Ret pieces /\
    decode_dump (concat pieces) = take 40 (drop 2 udp_frame).
Proof.
  apply (hexdump_roundtrip udp_frame 2 40);
    [apply (bool_decide_unpack _); vm_compute; exact I|vm_compute; discriminate..].
Defined.

(** C18: The capture of a packet, on every branch, for a frame below 2 GiB and
    callback records that are live. A monitor that is not active, or a filter that
    rejects the packet, gives 0 and does nothing; a filter structure that was never
    filled is undefined; a lock that is held makes the capture wait. Else every
    callback of the list is called once, in order, whether enabled or not, and
    the lock is free again afterwards. With nothing to write to the result is 0; with
    a monitor or a file, a frame that is no packet gives 1 and no output, and a
    packet is printed: the banner of its protocol, the source line, the destination
    line, then a dump of exactly its payload, each string to the monitor if no
    file is open and else to the open ones of the protocol's file and the file
    for all. *)
Theorem packet_capture_spec bpf x buf haddr :
  bytes buf -> Z.of_nat (length buf) < 2 ^ 31 -> Forall (fun p => is_Some (cbs x !! p)) (cb_list x) ->
  let n := Z.of_nat (length buf) in
  let run := nettramon_packet_capture bpf x buf n haddr in
  let accepted := filter_prog x = None \/ exists p, filter_prog x = Some (Some p) /\ bpf p buf n = true in
  (status x = false -> run = Returns (Captured 0 [] [], x)) /\
  (status x = true -> filter_prog x = Some None -> run = Undefined) /\
  (forall p, status x = true -> filter_prog x = Some (Some p) -> bpf p buf n = false -> run = Returns (Captured 0 [] [], x)) /\
  (status x = true -> accepted -> locked x = true -> run = Blocks) /\
  (status x = true -> accepted -> locked x = false -> exists cs, called x n haddr cs /\
     (~ prints x -> run = Returns (Captured 0 cs [], x)) /\
     (prints x -> frame_packet buf = None -> run = Returns (Captured 1 cs [], x)) /\
     (forall i, prints x -> frame_packet buf = Some i -> exists pieces dump,
        run = Returns (Captured 0 cs (flat_map (fun s => map (fun k => (k, s)) (outputs_of x (packet_protocol i))) pieces),
                       with_protocol x (packet_protocol i)) /\
        concat pieces = header_text buf (packet_protocol i) ++ dump /\ decode_dump dump = payload_bytes buf i)).
Proof.
  intros Hb Hn Hv n run accepted.
  assert (run = nettramon_packet_capture bpf x buf n haddr) as Erun by done. clearbody run.
  unfold nettramon_packet_capture, nettramon_is_active, passes_filter in Erun.
  split_and!; [by intros Hs; rewrite Hs in Erun|by intros Hs Hf; rewrite Hs, Hf in Erun|
    by intros p Hs Hf Hr; rewrite Hs, Hf, Hr in Erun|..].
  - intros Hs [Hf|(p & Hf & Hr)] Hl; rewrite Hs, Hf, ?Hr in Erun; unfold wrlock in Erun; by rewrite Hl in Erun.
  - intros Hs Ha Hl. destruct (callbacks_live (cbs x) (cb_list x) n haddr Hv) as (cs & Ec & Hc).
    assert (run = lift ('(r, out, y) ← print_captured x buf n; Ret (Captured r cs out, y))) as Er.
    { assert (unlock (with_lock x true) = x) as Eu by (unfold unlock, with_lock; cbn; rewrite <- Hl; by destruct x).
      unfold wrlock in Erun. rewrite Hs, Hl, Eu in Erun. cbn [with_lock cbs cb_list] in Erun.
      rewrite Ec, res_bind_ret in Erun. by destruct Ha as [Hf|(p & Hf & Hr)]; rewrite Hf, ?Hr in Erun. }
    exists cs. split; [done|]. destruct (print_captured_other x buf Hb Hn) as [Hno Hnone].
    split_and!.
    + intros Hp. rewrite Er. unfold n. by rewrite Hnone.
    + intros Hp Hf. rewrite Er. unfold n. by rewrite Hno.
    + intros i Hp Hf. destruct (print_captured_packet x buf i Hb Hn Hp Hf) as (pieces & dump & E & Ht).
      exists pieces, dump. rewrite Er. unfold n. rewrite E. by split.
Qed.

(** A monitor printing to a terminal, with a callback that was disabled. *)
Definition watching : ntm_context :=
  Ntm NETTRAMON_PRO_UNKNOWN (Some 7) None true no_files zero_pb [1] {[0 := 1]}
    {[1 := NtmCb 0 false 99 5]} 2 false.

(** The same with a file for UDP packets and one for all. *)
Definition recording : ntm_context := with_fp watching (FilePtr (Some 31) (Some 32) (Some 33) None).

Lemma packet_capture_spec_witness : exists cs pieces dump,
  nettramon_packet_capture (fun _ _ _ => true) recording udp_frame 45 4096
  = Returns (Captured 0 cs (flat_map (fun s => [(ToFile 33, s); (ToFile 31, s)]) pieces),
             with_protocol recording NETTRAMON_PRO_UDP) /\
  called recording 45 4096 cs /\
  concat pieces = header_text udp_frame NETTRAMON_PRO_UDP ++ dump /\ decode_dump dump = [65; 10; 255].
Proof.
  destruct (packet_capture_spec (fun _ _ _ => true) recording udp_frame 4096) as (_ & _ & _ & _ & H);
    [apply (bool_decide_unpack _); vm_compute; exact I|vm_compute; reflexivity|repeat constructor; by eexists|].
  destruct H as (cs & Hc & _ & _ & Hp); [reflexivity|by left|reflexivity|].
  destruct (Hp (PacketInfo NETTRAMON_PRO_UDP (Some 0) (Some 14) None (Some 34) None (Some 42) 3)) as (pieces & dump & E & Ht & Hd);
    [by right|vm_compute; reflexivity|].
  exists cs, pieces, dump. split_and!; [exact E|exact Hc|exact Ht|]. rewrite Hd. vm_compute. reflexivity.
Defined.

(** Files set while no path is stored are reopened after a stop. The four
    paths open their files for writing; stopping closes them all; the next start
    opens the same names again for appending, and leaves out the ones set to N. *)
Theorem file_paths_resume fopen fopen' x a t u i :
  pb x = zero_pb ->
  good_path a -> good_path t -> good_path u -> good_path i ->
  is_N a && is_N t && is_N u && is_N i = false ->
  all_open a t u i fopen ModeW -> all_open a t u i fopen' ModeA ->
  exists x1 x2 x3,
    nettramon_set_file_path fopen x a t u i = Ret (0, x1) /\ fp x1 = wanted a t u i fopen ModeW /\
    nettramon_stop x1 = (0, x2) /\ fp x2 = no_files /\ status x2 = false /\
    nettramon_start fopen' x2 None = Ret (1, x3) /\ fp x3 = wanted a t u i fopen' ModeA /\ status x3 = true.
Proof.
  intros Hx Ga Gt Gu Gi HN Ow Oa. do 3 eexists.
  split; [by apply set_file_path_good|]. split; [done|]. split; [done|]. split; [done|]. split; [done|].
  unfold nettramon_start. cbn [nettramon_is_active status with_status negb pb with_fp with_pb nettramon_cleanup with_mon].
  unfold set_pb at 1. cbn [has_set]. rewrite HN. cbn [negb].
  rewrite (resume_good a t u i Ga Gt Gu Gi fopen') by done. rewrite res_bind_ret.
  cbn [Z.eqb negb fp with_fp]. rewrite (wanted_some a t u i fopen' ModeA Oa HN). done.
Qed.

Lemma file_paths_resume_witness : exists x1 x2 x3,
  nettramon_set_file_path (fun _ _ => Some 3) ntm (str "all.txt") (str "N") (str "udp.txt") (str "N") = Ret (0, x1) /\
  fp x1 = FilePtr (Some 3) None (Some 3) None /\
  nettramon_stop x1 = (0, x2) /\ fp x2 = no_files /\ status x2 = false /\
  nettramon_start (fun _ _ => Some 4) x2 None = Ret (1, x3) /\
  fp x3 = FilePtr (Some 4) None (Some 4) None /\ status x3 = true.
Proof.
  apply (file_paths_resume (fun _ _ => Some 3) (fun _ _ => Some 4) ntm);
    [reflexivity | | | | | vm_compute; reflexivity | | ];
    try (split_and!; (by left) || (by right)); try by left.
  - right. split_and!; [done|vm_compute; lia|apply (bool_decide_unpack _); vm_compute; exact I].
  - right. split_and!; [done|vm_compute; lia|apply (bool_decide_unpack _); vm_compute; exact I].
Defined.

(** C36: The callback calls implement a list of callbacks. For every sequence of
    set, delete, enable and disable calls from the initial state, the results are
    those of the list, the records kept are those of the list with their enabled flags, and a
    capture would call exactly its callbacks, in the order they were set. A uid is never given out twice, the 65535 of them are used up
    for good, and a call that fails leaves the lock held. *)
Theorem ntm_callbacks_refine l :
  match run_ops exec_op l ntm, run_ops spec_op l (Registry [] 0 false) with
  | Returns (cs, x), Returns (ds, r) =>
      cs = ds /\ locked x = held r /\
      omap (fun p => cbs x !! p) (cb_list x) = hooks r /\
      forall len h, call_callbacks (cbs x) (cb_list x) len h = Ret (map (fun c => (user_cb c, len, h, cb_arg c)) (hooks r))
  | Blocks, Blocks => True
  | Undefined, Undefined => True
  | _, _ => False
  end.
Proof.
  pose proof (run_agrees l _ _ ntm_repr) as A.
  destruct (run_ops exec_op l ntm) as [[cs x]| |], (run_ops spec_op l _) as [[ds r]| |]; try done.
  destruct A as [-> R]. split_and!; [done|apply R|by apply (repr_calls x r 0 0)|]. intros. by apply repr_calls.
Qed.

(** A failed callback call stops the monitor. After a NULL callback or a uid
    that was never given out the call returns 1 with the lock held, so that every
    later callback call, and the capture of every packet the filter accepts, waits
    for ever. *)
Theorem ntm_failure_blocks o x bpf buf len haddr :
  locked x = false -> fails o x ->
  exec_op o x = Returns (1, with_lock x true) /\
  (forall o', exec_op o' (with_lock x true) = Blocks) /\
  (status x = true -> passes_filter bpf x buf len = Ret true ->
   nettramon_packet_capture bpf (with_lock x true) buf len haddr = Blocks).
Proof.
  intros L F. split_and!; [by apply fails_held|intros; by apply held_blocks|].
  intros Hs Hf. unfold nettramon_packet_capture, nettramon_is_active.
  change (passes_filter bpf (with_lock x true) buf len) with (passes_filter bpf x buf len).
  cbn [status with_lock]. by rewrite Hs, Hf.
Qed.

Lemma ntm_failure_blocks_witness :
  exec_op (OpEnable 3) watching = Returns (1, with_lock watching true) /\
  (forall o', exec_op o' (with_lock watching true) = Blocks) /\
  (status watching = true -> passes_filter (fun _ _ _ => true) watching udp_frame 45 = Ret true ->
   nettramon_packet_capture (fun _ _ _ => true) (with_lock watching true) udp_frame 45 0 = Blocks).
Proof.
  apply (ntm_failure_blocks (OpEnable 3) watching (fun _ _ _ => true) udp_frame 45 0); [reflexivity|].
  split; [split; vm_compute; congruence|vm_compute; reflexivity].
Defined.
