(* ===== verification/Systrace.v ===== *)
(** * The system call tracer

    src/ext/systrace/systrace.c: the table and list of tracers, and the handler
    of the events helper_syscall and helper_sysret report. On entry it records a
    context (number and arguments) under a key made of CR3 and the thread; on
    return it looks the context up again for the callbacks.

    What the handler learns from the guest (registers, the current thread, the
    system service table, stack memory) is a record of answers, one per event.
    The hash table is a list of contexts; which of several equal keys HASH_FIND
    returns is a parameter with the laws uthash documents. *)

From S2P Require Import Prelude.

Module Systrace.

(** ** Data *)

Definition MAX_NM_SYSTRACE : Z := 65536.
Definition MAX_SZ_SYSTRACE_LABEL : Z := 16.
Definition SYSCALL_ALL : Z := -1.
Definition CR3_ALL : Z := 0.

Inductive SYSTRACE_ERRNO : Type :=
| SYSTRACE_ERR_FAIL
| SYSTRACE_ERR_FULL_TRACE
| SYSTRACE_ERR_CREATE_FAIL
| SYSTRACE_ERR_INVALID_HANDLE
| SYSTRACE_ERR_INTERNAL_BROKEN.

Record systrace_record : Type := SysRec {
  id : Z;
  label : list Z;
  rec_syscall : Z;
  callback : Z;
  rec_cr3 : Z;
  is_entry : bool;
  cb_args : Z
}.

(** [ctx_ptr] is the address of the structure. *)
Record syscall_context : Type := SysCtx {
  ctx_ptr : Z;
  context_key : Z;
  syscall_number : Z;
  argument_arr : list Z
}.

(** [records] and [ll_records] hold addresses of records in [heap]; an entry of
    [g_ssdt_info] is the number of arguments on the stack. *)
Record sys_ctx : Type := Sys {
  records : gmap Z Z;
  ll_records : list Z;
  heap : gmap Z systrace_record;
  g_syscall_ctx : list syscall_context;
  g_ssdt_info : option (list Z);
  next_ptr : Z;
  systrace_errno : SYSTRACE_ERRNO
}.

Definition init_sys : sys_ctx := Sys ∅ [] ∅ [] None 1 SYSTRACE_ERR_FAIL.

Definition with_errno (s : sys_ctx) (e : SYSTRACE_ERRNO) : sys_ctx :=
  Sys (records s) (ll_records s) (heap s) (g_syscall_ctx s) (g_ssdt_info s) (next_ptr s) e.
Definition with_tracers (s : sys_ctx) t l h n : sys_ctx :=
  Sys t l h (g_syscall_ctx s) (g_ssdt_info s) n (systrace_errno s).
Definition with_contexts (s : sys_ctx) c n : sys_ctx :=
  Sys (records s) (ll_records s) (heap s) c (g_ssdt_info s) n (systrace_errno s).
Definition with_ssdt (s : sys_ctx) t : sys_ctx :=
  Sys (records s) (ll_records s) (heap s) (g_syscall_ctx s) t (next_ptr s) (systrace_errno s).

(** ** Adding and deleting tracers *)

(** A C string without its zero, copied by strncpy. *)
Definition label_copy (l : list Z) : list Z :=
  let n := Z.to_nat MAX_SZ_SYSTRACE_LABEL in take n l ++ replicate (n - length l) 0.

Definition new_record (i : Z) (lbl : list Z) (cr3 number : Z) (entry : bool) (cb args : Z) : systrace_record :=
  SysRec i (label_copy lbl) number cb cr3 entry args.

Fixpoint empty_slot (n : nat) (t : gmap Z Z) (i : Z) : Z :=
  match n with
  | O => i
  | S m => match t !! i with None => i | Some _ => empty_slot m t (i + 1) end
  end.

(** [alloc] tells whether calloc succeeds. *)
Definition systrace_add (alloc : bool) (s : sys_ctx) (lbl : list Z) (cr3 number : Z) (entry : bool) (cb args : Z)
  : Z * sys_ctx :=
  let new_handle := empty_slot (Z.to_nat MAX_NM_SYSTRACE) (records s) 0 in
  if new_handle =? MAX_NM_SYSTRACE then (-1, with_errno s SYSTRACE_ERR_FULL_TRACE)
  else if negb alloc then (-1, with_errno s SYSTRACE_ERR_CREATE_FAIL)
  else
    let rec := next_ptr s in
    (new_handle,
     with_tracers s (<[new_handle := rec]> (records s)) (ll_records s ++ [rec])
       (<[rec := new_record new_handle lbl cr3 number entry cb args]> (heap s)) (rec + 1)).

(** LL_FOREACH_SAFE up to the target, LL_DELETE of it; [None] when it is not in
    the list. *)
Fixpoint ll_delete (target : Z) (l : list Z) : option (list Z) :=
  match l with
  | [] => None
  | p :: l => if p =? target then Some l else l' ← ll_delete target l; Some (p :: l')
  end.

(** The handle is an index without a check of its range. *)
Definition systrace_delete (s : sys_ctx) (handle : Z) : res (Z * sys_ctx) :=
  if negb ((0 <=? handle) && (handle <? MAX_NM_SYSTRACE)) then UB
  else
    match records s !! handle with
    | None => Ret (-1, with_errno s SYSTRACE_ERR_INVALID_HANDLE)
    | Some target =>
        match ll_delete target (ll_records s) with
        | Some l => Ret (0, with_tracers s (delete handle (records s)) l (delete target (heap s)) (next_ptr s))
        | None => Ret (-1, with_errno s SYSTRACE_ERR_INTERNAL_BROKEN)
        end
    end.

(** ** Events *)

(** The answers of the guest at an event: registers, whether the structure and
    global variable descriptions are loaded, the table memfrs_enum_ssdt_list
    finds, the thread of memfrs_get_current_thread, and the value
    memfrs_get_virmem_content leaves for a CR3 and an address. *)
Record guest : Type := Guest {
  eax : Z;
  ecx : Z;
  edx : Z;
  r8 : Z;
  r9 : Z;
  esp : Z;
  cr3 : Z;
  info_loaded : bool;
  ssdt_list : option (list Z);
  current_thread : option Z;
  virmem : Z -> Z -> Z
}.

Definition deref {A} (o : option A) : res A := match o with Some a => Ret a | None => UB end.

Definition context_idx (g : guest) : res Z :=
  thread ← deref (current_thread g);
  Ret (u64 (Z.shiftl (cr3 g) (32 - 12)) .| thread).

Definition gen_syscall_context (s : sys_ctx) (number : Z) (g : guest) : res syscall_context :=
  info ← deref (g_ssdt_info s);
  key ← context_idx g;
  let on_stack :=
    match info !! Z.to_nat number with
    | Some n => map (fun i => virmem g (cr3 g) (u64 (esp g + 0x28 + i * 8))) (seqZ 0 n)
    | None => []
    end in
  Ret (SysCtx (next_ptr s) key number ([ecx g; edx g; r8 g; r9 g] ++ on_stack)).

(** HASH_ADD_INT and HASH_FIND_INT compare sizeof(int) bytes of the key. *)
Definition int_key (k : Z) : Z := u32 k.

(** HASH_DEL, of the structure itself; then it is freed. *)
Definition free_context (s : sys_ctx) (o : option syscall_context) : sys_ctx :=
  match o with
  | None => s
  | Some c => with_contexts s (filter (fun d => ctx_ptr d <> ctx_ptr c) (g_syscall_ctx s)) (next_ptr s)
  end.

(** A callback with its arguments. *)
Record cb_call : Type := CbCall { called : Z; is_invoke : bool; user_args : Z; syscall_info : syscall_context }.

(** The calls a record leads to. *)
Definition rec_calls (g : guest) (is_enter : bool) (o : option syscall_context) (r : systrace_record) : list cb_call :=
  let number := eax g .& 0xffff in
  if (rec_cr3 r =? CR3_ALL) || (rec_cr3 r =? cr3 g) then
    match o with
    | Some c =>
        if is_enter && is_entry r then
          if (rec_syscall r =? SYSCALL_ALL) || (u64 (rec_syscall r) =? number)
          then [CbCall (callback r) true (cb_args r) c] else []
        else if negb is_enter && negb (is_entry r) then
          if (rec_syscall r =? SYSCALL_ALL) || (rec_syscall r =? syscall_number c)
          then [CbCall (callback r) false (cb_args r) c] else []
        else []
    | None => []
    end
  else [].

Fixpoint invoke_callbacks (h : gmap Z systrace_record) (g : guest) (is_enter : bool)
  (o : option syscall_context) (l : list Z) : res (list cb_call) :=
  match l with
  | [] => Ret []
  | p :: l => r ← deref (h !! p); cs ← invoke_callbacks h g is_enter o l; Ret (rec_calls g is_enter o r ++ cs)
  end.

Section Events.
  Context (hash_find : list syscall_context -> Z -> option syscall_context).

Definition event_callret (g : guest) (is_enter : bool) (s : sys_ctx) : res (list cb_call * sys_ctx) :=
  let number := eax g .& 0xffff in
  if negb (info_loaded g) then Ret ([], s) else
  let s := match g_ssdt_info s with None => with_ssdt s (ssdt_list g) | Some _ => s end in
  '(o, s) ← (if is_enter then
               c ← gen_syscall_context s number g;
               Ret (Some c, with_contexts s (g_syscall_ctx s ++ [c]) (next_ptr s + 1))
             else
               key ← context_idx g;
               Ret (hash_find (g_syscall_ctx s) (int_key key), s));
  cs ← invoke_callbacks (heap s) g is_enter o (ll_records s);
  Ret (cs, if is_enter then s else free_context s o).

Definition systrace_on_syscall (g : guest) (s : sys_ctx) := event_callret g true s.
Definition systrace_on_sysret (g : guest) (s : sys_ctx) := event_callret g false s.

End Events.

(** ** The interface of the hash table

    HASH_FIND returns an element with the key if there is one. *)
Class HashFind (find : list syscall_context -> Z -> option syscall_context) : Prop := {
  find_some l k c : find l k = Some c -> c ∈ l /\ int_key (context_key c) = k;
  find_none l k : find l k = None -> Forall (fun c => int_key (context_key c) <> k) l
}.

(** An implementation: the first element. *)
Fixpoint find_first (l : list syscall_context) (k : Z) : option syscall_context :=
  match l with
  | [] => None
  | c :: l => if int_key (context_key c) =? k then Some c else find_first l k
  end.

#[global] Instance find_first_laws : HashFind find_first.
Proof.
  split.
  - induction l as [|d l IH]; simpl; intros k c E; [done|].
    destruct (Z.eqb_spec (int_key (context_key d)) k); [simplify_eq; split; [left|done]|].
    destruct (IH _ _ E). split; [by right|done].
  - induction l as [|d l IH]; simpl; intros k E; [constructor|].
    destruct (Z.eqb_spec (int_key (context_key d)) k); [done|]. constructor; auto.
Qed.

(** ** Operations and reachable states *)

Inductive sys_op : Type :=
| OpAdd (alloc : bool) (lbl : list Z) (cr3 number : Z) (entry : bool) (cb args : Z)
| OpDelete (handle : Z)
| OpSyscall (g : guest)
| OpSysret (g : guest).

Definition exec_op (find : list syscall_context -> Z -> option syscall_context) (o : sys_op) (s : sys_ctx)
  : res (Z * list cb_call * sys_ctx) :=
  match o with
  | OpAdd alloc lbl cr3 n e cb a => let '(r, s) := systrace_add alloc s lbl cr3 n e cb a in Ret (r, [], s)
  | OpDelete h => '(r, s) ← systrace_delete s h; Ret (r, [], s)
  | OpSyscall g => '(cs, s) ← systrace_on_syscall find g s; Ret (0, cs, s)
  | OpSysret g => '(cs, s) ← systrace_on_sysret find g s; Ret (0, cs, s)
  end.

Inductive reachable find : sys_ctx -> Prop :=
| reachable_init : reachable find init_sys
| reachable_step o s r cs s' : reachable find s -> exec_op find o s = Ret (r, cs, s') -> reachable find s'.

(** The tracers, in the order of the list. *)
Definition tracers (s : sys_ctx) : list systrace_record := omap (fun p => heap s !! p) (ll_records s).

(** The list and the table hold the same live records, each under its id;
    contexts have addresses of their own. *)
Record sys_ok (s : sys_ctx) : Prop := {
  ok_list : Forall (fun p => p < next_ptr s /\
              exists r, heap s !! p = Some r /\ records s !! id r = Some p) (ll_records s);
  ok_nodup : NoDup (ll_records s);
  ok_table h p : records s !! h = Some p ->
    0 <= h < MAX_NM_SYSTRACE /\ p ∈ ll_records s /\ exists r, heap s !! p = Some r /\ id r = h;
  ok_ctx : NoDup (map ctx_ptr (g_syscall_ctx s));
  ok_ctx_ptr : Forall (fun c => ctx_ptr c < next_ptr s) (g_syscall_ctx s)
}.

Lemma sys_ok_init : sys_ok init_sys.
Proof. constructor; try constructor; done. Qed.

Lemma empty_slot_spec n t i : let h := empty_slot n t i in
  i <= h <= i + Z.of_nat n /\ (forall j, i <= j < h -> is_Some (t !! j)) /\
  (h < i + Z.of_nat n -> t !! h = None).
Proof.
  revert i. induction n as [|n IH]; intros i; simpl; [split_and!; [lia..|intros; lia|lia]|].
  destruct (t !! i) eqn:E.
  - destruct (IH (i + 1)) as (A & B & C). split_and!; [lia..| |intros; apply C; lia].
    intros j Hj. destruct (decide (j = i)) as [->|]; [by rewrite E|]. apply B. lia.
  - split_and!; [lia..|intros; lia|done].
Qed.

Lemma ids_table s h : sys_ok s -> h ∈ map id (tracers s) <-> is_Some (records s !! h).
Proof.
  intros K. unfold tracers. rewrite list_elem_of_fmap. split.
  - intros (r & -> & H). apply list_elem_of_omap in H as (p & Hp & E).
    pose proof (proj1 (Forall_forall _ _) (ok_list _ K) p Hp) as (_ & r' & E' & T). simplify_eq. eauto.
  - intros [p E]. destruct (ok_table _ K _ _ E) as (_ & Hp & r & Er & <-).
    exists r. split; [done|]. apply list_elem_of_omap. eauto.
Qed.

Lemma ll_delete_spec t l : t ∈ l -> NoDup l -> ll_delete t l = Some (filter (fun p => p <> t) l).
Proof.
  induction l as [|p l IH]; intros Hin Hn; [by apply not_elem_of_nil in Hin|]. simpl.
  apply NoDup_cons in Hn as [Np Hn]. rewrite filter_cons. destruct (Z.eqb_spec p t) as [->|N].
  - destruct (decide (t <> t)) as [?|_]; [done|]. f_equal. symmetry.
    apply filter_all. apply Forall_forall. intros q Hq ->. done.
  - destruct (decide (p <> t)) as [_|?]; [|done]. apply elem_of_cons in Hin as [->|Hin]; [done|].
    by rewrite (IH Hin Hn).
Qed.

(** ** The invariant holds in every reachable state *)

Lemma table_slot s : sys_ok s -> let h := empty_slot (Z.to_nat MAX_NM_SYSTRACE) (records s) 0 in
  0 <= h <= MAX_NM_SYSTRACE /\ (forall j, 0 <= j < h -> j ∈ map id (tracers s)) /\
  (h < MAX_NM_SYSTRACE -> records s !! h = None).
Proof.
  intros K. destruct (empty_slot_spec (Z.to_nat MAX_NM_SYSTRACE) (records s) 0) as (A & B & C).
  unfold MAX_NM_SYSTRACE in *. split_and!; [lia..| |intros; apply C; lia].
  intros j Hj. apply ids_table; auto.
Qed.

(** A state with the same tracers and contexts is as good. *)
Lemma sys_ok_errno s e : sys_ok s -> sys_ok (with_errno s e).
Proof. by intros []. Qed.

Lemma sys_ok_ssdt s t : sys_ok s -> sys_ok (with_ssdt s t).
Proof. by intros []. Qed.

(** A new record, at the next address and in a free slot. *)
Definition added (s : sys_ctx) (h : Z) (r : systrace_record) : sys_ctx :=
  with_tracers s (<[h := next_ptr s]> (records s)) (ll_records s ++ [next_ptr s])
    (<[next_ptr s := r]> (heap s)) (next_ptr s + 1).

Lemma live_not_next s p : sys_ok s -> p ∈ ll_records s -> p <> next_ptr s.
Proof. intros K Hp. pose proof (proj1 (Forall_forall _ _) (ok_list _ K) p Hp) as [? _]. lia. Qed.

Lemma added_ok s r : sys_ok s -> 0 <= id r < MAX_NM_SYSTRACE -> records s !! id r = None ->
  sys_ok (added s (id r) r).
Proof.
  intros K Hr Hn. pose proof (live_not_next s) as L.
  constructor; cbn [added with_tracers records ll_records heap next_ptr g_syscall_ctx].
  - apply Forall_app; split.
    + apply Forall_forall. intros p Hp.
      destruct (proj1 (Forall_forall _ _) (ok_list _ K) p Hp) as (Lt & q & Eq & T).
      split; [lia|]. exists q. rewrite lookup_insert_ne by (intros E; by apply (L p)). split; [done|].
      rewrite lookup_insert_ne; [done|]. congruence.
    + constructor; [|done]. split; [lia|]. exists r. by rewrite !lookup_insert_eq.
  - apply NoDup_app. split_and!; [apply K| |apply NoDup_singleton].
    intros p Hp ->%list_elem_of_singleton. by apply (L (next_ptr s)).
  - intros h p. destruct (decide (h = id r)) as [->|N].
    + rewrite lookup_insert_eq. intros [= <-]. split_and!; [lia..|apply elem_of_app; right; by left|].
      exists r. by rewrite lookup_insert_eq.
    + rewrite lookup_insert_ne by done. intros E. destruct (ok_table _ K _ _ E) as (A & B & q & Eq & F).
      split; [done|]. split; [apply elem_of_app; by left|]. exists q.
      by rewrite lookup_insert_ne by (intros X; by apply (L p)).
  - apply K.
  - eapply Forall_impl; [apply K|]. simpl. lia.
Qed.

Lemma added_tracers s h r : sys_ok s -> tracers (added s h r) = tracers s ++ [r].
Proof.
  intros K. unfold tracers, added. cbn [with_tracers heap ll_records]. rewrite omap_app. f_equal.
  - apply list_omap_ext. apply Forall_Forall2_diag, Forall_forall. intros p Hp.
    rewrite lookup_insert_ne; [done|]. intros E. by apply (live_not_next s p K Hp).
  - cbn. by rewrite lookup_insert_eq.
Qed.

(** Without the record at an address. *)
Definition removed (s : sys_ctx) (h p : Z) : sys_ctx :=
  with_tracers s (delete h (records s)) (filter (fun q => q <> p) (ll_records s)) (delete p (heap s)) (next_ptr s).

Lemma removed_ok s h p : sys_ok s -> records s !! h = Some p -> sys_ok (removed s h p).
Proof.
  intros K E. destruct (ok_table _ K _ _ E) as (_ & _ & r & Er & Ir).
  constructor; cbn [removed with_tracers records ll_records heap next_ptr g_syscall_ctx]; [| | |apply K..].
  - apply Forall_forall. intros q [N Hq]%list_elem_of_filter.
    destruct (proj1 (Forall_forall _ _) (ok_list _ K) q Hq) as (Lt & r' & Eq & T).
    split; [done|]. exists r'. rewrite lookup_delete_ne by done. split; [done|].
    rewrite lookup_delete_ne; [done|]. intros X. apply N. congruence.
  - apply NoDup_filter, K.
  - intros h' q. rewrite lookup_delete_Some. intros [N E']. destruct (ok_table _ K _ _ E') as (A & B & r' & Eq & Ir').
    assert (q <> p) by congruence.
    split_and!; [apply A..|by apply list_elem_of_filter|]. exists r'. by rewrite lookup_delete_ne.
Qed.

Lemma removed_tracers s h p : sys_ok s -> records s !! h = Some p ->
  tracers (removed s h p) = filter (fun r => id r <> h) (tracers s).
Proof.
  intros K E. destruct (ok_table _ K _ _ E) as (_ & _ & r & Er & Ir).
  unfold tracers, removed. cbn [with_tracers heap ll_records].
  pose proof (ok_list _ K) as Hl. induction Hl as [|q l (Lt & r' & Eq & T) Hl IH]; [done|].
  rewrite filter_cons. cbn [omap list_omap]. rewrite Eq. rewrite filter_cons.
  destruct (decide (q <> p)) as [N|N].
  - cbn [omap list_omap]. rewrite lookup_delete_ne, Eq by done.
    destruct (decide (id r' <> h)) as [_|M]; [by rewrite IH|]. destruct M. intros <-. congruence.
  - destruct (decide (q = p)) as [->|]; [|done]. destruct (decide (id r' <> h)) as [M|_]; [|done].
    destruct M. congruence.
Qed.

Lemma delete_removed s h p : sys_ok s -> records s !! h = Some p ->
  systrace_delete s h = Ret (0, removed s h p).
Proof.
  intros K E. destruct (ok_table _ K _ _ E) as (Hh & Hp & _). unfold systrace_delete.
  rewrite (proj2 (Z.leb_le 0 h)), (proj2 (Z.ltb_lt h _)), E by lia. cbn [andb negb].
  by rewrite (ll_delete_spec p _ Hp (ok_nodup _ K)).
Qed.

Lemma context_added_ok s c : sys_ok s -> ctx_ptr c = next_ptr s ->
  sys_ok (with_contexts s (g_syscall_ctx s ++ [c]) (next_ptr s + 1)).
Proof.
  intros K E. constructor; cbn [with_contexts records ll_records heap next_ptr g_syscall_ctx].
  - eapply Forall_impl; [apply K|]. intros p [? ?]. split; [lia|done].
  - apply K.
  - apply K.
  - rewrite map_app. apply NoDup_app. split_and!; [apply K| |apply NoDup_singleton].
    intros p Hp ->%list_elem_of_singleton. apply list_elem_of_fmap in Hp as (d & X & Hd).
    pose proof (proj1 (Forall_forall _ _) (ok_ctx_ptr _ K) d Hd). simpl in *. lia.
  - apply Forall_app; split; [eapply Forall_impl; [apply K|]; simpl; lia|]. constructor; [lia|done].
Qed.

Lemma free_context_ok s o : sys_ok s -> sys_ok (free_context s o).
Proof.
  intros K. destruct o as [c|]; [|done]. constructor; cbn [free_context with_contexts records ll_records heap next_ptr g_syscall_ctx];
    [apply K..| |].
  - eapply sublist_NoDup; [apply (ok_ctx _ K)|]. apply (fmap_sublist ctx_ptr), sublist_filter.
  - apply Forall_forall. intros d [_ Hd]%list_elem_of_filter. by apply (proj1 (Forall_forall _ _) (ok_ctx_ptr _ K)).
Qed.

(** With live records the callbacks are those of the tracers. *)
Lemma invoke_tracers s g b o : sys_ok s ->
  invoke_callbacks (heap s) g b o (ll_records s) = Ret (flat_map (rec_calls g b o) (tracers s)).
Proof.
  intros K. unfold tracers. pose proof (ok_list _ K) as Hl.
  induction Hl as [|p l (_ & r & E & _) Hl IH]; [done|]. cbn [invoke_callbacks omap list_omap].
  rewrite E. cbn [deref]. rewrite res_bind_ret. by rewrite IH.
Qed.

(** ** Which tracers an event is for *)

(** A tracer of the process, or of all. *)
Definition of_process (g : guest) (r : systrace_record) : Prop := rec_cr3 r = CR3_ALL \/ rec_cr3 r = cr3 g.

(** A tracer of entries into the system call whose number is in the low half of EAX. *)
Definition traces_entry (g : guest) (r : systrace_record) : Prop :=
  of_process g r /\ is_entry r = true /\ (rec_syscall r = SYSCALL_ALL \/ u64 (rec_syscall r) = eax g .& 0xffff).

(** A tracer of returns from the system call that was entered with [c]. *)
Definition traces_return (g : guest) (c : syscall_context) (r : systrace_record) : Prop :=
  of_process g r /\ is_entry r = false /\ (rec_syscall r = SYSCALL_ALL \/ rec_syscall r = syscall_number c).

#[export] Instance traces_entry_dec g r : Decision (traces_entry g r).
Proof. unfold traces_entry, of_process. apply _. Defined.
#[export] Instance traces_return_dec g c r : Decision (traces_return g c r).
Proof. unfold traces_return, of_process. apply _. Defined.

(** Their callbacks, each with its own argument and the context. *)
Definition entry_calls (g : guest) (c : syscall_context) (l : list systrace_record) : list cb_call :=
  (fun r => CbCall (callback r) true (cb_args r) c) <$> filter (traces_entry g) l.
Definition return_calls (g : guest) (c : syscall_context) (l : list systrace_record) : list cb_call :=
  (fun r => CbCall (callback r) false (cb_args r) c) <$> filter (traces_return g c) l.

Lemma rec_calls_entry g c l : flat_map (rec_calls g true (Some c)) l = entry_calls g c l.
Proof.
  unfold entry_calls. induction l as [|r l IH]; [done|]. cbn [flat_map]. rewrite IH, filter_cons.
  case_decide as D; unfold traces_entry, of_process in D; unfold rec_calls; cbn [andb negb];
    destruct (Z.eqb_spec (rec_cr3 r) CR3_ALL), (Z.eqb_spec (rec_cr3 r) (cr3 g)), (is_entry r),
    (Z.eqb_spec (rec_syscall r) SYSCALL_ALL), (Z.eqb_spec (u64 (rec_syscall r)) (eax g .& 0xffff));
    cbn [orb]; try done; exfalso; intuition congruence.
Qed.

Lemma rec_calls_return g c l : flat_map (rec_calls g false (Some c)) l = return_calls g c l.
Proof.
  unfold return_calls. induction l as [|r l IH]; [done|]. cbn [flat_map]. rewrite IH, filter_cons.
  case_decide as D; unfold traces_return, of_process in D; unfold rec_calls; cbn [andb negb];
    destruct (Z.eqb_spec (rec_cr3 r) CR3_ALL), (Z.eqb_spec (rec_cr3 r) (cr3 g)), (is_entry r),
    (Z.eqb_spec (rec_syscall r) SYSCALL_ALL), (Z.eqb_spec (rec_syscall r) (syscall_number c));
    cbn [orb]; try done; exfalso; intuition congruence.
Qed.

Lemma rec_calls_none g l : flat_map (rec_calls g false None) l = [].
Proof. induction l as [|r l IH]; [done|]. cbn [flat_map]. rewrite IH. unfold rec_calls. by case_if. Qed.

Section Reach.
  Context {find : list syscall_context -> Z -> option syscall_context} `{!HashFind find}.

(** The state an event works on: the table is fetched when there is none. *)
Definition fetched (g : guest) (s : sys_ctx) : sys_ctx :=
  match g_ssdt_info s with None => with_ssdt s (ssdt_list g) | Some _ => s end.

Lemma fetched_same g s : tracers (fetched g s) = tracers s /\ g_syscall_ctx (fetched g s) = g_syscall_ctx s.
Proof. unfold fetched. by destruct (g_ssdt_info s). Qed.

Lemma fetched_ok g s : sys_ok s -> sys_ok (fetched g s).
Proof. intros K. unfold fetched. destruct (g_ssdt_info s); [done|by apply sys_ok_ssdt]. Qed.

(** A system call with descriptions loaded: the context is appended. *)
Lemma syscall_inv g s cs s' : sys_ok s -> info_loaded g = true -> systrace_on_syscall find g s = Ret (cs, s') ->
  exists c, gen_syscall_context (fetched g s) (eax g .& 0xffff) g = Ret c /\
    cs = entry_calls g c (tracers s) /\
    s' = with_contexts (fetched g s) (g_syscall_ctx s ++ [c]) (next_ptr (fetched g s) + 1).
Proof.
  intros K L. unfold systrace_on_syscall, event_callret. rewrite L. cbn [negb]. fold (fetched g s). cbv zeta.
  destruct (gen_syscall_context _ _ _) as [c| |] eqn:E; [|done..]. rewrite !res_bind_ret.
  set (s1 := with_contexts _ _ _).
  rewrite (invoke_tracers (with_contexts (fetched g s) (g_syscall_ctx (fetched g s) ++ [c]) (next_ptr (fetched g s) + 1))).
  2:{ apply context_added_ok; [by apply fetched_ok|]. revert E. unfold gen_syscall_context.
      intros E. inv_res. done. }
  rewrite res_bind_ret. destruct (fetched_same g s) as [T C]. intros [= <- <-]. exists c. split_and!; [done| |].
  - rewrite <- rec_calls_entry. f_equal. exact T.
  - unfold s1. by rewrite C.
Qed.

(** A return: the context the table gives is passed on and freed. *)
Lemma sysret_inv g s cs s' : sys_ok s -> info_loaded g = true -> systrace_on_sysret find g s = Ret (cs, s') ->
  exists key, context_idx g = Ret key /\
    let o := find (g_syscall_ctx s) (int_key key) in
    cs = match o with Some c => return_calls g c (tracers s) | None => [] end /\ s' = free_context (fetched g s) o.
Proof.
  intros K L. unfold systrace_on_sysret, event_callret. rewrite L. cbn [negb]. fold (fetched g s). cbv zeta.
  destruct (context_idx g) as [key| |] eqn:E; [|done..]. rewrite !res_bind_ret.
  rewrite (invoke_tracers (fetched g s)) by by apply fetched_ok. rewrite res_bind_ret.
  destruct (fetched_same g s) as [T C]. intros [= <- <-]. exists key. split; [done|]. rewrite T, C.
  destruct (find _ _) as [c|]; [by rewrite rec_calls_return|by rewrite rec_calls_none].
Qed.

Lemma event_unloaded g b s : info_loaded g = false -> event_callret find g b s = Ret ([], s).
Proof. intros L. unfold event_callret. by rewrite L. Qed.

Lemma gen_ptr s n g c : gen_syscall_context s n g = Ret c -> ctx_ptr c = next_ptr s.
Proof. unfold gen_syscall_context. intros E. inv_res. done. Qed.

Lemma add_cases alloc s lbl cr3 n e cb a r s' : sys_ok s -> systrace_add alloc s lbl cr3 n e cb a = (r, s') ->
  (exists er, r = -1 /\ s' = with_errno s er) \/
  (0 <= r < MAX_NM_SYSTRACE /\ records s !! r = None /\ s' = added s r (new_record r lbl cr3 n e cb a)).
Proof.
  intros K. pose proof (table_slot s K) as H. unfold systrace_add. cbv zeta in *.
  generalize dependent (empty_slot (Z.to_nat MAX_NM_SYSTRACE) (records s) 0). intros h (A & _ & C).
  destruct (Z.eqb_spec h MAX_NM_SYSTRACE); [intros [= <- <-]; eauto|].
  destruct alloc; cbn [negb]; intros [= <- <-]; [|eauto]. right. split_and!; [lia..|apply C; lia|done].
Qed.

Lemma delete_cases s h r s' : sys_ok s -> systrace_delete s h = Ret (r, s') ->
  (exists er, s' = with_errno s er) \/ exists p, records s !! h = Some p /\ s' = removed s h p.
Proof.
  intros K. destruct (records s !! h) as [p|] eqn:E.
  - rewrite (delete_removed s h p K E). intros [= <- <-]. eauto.
  - unfold systrace_delete. rewrite E. case_match; [done|]. intros [= <- <-]. eauto.
Qed.

(** The call behind an operation. *)
Ltac exec_inv D :=
  let x := fresh "x" in let E := fresh "E" in
  intros (x & D & E)%res_bind_inv; destruct x as [? ?]; injection E as <- <- <-.

Lemma exec_ok o s r cs s' : sys_ok s -> exec_op find o s = Ret (r, cs, s') -> sys_ok s'.
Proof.
  intros K. destruct o as [alloc lbl c n e cb a|h|g|g]; cbn [exec_op].
  - destruct (systrace_add _ _ _ _ _ _ _ _) as [r' t] eqn:E. intros [= <- <- <-].
    destruct (add_cases _ _ _ _ _ _ _ _ _ _ K E) as [(er & _ & ->)|(A & B & ->)]; [by apply sys_ok_errno|].
    by apply (added_ok s (new_record r' lbl c n e cb a)).
  - exec_inv D.
    destruct (delete_cases _ _ _ _ K D) as [[er ->]|(p & E & ->)]; [by apply sys_ok_errno|by apply removed_ok].
  - exec_inv D.
    destruct (info_loaded g) eqn:L.
    + destruct (syscall_inv _ _ _ _ K L D) as (c & Ec & _ & ->). destruct (fetched_same g s) as [_ <-].
      apply context_added_ok; [by apply fetched_ok|by apply gen_ptr in Ec].
    + unfold systrace_on_syscall in D. rewrite event_unloaded in D by done. by simplify_eq.
  - exec_inv D.
    destruct (info_loaded g) eqn:L.
    + destruct (sysret_inv _ _ _ _ K L D) as (key & _ & _ & ->). by apply free_context_ok, fetched_ok.
    + unfold systrace_on_sysret in D. rewrite event_unloaded in D by done. by simplify_eq.
Qed.

Lemma reachable_ok s : reachable find s -> sys_ok s.
Proof. induction 1; [apply sys_ok_init|by eapply exec_ok]. Qed.

(** ** Contexts of one key *)

Definition with_key (k : Z) (s : sys_ctx) : list syscall_context :=
  filter (fun c => int_key (context_key c) = k) (g_syscall_ctx s).

(** An event under the key [k]. *)
Definition touches (k : Z) (o : sys_op) : Prop :=
  match o with
  | OpSyscall g | OpSysret g => exists key, context_idx g = Ret key /\ int_key key = k
  | _ => False
  end.

Lemma gen_key s n g c : gen_syscall_context s n g = Ret c -> context_idx g = Ret (context_key c).
Proof. unfold gen_syscall_context. intros E. inv_res. done. Qed.

Lemma gen_number s n g c : gen_syscall_context s n g = Ret c -> syscall_number c = n.
Proof. unfold gen_syscall_context. intros E. inv_res. done. Qed.

(** Freeing a context removes that one only. *)
Lemma free_key s c k : sys_ok s -> c ∈ g_syscall_ctx s -> int_key (context_key c) <> k ->
  with_key k (free_context s (Some c)) = with_key k s.
Proof.
  intros K Hc N. unfold with_key. cbn [free_context with_contexts g_syscall_ctx].
  rewrite list_filter_filter. apply filter_ext. intros d Hd. split; [by intros []|].
  intros E. split; [done|]. intros P. apply N. rewrite <- E. do 2 f_equal.
  destruct (proj1 (list_elem_of_lookup _ _) Hc) as [i Hi], (proj1 (list_elem_of_lookup _ _) Hd) as [j Hj].
  assert (i = j) as ->.
  { eapply NoDup_lookup; [apply (ok_ctx _ K)|..]; [apply (list_lookup_fmap_Some_2 ctx_ptr); eauto|].
    rewrite <- P. apply (list_lookup_fmap_Some_2 ctx_ptr); eauto. }
  congruence.
Qed.

Lemma untouched o s r cs s' k : sys_ok s -> ~ touches k o -> exec_op find o s = Ret (r, cs, s') ->
  with_key k s' = with_key k s.
Proof.
  intros K T. destruct o as [alloc lbl c n e cb a|h|g|g]; cbn [exec_op touches] in *.
  - destruct (systrace_add _ _ _ _ _ _ _ _) as [r' t] eqn:E. intros [= <- <- <-].
    by destruct (add_cases _ _ _ _ _ _ _ _ _ _ K E) as [(er & _ & ->)|(A & B & ->)].
  - exec_inv D.
    by destruct (delete_cases _ _ _ _ K D) as [[er ->]|(p & E & ->)].
  - exec_inv D.
    destruct (info_loaded g) eqn:L.
    + destruct (syscall_inv _ _ _ _ K L D) as (c & Ec & _ & ->). unfold with_key. cbn [with_contexts g_syscall_ctx].
      rewrite filter_app, filter_cons. destruct (decide (int_key (context_key c) = k)) as [X|_].
      * destruct T. eauto using gen_key.
      * by rewrite app_nil_r.
    + unfold systrace_on_syscall in D. rewrite event_unloaded in D by done. by simplify_eq.
  - exec_inv D.
    destruct (info_loaded g) eqn:L.
    + destruct (sysret_inv _ _ _ _ K L D) as (key & Ek & _ & ->). destruct (fetched_same g s) as [_ C].
      destruct (find (g_syscall_ctx s) (int_key key)) as [c|] eqn:F; [|unfold with_key; cbn; by rewrite C].
      apply find_some in F as [Hc Kc]. rewrite free_key; [unfold with_key; by rewrite C|by apply fetched_ok|by rewrite C|].
      intros X. apply T. exists key. split; [done|congruence].
    + unfold systrace_on_sysret in D. rewrite event_unloaded in D by done. by simplify_eq.
Qed.

(** Sequences of operations. *)
Inductive runs : sys_ctx -> list sys_op -> sys_ctx -> Prop :=
| runs_nil s : runs s [] s
| runs_cons o l s r cs s1 s2 : exec_op find o s = Ret (r, cs, s1) -> runs s1 l s2 -> runs s (o :: l) s2.

Lemma runs_untouched s l s' k : runs s l s' -> sys_ok s -> Forall (fun o => ~ touches k o) l ->
  sys_ok s' /\ with_key k s' = with_key k s.
Proof.
  induction 1 as [s|o l s r cs s1 s2 E R IH]; intros K F; [done|]. inversion F; subst.
  destruct IH as [K2 W]; [by eapply exec_ok|done|]. split; [done|]. rewrite W. by eapply untouched.
Qed.

(** The only context of a key is the one found. *)
Lemma find_only s k c : with_key k s = [c] -> find (g_syscall_ctx s) k = Some c.
Proof.
  intros W. assert (Hc : c ∈ with_key k s) by (rewrite W; by left).
  apply list_elem_of_filter in Hc as [Kc Hc]. destruct (find _ k) as [d|] eqn:F.
  - apply find_some in F as [Hd Kd]. assert (X : d ∈ with_key k s) by by apply list_elem_of_filter.
    rewrite W in X. by apply list_elem_of_singleton in X as ->.
  - apply find_none in F. rewrite Forall_forall in F. by destruct (F c Hc).
Qed.

End Reach.

(** ** What the operations do, in terms of the tracers *)

(** The least handle no tracer has. *)
Definition least_free (s : sys_ctx) (h : Z) : Prop :=
  0 <= h < MAX_NM_SYSTRACE /\ (h ∉ map id (tracers s)) /\ forall j, 0 <= j < h -> j ∈ map id (tracers s).

Definition op_spec (find : list syscall_context -> Z -> option syscall_context) (o : sys_op) (s : sys_ctx) : Prop :=
  match o with
  | OpAdd alloc lbl c n e cb a =>
      exists h s', exec_op find o s = Ret (h, [], s') /\
        ((least_free s h /\ tracers s' = tracers s ++ [new_record h lbl c n e cb a]) \/
         (h = -1 /\ tracers s' = tracers s /\
          (alloc = false /\ systrace_errno s' = SYSTRACE_ERR_CREATE_FAIL \/
           systrace_errno s' = SYSTRACE_ERR_FULL_TRACE /\
           forall j, 0 <= j < MAX_NM_SYSTRACE -> j ∈ map id (tracers s))))
  | OpDelete h =>
      0 <= h < MAX_NM_SYSTRACE ->
      exists r s', exec_op find o s = Ret (r, [], s') /\
        tracers s' = filter (fun t => id t <> h) (tracers s) /\
        ((h ∈ map id (tracers s) /\ r = 0) \/
         ((h ∉ map id (tracers s)) /\ r = -1 /\ systrace_errno s' = SYSTRACE_ERR_INVALID_HANDLE))
  | OpSyscall g =>
      (info_loaded g = false -> exec_op find o s = Ret (0, [], s)) /\
      (info_loaded g = true -> is_Some (g_ssdt_info s) \/ is_Some (ssdt_list g) -> is_Some (current_thread g) ->
       exists c s', exec_op find o s = Ret (0, entry_calls g c (tracers s), s') /\
         syscall_number c = eax g .& 0xffff /\ context_idx g = Ret (context_key c) /\
         tracers s' = tracers s /\ g_syscall_ctx s' = g_syscall_ctx s ++ [c])
  | OpSysret g =>
      (info_loaded g = false -> exec_op find o s = Ret (0, [], s)) /\
      (info_loaded g = true -> is_Some (current_thread g) ->
       exists key s', context_idx g = Ret key /\ tracers s' = tracers s /\
         match find (g_syscall_ctx s) (int_key key) with
         | Some c => exec_op find o s = Ret (0, return_calls g c (tracers s), s') /\
                     g_syscall_ctx s' = filter (fun d => ctx_ptr d <> ctx_ptr c) (g_syscall_ctx s)
         | None => exec_op find o s = Ret (0, [], s') /\ g_syscall_ctx s' = g_syscall_ctx s
         end)
  end.

Section Specs.
  Context {find : list syscall_context -> Z -> option syscall_context} `{!HashFind find}.

Lemma sys_add_spec s alloc lbl c n e cb a : sys_ok s -> op_spec find (OpAdd alloc lbl c n e cb a) s.
Proof.
  intros K. cbn [op_spec exec_op]. pose proof (table_slot s K) as H.
  unfold systrace_add, least_free. cbv zeta in *.
  generalize dependent (empty_slot (Z.to_nat MAX_NM_SYSTRACE) (records s) 0). intros h (A & B & C).
  destruct (Z.eqb_spec h MAX_NM_SYSTRACE) as [->|N].
  { eexists _, _. split; [reflexivity|]. right. split_and!; [done|done|]. by right. }
  destruct alloc; cbn [negb]; eexists _, _; (split; [reflexivity|]).
  - left. split_and!; [lia..| |done|by apply (added_tracers s)].
    rewrite ids_table by done. rewrite C by lia. by intros [? ?].
  - right. split_and!; [done|done|]. by left.
Qed.

Lemma sys_delete_spec s h : sys_ok s -> op_spec find (OpDelete h) s.
Proof.
  intros K Hh. cbn [exec_op]. destruct (records s !! h) as [p|] eqn:E.
  - rewrite (delete_removed s h p K E). eexists _, _. split; [reflexivity|].
    split; [by apply removed_tracers|]. left. split; [|done]. apply ids_table; eauto.
  - assert (N : h ∉ map id (tracers s)) by (rewrite ids_table, E by done; by intros [? ?]).
    unfold systrace_delete. rewrite (proj2 (Z.leb_le 0 h)), (proj2 (Z.ltb_lt h _)), E by lia.
    eexists _, _. split; [reflexivity|]. split; [|by right]. symmetry. apply filter_all, Forall_forall.
    intros t Ht X. apply N. rewrite <- X. by apply (list_elem_of_fmap_2 id).
Qed.

Lemma gen_total g s thread : is_Some (g_ssdt_info s) \/ is_Some (ssdt_list g) -> current_thread g = Some thread ->
  exists c, gen_syscall_context (fetched g s) (eax g .& 0xffff) g = Ret c.
Proof.
  intros I T. assert (exists t, g_ssdt_info (fetched g s) = Some t) as [t Et].
  { unfold fetched. destruct (g_ssdt_info s) eqn:E; [by eexists|]. destruct I as [[? ?]|[? ?]]; [done|eauto]. }
  unfold gen_syscall_context, context_idx. rewrite Et, T. by eexists.
Qed.

Lemma syscall_spec s g : sys_ok s -> op_spec find (OpSyscall g) s.
Proof.
  intros K. split; [intros L; cbn [exec_op]; unfold systrace_on_syscall; by rewrite event_unloaded|].
  intros L I [thread T]. cbn [exec_op]. destruct (gen_total g s thread I T) as [c Ec].
  assert (X : exists cs s', systrace_on_syscall find g s = Ret (cs, s')).
  { unfold systrace_on_syscall, event_callret. rewrite L. cbn [negb]. fold (fetched g s). cbv zeta.
    rewrite Ec, !res_bind_ret.
    rewrite (invoke_tracers (with_contexts (fetched g s) (g_syscall_ctx (fetched g s) ++ [c]) (next_ptr (fetched g s) + 1)));
      [by eexists _, _|]. apply context_added_ok; [by apply fetched_ok|by apply gen_ptr in Ec]. }
  destruct X as (cs & s' & E). destruct (syscall_inv _ _ _ _ K L E) as (d & Ed & -> & ->). rewrite E.
  eexists d, _. split; [reflexivity|]. split; [by apply gen_number in Ed|]. split; [by apply gen_key in Ed|].
  split; [apply (fetched_same g s)|done].
Qed.

Lemma sysret_spec s g : sys_ok s -> op_spec find (OpSysret g) s.
Proof.
  intros K. split; [intros L; cbn [exec_op]; unfold systrace_on_sysret; by rewrite event_unloaded|].
  intros L [thread T]. cbn [exec_op].
  assert (X : exists cs s', systrace_on_sysret find g s = Ret (cs, s')).
  { unfold systrace_on_sysret, event_callret, context_idx. rewrite L, T. cbn [negb deref]. fold (fetched g s).
    cbv zeta. rewrite !res_bind_ret. rewrite (invoke_tracers (fetched g s)) by by apply fetched_ok. by eexists _, _. }
  destruct X as (cs & s' & E). destruct (sysret_inv _ _ _ _ K L E) as (key & Ek & -> & ->). rewrite E.
  destruct (fetched_same g s) as [Ht Hc]. exists key.
  destruct (find (g_syscall_ctx s) (int_key key)) as [c|].
  - exists (free_context (fetched g s) (Some c)). split_and!; [done|exact Ht|reflexivity|]. simpl. by rewrite Hc.
  - exists (fetched g s). by split_and!.
Qed.

End Specs.

End Systrace.

(** ** Theorems *)

Import Systrace.

(** C22: The system call tracers behave as a list. In every reachable state: adding
    a tracer returns the least handle that is free and appends the tracer, or
    fails with the errno of the cause; deleting a handle removes exactly its
    tracer or reports an invalid handle, and never finds the list and the table
    out of step. With the descriptions of the guest's structures loaded and the current thread known, an
    entry, the table of services being known, calls exactly the callbacks of the tracers of entries
    whose process is the caller's or all and whose number is the caller's or all,
    in order, with the new context; a return calls those of the matching
    tracers of returns with the context found under its key, and frees it, or
    calls nothing when there is none. Without descriptions an event does nothing. *)
Theorem systrace_tracers find `{!HashFind find} s o : reachable find s -> op_spec find o s.
Proof.
  intros R. pose proof (reachable_ok s R) as K. destruct o; [by apply sys_add_spec|by apply sys_delete_spec|by apply syscall_spec|by apply sysret_spec].
Qed.

(** A thread in a system call with one argument on the stack. *)
Definition caller (number thread : Z) : guest :=
  Guest number 11 12 13 14 4096 0x1000 true (Some [0; 1]) (Some thread) (fun _ a => a).

(** The state after adding a tracer of the returns of system call 1. *)
Definition one_tracer : sys_ctx := snd (systrace_add true init_sys [120] 0 1 false 77 5).

Lemma one_tracer_reachable : reachable find_first one_tracer.
Proof. by apply (reachable_step _ (OpAdd true [120] 0 1 false 77 5) init_sys 0 [] _ (reachable_init _)). Qed.

(** And one of entries into it by one process, and one by another. *)
Definition three_tracers : sys_ctx :=
  snd (systrace_add true (snd (systrace_add true one_tracer [121] 0x1000 1 true 78 6)) [122] 0x2000 1 true 79 7).

Lemma three_tracers_reachable : reachable find_first three_tracers.
Proof.
  apply (reachable_step _ (OpAdd true [122] 0x2000 1 true 79 7) (snd (systrace_add true one_tracer [121] 0x1000 1 true 78 6)) 2 [] _);
    [|reflexivity].
  apply (reachable_step _ (OpAdd true [121] 0x1000 1 true 78 6) one_tracer 1 [] _ one_tracer_reachable). reflexivity.
Qed.

Lemma systrace_tracers_witness :
  op_spec find_first (OpDelete 0) one_tracer /\
  exists c s', exec_op find_first (OpSyscall (caller 1 8)) three_tracers = Ret (0, [CbCall 78 true 6 c], s').
Proof.
  split; [apply (systrace_tracers find_first), one_tracer_reachable|].
  pose proof (systrace_tracers find_first three_tracers (OpSyscall (caller 1 8)) three_tracers_reachable) as [_ H].
  destruct H as (c & s' & E & _); [reflexivity|right; by eexists|by eexists|]. exists c, s'. rewrite E.
  assert (entry_calls (caller 1 8) c (tracers three_tracers) = [CbCall 78 true 6 c]) as ->; [vm_compute|]; reflexivity.
Defined.

(** C21: A return is matched with its call. A thread enters a system call while
    no context is stored under its key; tracers come and go, and other keys enter
    and return in any order; then the thread returns. The return callbacks of the
    tracers then present receive the context of the entry, its number and its
    arguments as they were, and afterwards no context is stored under the key. *)
Theorem systrace_pairs_return find `{!HashFind find} s g cs s1 l s2 g' cs' s3 key :
  reachable find s ->
  info_loaded g = true -> info_loaded g' = true ->
  context_idx g = Ret key -> context_idx g' = Ret key ->
  with_key (int_key key) s = [] ->
  systrace_on_syscall find g s = Ret (cs, s1) ->
  Forall (fun o => ~ touches (int_key key) o) l -> runs (find := find) s1 l s2 ->
  systrace_on_sysret find g' s2 = Ret (cs', s3) ->
  exists c, gen_syscall_context (fetched g s) (eax g .& 0xffff) g = Ret c /\
    cs' = return_calls g' c (tracers s2) /\
    with_key (int_key key) s3 = [].
Proof.
  intros R L L' Ek Ek' W0 E1 F Rl E3. pose proof (reachable_ok s R) as K.
  destruct (syscall_inv _ _ _ _ K L E1) as (c & Ec & _ & S1). exists c. split; [done|].
  assert (Kc : context_key c = key) by (apply gen_key in Ec; congruence).
  assert (K1 : sys_ok s1).
  { rewrite S1. destruct (fetched_same g s) as [_ <-].
    apply context_added_ok; [by apply fetched_ok|by apply gen_ptr in Ec]. }
  assert (W1 : with_key (int_key key) s1 = [c]).
  { rewrite S1. unfold with_key in *. cbn [with_contexts g_syscall_ctx].
    rewrite filter_app, W0, filter_cons, Kc. by destruct (decide (int_key key = int_key key)). }
  destruct (runs_untouched s1 l s2 (int_key key) Rl K1 F) as [K2 W2]. rewrite W1 in W2.
  destruct (sysret_inv _ _ _ _ K2 L' E3) as (key' & Ek'' & Hcs & ->).
  rewrite Ek' in Ek''. injection Ek'' as <-. rewrite (find_only s2 (int_key key) c W2) in *. split; [done|].
  destruct (fetched_same g' s2) as [_ C]. unfold with_key in *. cbn [free_context with_contexts g_syscall_ctx].
  rewrite C. rewrite filter_comm, W2, filter_cons. by destruct (decide (ctx_ptr c <> ctx_ptr c)).
Qed.

Lemma systrace_pairs_return_witness : exists c,
  gen_syscall_context (fetched (caller 1 8) one_tracer) (eax (caller 1 8) .& 0xffff) (caller 1 8) = Ret c /\
  [CbCall 77 false 5 (SysCtx 2 (Z.shiftl 0x1000 20 .| 8) 1 [11; 12; 13; 14; 4136])]
  = return_calls (caller 0 8) c (tracers one_tracer) /\
  with_key 8 (with_contexts one_tracer [] 3) = [].
Proof.
  pose (s1 := match systrace_on_syscall find_first (caller 1 8) one_tracer with Ret (_, s) => s | _ => init_sys end).
  pose (s3 := match systrace_on_sysret find_first (caller 0 8) s1 with Ret (_, s) => s | _ => init_sys end).
  apply (systrace_pairs_return find_first one_tracer (caller 1 8) [] s1 [] s1 (caller 0 8)
           [CbCall 77 false 5 (SysCtx 2 (Z.shiftl 0x1000 20 .| 8) 1 [11; 12; 13; 14; 4136])] s3
           (Z.shiftl 0x1000 20 .| 8));
    [apply one_tracer_reachable|vm_compute; reflexivity..|constructor|constructor|vm_compute; reflexivity].
Defined.
