(* ===== verification/AgentNet.v ===== *)
(** * Two processes and their datagrams

    The agent is a client in the emulator and a server in the guest that talk over
    a UDP socket. A process is a tree of its actions; a system is two processes
    with the datagrams under way in each direction. Datagrams are neither lost nor
    reordered: they pass from the emulator's user-mode network stack to the
    guest's network card in one address space.

    The two processes may be scheduled in any way. As each is deterministic and
    they share nothing but the channels, one complete run decides all others
    ([ends_all]). *)

From S2P Require Import Prelude.
From Stdlib Require Import FunctionalExtensionality.

(** ** Processes *)

(** What a process that works on a local state [L] does until it returns an [A]:
    [Send] is sendto, [Recv n] is recvfrom with a buffer of [n] bytes, [Act] is
    a change of the local state, whose continuation sees the state before it. *)
Inductive proc (L A : Type) : Type :=
| Done (a : A)
| Send (m : list Z) (p : proc L A)
| Recv (n : Z) (k : list Z -> proc L A)
| Act (f : L -> L) (k : L -> proc L A).
Arguments Done {L A} _.
Arguments Send {L A} _ _.
Arguments Recv {L A} _ _.
Arguments Act {L A} _ _.

Fixpoint proc_bind {L A B : Type} (k : A -> proc L B) (p : proc L A) : proc L B :=
  match p with
  | Done a => k a
  | Send m p' => Send m (proc_bind k p')
  | Recv n k' => Recv n (fun m => proc_bind k (k' m))
  | Act f k' => Act f (fun l => proc_bind k (k' l))
  end.

#[export] Instance proc_mret L : MRet (proc L) := fun A a => Done a.
#[export] Instance proc_mbind L : MBind (proc L) := fun A B k p => proc_bind k p.

Definition send {L} (m : list Z) : proc L unit := Send m (Done tt).
Definition recv {L} (n : Z) : proc L (list Z) := Recv n Done.
Definition act {L X} (f : L -> L * X) : proc L X := Act (fun l => (f l).1) (fun l => Done (f l).2).
Definition upd_state {L} (f : L -> L) : proc L unit := Act f (fun _ => Done tt).

(** One action of a process with the datagrams [i] to read and [o] written. A
    datagram longer than the buffer is cut. *)
Definition pstep {L A} (p : proc L A) (l : L) (i o : list (list Z)) :
    option (proc L A * L * list (list Z) * list (list Z)) :=
  match p with
  | Done _ => None
  | Send m p' => Some (p', l, i, o ++ [m])
  | Recv n k =>
      match i with
      | m :: i' => Some (k (take (Z.to_nat n) m), l, i', o)
      | [] => None
      end
  | Act f k => Some (k l, f l, i, o)
  end.

(** ** Systems *)

Record net (C S A B : Type) : Type := Net {
  n_client : proc C A;
  n_server : proc S B;
  n_cs : list (list Z);    (* from the client to the server *)
  n_sc : list (list Z);    (* from the server to the client *)
  n_host : C;
  n_guest : S
}.
Arguments Net {C S A B} _ _ _ _ _ _.
Arguments n_client {C S A B} _.
Arguments n_server {C S A B} _.
Arguments n_cs {C S A B} _.
Arguments n_sc {C S A B} _.
Arguments n_host {C S A B} _.
Arguments n_guest {C S A B} _.

Inductive nstep {C S A B : Type} : net C S A B -> net C S A B -> Prop :=
| client_step p q cs sc c s p' c' sc' cs' :
    pstep p c sc cs = Some (p', c', sc', cs') ->
    nstep (Net p q cs sc c s) (Net p' q cs' sc' c' s)
| server_step p q cs sc c s q' s' cs' sc' :
    pstep q s cs sc = Some (q', s', cs', sc') ->
    nstep (Net p q cs sc c s) (Net p q' cs' sc' c s').

(** ** Lemmas: runs that meet again *)

Section Uniform.
Context {X : Type} (R : relation X).

(** Two different steps from a state lead to a common one. *)
Definition uniform : Prop :=
  forall x y z, R x y -> R x z -> y = z \/ exists w, R y w /\ R z w.

Lemma uniform_strip n : uniform -> forall x y F, R x y -> nsteps R n x F -> nf R F ->
  exists m, n = S m /\ nsteps R m y F.
Proof.
  intros HU. induction n as [|n IH]; intros x y F Hxy Hn Hf.
  - inversion Hn; subst. destruct Hf. by exists y.
  - inversion Hn as [|? ? x1 ? Hx1 Hn1]; subst. exists n. split; [done|].
    destruct (HU x y x1 Hxy Hx1) as [->|(w & Hyw & Hw)]; [done|].
    destruct (IH x1 w F Hw Hn1 Hf) as (m & -> & Hm). by apply nsteps_l with w.
Qed.

(** Every run is an initial part of a run to the same end, and no run is longer. *)
Lemma uniform_runs n x F : uniform -> nsteps R n x F -> nf R F ->
  forall k y, nsteps R k x y -> (k <= n)%nat /\ nsteps R (n - k) y F.
Proof.
  intros HU Hn Hf k y Hk. revert n Hn. induction Hk as [x|k x x1 y Hx1 Hk IH]; intros n Hn.
  - rewrite Nat.sub_0_r. split; [lia|done].
  - destruct (uniform_strip n HU x x1 F Hx1 Hn Hf) as (m & -> & Hm).
    destruct (IH m Hm) as [Hle HF]. split; [lia|]. done.
Qed.
End Uniform.

(** ** Lemmas: the two processes do not disturb each other *)

(** A step reads at the front of one channel and writes at the end of the other. *)
Lemma pstep_frame {L A} (p : proc L A) l i o p' l' i' o' e :
  pstep p l i o = Some (p', l', i', o') ->
  exists d r, i = r ++ i' /\ o' = o ++ d /\
    (forall o2, pstep p l (i ++ e) o2 = Some (p', l', i' ++ e, o2 ++ d)).
Proof.
  destruct p as [a|m p|n k|f k]; simpl; intros E; [done| | |].
  - injection E as <- <- <- <-. by exists [m], [].
  - destruct i as [|m i2]; [done|]. injection E as <- <- <- <-. exists [], [m].
    split_and!; [done|by rewrite app_nil_r|]. intros o2. simpl. by rewrite app_nil_r.
  - injection E as <- <- <- <-. exists [], []. split_and!; [done|by rewrite app_nil_r|].
    intros o2. by rewrite app_nil_r.
Qed.

Lemma pstep_join {L A L2 B} (p : proc L A) (q : proc L2 B) c s i o p' c' i' o' q' s' o2 i2 :
  pstep p c i o = Some (p', c', i', o') -> pstep q s o i = Some (q', s', o2, i2) ->
  exists o3 i3, pstep p c i2 o2 = Some (p', c', i3, o3) /\ pstep q s o' i' = Some (q', s', o3, i3).
Proof.
  intros E E2. destruct (pstep_frame _ _ _ _ _ _ _ _ [] E) as (d & _ & _ & Ed & _).
  destruct (pstep_frame _ _ _ _ _ _ _ _ [] E2) as (d2 & _ & _ & Ed2 & _).
  destruct (pstep_frame _ _ _ _ _ _ _ _ d2 E) as (d' & _ & _ & Ed' & F).
  destruct (pstep_frame _ _ _ _ _ _ _ _ d E2) as (d2' & _ & _ & Ed2' & F2).
  assert (d' = d) as -> by (apply (app_inv_head o); congruence).
  assert (d2' = d2) as -> by (apply (app_inv_head i); congruence).
  exists (o2 ++ d), (i' ++ d2). rewrite Ed, Ed2. split; [apply F|apply F2].
Qed.

Lemma nstep_uniform {C S A B} : uniform (@nstep C S A B).
Proof.
  intros x y z Hy Hz. destruct Hy as [p q cs sc c s p' c' sc' cs' E|p q cs sc c s q' s' cs' sc' E];
    inversion Hz as [? ? ? ? ? ? p2 c2 sc2 cs2 E2|? ? ? ? ? ? q2 s2 cs2 sc2 E2]; subst.
  - left. rewrite E in E2. injection E2 as <- <- <- <-. done.
  - right. destruct (pstep_join _ _ _ _ _ _ _ _ _ _ _ _ _ _ E E2) as (cs3 & sc3 & F & F2).
    eexists. split; [apply server_step, F2|apply client_step, F].
  - right. destruct (pstep_join _ _ _ _ _ _ _ _ _ _ _ _ _ _ E E2) as (cs3 & sc3 & F & F2).
    eexists. split; [apply client_step, F2|apply server_step, F].
  - left. rewrite E in E2. injection E2 as <- <- <- <-. done.
Qed.

(** ** Ending well *)

(** Some run from [x] ends in a state with [P], in which both have returned. *)
Definition ends {C S A B} (x : net C S A B) (P : net C S A B -> Prop) : Prop :=
  exists n F, nsteps nstep n x F /\ nf nstep F /\ P F.

(** Every schedule ends well: runs are bounded, each can be completed, and where
    no process can move the end has been reached. *)
Definition always_ends {C S A B} (x : net C S A B) (P : net C S A B -> Prop) : Prop :=
  (exists bound, forall k y, nsteps nstep k x y -> (k <= bound)%nat) /\
  (forall y, rtc nstep x y -> exists F, rtc nstep y F /\ nf nstep F /\ P F) /\
  (forall y, rtc nstep x y -> nf nstep y -> P y).

Lemma ends_all {C S A B} (x : net C S A B) P : ends x P -> always_ends x P.
Proof.
  intros (n & F & Hn & Hf & HP).
  assert (forall k y, nsteps nstep k x y -> (k <= n)%nat /\ nsteps nstep (n - k) y F) as H
    by (apply uniform_runs; [apply nstep_uniform|done..]).
  split_and!.
  - exists n. intros k y Hk. by destruct (H k y Hk).
  - intros y Hy. apply rtc_nsteps in Hy as [k Hk]. apply H in Hk as [_ Hk].
    exists F. split_and!; [|done..]. apply rtc_nsteps. by exists (n - k)%nat.
  - intros y Hy Hfy. apply rtc_nsteps in Hy as [k Hk]. apply H in Hk as [_ Hk].
    inversion Hk as [|? ? y1 ? Hs]; subst; [done|]. destruct Hfy. by exists y1.
Qed.

Lemma ends_mono {C S A B} (x : net C S A B) (P Q : net C S A B -> Prop) :
  (forall y, P y -> Q y) -> ends x P -> ends x Q.
Proof. intros HPQ (n & F & Hn & Hf & HP). exists n, F. auto. Qed.

Lemma ends_step {C S A B} (x y : net C S A B) P : nstep x y -> ends y P -> ends x P.
Proof. intros Hs (n & F & Hn & HF). exists (Datatypes.S n), F. split; [by eapply nsteps_l|done]. Qed.

Section Rules.
Context {C S A B : Type} (P : net C S A B -> Prop).

Lemma ends_done a b cs sc c s : P (Net (Done a) (Done b) cs sc c s) -> ends (Net (Done a) (Done b) cs sc c s) P.
Proof.
  intros HP. exists 0%nat, (Net (Done a) (Done b) cs sc c s). split_and!; [constructor| |done].
  intros [y Hy]. inversion Hy; subst; done.
Qed.

(** The client has returned and the server waits. *)
Lemma ends_waiting a n k sc c s : P (Net (Done a) (Recv n k) [] sc c s) -> ends (Net (Done a) (Recv n k) [] sc c s) P.
Proof.
  intros HP. exists 0%nat, (Net (Done a) (Recv n k) [] sc c s). split_and!; [constructor| |done].
  intros [y Hy]. inversion Hy; subst; done.
Qed.

(** The server has stopped and the client waits. *)
Lemma ends_stuck b n k cs c s : P (Net (Recv n k) (Done b) cs [] c s) -> ends (Net (Recv n k) (Done b) cs [] c s) P.
Proof.
  intros HP. exists 0%nat, (Net (Recv n k) (Done b) cs [] c s). split_and!; [constructor| |done].
  intros [y Hy]. inversion Hy; subst; done.
Qed.

Lemma ends_csend m p q cs sc c s : ends (Net p q (cs ++ [m]) sc c s) P -> ends (Net (Send m p) q cs sc c s) P.
Proof. apply ends_step. by apply client_step. Qed.

Lemma ends_crecv n k q cs m sc c s :
  ends (Net (k (take (Z.to_nat n) m)) q cs sc c s) P -> ends (Net (Recv n k) q cs (m :: sc) c s) P.
Proof. apply ends_step. by apply client_step. Qed.

Lemma ends_cact f k q cs sc c s : ends (Net (k c) q cs sc (f c) s) P -> ends (Net (Act f k) q cs sc c s) P.
Proof. apply ends_step. by apply client_step. Qed.

Lemma ends_ssend m p q cs sc c s : ends (Net p q cs (sc ++ [m]) c s) P -> ends (Net p (Send m q) cs sc c s) P.
Proof. apply ends_step. by apply server_step. Qed.

Lemma ends_srecv n p k m cs sc c s :
  ends (Net p (k (take (Z.to_nat n) m)) cs sc c s) P -> ends (Net p (Recv n k) (m :: cs) sc c s) P.
Proof. apply ends_step. by apply server_step. Qed.

Lemma ends_sact p f k cs sc c s : ends (Net p (k s) cs sc c (f s)) P -> ends (Net p (Act f k) cs sc c s) P.
Proof. apply ends_step. by apply server_step. Qed.
End Rules.

(** ** Lemmas: the monad *)

Lemma bind_done {L A B} (a : A) (k : A -> proc L B) : (Done a ≫= k) = k a.
Proof. reflexivity. Qed.

Lemma bind_send {L A B} m (p : proc L A) (k : A -> proc L B) : (Send m p ≫= k) = Send m (p ≫= k).
Proof. reflexivity. Qed.

Lemma bind_recv {L A B} n k' (k : A -> proc L B) : (Recv n k' ≫= k) = Recv n (fun m => k' m ≫= k).
Proof. reflexivity. Qed.

Lemma bind_act {L A B} f k' (k : A -> proc L B) : (Act f k' ≫= k) = Act f (fun l => k' l ≫= k).
Proof. reflexivity. Qed.

Lemma bind_assoc {L A B D} (p : proc L A) (k : A -> proc L B) (k2 : B -> proc L D) :
  proc_bind k2 (p ≫= k) = proc_bind (fun a => proc_bind k2 (k a)) p.
Proof.
  induction p as [a|m p IH|n k' IH|f k' IH]; simpl; [done|by rewrite <- IH|f_equal; apply functional_extensionality, IH..].
Qed.

Lemma bind_ext {L A B} (p : proc L A) (k k' : A -> proc L B) :
  (forall a, k a = k' a) -> proc_bind k p = proc_bind k' p.
Proof. intros E. f_equal. by apply functional_extensionality. Qed.

(** ** Runs of sequences *)

Lemma pstep_bind {L A B} (p : proc L A) (k : A -> proc L B) l i o p' l' i' o' :
  pstep p l i o = Some (p', l', i', o') -> pstep (p ≫= k) l i o = Some (p' ≫= k, l', i', o').
Proof.
  destruct p as [a|m p|n k'|f k']; simpl; intros E; [done|by injection E as <- <- <- <-| |by injection E as <- <- <- <-].
  destruct i; [done|]. by injection E as <- <- <- <-.
Qed.

Section Sequence.
Context {C S A B A2 B2 : Type} (kc : A -> proc C A2) (ks : B -> proc S B2).

Definition net_bind (x : net C S A B) : net C S A2 B2 :=
  Net (n_client x ≫= kc) (n_server x ≫= ks) (n_cs x) (n_sc x) (n_host x) (n_guest x).

Lemma nstep_bind x y : nstep x y -> nstep (net_bind x) (net_bind y).
Proof.
  destruct 1 as [p q cs sc c s p' c' sc' cs' E|p q cs sc c s q' s' cs' sc' E].
  - by apply client_step, pstep_bind.
  - by apply server_step, pstep_bind.
Qed.

(** After one exchange comes the next. *)
Lemma ends_bind x P Q : ends x Q -> (forall F, Q F -> ends (net_bind F) P) -> ends (net_bind x) P.
Proof.
  intros (n & F & Hn & _ & HQ) Hnext. specialize (Hnext F HQ).
  induction Hn as [x|n x y z Hs Hn IH]; [done|]. eapply ends_step; [by apply nstep_bind|auto].
Qed.
End Sequence.
