(* ===== verification/AgentClient.v ===== *)
(** * The agent client

    The protocol side of the agent thread in the emulator (src/ext/agent/agent.c
    110-674 and the dispatch of agent_client_mainloop, 722-768): one process per action, on the files of
    the host. Diagnostics printed to the monitor are left out; the guest's output
    and the server's acknowledgement are kept. A datagram is sent whole, so that
    sendto returns the size it was given. Every fallible call of the host's file
    system takes the next entry of [h_faults], so that theorems over all lists
    cover every way it can fail; a write that does not fail stores as much as the next
    entry of [h_short] says, at least a byte, and all it was given when there is none. *)

From S2P Require Import Prelude AgentNet.
From stdpp Require Import strings.

#[local] Open Scope Z_scope.

(** ** Constants *)

Definition ascii_bytes (s : string) : list Z :=
  map (fun c => Z.of_N (Ascii.N_of_ascii c)) (String.list_ascii_of_string s).

Definition SZ_MAX_COMMAND : Z := 256.
Definition SZ_MAX_FILEPATH : Z := 256.
Definition SZ_MAX_FILECHUNK : Z := 8192.

(** The literals with their terminating zero, as sizeof counts it. *)
Definition MSG_ACK_PREFIX : list Z := ascii_bytes "System Receive : " ++ [0].
Definition MSG_REC_SUCCESS : list Z := ascii_bytes "SUCCESS" ++ [0].
Definition MSG_REC_FAIL : list Z := ascii_bytes "CMDFAIL" ++ [0].

Inductive MBA_AGENT_ACTION : Type :=
| AGENT_ACT_IDLE | AGENT_ACT_INIT | AGENT_ACT_IMPO | AGENT_ACT_EXPO
| AGENT_ACT_EXEC | AGENT_ACT_INVO | AGENT_ACT_LOGF | AGENT_ACT_SYNC.

Inductive MBA_AGENT_RETURN : Type :=
| AGENT_RET_SUCCESS | AGENT_RET_EFAIL | AGENT_RET_EBUSY | AGENT_RET_EINIT.

#[export] Instance action_eq_dec : EqDecision MBA_AGENT_ACTION.
Proof. solve_decision. Defined.
#[export] Instance return_eq_dec : EqDecision MBA_AGENT_RETURN.
Proof. solve_decision. Defined.

(** ** Strings *)

(** The string that starts a buffer. *)
Fixpoint cstr (b : list Z) : list Z :=
  match b with
  | [] => []
  | c :: b' => if c =? 0 then [] else c :: cstr b'
  end.

(** The bytes [b] in a zeroed buffer of [n]. *)
Definition padded (n : Z) (b : list Z) : list Z := take (Z.to_nat n) (b ++ replicate (Z.to_nat n) 0).

(** [bzero] and [snprintf( cmd_emit, SZ_MAX_COMMAND, "... %s", ... )]. *)
Definition command (name arg : list Z) : list Z :=
  padded SZ_MAX_COMMAND (take (Z.to_nat (SZ_MAX_COMMAND - 1)) (name ++ arg)).

(** The value of bytes read as an unsigned integer. *)
Definition le_value (bs : list Z) : Z := le_word (fun k => bs !!! Z.to_nat k) (length bs).

(** ** The host *)

Abbreviation path := (list Z).

Record host : Type := Host {
  h_files : gmap path (list Z);
  h_fd : option (path * Z);       (* the open file and its position *)
  h_faults : list bool;
  h_out : list Z;                 (* printed on the monitor *)
  h_broken : bool;                (* agent_cleanup was called by as_read *)
  h_short : list Z                (* how much the next writes store *)
}.

Definition with_fd (h : host) (fd : option (path * Z)) : host :=
  Host (h_files h) fd (h_faults h) (h_out h) (h_broken h) (h_short h).
Definition with_files (h : host) (fs : gmap path (list Z)) : host :=
  Host fs (h_fd h) (h_faults h) (h_out h) (h_broken h) (h_short h).

Definition h_fault (h : host) : host * bool :=
  match h_faults h with
  | f :: fs => (Host (h_files h) (h_fd h) fs (h_out h) (h_broken h) (h_short h), f)
  | [] => (h, false)
  end.

(** [open( path, O_RDONLY )] *)
Definition open_read (p : path) (h : host) : host * bool :=
  let '(h, fails) := h_fault h in
  if fails then (h, false)
  else match h_files h !! p with
       | Some _ => (with_fd h (Some (p, 0)), true)
       | None => (h, false)
       end.

(** [open( path, O_WRONLY | O_CREAT, ... )]: an existing file keeps its content. *)
Definition open_write (p : path) (h : host) : host * bool :=
  let '(h, fails) := h_fault h in
  if fails then (h, false)
  else (with_fd (with_files h (<[p := default [] (h_files h !! p)]> (h_files h))) (Some (p, 0)), true).

(** [stat( path, ... )] and the size it gives. *)
Definition stat (p : path) (h : host) : host * option Z :=
  let '(h, fails) := h_fault h in
  if fails then (h, None)
  else (h, (fun c => Z.of_nat (length c)) <$> h_files h !! p).

(** [read( fd, ..., n )]; [None] is -1. *)
Definition read (n : Z) (h : host) : host * option (list Z) :=
  let '(h, fails) := h_fault h in
  if fails then (h, None)
  else match h_fd h with
       | Some (p, pos) =>
           let bs := take (Z.to_nat n) (drop (Z.to_nat pos) (default [] (h_files h !! p))) in
           (with_fd h (Some (p, pos + Z.of_nat (length bs))), Some bs)
       | None => (h, None)
       end.

(** The content of a file after [bs] was written at [pos]. *)
Definition overwrite (content : list Z) (pos : Z) (bs : list Z) : list Z :=
  take (Z.to_nat pos) (content ++ replicate (Z.to_nat pos) 0) ++ bs ++
  drop (Z.to_nat pos + length bs) content.

(** How much of [n] bytes the next write stores. *)
Definition write_size (n : Z) (h : host) : Z * list Z :=
  match h_short h with
  | [] => (n, [])
  | k :: ks => (Z.max 1 (Z.min k n), ks)
  end.

(** [write( fd, ... )]: the number of bytes stored; [None] is -1. *)
Definition write (bs : list Z) (h : host) : host * option Z :=
  let '(h, fails) := h_fault h in
  if fails then (h, None)
  else match h_fd h with
       | Some (p, pos) =>
           let '(n, rest) := write_size (Z.of_nat (length bs)) h in
           (Host (<[p := overwrite (default [] (h_files h !! p)) pos (take (Z.to_nat n) bs)]> (h_files h))
              (Some (p, pos + n)) (h_faults h) (h_out h) (h_broken h) rest, Some n)
       | None => (h, None)
       end.

Definition close : proc host unit := upd_state (fun h => with_fd h None).

Definition agent_printf (bs : list Z) : proc host unit :=
  upd_state (fun h => Host (h_files h) (h_fd h) (h_faults h) (h_out h ++ bs) (h_broken h) (h_short h)).

(** ** The socket *)

Definition as_write (bs : list Z) : proc host unit := send bs.

(** A read of nothing is taken for a broken connection. *)
Definition as_read (n : Z) : proc host (list Z) :=
  m ← recv n;
  if bool_decide (m = [])
  then upd_state (fun h => Host (h_files h) (h_fd h) (h_faults h) (h_out h) true (h_short h));; mret m
  else mret m.

Definition ecm_write (suc_or_fail : bool) : proc host unit :=
  as_write (if suc_or_fail then MSG_REC_SUCCESS else MSG_REC_FAIL).

Definition ecm_read : proc host bool :=
  m ← as_read (Z.of_nat (length MSG_REC_SUCCESS));
  mret (bool_decide (m = MSG_REC_SUCCESS)).

(** ** The actions *)

(** The argument buffers of the context and the memory behind them. *)
Record act_args : Type := Args {
  a_cmdline : list Z; a_dst_path : list Z; a_src_path : list Z; a_rest : list Z
}.
(** A buffer that is full has no terminating zero: the string runs on. *)
Definition arg_cmdline (a : act_args) : list Z := cstr (a_cmdline a ++ a_dst_path a ++ a_src_path a ++ a_rest a).
Definition arg_dst (a : act_args) : list Z := cstr (a_dst_path a ++ a_src_path a ++ a_rest a).
Definition arg_src (a : act_args) : list Z := cstr (a_src_path a ++ a_rest a).

(** [None]: the loop has not ended after [fuel] rounds. *)
Fixpoint import_loop (fuel : nat) (fsize : Z) : proc host (option MBA_AGENT_RETURN) :=
  if fsize =? 0 then close;; mret (Some AGENT_RET_SUCCESS)
  else match fuel with
  | O => mret None
  | S fuel' =>
      r ← act (read SZ_MAX_FILECHUNK);
      match r with
      | None => ecm_write false;; close;; mret (Some AGENT_RET_EFAIL)
      | Some bs =>
          ecm_write true;;
          let fsize' := u64 (fsize - Z.of_nat (length bs)) in
          if bool_decide (bs = []) then import_loop fuel' fsize'
          else
            as_write bs;;
            written ← ecm_read;
            if negb written then close;; mret (Some AGENT_RET_EFAIL)
            else if Z.of_nat (length bs) <? SZ_MAX_FILECHUNK then
              placed ← ecm_read;
              if negb placed then close;; mret (Some AGENT_RET_EFAIL)
              else import_loop fuel' fsize'
            else import_loop fuel' fsize'
      end
  end.

Definition import_host_file (fuel : nat) (a : act_args) : proc host (option MBA_AGENT_RETURN) :=
  opened ← act (open_read (arg_src a));
  if negb opened then mret (Some AGENT_RET_EFAIL)
  else
    sz ← act (stat (arg_src a));
    match sz with
    | None => close;; mret (Some AGENT_RET_EFAIL)
    | Some fsize =>
        as_write (command (ascii_bytes "impo ") (arg_dst a));;
        as_write (le_bytes 8 fsize);;
        ready ← ecm_read;
        if negb ready then close;; mret (Some AGENT_RET_EFAIL)
        else import_loop fuel fsize
    end.

(** [while( n_rbytes )]: the server is told after every write; every write stores
    at least a byte, so that as many rounds as bytes are enough. *)
Fixpoint write_loop (fuel : nat) (bs : list Z) : proc host bool :=
  match fuel with
  | O => mret true
  | S fuel' =>
      if bool_decide (bs = []) then mret true
      else
        n ← act (write bs);
        match n with
        | None => ecm_write false;; mret false
        | Some n => ecm_write true;; write_loop fuel' (drop (Z.to_nat n) bs)
        end
  end.

(** Every round takes at least a byte. *)
Fixpoint store_loop (fuel : nat) (fsize : Z) : proc host MBA_AGENT_RETURN :=
  match fuel with
  | O => close;; mret AGENT_RET_SUCCESS
  | S fuel' =>
      if fsize =? 0 then close;; mret AGENT_RET_SUCCESS
      else
        can_read ← ecm_read;
        if negb can_read then close;; mret AGENT_RET_EFAIL
        else
          bs ← as_read (if fsize <? SZ_MAX_FILECHUNK then fsize else SZ_MAX_FILECHUNK);
          if bool_decide (bs = []) then close;; mret AGENT_RET_EFAIL
          else
            stored ← write_loop (length bs) bs;
            if negb stored then close;; mret AGENT_RET_EFAIL
            else store_loop fuel' (fsize - Z.of_nat (length bs))
  end.

(** Receive the size, open the destination, store what comes. *)
Definition receive_content (dst : list Z) : proc host MBA_AGENT_RETURN :=
  ready ← ecm_read;
  if negb ready then mret AGENT_RET_EFAIL
  else
    sz ← as_read 8;
    if negb (Z.of_nat (length sz) =? 8) then mret AGENT_RET_EFAIL
    else
      opened ← act (open_write dst);
      if negb opened then ecm_write false;; mret AGENT_RET_EFAIL
      else ecm_write true;; store_loop (Z.to_nat (le_value sz)) (le_value sz).

(** The two exports differ in the command only. *)
Definition receive_file (cmd_emit dst : list Z) : proc host MBA_AGENT_RETURN :=
  as_write cmd_emit;; receive_content dst.

Definition export_guest_file (a : act_args) : proc host MBA_AGENT_RETURN :=
  receive_file (command (ascii_bytes "expo ") (arg_src a)) (arg_dst a).

Definition export_agent_log (a : act_args) : proc host MBA_AGENT_RETURN :=
  receive_file (command (ascii_bytes "logf") []) (arg_dst a).

(** Print a message of [msize] bytes; each read takes at least one. *)
Fixpoint print_loop (fuel : nat) (msize : Z) : proc host bool :=
  match fuel with
  | O => mret true
  | S fuel' =>
      if msize =? 0 then mret true
      else
        m ← as_read (if msize <? 4096 then msize else 4096);
        if bool_decide (m = []) then mret false
        else agent_printf m;; print_loop fuel' (msize - Z.of_nat (length m))
  end.

(** [None]: output is still coming after [fuel] messages. *)
Fixpoint output_loop (fuel : nat) : proc host (option MBA_AGENT_RETURN) :=
  match fuel with
  | O => mret None
  | S fuel' =>
      m ← as_read 4;
      if negb (Z.of_nat (length m) =? 4) then mret (Some AGENT_RET_EFAIL)
      else if le_value m =? 0 then
        closed ← ecm_read;
        mret (Some (if negb closed then AGENT_RET_EFAIL else AGENT_RET_SUCCESS))
      else
        printed ← print_loop (Z.to_nat (le_value m)) (le_value m);
        if negb printed then mret (Some AGENT_RET_EFAIL) else output_loop fuel'
  end.

Definition execute_guest_cmd_return (fuel : nat) (a : act_args) : proc host (option MBA_AGENT_RETURN) :=
  as_write (command (ascii_bytes "exec ") (arg_cmdline a));;
  ready ← ecm_read;
  if negb ready then mret (Some AGENT_RET_EFAIL) else output_loop fuel.

Definition execute_guest_cmd_noreturn (a : act_args) : proc host MBA_AGENT_RETURN :=
  as_write (command (ascii_bytes "invo ") (arg_cmdline a));;
  started ← ecm_read;
  mret (if negb started then AGENT_RET_EFAIL else AGENT_RET_SUCCESS).

Definition sync_cache : proc host MBA_AGENT_RETURN :=
  as_write (command (ascii_bytes "sync") []);;
  flushed ← ecm_read;
  mret (if negb flushed then AGENT_RET_EFAIL else AGENT_RET_SUCCESS).

Definition show_server_ack : proc host unit :=
  m ← as_read (Z.of_nat (length MSG_ACK_PREFIX));
  (if Z.of_nat (length m) =? Z.of_nat (length MSG_ACK_PREFIX) then agent_printf (cstr m) else mret tt);;
  m ← as_read SZ_MAX_COMMAND;
  if Z.of_nat (length m) =? SZ_MAX_COMMAND then agent_printf (cstr m ++ [10]) else mret tt.

(** The acknowledgement of an action that succeeded. *)
Definition acknowledge (ret : option MBA_AGENT_RETURN) : proc host (option MBA_AGENT_RETURN) :=
  if bool_decide (ret = Some AGENT_RET_SUCCESS) then show_server_ack;; mret ret else mret ret.

(** One round of the main loop. *)
Definition run_action (fuel : nat) (t : MBA_AGENT_ACTION) (a : act_args) : proc host (option MBA_AGENT_RETURN) :=
  ret ← match t with
        | AGENT_ACT_IMPO => import_host_file fuel a
        | AGENT_ACT_EXPO => r ← export_guest_file a; mret (Some r)
        | AGENT_ACT_EXEC => execute_guest_cmd_return fuel a
        | AGENT_ACT_INVO => r ← execute_guest_cmd_noreturn a; mret (Some r)
        | AGENT_ACT_LOGF => r ← export_agent_log a; mret (Some r)
        | AGENT_ACT_SYNC => r ← sync_cache; mret (Some r)
        | _ => mret (Some AGENT_RET_EFAIL)
        end;
  acknowledge ret.
