(* ===== verification/AgentServer.v ===== *)
(** * The agent server

    The server in the Windows guest (src/ext/agent/windows/win_agent.c, win_agent.h):
    the commands and one round of the main loop, as processes on the state of the
    guest. The calls of the Windows API are modelled by what their documentation says:
    opening respects share modes, a file has a pointer that reads and writes
    advance, a duplicated handle shares the pointer of the original. Each call that
    can fail takes the next entry of [g_faults]. The text of a log entry (time,
    error code) is a parameter. The thread that forwards console input to a child
    process is left out, and with it input during exec. *)

From S2P Require Import Prelude AgentNet AgentClient.
From stdpp Require Import strings.

#[local] Open Scope Z_scope.

Inductive cmd_type : Type :=
| MBA_CMD_UNKNOWN | MBA_CMD_EXEC | MBA_CMD_INVO | MBA_CMD_EXPO | MBA_CMD_IMPO | MBA_CMD_LOGF | MBA_CMD_SYNC.

Inductive server_return : Type := RET_SUCCESS | RET_FAIL.

#[export] Instance cmd_type_eq_dec : EqDecision cmd_type.
Proof. solve_decision. Defined.
#[export] Instance server_return_eq_dec : EqDecision server_return.
Proof. solve_decision. Defined.

Definition SZ_MAX_CMD : Z := 256.
Definition SZ_MAX_LOG : Z := 256.

(** ** The guest *)

Record guest : Type := Guest {
  g_files : gmap path (list Z);
  g_open : list (path * bool);      (* open handles: the file, and whether to write *)
  g_cur : option (path * bool * Z); (* the command's file handle and its pointer *)
  g_log : list Z;                   (* the log file *)
  g_logptr : Z;                     (* its pointer *)
  g_faults : list bool;
  g_started : list (list Z);        (* command lines of the processes created *)
  g_output : list (list Z);         (* what reads of the child's output give *)
  g_flushed : Z                     (* how often the volume was flushed *)
}.

Definition g_fault (g : guest) : guest * bool :=
  match g_faults g with
  | f :: fs => (Guest (g_files g) (g_open g) (g_cur g) (g_log g) (g_logptr g) fs (g_started g)
                  (g_output g) (g_flushed g), f)
  | [] => (g, false)
  end.

Definition set_file (g : guest) (fs : gmap path (list Z)) (op : list (path * bool))
    (cur : option (path * bool * Z)) : guest :=
  Guest fs op cur (g_log g) (g_logptr g) (g_faults g) (g_started g) (g_output g) (g_flushed g).

Definition set_log (g : guest) (log : list Z) (ptr : Z) : guest :=
  Guest (g_files g) (g_open g) (g_cur g) log ptr (g_faults g) (g_started g) (g_output g) (g_flushed g).

(** ** The file API *)

(** A call that only succeeds or fails. *)
Definition api (g : guest) : guest * bool :=
  let '(g, fails) := g_fault g in (g, negb fails).

Inductive disposition : Type := CREATE_ALWAYS | OPEN_EXISTING.

(** A handle for writing shares nothing, one for reading shares reading. *)
Definition sharing_violation (op : list (path * bool)) (p : path) (write : bool) : bool :=
  existsb (fun '(p', w') => bool_decide (p' = p) && (write || w')) op.

Definition CreateFile (p : path) (write : bool) (d : disposition) (g : guest) : guest * bool :=
  let '(g, fails) := g_fault g in
  let invalid := (set_file g (g_files g) (g_open g) None, false) in
  let valid fs := (set_file g fs ((p, write) :: g_open g) (Some (p, write, 0)), true) in
  if fails || sharing_violation (g_open g) p write then invalid
  else match d with
       | CREATE_ALWAYS => valid (<[p := []]> (g_files g))
       | OPEN_EXISTING => match g_files g !! p with Some _ => valid (g_files g) | None => invalid end
       end.

(** The first entry of the handle is removed. *)
Fixpoint remove_handle (x : path * bool) (op : list (path * bool)) : list (path * bool) :=
  match op with
  | [] => []
  | y :: op' => if bool_decide (x = y) then op' else y :: remove_handle x op'
  end.

Definition CloseHandle (g : guest) : guest :=
  match g_cur g with
  | Some (p, w, _) => set_file g (g_files g) (remove_handle (p, w) (g_open g)) None
  | None => g
  end.

Definition WriteFile (bs : list Z) (g : guest) : guest * bool :=
  let '(g, fails) := g_fault g in
  match g_cur g with
  | Some (p, w, ptr) =>
      if fails then (g, false)
      else (set_file g (<[p := overwrite (default [] (g_files g !! p)) ptr bs]> (g_files g)) (g_open g)
              (Some (p, w, ptr + Z.of_nat (length bs))), true)
  | None => (g, false)
  end.

Definition ReadFile (n : Z) (g : guest) : guest * option (list Z) :=
  let '(g, fails) := g_fault g in
  match g_cur g with
  | Some (p, w, ptr) =>
      if fails then (g, None)
      else
        let bs := take (Z.to_nat n) (drop (Z.to_nat ptr) (default [] (g_files g !! p))) in
        (set_file g (g_files g) (g_open g) (Some (p, w, ptr + Z.of_nat (length bs))), Some bs)
  | None => (g, None)
  end.

(** [SetFilePointer( hFile, dist, NULL, FILE_BEGIN )]: the distance is a 32-bit
    signed number; a negative position is refused. *)
Definition SetFilePointer (dist : Z) (g : guest) : guest * bool :=
  let '(g, fails) := g_fault g in
  match g_cur g with
  | Some (p, w, _) =>
      if fails || (s32 dist <? 0) then (g, false)
      else (set_file g (g_files g) (g_open g) (Some (p, w, s32 dist)), true)
  | None => (g, false)
  end.

(** The file ends at the pointer. *)
Definition SetEndOfFile (g : guest) : guest * bool :=
  let '(g, fails) := g_fault g in
  match g_cur g with
  | Some (p, w, ptr) =>
      if fails then (g, false)
      else (set_file g (<[p := padded ptr (default [] (g_files g !! p))]> (g_files g)) (g_open g) (g_cur g), true)
  | None => (g, false)
  end.

Definition GetFileSizeEx (g : guest) : guest * option Z :=
  let '(g, fails) := g_fault g in
  match g_cur g with
  | Some (p, _, _) => (g, if fails then None else Some (Z.of_nat (length (default [] (g_files g !! p)))))
  | None => (g, None)
  end.

Definition CreateProcess (cmdline : list Z) (g : guest) : guest * bool :=
  let '(g, fails) := g_fault g in
  if fails then (g, false)
  else (Guest (g_files g) (g_open g) (g_cur g) (g_log g) (g_logptr g) (g_faults g)
          (g_started g ++ [cmdline]) (g_output g) (g_flushed g), true).

(** The log through the handle [g_hLog] or a duplicate of it. *)
Definition log_read (n : Z) (g : guest) : guest * option (list Z) :=
  let '(g, fails) := g_fault g in
  if fails then (g, None)
  else
    let bs := take (Z.to_nat n) (drop (Z.to_nat (g_logptr g)) (g_log g)) in
    (set_log g (g_log g) (g_logptr g + Z.of_nat (length bs)), Some bs).

Definition log_rewind (g : guest) : guest * bool :=
  let '(g, fails) := g_fault g in
  if fails then (g, false) else (set_log g (g_log g) 0, true).

Definition log_size (g : guest) : guest * option Z :=
  let '(g, fails) := g_fault g in
  (g, if fails then None else Some (Z.of_nat (length (g_log g)))).

Definition close_handle : proc guest unit := upd_state CloseHandle.

Section Server.
(** The bytes of a log entry for a message and the numbers it shows; the upper
    halves of the counters that ReadFile and WriteFile fill in the lower half of. *)
Context (log_text : string -> list Z -> list Z) (junk : Z).

Definition write_agent_log (msg : string) (args : list Z) : proc guest unit :=
  upd_state (fun g =>
    let t := log_text msg args in
    set_log g (overwrite (g_log g) (g_logptr g) t) (g_logptr g + Z.of_nat (length t))).

(** ** The socket *)

Definition ac_write (bs : list Z) : proc guest unit :=
  send bs;;
  if bool_decide (bs = []) then write_agent_log "The connection to the agent server is broken while writing" []
  else mret tt.

Definition ac_read (n : Z) : proc guest (list Z) :=
  m ← recv n;
  (if bool_decide (m = []) then write_agent_log "The connection to the agent server is broken while reading" []
   else mret tt);;
  mret m.

Definition send_ecm_msg (mode : bool) : proc guest unit :=
  ac_write (if mode then MSG_REC_SUCCESS else MSG_REC_FAIL).

Definition recv_ecm_msg : proc guest bool :=
  m ← ac_read (Z.of_nat (length MSG_REC_SUCCESS));
  mret (bool_decide (m = MSG_REC_SUCCESS)).

(** Log the failure, tell the client, and return. *)
Definition refuse (msg : string) : proc guest server_return :=
  write_agent_log msg [];; send_ecm_msg false;; mret RET_FAIL.

(** ** Import *)

(** The full chunks; [None] when the command failed. *)
Fixpoint import_rounds (n : nat) (stored : Z) : proc guest (option Z) :=
  match n with
  | O => mret (Some stored)
  | S n' =>
      sent ← recv_ecm_msg;
      if negb sent then write_agent_log "import_cmd - client open file fail" [];; mret None
      else
        bs ← ac_read SZ_MAX_FILECHUNK;
        if negb (Z.of_nat (length bs) =? SZ_MAX_FILECHUNK)
        then write_agent_log "import_cmd - recv" [];; close_handle;; mret None
        else
          ok ← act (WriteFile bs);
          if negb ok
          then write_agent_log "import_cmd - WriteFile" [];; send_ecm_msg false;; close_handle;; mret None
          else
            send_ecm_msg true;;
            let nBytesWrite := junk * 2 ^ 32 + Z.of_nat (length bs) in
            write_agent_log "read %ld bytes, fwrite %ld bytes" [Z.of_nat (length bs); nBytesWrite];;
            import_rounds n' (u64 (stored + nBytesWrite))
  end.

(** Open the file again and end it after the bytes stored. *)
Definition set_true_end (filePath : path) (stored : Z) : proc guest server_return :=
  act (CreateFile filePath true OPEN_EXISTING);;
  placed ← act (SetFilePointer stored);
  if negb placed then refuse "expolog_cmd - GetFileSizeEx"
  else
    send_ecm_msg true;;
    act SetEndOfFile;;
    write_agent_log "Total stored size : %ld bytes" [stored];;
    close_handle;; mret RET_SUCCESS.

(** The last, short chunk is written in full and the file cut afterwards. *)
Definition import_last (filePath : path) (nBytesRead stored : Z) : proc guest server_return :=
  sent ← recv_ecm_msg;
  if negb sent then write_agent_log "import_cmd - client read file fail" [];; mret RET_FAIL
  else
    bs ← ac_read nBytesRead;
    if negb (Z.of_nat (length bs) =? nBytesRead)
    then write_agent_log "import_cmd - recv" [];; close_handle;; mret RET_FAIL
    else
      ok ← act (WriteFile (padded SZ_MAX_FILECHUNK bs));
      if negb ok
      then write_agent_log "import_cmd - WriteFile" [];; send_ecm_msg false;; close_handle;; mret RET_FAIL
      else
        send_ecm_msg true;;
        let stored := u64 (stored + nBytesRead) in
        close_handle;; set_true_end filePath stored.

Definition import_cmd (filePath : path) : proc guest server_return :=
  sz ← ac_read 8;
  if negb (Z.of_nat (length sz) =? 8)
  then write_agent_log "import_cmd - Receive - can't receive fileszie" [];; mret RET_FAIL
  else
    let fileSize := le_value sz in
    write_agent_log "filePath:[%s]" filePath;;
    write_agent_log "Total file size : %ld bytes" [fileSize];;
    opened ← act (CreateFile filePath true CREATE_ALWAYS);
    if negb opened then refuse "import_cmd - CreateFile - can't open file"
    else
      send_ecm_msg true;;
      stored ← import_rounds (Z.to_nat (u32 (fileSize / SZ_MAX_FILECHUNK))) 0;
      match stored with
      | None => mret RET_FAIL
      | Some stored =>
          let nBytesRead := fileSize mod SZ_MAX_FILECHUNK in
          if nBytesRead =? 0
          then write_agent_log "Total stored size : %ld bytes" [stored];; close_handle;; mret RET_SUCCESS
          else import_last filePath nBytesRead stored
      end.

(** ** Export *)

(** Send a chunk of which ReadFile gave the length in the lower half of a counter
    with the upper half [upper]; the answer is whether to go on. *)
Definition send_chunk (upper : Z) (bs : list Z) (fail_msg : string) : proc guest bool :=
  send_ecm_msg true;;
  ac_write bs;;
  if negb (Z.of_nat (length bs) =? upper * 2 ^ 32 + Z.of_nat (length bs))
  then write_agent_log "export_cmd - CheckClient - can't send file successfully" [];; close_handle;; mret false
  else
    stored ← recv_ecm_msg;
    if negb stored then write_agent_log fail_msg [];; mret false
    else mret true.

(** The full chunks; [None] when the command failed. *)
Fixpoint export_rounds (n : nat) (sent : Z) : proc guest (option Z) :=
  match n with
  | O => mret (Some sent)
  | S n' =>
      r ← act (ReadFile SZ_MAX_FILECHUNK);
      match r with
      | None => write_agent_log "export_cmd - ReadFile" [];; send_ecm_msg false;; mret None
      | Some bs =>
          ok ← send_chunk junk bs "export_cmd - client write file fail";
          if negb ok then mret None else export_rounds n' (u64 (sent + Z.of_nat (length bs)))
      end
  end.

Definition export_last (filePath : path) (nBytesRead sent : Z) : proc guest server_return :=
  opened ← act (CreateFile filePath false OPEN_EXISTING);
  if negb opened then refuse "export_cmd - CreateFile"
  else
    act (SetFilePointer sent);;
    r ← act (ReadFile nBytesRead);
    match r with
    | None => write_agent_log "export_cmd - ReadFile" [];; send_ecm_msg false;; close_handle;; mret RET_FAIL
    | Some bs =>
        ok ← send_chunk 0 bs "export_cmd - client write file fail";
        if negb ok then mret RET_FAIL
        else close_handle;; write_agent_log "File size: %ld bytes, Total send: %ld bytes" [];; mret RET_SUCCESS
    end.

Definition export_cmd (filePath : path) : proc guest server_return :=
  opened ← act (CreateFile filePath false OPEN_EXISTING);
  if negb opened then refuse "export_cmd - CreateFile"
  else
    sz ← act GetFileSizeEx;
    match sz with
    | None => write_agent_log "export_cmd - GetFileSizeEx" [];; send_ecm_msg false;; close_handle;; mret RET_FAIL
    | Some fileSize =>
        send_ecm_msg true;;
        write_agent_log "filePath:[%s]" filePath;;
        write_agent_log "%s has %lld Bytes." (filePath ++ [fileSize]);;
        ac_write (le_bytes 8 fileSize);;
        opened ← recv_ecm_msg;
        if negb opened then write_agent_log "export_cmd - client open file fail" [];; mret RET_FAIL
        else
          sent ← export_rounds (Z.to_nat (u32 (fileSize / SZ_MAX_FILECHUNK))) 0;
          match sent with
          | None => mret RET_FAIL
          | Some sent =>
              close_handle;;
              let nBytesRead := fileSize mod SZ_MAX_FILECHUNK in
              if nBytesRead =? 0
              then write_agent_log "File size: %ld bytes, Total send: %ld bytes" [];; mret RET_SUCCESS
              else export_last filePath nBytesRead sent
          end
    end.

(** ** Running programs *)

Definition prep_and_launch_redirected_child (cmdline : list Z) : proc guest bool :=
  ok ← act (CreateProcess cmdline);
  if negb ok then write_agent_log "prep_and_launch_redirected_child - CreateProcess" [];; mret false
  else
    closed ← act api;
    if (closed : bool) then mret true
    else
      closed ← act api;
      if negb closed
      then write_agent_log "prep_and_launch_redirected_child - CloseHandle - after redirect" [];; mret false
      else mret true.

(** A chunk is what one read of the pipe gives; an empty one stands for a read
    that fails for another reason than the end of the pipe. *)
Fixpoint output_rounds (outs : list (list Z)) : proc guest unit :=
  match outs with
  | [] => mret tt
  | bs :: outs' =>
      (if bool_decide (bs = []) then write_agent_log "read_and_handle_output - ReadFile" [] else mret tt);;
      ac_write (le_bytes 4 (Z.of_nat (length bs)));;
      ac_write bs;;
      output_rounds outs'
  end.

Definition read_and_handle_output : proc guest unit :=
  send_ecm_msg true;;
  write_agent_log "read_and_handle_output - MSG_REC_SUCCESS Sent" [];;
  outs ← act (fun g => (g, g_output g));
  output_rounds outs.

(** Calls that must all succeed, with the log entry for each failure. *)
Fixpoint api_calls (msgs : list string) (k : proc guest server_return) : proc guest server_return :=
  match msgs with
  | [] => k
  | msg :: msgs' => ok ← act api; if negb ok then refuse msg else api_calls msgs' k
  end.

Definition execute_cmd (cmdline : list Z) : proc guest server_return :=
  api_calls ["execute_cmd - CreatePipe"; "execute_cmd - DuplicateHandle : hErrorWrite -> hOutputWrite";
             "execute_cmd - CreatePipe"; "execute_cmd - SetHandleInformation : Child read";
             "execute_cmd - SetHandleInformation : Child write"]
    (launched ← prep_and_launch_redirected_child cmdline;
     if negb launched then refuse "execute_cmd - prep_and_launch_redirected_child"
     else
       api_calls ["execute_cmd - CloseHandle : Child Write"; "execute_cmd - CloseHandle : Child Read";
                  "execute_cmd - CloseHandle : Child Error"; "execute_cmd - WSASocket : Dup ClientSocket";
                  "execute_cmd - CreateThread : Write"]
         (read_and_handle_output;;
          ac_write (le_bytes 4 0);;
          api_calls ["TerminateThread"; "execute_cmd - CloseHandle : hOutputRead";
                     "execute_cmd - CloseHandle : hInputWrite"]
            (send_ecm_msg true;; mret RET_SUCCESS))).

Definition invoke_cmd (cmdline : list Z) : proc guest server_return :=
  ok ← act (CreateProcess cmdline);
  if negb ok then send_ecm_msg false;; mret RET_FAIL
  else send_ecm_msg true;; mret RET_SUCCESS.

(** ** Log export and flush *)

Definition log_chunk (n : Z) (upper : Z) : proc guest (option Z) :=
  r ← act (log_read n);
  match r with
  | None => write_agent_log "expolog_cmd - ReadFile" [];; send_ecm_msg false;; mret None
  | Some bs =>
      send_ecm_msg true;;
      ac_write bs;;
      if negb (Z.of_nat (length bs) =? upper * 2 ^ 32 + Z.of_nat (length bs))
      then write_agent_log "export_cmd - CheckClient - can't send file successfully" [];; mret None
      else
        stored ← recv_ecm_msg;
        if negb stored then write_agent_log "exportlog_cmd - client write file fail" [];; mret None
        else mret (Some (Z.of_nat (length bs)))
  end.

Fixpoint log_rounds (n : nat) : proc guest bool :=
  match n with
  | O => mret true
  | S n' =>
      r ← log_chunk SZ_MAX_FILECHUNK junk;
      match r with None => mret false | Some _ => log_rounds n' end
  end.

(** The duplicate of the log's handle shares its pointer. *)
Definition expolog_cmd : proc guest server_return :=
  dup ← act api;
  if negb dup then refuse "expolog_cmd - GetFileSizeEx"
  else
    rewound ← act log_rewind;
    if negb rewound then refuse "expolog_cmd - GetFileSizeEx"
    else
      sz ← act log_size;
      match sz with
      | None => refuse "expolog_cmd - GetFileSizeEx"
      | Some fileSize =>
          send_ecm_msg true;;
          ac_write (le_bytes 8 fileSize);;
          opened ← recv_ecm_msg;
          if negb opened then write_agent_log "exportlog_cmd - client open file fail" [];; mret RET_FAIL
          else
            ok ← log_rounds (Z.to_nat (u32 (fileSize / SZ_MAX_FILECHUNK)));
            if negb ok then mret RET_FAIL
            else
              let nBytesRead := fileSize mod SZ_MAX_FILECHUNK in
              if nBytesRead =? 0 then mret RET_SUCCESS
              else
                r ← log_chunk nBytesRead 0;
                match r with None => mret RET_FAIL | Some _ => mret RET_SUCCESS end
      end.

Definition sync_cmd : proc guest server_return :=
  api_calls ["expolog_cmd - [COMMAND ERROR] Flush Openfile Error"]
    (flushed ← act (fun g =>
       let '(g, fails) := g_fault g in
       if fails then (g, false)
       else (Guest (g_files g) (g_open g) (g_cur g) (g_log g) (g_logptr g) (g_faults g) (g_started g)
               (g_output g) (g_flushed g + 1), true));
     if negb flushed then refuse "expolog_cmd - [COMMAND ERROR] Flush Openfile Error"
     else send_ecm_msg true;; mret RET_SUCCESS).

(** ** The main loop *)

Definition has_prefix (name b : list Z) : bool := bool_decide (take (length name) b = name).

Definition identify_command (input : list Z) : cmd_type :=
  if has_prefix (ascii_bytes "exec") input then MBA_CMD_EXEC
  else if has_prefix (ascii_bytes "invo") input then MBA_CMD_INVO
  else if has_prefix (ascii_bytes "expo") input then MBA_CMD_EXPO
  else if has_prefix (ascii_bytes "impo") input then MBA_CMD_IMPO
  else if has_prefix (ascii_bytes "logf") input then MBA_CMD_LOGF
  else if has_prefix (ascii_bytes "sync") input then MBA_CMD_SYNC
  else MBA_CMD_UNKNOWN.

(** The text after the command's name. *)
Definition command_line (sRecvbuf : list Z) : list Z :=
  cstr (padded (2 * SZ_MAX_CMD) (take (Z.to_nat (SZ_MAX_CMD - 5)) (drop 5 sRecvbuf))).

Definition run_command (sRecvbuf : list Z) : proc guest server_return :=
  match identify_command sRecvbuf with
  | MBA_CMD_EXEC => execute_cmd (command_line sRecvbuf)
  | MBA_CMD_INVO => invoke_cmd (command_line sRecvbuf)
  | MBA_CMD_EXPO => export_cmd (command_line sRecvbuf)
  | MBA_CMD_IMPO => import_cmd (command_line sRecvbuf)
  | MBA_CMD_LOGF => expolog_cmd
  | MBA_CMD_SYNC => sync_cmd
  | MBA_CMD_UNKNOWN => write_agent_log "main - [COMMAND ERROR] Unknown command" [];; mret RET_SUCCESS
  end.

(** How a round of the main loop ends. *)
Inductive round_end : Type := Answered (r : server_return) | NothingReceived | Aborted.

(** The message about a command is formatted into a buffer of [SZ_MAX_LOG] with
    sprintf_s, 48 characters around the text, and is then itself a format: the process
    is terminated when the text does not fit, and a percent sign in it asks for
    arguments that are not there. *)
Definition loggable (sRecvbuf : list Z) : bool :=
  (48 + Z.of_nat (length (cstr sRecvbuf)) <? SZ_MAX_LOG) && negb (existsb (Z.eqb 37) (cstr sRecvbuf)).

(** The echo of a command that succeeded. *)
Definition answer (sRecvbuf : list Z) (result : server_return) : proc guest round_end :=
  (if bool_decide (result = RET_SUCCESS) then
     ac_write MSG_ACK_PREFIX;; ac_write (take (Z.to_nat SZ_MAX_CMD) sRecvbuf)
   else mret tt);;
  write_agent_log "Bytes sent: %d" [];;
  mret (Answered result).

(** One round of the main loop, which ends when nothing was received. *)
Definition server_round : proc guest round_end :=
  m ← ac_read SZ_MAX_CMD;
  if bool_decide (m = []) then write_agent_log "Receive nothing from server_socket" [];; mret NothingReceived
  else
    let sRecvbuf := padded (2 * SZ_MAX_CMD) m in
    if negb (loggable sRecvbuf) then mret Aborted
    else
      write_agent_log "Bytes received: 0x%08x, Received message: %s" m;;
      result ← run_command sRecvbuf;
      answer sRecvbuf result.

(** The inner loop, [fuel] rounds of it. *)
Fixpoint server_mainloop (fuel : nat) : proc guest unit :=
  match fuel with
  | O => mret tt
  | S fuel' =>
      r ← server_round;
      match r with
      | Answered _ => server_mainloop fuel'
      | NothingReceived | Aborted => mret tt
      end
  end.
End Server.
