(* ===== verification/AgentProto.v ===== *)
(** * The agent's protocol

    The client of [AgentClient] and the server of [AgentServer] together: the
    effects of file operations on either machine, tactics that run the two
    processes, what arrives of a command, and the acknowledgement. The actions are in
    [AgentImport], [AgentExport] and [AgentSession]. *)

From S2P Require Import Prelude AgentNet AgentClient AgentServer.
From stdpp Require Import strings.

#[local] Open Scope Z_scope.

(** ** Lemmas: buffers and numbers *)

Lemma padded_length n b : 0 <= n -> length (padded n b) = Z.to_nat n.
Proof. intros. unfold padded. rewrite length_take, length_app, length_replicate. lia. Qed.

Lemma padded_short n b : Z.of_nat (length b) <= n ->
  padded n b = b ++ replicate (Z.to_nat n - length b) 0.
Proof.
  intros Hb. unfold padded. rewrite take_app, take_replicate.
  rewrite take_ge by lia. do 2 f_equal. lia.
Qed.

Definition no_zero (b : list Z) : Prop := Forall (fun c => c <> 0) b.

Lemma cstr_no_zero b : no_zero (cstr b).
Proof. induction b as [|c b IH]; simpl; [constructor|]. destruct (Z.eqb_spec c 0); by constructor. Qed.

Lemma cstr_app b rest : no_zero b -> cstr (b ++ 0 :: rest) = b.
Proof.
  induction 1 as [|c b Hc Hb IH]; simpl; [done|]. destruct (Z.eqb_spec c 0); [done|]. by rewrite IH.
Qed.

Lemma cstr_end b : no_zero b -> cstr b = b.
Proof. induction 1 as [|c b Hc Hb IH]; simpl; [done|]. destruct (Z.eqb_spec c 0); [done|]. by rewrite IH. Qed.

Lemma cstr_padded n b : no_zero b -> Z.of_nat (length b) <= n -> cstr (padded n b) = b.
Proof.
  intros Hb Hl. rewrite padded_short by done. destruct (Z.to_nat n - length b)%nat; simpl.
  - rewrite app_nil_r. by apply cstr_end.
  - by apply cstr_app.
Qed.

Lemma no_zero_take n b : no_zero b -> no_zero (take n b).
Proof. apply Forall_take. Qed.

Lemma le_value_bytes n v : 0 <= v < 256 ^ Z.of_nat n -> le_value (le_bytes n v) = v.
Proof.
  intros Hv. unfold le_value. rewrite le_bytes_length.
  rewrite (le_word_ext _ (byte_of v)).
  - rewrite le_word_byte_of. by apply Z.mod_small.
  - intros k Hk. apply list_lookup_total_correct. unfold le_bytes.
    rewrite list_lookup_fmap, lookup_seq_lt by lia. simpl. do 2 f_equal. lia.
Qed.

(** A datagram that fits the buffer arrives whole. *)
Lemma take_all n (b : list Z) : Z.of_nat (length b) <= n -> take (Z.to_nat n) b = b.
Proof. intros. apply take_ge. lia. Qed.

Lemma s32_le n : 0 <= n -> s32 n <= n.
Proof.
  intros. unfold s32. pose proof (Z.mod_le n (2 ^ 32)). pose proof (Z.mod_pos_bound n (2 ^ 32)).
  cbv zeta. case_if; lia.
Qed.

(** ** Lemmas: commands *)

Lemma command_length name arg : length (command name arg) = 256%nat.
Proof. apply padded_length. done. Qed.

(** The five characters before the argument, and the code they stand for. *)
Definition command_name (t : cmd_type) : list Z :=
  match t with
  | MBA_CMD_EXEC => ascii_bytes "exec "
  | MBA_CMD_INVO => ascii_bytes "invo "
  | MBA_CMD_EXPO => ascii_bytes "expo "
  | MBA_CMD_IMPO => ascii_bytes "impo "
  | MBA_CMD_LOGF => ascii_bytes "logf "
  | MBA_CMD_SYNC => ascii_bytes "sync "
  | MBA_CMD_UNKNOWN => ascii_bytes "???? "
  end.

Lemma command_name_ok t : length (command_name t) = 5%nat /\ no_zero (command_name t).
Proof. split; [by destruct t|]. destruct t; apply (bool_decide_unpack _); vm_compute; exact I. Qed.

(** The command as the server sees it. *)
Definition received (m : list Z) : list Z := padded (2 * SZ_MAX_CMD) m.

Lemma received_command name arg : length name = 5%nat -> no_zero arg ->
  received (command name arg) =
    name ++ take 250 arg ++ replicate (507 - length (take 250 arg)) 0.
Proof.
  intros Hn Ha. unfold received, command.
  assert (take (Z.to_nat (SZ_MAX_COMMAND - 1)) (name ++ arg) = name ++ take 250 arg) as ->.
  { rewrite take_app, Hn. rewrite take_ge by (rewrite Hn; vm_compute; lia). done. }
  assert (length (take 250 arg) <= 250)%nat by (rewrite length_take; lia).
  assert (length (name ++ take 250 arg) = 5 + length (take 250 arg))%nat as El by (rewrite length_app, Hn; done).
  rewrite (padded_short SZ_MAX_COMMAND (name ++ take 250 arg)) by (rewrite El; unfold SZ_MAX_COMMAND; lia).
  rewrite padded_short.
  - rewrite <- !(assoc_L (++)), <- replicate_add.
    do 2 f_equal. apply (f_equal (fun k => replicate k 0)).
    rewrite !length_app, !length_replicate, Hn. change (Z.to_nat SZ_MAX_COMMAND) with 256%nat.
    change (Z.to_nat (2 * SZ_MAX_CMD)) with 512%nat. lia.
  - rewrite !length_app, !length_replicate, Hn. change (Z.to_nat SZ_MAX_COMMAND) with 256%nat.
    unfold SZ_MAX_CMD. lia.
Qed.

Lemma identify_name t rest : identify_command (command_name t ++ rest) = t.
Proof. destruct t; reflexivity. Qed.

Lemma command_line_received name arg : length name = 5%nat -> no_zero arg ->
  command_line (received (command name arg)) = take 250 arg.
Proof.
  intros Hn Ha. rewrite received_command by done. unfold command_line.
  rewrite drop_app_length' by done.
  assert (length (take 250 arg) <= 250)%nat by (rewrite length_take; lia).
  rewrite take_app, take_replicate, (take_ge (take 250 arg)) by (change (Z.to_nat (SZ_MAX_CMD - 5)) with 251%nat; lia).
  rewrite padded_short.
  - rewrite <- (assoc_L (++)), <- replicate_add.
    match goal with |- cstr (_ ++ replicate ?k 0) = _ => destruct k as [|k'] eqn:E end.
    + revert E. rewrite length_app, length_replicate. change (Z.to_nat (2 * SZ_MAX_CMD)) with 512%nat.
      change (Z.to_nat (SZ_MAX_CMD - 5)) with 251%nat. lia.
    + simpl. apply cstr_app. by apply no_zero_take.
  - rewrite length_app, length_replicate. change (Z.to_nat (SZ_MAX_CMD - 5)) with 251%nat. unfold SZ_MAX_CMD. lia.
Qed.

(** ** Lemmas: the file operations *)

(** What every operation on the host leaves alone. *)
Definition host_step (h h' : host) : Prop :=
  h_out h' = h_out h /\ h_broken h' = h_broken h /\ (h_faults h = [] -> h_faults h' = []) /\ (h_short h = [] -> h_short h' = []).

Definition guest_step (g g' : guest) : Prop :=
  g_started g' = g_started g /\ g_output g' = g_output g /\ g_flushed g' = g_flushed g /\
  (g_faults g = [] -> g_faults g' = []).

Lemma host_step_trans h1 h2 h3 : host_step h1 h2 -> host_step h2 h3 -> host_step h1 h3.
Proof. unfold host_step. intros (E1 & E2 & F1 & G1) (E3 & E4 & F2 & G2). split_and!; [congruence|congruence|auto|auto]. Qed.

Lemma guest_step_trans g1 g2 g3 : guest_step g1 g2 -> guest_step g2 g3 -> guest_step g1 g3.
Proof. unfold guest_step. intros (A1 & A2 & A3 & F1) (B1 & B2 & B3 & F2). split_and!; [congruence..|auto]. Qed.

(** An operation on the file [p] of the guest. *)
Definition guest_upd (p : path) (g g' : guest) : Prop :=
  guest_step g g' /\ delete p (g_files g') = delete p (g_files g).

Lemma guest_upd_trans p g1 g2 g3 : guest_upd p g1 g2 -> guest_upd p g2 g3 -> guest_upd p g1 g3.
Proof. intros [S1 E1] [S2 E2]. split; [by eapply guest_step_trans|congruence]. Qed.

Lemma guest_upd_insert p g g' c : guest_step g g' -> g_files g' = <[p := c]> (g_files g) -> guest_upd p g g'.
Proof. intros S1 E. split; [done|]. rewrite E. apply delete_insert_eq. Qed.

#[export] Hint Resolve host_step_trans guest_step_trans guest_upd_trans : mba.

Lemma h_fault_cases h : exists h', host_step h h' /\ h_files h' = h_files h /\ h_fd h' = h_fd h /\
  (h_fault h = (h', true) /\ h_faults h <> [] \/ h_fault h = (h', false)).
Proof.
  unfold h_fault. destruct (h_faults h) as [|f fs] eqn:E.
  - exists h. unfold host_step. split_and!; auto.
  - exists (Host (h_files h) (h_fd h) fs (h_out h) (h_broken h) (h_short h)). unfold host_step. rewrite E.
    split_and!; try done. destruct f; [by left|by right].
Qed.

Lemma g_fault_cases g : exists g', guest_step g g' /\ g_files g' = g_files g /\ g_cur g' = g_cur g /\
  g_open g' = g_open g /\ g_log g' = g_log g /\ g_logptr g' = g_logptr g /\
  (g_fault g = (g', true) /\ g_faults g <> [] \/ g_fault g = (g', false)).
Proof.
  unfold g_fault. destruct (g_faults g) as [|f fs] eqn:E.
  - exists g. unfold guest_step. split_and!; auto.
  - exists (Guest (g_files g) (g_open g) (g_cur g) (g_log g) (g_logptr g) fs (g_started g) (g_output g) (g_flushed g)).
    unfold guest_step. rewrite E. split_and!; try done. destruct f; [by left|by right].
Qed.

Lemma read_cases n h p pos content :
  h_fd h = Some (p, pos) -> h_files h !! p = Some content ->
  let bs := take (Z.to_nat n) (drop (Z.to_nat pos) content) in
  exists h', host_step h h' /\ h_files h' = h_files h /\
    ((read n h = (h', None) /\ h_faults h <> []) \/
     (read n h = (h', Some bs) /\ h_fd h' = Some (p, pos + Z.of_nat (length bs)))).
Proof.
  intros Hfd Hf bs. destruct (h_fault_cases h) as (h1 & S1 & F1 & D1 & [[E Hne]|E]); unfold read; rewrite E.
  - exists h1. split_and!; [done..|]. by left.
  - rewrite D1, Hfd, F1, Hf. simpl. exists (with_fd h1 (Some (p, pos + Z.of_nat (length bs)))).
    split_and!; [by apply S1..|done|]. by right.
Qed.

Lemma overwrite_end content bs : overwrite content (Z.of_nat (length content)) bs = content ++ bs.
Proof.
  unfold overwrite. rewrite Nat2Z.id, take_app_length. rewrite drop_ge by lia. by rewrite app_nil_r.
Qed.

Lemma WriteFile_cases bs g p w content :
  g_cur g = Some (p, w, Z.of_nat (length content)) -> g_files g !! p = Some content ->
  exists g', guest_step g g' /\ g_open g' = g_open g /\
    ((WriteFile bs g = (g', false) /\ g_faults g <> [] /\ g_cur g' = g_cur g /\ g_files g' = g_files g) \/
     (WriteFile bs g = (g', true) /\ g_files g' = <[p := content ++ bs]> (g_files g) /\
      g_cur g' = Some (p, w, Z.of_nat (length (content ++ bs))))).
Proof.
  intros Hc Hf. destruct (g_fault_cases g) as (g1 & S1 & F1 & C1 & O1 & _ & _ & [[E Hne]|E]); unfold WriteFile; rewrite E, C1, Hc.
  - exists g1. split_and!; [done..|]. left. by rewrite C1, F1.
  - rewrite F1, Hf. simpl. rewrite overwrite_end. eexists. split_and!; [..|right; split; [reflexivity|]].
    + done.
    + done.
    + simpl. split; [done|]. rewrite length_app. do 2 f_equal. lia.
Qed.

Lemma CreateFile_cases p w d g : (d = OPEN_EXISTING -> is_Some (g_files g !! p)) ->
  exists g', guest_step g g' /\
    ((CreateFile p w d g = (g', false) /\ (g_faults g <> [] \/ sharing_violation (g_open g) p w = true) /\
      g_cur g' = None /\ g_files g' = g_files g /\ g_open g' = g_open g) \/
     (CreateFile p w d g = (g', true) /\ sharing_violation (g_open g) p w = false /\
      g_cur g' = Some (p, w, 0) /\ g_open g' = (p, w) :: g_open g /\
      g_files g' = match d with CREATE_ALWAYS => <[p := []]> (g_files g) | OPEN_EXISTING => g_files g end)).
Proof.
  intros Hd. destruct (g_fault_cases g) as (g1 & S1 & F1 & _ & O1 & _ & _ & [[E Hne]|E]); unfold CreateFile; rewrite E, O1.
  - eexists. split; [|left; split_and!; [reflexivity|auto..]]. done.
  - simpl. rewrite F1. destruct (sharing_violation (g_open g) p w) eqn:Hv.
    { eexists. split; [|left; split_and!; [reflexivity|auto..]]. done. }
    destruct d; [|destruct (Hd eq_refl) as [c Hc]; rewrite Hc];
      (eexists; split; [|right; split_and!; [reflexivity|done..]]; done).
Qed.

Lemma SetFilePointer_cases dist g p w ptr : g_cur g = Some (p, w, ptr) ->
  exists g', guest_step g g' /\ g_open g' = g_open g /\ g_files g' = g_files g /\
    ((SetFilePointer dist g = (g', false) /\ (g_faults g <> [] \/ s32 dist < 0) /\ g_cur g' = g_cur g) \/
     (SetFilePointer dist g = (g', true) /\ 0 <= s32 dist /\ g_cur g' = Some (p, w, s32 dist))).
Proof.
  intros Hc. destruct (g_fault_cases g) as (g1 & S1 & F1 & C1 & O1 & _ & _ & [[E Hne]|E]);
    unfold SetFilePointer; rewrite E, C1, Hc; simpl.
  - exists g1. rewrite C1. auto 9.
  - case_if; bool_to_prop; [exists g1; rewrite C1; auto 9|]. eexists. split_and!; [..|right; split_and!; [reflexivity|done..]]; done.
Qed.

Lemma SetEndOfFile_cases g p w ptr : g_cur g = Some (p, w, ptr) ->
  exists g', guest_step g g' /\ g_open g' = g_open g /\ g_cur g' = g_cur g /\
    ((fst (SetEndOfFile g) = g' /\ g_faults g <> [] /\ g_files g' = g_files g) \/
     (fst (SetEndOfFile g) = g' /\ g_files g' = <[p := padded ptr (default [] (g_files g !! p))]> (g_files g))).
Proof.
  intros Hc. destruct (g_fault_cases g) as (g1 & S1 & F1 & C1 & O1 & _ & _ & [[E Hne]|E]);
    unfold SetEndOfFile; rewrite E, C1, Hc; simpl.
  - exists g1. rewrite C1. auto 8.
  - eexists. split_and!; [..|right; split; [reflexivity|]]; simpl; try done. by rewrite F1.
Qed.

Lemma CloseHandle_open g p w ptr op : g_cur g = Some (p, w, ptr) -> g_open g = (p, w) :: op ->
  g_open (CloseHandle g) = op /\ g_files (CloseHandle g) = g_files g /\ g_cur (CloseHandle g) = None /\
  guest_step g (CloseHandle g) /\ g_faults (CloseHandle g) = g_faults g.
Proof. intros Hc Ho. unfold CloseHandle. rewrite Hc, Ho. simpl. by rewrite bool_decide_true. Qed.

(** ** Running the two processes *)

Ltac client :=
  match goal with |- ends (Net ?p ?q ?cs ?sc ?h ?g) ?P =>
    let p' := eval hnf in p in change (ends (Net p' q cs sc h g) P);
    first [apply ends_csend | apply ends_crecv | apply ends_cact]; cbv beta
  end.
Ltac server :=
  match goal with |- ends (Net ?p ?q ?cs ?sc ?h ?g) ?P =>
    let q' := eval hnf in q in change (ends (Net p q' cs sc h g) P);
    first [apply ends_ssend | apply ends_srecv | apply ends_sact]; cbv beta
  end.

Lemma success_length : length MSG_REC_SUCCESS = 8%nat.
Proof. reflexivity. Qed.
Lemma fail_length : length MSG_REC_FAIL = 8%nat.
Proof. reflexivity. Qed.

(** Continue where a sub-process has returned. *)
Lemma ecm_messages :
  take (Z.to_nat (Z.of_nat (length MSG_REC_SUCCESS))) MSG_REC_SUCCESS = MSG_REC_SUCCESS /\
  take (Z.to_nat (Z.of_nat (length MSG_REC_SUCCESS))) MSG_REC_FAIL = MSG_REC_FAIL /\
  bool_decide (MSG_REC_SUCCESS = []) = false /\ bool_decide (MSG_REC_FAIL = []) = false /\
  bool_decide (MSG_REC_SUCCESS = MSG_REC_SUCCESS) = true /\
  bool_decide (MSG_REC_FAIL = MSG_REC_SUCCESS) = false.
Proof. split_and!; reflexivity. Qed.

Ltac simp :=
  repeat (progress (cbn [mbind proc_mbind proc_bind mret proc_mret negb fst snd];
    rewrite ?(proj1 ecm_messages), ?(proj1 (proj2 ecm_messages)),
      ?(proj1 (proj2 (proj2 ecm_messages))), ?(proj1 (proj2 (proj2 (proj2 ecm_messages)))),
      ?(proj1 (proj2 (proj2 (proj2 (proj2 ecm_messages))))),
      ?(proj2 (proj2 (proj2 (proj2 (proj2 ecm_messages))))))).

(** ** Commands and acknowledgements *)

(** Text that the server can log. *)
Definition plain (text : list Z) : Prop :=
  no_zero text /\ (37 ∉ text) /\ Z.of_nat (length text) <= 207.

Lemma received_text name arg : plain (name ++ arg) ->
  cstr (received (command name arg)) = name ++ arg /\
  received (command name arg) = (name ++ arg) ++ replicate (512 - length (name ++ arg)) 0.
Proof.
  intros (Hz & _ & Hl). set (text := name ++ arg) in *.
  assert (received (command name arg) = text ++ replicate (512 - length text) 0) as E.
  { unfold received, command. fold text. rewrite (take_ge text) by (change (Z.to_nat (SZ_MAX_COMMAND - 1)) with 255%nat; lia).
    rewrite (padded_short SZ_MAX_COMMAND) by (unfold SZ_MAX_COMMAND; lia).
    rewrite padded_short by (rewrite length_app, length_replicate; unfold SZ_MAX_COMMAND, SZ_MAX_CMD; lia).
    rewrite <- (assoc_L (++)), <- replicate_add. f_equal. apply (f_equal (fun k => replicate k 0)).
    rewrite length_app, length_replicate. unfold SZ_MAX_COMMAND, SZ_MAX_CMD. lia. }
  split; [|done]. rewrite E. destruct (512 - length text)%nat eqn:En; [lia|]. by apply cstr_app.
Qed.

Lemma plain_loggable name arg : plain (name ++ arg) -> loggable (received (command name arg)) = true.
Proof.
  intros Hp. unfold loggable. rewrite (proj1 (received_text _ _ Hp)). destruct Hp as (_ & Hn & Hl).
  apply andb_true_intro. split; [apply Z.ltb_lt; unfold SZ_MAX_LOG; lia|].
  apply negb_true_iff, not_true_iff_false. intros E. apply existsb_exists in E as (x & Hx & E).
  apply Z.eqb_eq in E as <-. apply Hn. by apply list_elem_of_In.
Qed.

Lemma command_line_plain name arg : length name = 5%nat -> plain (name ++ arg) ->
  command_line (received (command name arg)) = arg.
Proof.
  intros Hn (Hz & _ & Hl). rewrite length_app in Hl.
  rewrite command_line_received; [apply take_ge; lia|done|]. by apply Forall_app in Hz as [_ Hz].
Qed.

Lemma identify_plain t arg : plain (command_name t ++ arg) ->
  identify_command (received (command (command_name t) arg)) = t.
Proof. intros Hp. rewrite (proj2 (received_text _ _ Hp)), <- (assoc_L (++)). apply identify_name. Qed.

Section Rounds.
Context (log_text : string -> list Z -> list Z) (junk : Z).
Context (P : net host guest (option MBA_AGENT_RETURN) round_end -> Prop).

(** The guest after an entry in the log. *)
Definition logged (msg : string) (args : list Z) (g : guest) : guest :=
  let t := log_text msg args in
  set_log g (overwrite (g_log g) (g_logptr g) t) (g_logptr g + Z.of_nat (length t)).

(** The server takes a command. *)
Lemma server_accepts_log p name arg cs sc h g : plain (name ++ arg) ->
  ends (Net p (run_command log_text junk (received (command name arg)) ≫= answer log_text (received (command name arg)))
          cs sc h (logged "Bytes received: 0x%08x, Received message: %s" (command name arg) g)) P ->
  ends (Net p (server_round log_text junk) (command name arg :: cs) sc h g) P.
Proof.
  intros Hp Hk. server. rewrite take_all by (rewrite command_length; done).
  assert (command name arg <> []) as Hne by (intros E; by pose proof (command_length name arg) as Hl; rewrite E in Hl).
  simp. rewrite (bool_decide_false (command name arg = [])) by done. simp.
  rewrite (bool_decide_false (command name arg = [])) by done.
  fold (received (command name arg)). rewrite plain_loggable by done. cbn [negb].
  server. apply Hk.
Qed.

Lemma server_accepts p name arg cs sc h g : plain (name ++ arg) ->
  (forall log ptr, ends (Net p (run_command log_text junk (received (command name arg)) ≫=
                                answer log_text (received (command name arg))) cs sc h (set_log g log ptr)) P) ->
  ends (Net p (server_round log_text junk) (command name arg :: cs) sc h g) P.
Proof. intros Hp Hk. apply server_accepts_log; [done|]. apply Hk. Qed.

(** Both sides have failed. *)
Lemma both_failed buf h g :
  (forall g', guest_step g g' -> g_files g' = g_files g -> g_open g' = g_open g ->
     g' = logged "Bytes sent: %d" [] g ->
     P (Net (Done (Some AGENT_RET_EFAIL)) (Done (Answered RET_FAIL)) [] [] h g')) ->
  ends (Net (acknowledge (Some AGENT_RET_EFAIL)) (answer log_text buf RET_FAIL) [] [] h g) P.
Proof. intros HP. server. apply ends_done, HP; done. Qed.

(** What the client prints of the server's answer. *)
Definition ack_text (text : list Z) : list Z := ascii_bytes "System Receive : " ++ text ++ [10].

(** Both sides have succeeded: the client shows the command that the server echoes. *)
Lemma both_succeeded name arg cs h g : plain (name ++ arg) ->
  (forall h' g', h_files h' = h_files h -> h_fd h' = h_fd h -> h_out h' = h_out h ++ ack_text (name ++ arg) ->
     h_broken h' = h_broken h -> h_faults h' = h_faults h -> h_short h' = h_short h ->
     guest_step g g' -> g_files g' = g_files g -> g_open g' = g_open g -> g_cur g' = g_cur g ->
     g' = logged "Bytes sent: %d" [] g ->
     P (Net (Done (Some AGENT_RET_SUCCESS)) (Done (Answered RET_SUCCESS)) cs [] h' g')) ->
  ends (Net (acknowledge (Some AGENT_RET_SUCCESS)) (answer log_text (received (command name arg)) RET_SUCCESS) cs [] h g) P.
Proof.
  intros Hp HP. destruct (received_text name arg Hp) as [_ E]. set (buf := received (command name arg)) in *.
  assert (length (take (Z.to_nat SZ_MAX_CMD) buf) = 256%nat) as Hlen.
  { rewrite length_take, E, length_app, length_replicate. destruct Hp as (_ & _ & Hl). unfold SZ_MAX_CMD. lia. }
  assert (cstr (take (Z.to_nat SZ_MAX_CMD) buf) = name ++ arg) as Ec.
  { rewrite E, take_app, take_ge by (destruct Hp as (_ & _ & Hl); unfold SZ_MAX_CMD; lia).
    rewrite take_replicate. destruct Hp as (Hz & _ & Hl).
    destruct (_ `min` _)%nat eqn:En; [unfold SZ_MAX_CMD in En; lia|]. by apply cstr_app. }
  set (echo := take (Z.to_nat SZ_MAX_CMD) buf) in *.
  assert (echo <> []) as Hne by (intros E0; by rewrite E0 in Hlen).
  server. server. rewrite (bool_decide_false (echo = [])) by done. server. client. client. client.
  fold echo.   rewrite (take_all SZ_MAX_COMMAND echo) by (rewrite Hlen; done). simp. rewrite (bool_decide_false (echo = [])) by done. simp.
  rewrite Hlen. client. apply ends_done, HP; simpl; try done.
  rewrite Ec. unfold ack_text. rewrite <- !(assoc_L (++)). done.
Qed.
End Rounds.

(** ** Lemmas: opening on the host *)

Lemma open_read_cases p c h : h_files h !! p = Some c ->
  exists h', host_step h h' /\ h_files h' = h_files h /\
    ((open_read p h = (h', false) /\ h_faults h <> [] /\ h_fd h' = h_fd h) \/
     (open_read p h = (h', true) /\ h_fd h' = Some (p, 0))).
Proof.
  intros Hf. destruct (h_fault_cases h) as (h1 & S1 & F1 & D1 & [[E Hne]|E]); unfold open_read; rewrite E.
  - exists h1. auto 8.
  - rewrite F1, Hf. exists (with_fd h1 (Some (p, 0))). split_and!; [done..|]. by right.
Qed.

Lemma stat_cases p c h : h_files h !! p = Some c ->
  exists h', host_step h h' /\ h_files h' = h_files h /\ h_fd h' = h_fd h /\
    ((stat p h = (h', None) /\ h_faults h <> []) \/ stat p h = (h', Some (Z.of_nat (length c)))).
Proof.
  intros Hf. destruct (h_fault_cases h) as (h1 & S1 & F1 & D1 & [[E Hne]|E]); unfold stat; rewrite E; exists h1.
  - auto 8.
  - rewrite F1, Hf. auto 8.
Qed.

(** ** Lemmas: files that are exported *)

(** An operation on the file [p] of the host. *)
Definition host_upd (p : path) (h h' : host) : Prop :=
  host_step h h' /\ delete p (h_files h') = delete p (h_files h).

Lemma host_upd_trans p h1 h2 h3 : host_upd p h1 h2 -> host_upd p h2 h3 -> host_upd p h1 h3.
Proof. intros [S1 E1] [S2 E2]. split; [by eapply host_step_trans|congruence]. Qed.

Lemma host_upd_insert p h h' c : host_step h h' -> h_files h' = <[p := c]> (h_files h) -> host_upd p h h'.
Proof. intros S1 E. split; [done|]. rewrite E. apply delete_insert_eq. Qed.

#[export] Hint Resolve host_upd_trans : mba.

(** The file [old] after [new] was written over its start. *)
Definition over (old new : list Z) : list Z := new ++ drop (length new) old.

Lemma overwrite_next old new bs :
  overwrite (over old new) (Z.of_nat (length new)) bs = over old (new ++ bs).
Proof.
  unfold overwrite, over. rewrite Nat2Z.id, <- (assoc_L (++)), take_app_length, <- (assoc_L (++)). do 2 f_equal.
  rewrite drop_app_ge by lia. rewrite drop_drop, length_app. f_equal. lia.
Qed.

Lemma open_write_cases p h : exists h', host_step h h' /\
  ((open_write p h = (h', false) /\ h_faults h <> [] /\ h_files h' = h_files h /\ h_fd h' = h_fd h) \/
   (open_write p h = (h', true) /\ h_fd h' = Some (p, 0) /\
    h_files h' = <[p := over (default [] (h_files h !! p)) []]> (h_files h))).
Proof.
  destruct (h_fault_cases h) as (h1 & S1 & F1 & D1 & [[E Hne]|E]); unfold open_write; rewrite E.
  - exists h1. auto 8.
  - eexists. split; [|right; split_and!; [reflexivity|done|]]; [done|]. simpl. by rewrite F1.
Qed.

Lemma write_cases bs h p old new :
  h_fd h = Some (p, Z.of_nat (length new)) -> h_files h !! p = Some (over old new) -> h_short h = [] ->
  exists h', host_step h h' /\
    ((write bs h = (h', None) /\ h_faults h <> [] /\ h_files h' = h_files h) \/
     (write bs h = (h', Some (Z.of_nat (length bs))) /\ h_fd h' = Some (p, Z.of_nat (length (new ++ bs))) /\
      h_files h' = <[p := over old (new ++ bs)]> (h_files h))).
Proof.
  intros Hd Hf Hs. destruct (h_fault_cases h) as (h1 & S1 & F1 & D1 & [[E Hne]|E]); unfold write; rewrite E, ?D1, ?Hd.
  - exists h1. auto 8.
  - destruct S1 as (S1 & S2 & S3 & S4). unfold write_size. rewrite (S4 Hs), F1, Hf. simpl.
    rewrite Nat2Z.id, firstn_all, overwrite_next. eexists. split; [|right; split_and!; [reflexivity|simpl|done]]; [done|].
    rewrite length_app. do 2 f_equal. lia.
Qed.

Lemma write_loop_nil fuel : write_loop fuel [] = mret true.
Proof. by destruct fuel. Qed.

Lemma ReadFile_cases n g p w ptr content : g_cur g = Some (p, w, ptr) -> g_files g !! p = Some content ->
  let bs := take (Z.to_nat n) (drop (Z.to_nat ptr) content) in
  exists g', guest_step g g' /\ g_open g' = g_open g /\ g_files g' = g_files g /\
    ((ReadFile n g = (g', None) /\ g_faults g <> [] /\ g_cur g' = g_cur g) \/
     (ReadFile n g = (g', Some bs) /\ g_cur g' = Some (p, w, ptr + Z.of_nat (length bs)))).
Proof.
  intros Hc Hf bs. destruct (g_fault_cases g) as (g1 & S1 & F1 & C1 & O1 & _ & _ & [[E Hne]|E]); unfold ReadFile; rewrite E, C1, Hc.
  - exists g1. rewrite C1. auto 8.
  - rewrite F1, Hf. simpl. eexists. split_and!; [..|right; split; [reflexivity|done]]; done.
Qed.

Lemma GetFileSizeEx_cases g p w ptr content : g_cur g = Some (p, w, ptr) -> g_files g !! p = Some content ->
  exists g', guest_step g g' /\ g_open g' = g_open g /\ g_files g' = g_files g /\ g_cur g' = g_cur g /\
    ((GetFileSizeEx g = (g', None) /\ g_faults g <> []) \/ GetFileSizeEx g = (g', Some (Z.of_nat (length content)))).
Proof.
  intros Hc Hf. destruct (g_fault_cases g) as (g1 & S1 & F1 & C1 & O1 & _ & _ & [[E Hne]|E]);
    unfold GetFileSizeEx; rewrite E, C1, Hc; exists g1; rewrite C1.
  - auto 8.
  - rewrite F1, Hf. auto 8.
Qed.

(** ** Machines for the examples *)

Definition demo_args : act_args :=
  Args (padded 256 (ascii_bytes "dir")) (padded 256 (ascii_bytes "C:/b.txt")) (padded 256 (ascii_bytes "/a.txt")) [].
Definition demo_host (content : list Z) (faults : list bool) : host :=
  Host {[ascii_bytes "/a.txt" := content]} None faults [] false [].
Definition demo_guest (faults : list bool) : guest :=
  Guest ∅ [] None [] 0 faults [] [] 0.
Definition demo_log (msg : string) (args : list Z) : list Z := ascii_bytes msg.
