(* ===== verification/AgentImport.v ===== *)
(** * Import

    A file of the host goes to the guest: [import_host_file] against [import_cmd],
    for every size, every schedule and every combination of failing file
    operations. *)

From S2P Require Import Prelude AgentNet AgentClient AgentServer AgentProto.
From stdpp Require Import strings.

#[local] Open Scope Z_scope.

(** The counter of the bytes stored is used in its lower half. *)
Lemma u32_u64_add a n : u32 (u64 a + n) = u32 (a + n).
Proof.
  unfold u32, u64. rewrite <- (Zplus_mod_idemp_l (a mod 2 ^ 64)), Z.mod_mod_divide by by exists (2 ^ 32).
  by rewrite Zplus_mod_idemp_l.
Qed.

Lemma u32_stored stored junk k n : u32 (u64 (stored + (junk * 2 ^ 32 + k)) + n) = u32 (stored + (k + n)).
Proof.
  rewrite u32_u64_add. unfold u32.
  replace (stored + (junk * 2 ^ 32 + k) + n) with (stored + (k + n) + junk * 2 ^ 32) by lia. apply Z_mod_plus_full.
Qed.

Lemma s32_stored stored k n m : u32 stored = u32 n -> m = n + k -> s32 (u64 (stored + k)) = s32 m.
Proof.
  intros E ->. unfold s32. replace (u64 (stored + k) mod 2 ^ 32) with ((n + k) mod 2 ^ 32); [done|].
  unfold u32, u64 in *. rewrite Z.mod_mod_divide by by exists (2 ^ 32).
  by rewrite <- (Zplus_mod_idemp_l stored), E, Zplus_mod_idemp_l.
Qed.

Lemma import_loop_0 fuel : import_loop fuel 0 = (close;; mret (Some AGENT_RET_SUCCESS)).
Proof. by destruct fuel. Qed.

Section ImportServer.
Context (log_text : string -> list Z -> list Z) (junk : Z).
Context (P : net host guest (option MBA_AGENT_RETURN) round_end -> Prop).
Local Abbreviation len l := (Z.of_nat (length l)).

(** One full chunk of an import: both sides move on by it, or both give up. *)
Lemma import_round_run kc ks src dst n fuel bs rest pre h g stored :
  length bs = Z.to_nat SZ_MAX_FILECHUNK -> len (bs ++ rest) < 2 ^ 64 ->
  h_files h !! src = Some (pre ++ bs ++ rest) -> h_fd h = Some (src, len pre) ->
  g_files g !! dst = Some pre -> g_cur g = Some (dst, true, len pre) ->
  (forall h' g', host_step h h' -> h_files h' = h_files h -> guest_step g g' -> g_open g' = g_open g ->
     h_fd h' = Some (src, len (pre ++ bs)) -> g_files g' = <[dst := pre ++ bs]> (g_files g) ->
     g_cur g' = Some (dst, true, len (pre ++ bs)) ->
     ends (Net (import_loop fuel (len rest) ≫= kc)
             (import_rounds log_text junk n (u64 (stored + (junk * 2 ^ 32 + 8192))) ≫= ks) [] [] h' g') P) ->
  (forall h' g', host_step h h' -> h_files h' = h_files h -> guest_upd dst g g' -> h_faults h <> [] \/ g_faults g <> [] ->
     ends (Net (kc (Some AGENT_RET_EFAIL)) (ks None) [] [] h' g') P) ->
  ends (Net (import_loop (S fuel) (len (bs ++ rest)) ≫= kc) (import_rounds log_text junk (S n) stored ≫= ks) [] [] h g) P.
Proof.
  intros Hl Hs Hf Hfd Hgf Hgc Hok Hno. cbn [import_loop import_rounds].
  assert (bs <> []) as Hbs by (intros Eb; rewrite Eb in Hl; discriminate).
  assert (len (bs ++ rest) = 8192 + len rest) as Hlen by (rewrite length_app, Hl; unfold SZ_MAX_FILECHUNK; lia).
  destruct (Z.eqb_spec (len (bs ++ rest)) 0); [lia|].
  destruct (read_cases SZ_MAX_FILECHUNK h src (len pre) (pre ++ bs ++ rest) Hfd Hf) as (h1 & S1 & F1 & Hcase).
  rewrite Nat2Z.id, drop_app_length, <- Hl, take_app_length in Hcase.
  client. destruct Hcase as [[E Hne]|[E Hfd1]]; rewrite E; cbn [fst snd].
  - client. server. server. client. apply Hno; [by unfold host_step in *|done|done|by left].
  - client. rewrite bool_decide_false by done. client. server. server.
    rewrite take_ge by lia. simp. rewrite bool_decide_false by done. simp.
    rewrite Hl. change (Z.of_nat (Z.to_nat SZ_MAX_FILECHUNK) =? SZ_MAX_FILECHUNK) with true. cbn [negb].
    destruct (WriteFile_cases bs g dst true pre Hgc Hgf) as (g1 & T1 & O1 & [(Ew & Hne & Hc1 & Fg1)|(Ew & Fg1 & Hc1)]).
    + server. rewrite Ew. cbn [fst snd negb]. server. server. client. client. server.
      apply Hno; [by unfold host_step in *|done| |by right].
      unfold CloseHandle; simpl; rewrite Hc1, Hgc; split; [done|]; simpl; by rewrite Fg1.
    + server. rewrite Ew. cbn [fst snd negb]. server. server. client.
      change (Z.of_nat (Z.to_nat SZ_MAX_FILECHUNK) <? SZ_MAX_FILECHUNK) with false. simp.
      replace (u64 (len (bs ++ rest) - Z.of_nat (Z.to_nat SZ_MAX_FILECHUNK))) with (len rest)
        by (unfold u64; rewrite Z.mod_small; unfold SZ_MAX_FILECHUNK in *; lia).
      apply Hok; try done.
      rewrite Hfd1, length_app. do 2 f_equal. lia.
Qed.

(** The full chunks of an import: both sides move on by them, or both give up. *)
Lemma import_rounds_run kc ks src dst n : forall fuel rest pre h g stored,
  (n <= fuel)%nat -> Z.of_nat n * 8192 <= len rest < Z.of_nat n * 8192 + 8192 ->
  len (pre ++ rest) < 2 ^ 64 ->
  h_files h !! src = Some (pre ++ rest) -> h_fd h = Some (src, len pre) ->
  g_files g !! dst = Some pre -> g_cur g = Some (dst, true, len pre) ->
  (forall h' g' stored' pre' rest', pre' ++ rest' = pre ++ rest -> len rest' = len rest - Z.of_nat n * 8192 ->
     host_step h h' -> h_files h' = h_files h -> guest_step g g' -> g_open g' = g_open g ->
     h_fd h' = Some (src, len pre') -> g_files g' = <[dst := pre']> (g_files g) ->
     g_cur g' = Some (dst, true, len pre') -> u32 stored' = u32 (stored + Z.of_nat n * 8192) ->
     ends (Net (import_loop (fuel - n) (len rest') ≫= kc) (ks (Some stored')) [] [] h' g') P) ->
  (forall h' g', host_step h h' -> h_files h' = h_files h -> guest_upd dst g g' -> h_faults h <> [] \/ g_faults g <> [] ->
     ends (Net (kc (Some AGENT_RET_EFAIL)) (ks None) [] [] h' g') P) ->
  ends (Net (import_loop fuel (len rest) ≫= kc) (import_rounds log_text junk n stored ≫= ks) [] [] h g) P.
Proof.
  induction n as [|n IH]; intros fuel rest pre h g stored Hfuel Hr Hs Hf Hfd Hgf Hgc Hok Hno.
  - cbn [import_rounds]. specialize (Hok h g stored pre rest). rewrite Nat.sub_0_r in Hok. apply Hok; try done; try lia.
    + by rewrite insert_id.
    + f_equal. lia.
  - destruct fuel as [|fuel]; [lia|].
    assert (exists bs rest1, rest = bs ++ rest1 /\ length bs = Z.to_nat SZ_MAX_FILECHUNK) as (bs & rest1 & -> & Hl).
    { exists (take (Z.to_nat SZ_MAX_FILECHUNK) rest), (drop (Z.to_nat SZ_MAX_FILECHUNK) rest).
      rewrite take_drop, length_take. split; [done|]. unfold SZ_MAX_FILECHUNK. lia. }
    assert (len bs = 8192) as Hb by (rewrite Hl; done).
    rewrite !length_app in Hs. rewrite length_app in Hr.
    apply (import_round_run _ _ src dst n fuel bs rest1 pre); try done; [rewrite length_app; lia|..].
    + intros h1 g1 S1 F1 T1 O1 Hfd1 Fg1 Hc1. apply (IH fuel rest1 (pre ++ bs)); try done.
      * lia.
      * lia.
      * rewrite !length_app. lia.
      * by rewrite F1, Hf, (assoc_L (++)).
      * rewrite Fg1. apply lookup_insert_eq.
      * intros h' g' stored' pre' rest' Ep El Sh Fh Sg Og Hfd' Fg Hc Hst. apply (Hok h' g' stored' pre' rest'); try done.
        -- by rewrite Ep, (assoc_L (++)).
        -- rewrite length_app. lia.
        -- eauto with mba.
        -- by rewrite Fh.
        -- eauto with mba.
        -- by rewrite Og.
        -- by rewrite Fg, Fg1, insert_insert_eq.
        -- rewrite Hst, u32_stored. f_equal. lia.
      * intros h' g' Sh Fh Ug Hne. apply Hno; [eauto with mba|by rewrite Fh| |].
        -- eapply guest_upd_trans; [by eapply guest_upd_insert|done].
        -- destruct Hne as [Hne|Hne]; [left; intros E0; apply Hne; by apply S1|right; intros E0; apply Hne; by apply T1].
Qed.

(** The end of an import. *)
Lemma set_true_end_run kc ks fuel dst op c stored h g :
  g_open g = op -> sharing_violation op dst true = false -> g_files g !! dst = Some c ->
  (forall h' g' f, host_step h h' -> h_files h' = h_files h -> h_fd h' = None ->
     guest_step g g' -> g_open g' = op -> g_cur g' = None -> g_files g' = <[dst := f]> (g_files g) ->
     0 <= s32 stored -> f = padded (s32 stored) c \/ g_faults g <> [] /\ f = c ->
     ends (Net (kc (Some AGENT_RET_SUCCESS)) (ks RET_SUCCESS) [] [] h' g') P) ->
  (forall h' g', host_step h h' -> h_files h' = h_files h -> guest_upd dst g g' ->
     g_faults g <> [] \/ s32 stored < 0 ->
     ends (Net (kc (Some AGENT_RET_EFAIL)) (ks RET_FAIL) [] [] h' g') P) ->
  ends (Net (proc_bind kc (placed ← ecm_read;
               if negb placed then close;; mret (Some AGENT_RET_EFAIL) else import_loop fuel 0))
          (set_true_end log_text dst stored ≫= ks) [] [] h g) P.
Proof.
  intros Ho Hv Hf Hok Hno.
  destruct (CreateFile_cases dst true OPEN_EXISTING g) as (g1 & S1 & [(E & Hne & C1 & F1 & O1)|(E & _ & C1 & O1 & F1)]);
    [by eauto|..].
  - server. rewrite E. cbn [fst snd].
    destruct (g_fault_cases g1) as (g2 & S2 & F2 & C2 & O2 & _ & _ & E2).
    assert (SetFilePointer stored g1 = (g2, false)) as E3.
    { unfold SetFilePointer. destruct E2 as [[-> _]| ->]; by rewrite C2, C1. }
    server. rewrite E3. cbn [fst snd]. server. server. client. client.
    apply Hno; [done|done| |left; by destruct Hne as [Hne|Hne]; [|rewrite Ho, Hv in Hne]].
    split; [by eapply guest_step_trans|]. simpl. by rewrite F2, F1.
  - server. rewrite E. cbn [fst snd].
    destruct (SetFilePointer_cases stored g1 dst true 0 C1) as (g2 & S2 & O2 & F2 & [(E2 & Hne & _)|(E2 & Hp & C2)]);
      server; rewrite E2; cbn [fst snd].
    + server. server. client. client. apply Hno; [done|done| |].
      * split; [by eapply guest_step_trans|]. simpl. by rewrite F2, F1.
      * destruct Hne as [Hne|Hs]; [left; intros E0; apply Hne; by apply S1|by right].
    + server. destruct (SetEndOfFile_cases g2 _ _ _ C2) as (g3 & S3 & O3 & C3 & E3).
      server. server. server. client. simp. rewrite import_loop_0. client.
      assert (fst (SetEndOfFile g2) = g3) as -> by (destruct E3 as [[Hs _]|[Hs _]]; done).
      destruct (CloseHandle_open (set_log g3 (overwrite (g_log g3) (g_logptr g3) (log_text "Total stored size : %ld bytes" [stored]))
        (g_logptr g3 + len (log_text "Total stored size : %ld bytes" [stored]))) dst true (s32 stored) op) as (Oc & Fc & Cc & Sc & _).
      { simpl. congruence. }
      { simpl. congruence. }
      assert (guest_step g g3) as S13 by eauto with mba.
      destruct E3 as [(_ & Hne & F3)|(_ & F3)].
      * apply (Hok _ _ c); try done; [eauto with mba..|rewrite Fc; simpl; rewrite F3, F2, F1; by rewrite insert_id|].
        right. split; [|done]. intros E0. apply Hne, S2, S1, E0.
      * apply (Hok _ _ (padded (s32 stored) c)); try done; [eauto with mba..| |by left].
        rewrite Fc. simpl. by rewrite F3, F2, F1, Hf.
Qed.

(** The last, short chunk. *)
Lemma import_last_run kc ks src dst op fuel rest pre h g stored :
  0 < len rest < 8192 -> u32 stored = u32 (len pre) ->
  h_files h !! src = Some (pre ++ rest) -> h_fd h = Some (src, len pre) ->
  g_files g !! dst = Some pre -> g_cur g = Some (dst, true, len pre) ->
  g_open g = (dst, true) :: op -> sharing_violation op dst true = false ->
  (forall h' g' f, host_step h h' -> h_files h' = h_files h -> h_fd h' = None ->
     guest_step g g' -> g_open g' = op -> g_cur g' = None -> g_files g' = <[dst := f]> (g_files g) ->
     0 <= s32 (len (pre ++ rest)) ->
     f = padded (s32 (len (pre ++ rest))) (pre ++ padded SZ_MAX_FILECHUNK rest) \/
     g_faults g <> [] /\ f = pre ++ padded SZ_MAX_FILECHUNK rest ->
     ends (Net (kc (Some AGENT_RET_SUCCESS)) (ks RET_SUCCESS) [] [] h' g') P) ->
  (forall h' g', host_step h h' -> h_files h' = h_files h -> guest_upd dst g g' ->
     h_faults h <> [] \/ g_faults g <> [] \/ s32 (len (pre ++ rest)) < 0 ->
     ends (Net (kc (Some AGENT_RET_EFAIL)) (ks RET_FAIL) [] [] h' g') P) ->
  ends (Net (import_loop (S fuel) (len rest) ≫= kc) (import_last log_text dst (len rest) stored ≫= ks) [] [] h g) P.
Proof.
  intros Hr Hst Hf Hfd Hgf Hgc Hgo Hv Hok Hno. cbn [import_loop].
  destruct (Z.eqb_spec (len rest) 0); [lia|].
  destruct (read_cases SZ_MAX_FILECHUNK h src (len pre) (pre ++ rest) Hfd Hf) as (h1 & S1 & F1 & Hcase).
  rewrite Nat2Z.id, drop_app_length, take_ge in Hcase by (unfold SZ_MAX_FILECHUNK; lia).
  client. destruct Hcase as [[E Hne]|[E Hfd1]]; rewrite E; cbn [fst snd].
  { client. server. server. client. apply Hno; [by unfold host_step in *|done|done|by left]. }
  assert (rest <> []) as Hbs by (intros ->; simpl in *; lia).
  client. rewrite bool_decide_false by done. client. server. server.
  rewrite Nat2Z.id, take_ge by lia. simp. rewrite bool_decide_false by done. simp.
  rewrite Z.eqb_refl. cbn [negb].
  destruct (WriteFile_cases (padded SZ_MAX_FILECHUNK rest) g dst true pre Hgc Hgf)
    as (g1 & T1 & O1 & [(Ew & Hne & Hc1 & Fg1)|(Ew & Fg1 & Hc1)]).
  { server. rewrite Ew. cbn [fst snd negb]. server. server. client. client. server.
    apply Hno; [by unfold host_step in *|done| |auto].
    unfold CloseHandle; simpl; rewrite Hc1, Hgc; split; [done|]; simpl; by rewrite Fg1. }
  server. rewrite Ew. cbn [fst snd negb]. server. server. client. simp.
  replace (len rest <? SZ_MAX_FILECHUNK) with true by (symmetry; apply Z.ltb_lt; unfold SZ_MAX_FILECHUNK; lia).
  rewrite Z.sub_diag. change (u64 0) with 0.
  destruct (CloseHandle_open g1 dst true (len (pre ++ padded SZ_MAX_FILECHUNK rest)) op) as (Oc & Fc & Cc & Sc & Hfc);
    [done|by rewrite O1|].
  assert (s32 (u64 (stored + len rest)) = s32 (len (pre ++ rest))) as Es by (apply (s32_stored _ _ (len pre)); [done|]; by rewrite length_app, Nat2Z.inj_add).
  apply (set_true_end_run _ _ _ _ op (pre ++ padded SZ_MAX_FILECHUNK rest)); [done|done| | |]; rewrite ?Es.
  - rewrite Fc, Fg1. apply lookup_insert_eq.
  - intros h' g' f Sh Fh Hfd' Sg Og Cg Fg Hp Hcase. apply (Hok h' g' f); try done.
    + eauto with mba.
    + congruence.
    + eauto with mba.
    + by rewrite Fg, Fc, Fg1, insert_insert_eq.
    + destruct Hcase as [Hf1|[Hne Hf1]]; [by left|right]. split; [|done]. intros E0. apply Hne, Sc, T1, E0.
  - intros h' g' Sh Fh Ug Hne. apply Hno; [eauto with mba|congruence| |].
    + eapply guest_upd_trans; [by eapply guest_upd_insert|]. eapply guest_upd_trans; [|exact Ug]. split; [done|by rewrite Fc].
    + right. destruct Hne as [Hne|Hs]; [left|by right]. intros E0. apply Hne, Sc, T1, E0.
Qed.
End ImportServer.

(** ** Import, the whole of it *)

Section ImportAction.
Context (log_text : string -> list Z -> list Z) (junk : Z).
Local Abbreviation len l := (Z.of_nat (length l)).
Local Abbreviation system := (net host guest (option MBA_AGENT_RETURN) round_end).

(** What an import of [content] can leave in the destination when both sides
    report success: the size is placed with a 32-bit call, whose effect is not
    checked. *)
Definition import_result (content f : list Z) (g : guest) : Prop :=
  if len content mod SZ_MAX_FILECHUNK =? 0 then f = content
  else 0 <= s32 (len content) /\
    (f = take (Z.to_nat (s32 (len content))) content \/
     g_faults g <> [] /\
     f = content ++ replicate (Z.to_nat (SZ_MAX_FILECHUNK - len content mod SZ_MAX_FILECHUNK)) 0).

(** Why an import whose command reached the server can fail. *)
Definition import_trouble (content dst : list Z) (h : host) (g : guest) : Prop :=
  h_faults h <> [] \/ g_faults g <> [] \/ sharing_violation (g_open g) dst true = true \/ s32 (len content) < 0.

(** The ends of an import: success on both sides, failure on both sides, or
    failure before anything was sent. *)
Definition import_end (content dst : list Z) (h : host) (g : guest) (x : system) : Prop :=
  (exists h' g' f, x = Net (Done (Some AGENT_RET_SUCCESS)) (Done (Answered RET_SUCCESS)) [] [] h' g' /\
     h_files h' = h_files h /\ h_fd h' = None /\ h_out h' = h_out h ++ ack_text (ascii_bytes "impo " ++ dst) /\
     (h_faults h = [] -> h_faults h' = []) /\ (h_short h = [] -> h_short h' = []) /\ guest_step g g' /\
     g_files g' = <[dst := f]> (g_files g) /\ g_open g' = g_open g /\
     sharing_violation (g_open g) dst true = false /\ import_result content f g) \/
  (exists h' g', x = Net (Done (Some AGENT_RET_EFAIL)) (Done (Answered RET_FAIL)) [] [] h' g' /\
     h_files h' = h_files h /\ h_out h' = h_out h /\ guest_upd dst g g' /\ import_trouble content dst h g) \/
  (exists h', x = Net (Done (Some AGENT_RET_EFAIL)) (server_round log_text junk) [] [] h' g /\
     h_files h' = h_files h /\ h_out h' = h_out h /\ h_faults h <> []).

Lemma padded_zeros n c k : 0 <= n <= len c -> padded n (c ++ replicate k 0) = take (Z.to_nat n) c.
Proof. intros Hn. unfold padded. rewrite <- (assoc_L (++)), take_app_le by lia. done. Qed.

Lemma import_result_step content f g g' : guest_step g g' -> import_result content f g' -> import_result content f g.
Proof.
  intros (_ & _ & _ & S1). unfold import_result. case_if; [done|]. intros [Hp [Hc|[Hc Hc2]]]; (split; [done|]); [by left|right; split; [|done]].
  intros E. by apply Hc, S1.
Qed.

(** After the full chunks. *)
Lemma import_tail_run (P : system -> Prop) kc ks src dst op content pre rest fuel h g stored :
  pre ++ rest = content -> len rest < 8192 -> len content mod 8192 = len rest -> (0 < fuel)%nat ->
  u32 stored = u32 (len pre) -> h_files h !! src = Some content -> h_fd h = Some (src, len pre) ->
  g_files g !! dst = Some pre -> g_cur g = Some (dst, true, len pre) ->
  g_open g = (dst, true) :: op -> sharing_violation op dst true = false ->
  (forall h' g' f, host_step h h' -> h_files h' = h_files h -> h_fd h' = None ->
     guest_step g g' -> g_open g' = op -> g_files g' = <[dst := f]> (g_files g) -> import_result content f g ->
     ends (Net (kc (Some AGENT_RET_SUCCESS)) (ks RET_SUCCESS) [] [] h' g') P) ->
  (forall h' g', host_step h h' -> h_files h' = h_files h -> guest_upd dst g g' ->
     h_faults h <> [] \/ g_faults g <> [] \/ s32 (len content) < 0 ->
     ends (Net (kc (Some AGENT_RET_EFAIL)) (ks RET_FAIL) [] [] h' g') P) ->
  ends (Net (import_loop fuel (len rest) ≫= kc)
          ((if len rest =? 0
            then write_agent_log log_text "Total stored size : %ld bytes" [stored];; close_handle;; mret RET_SUCCESS
            else import_last log_text dst (len rest) stored) ≫= ks) [] [] h g) P.
Proof.
  intros Ec Hr Em Hfuel Hst Hf Hfd Hgf Hgc Hgo Hv Hok Hno.
  assert (len content = len pre + len rest) as Elen by (rewrite <- Ec, length_app; lia).
  destruct (Z.eqb_spec (len rest) 0) as [E0|E0].
  - rewrite E0, import_loop_0. client. server. server.
    destruct rest; [|done]. rewrite app_nil_r in Ec. subst pre.
    match goal with |- ends (Net _ _ _ _ _ (CloseHandle ?G)) _ =>
      destruct (CloseHandle_open G dst true (len content) op) as (Oc & Fc & Cc & Sc & _); [done..|] end.
    apply (Hok _ _ content); try done; [rewrite Fc; simpl; by rewrite insert_id|].
    unfold import_result. change SZ_MAX_FILECHUNK with 8192. by rewrite Em, E0.
  - destruct fuel as [|fuel]; [lia|].
    apply (import_last_run log_text P _ _ src dst op _ rest pre); rewrite ?Ec; try done; [lia|].
    intros h2 g2 f Sh2 Fh2 Hfd2 Sg2 Og2 Cg2 Fg2 Hp Hcase. apply (Hok h2 g2 f); try done.
    unfold import_result. change SZ_MAX_FILECHUNK with 8192. rewrite Em. destruct (Z.eqb_spec (len rest) 0); [done|].
    split; [done|]. rewrite (padded_short SZ_MAX_FILECHUNK rest), (assoc_L (++)), Ec in Hcase by (unfold SZ_MAX_FILECHUNK; lia).
    rewrite padded_zeros in Hcase by (split; [done|apply s32_le; lia]).
    destruct Hcase as [Hc|[Hc Hc2]]; [by left|right]. split; [done|]. rewrite Hc2. do 2 f_equal. unfold SZ_MAX_FILECHUNK. lia.
Qed.

(** From the client's first chunk on. *)
Lemma import_body_run (P : system -> Prop) kc ks src dst op content fuel h g :
  len content < 2 ^ 45 -> (Z.to_nat (len content / SZ_MAX_FILECHUNK) < fuel)%nat ->
  h_files h !! src = Some content -> h_fd h = Some (src, 0) ->
  g_files g !! dst = Some [] -> g_cur g = Some (dst, true, 0) ->
  g_open g = (dst, true) :: op -> sharing_violation op dst true = false ->
  (forall h' g' f, host_step h h' -> h_files h' = h_files h -> h_fd h' = None ->
     guest_step g g' -> g_open g' = op -> g_files g' = <[dst := f]> (g_files g) -> import_result content f g ->
     ends (Net (kc (Some AGENT_RET_SUCCESS)) (ks RET_SUCCESS) [] [] h' g') P) ->
  (forall h' g', host_step h h' -> h_files h' = h_files h -> guest_upd dst g g' ->
     h_faults h <> [] \/ g_faults g <> [] \/ s32 (len content) < 0 ->
     ends (Net (kc (Some AGENT_RET_EFAIL)) (ks RET_FAIL) [] [] h' g') P) ->
  ends (Net (import_loop fuel (len content) ≫= kc)
          (proc_bind ks (stored ← import_rounds log_text junk (Z.to_nat (u32 (len content / SZ_MAX_FILECHUNK))) 0;
            match stored with
            | Some stored =>
                if len content mod SZ_MAX_FILECHUNK =? 0
                then write_agent_log log_text "Total stored size : %ld bytes" [stored];; close_handle;; mret RET_SUCCESS
                else import_last log_text dst (len content mod SZ_MAX_FILECHUNK) stored
            | None => mret RET_FAIL
            end)) [] [] h g) P.
Proof.
  intros Hl Hfuel Hf Hfd Hgf Hgc Hgo Hv Hok Hno.
  rewrite bind_assoc. set (q := len content / SZ_MAX_FILECHUNK) in *.
  assert (len content = SZ_MAX_FILECHUNK * q + len content mod SZ_MAX_FILECHUNK) as Hq by (apply Z.div_mod; done).
  pose proof (Z.mod_pos_bound (len content) SZ_MAX_FILECHUNK eq_refl) as Hm. unfold SZ_MAX_FILECHUNK in Hq at 1, Hm at 3.
  assert (0 <= q < 2 ^ 32) as Hqr by lia.
  replace (u32 q) with q by (symmetry; by apply Z.mod_small).
  apply (import_rounds_run log_text junk P _ _ src dst (Z.to_nat q) fuel content []); simpl; try done; [lia..| |].
  - intros h' g' stored pre rest Ec El Sh Fh Sg Og Hfd' Fg Cg Hst.
    rewrite Z2Nat.id in * by lia. change (SZ_MAX_FILECHUNK) with 8192 in *.
    assert (len content mod 8192 = len rest) as Em by lia. rewrite Em.
    assert (len content = len pre + len rest) as Elen by (rewrite <- Ec, length_app; lia).
    apply (import_tail_run _ _ _ src dst op content pre rest); try done; try lia.
    + rewrite Hst. f_equal. lia.
    + by rewrite Fh.
    + by rewrite Fg, lookup_insert_eq.
    + by rewrite Og.
    + intros h2 g2 f Sh2 Fh2 Hfd2 Sg2 Og2 Fg2 Hres. apply (Hok h2 g2 f); try done; [by eauto with mba|congruence|by eauto with mba|..].
      * by rewrite Fg2, Fg, insert_insert_eq.
      * eapply import_result_step; [exact Sg|done].
    + intros h2 g2 Sh2 Fh2 Ug Hn. apply Hno; [eauto with mba|congruence| |].
      * eapply guest_upd_trans; [|exact Ug]. by eapply guest_upd_insert.
      * destruct Hn as [Hn|[Hn|Hn]]; [left|right; left|auto]; intros E1; apply Hn; [apply Sh, E1|apply Sg, E1].
  - intros h' g' Sh Fh Ug Hn. apply Hno; [done..|]. tauto.
Qed.

(** From the size on. *)
Lemma import_cmd_run (P : system -> Prop) kc ks src dst content fuel h g :
  len content < 2 ^ 45 -> (Z.to_nat (len content / SZ_MAX_FILECHUNK) < fuel)%nat ->
  h_files h !! src = Some content -> h_fd h = Some (src, 0) ->
  (forall h' g' f, host_step h h' -> h_files h' = h_files h -> h_fd h' = None ->
     guest_step g g' -> g_open g' = g_open g -> g_files g' = <[dst := f]> (g_files g) ->
     sharing_violation (g_open g) dst true = false -> import_result content f g ->
     ends (Net (kc (Some AGENT_RET_SUCCESS)) (ks RET_SUCCESS) [] [] h' g') P) ->
  (forall h' g', host_step h h' -> h_files h' = h_files h -> guest_upd dst g g' -> import_trouble content dst h g ->
     ends (Net (kc (Some AGENT_RET_EFAIL)) (ks RET_FAIL) [] [] h' g') P) ->
  ends (Net (proc_bind kc (ready ← ecm_read;
               if negb ready then close;; mret (Some AGENT_RET_EFAIL) else import_loop fuel (len content)))
          (import_cmd log_text junk dst ≫= ks) [le_bytes 8 (len content)] [] h g) P.
Proof.
  intros Hl Hfuel Hf Hfd Hok Hno. server.
  rewrite take_all by (rewrite le_bytes_length; done).
  assert (le_bytes 8 (len content) <> []) as Hne by (intros E0; by apply (f_equal length) in E0; rewrite le_bytes_length in E0).
  simp. rewrite (bool_decide_false (le_bytes 8 (len content) = [])) by done. simp.
  rewrite le_bytes_length, le_value_bytes by lia. change (negb (Z.of_nat 8 =? 8)) with false.
  server. server.
  match goal with |- ends (Net _ _ _ _ _ ?G) _ => set (g0 := G) end.
  assert (g_files g0 = g_files g /\ g_open g0 = g_open g /\ guest_step g g0 /\ g_faults g0 = g_faults g)
    as (F0 & O0 & S0 & X0) by done. clearbody g0.
  destruct (CreateFile_cases dst true CREATE_ALWAYS g0) as (g1 & S1 & [(E & Hv & C1 & F1 & O1)|(E & Hv & C1 & O1 & F1)]); [done|..].
  { server. rewrite E. cbn [fst snd]. server. server. client. client.
    apply Hno; [done|done|split; [by eapply guest_step_trans|simpl; congruence]|].
    unfold import_trouble. rewrite X0, O0 in Hv. tauto. }
  server. rewrite E. cbn [fst snd]. server. client. simp.
  assert (guest_upd dst g g1) as U1 by (apply guest_upd_insert with (c := []); [by eapply guest_step_trans|congruence]).
  apply (import_body_run P kc ks src dst (g_open g)); try done.
  - by rewrite F1, lookup_insert_eq.
  - by rewrite O1, O0.
  - by rewrite <- O0.
  - intros h' g' f Sh Fh Hfd' Sg Og Fg Hres. apply (Hok h' g' f); try done; [by eauto with mba|..].
    + by rewrite Fg, F1, insert_insert_eq, F0.
    + by rewrite <- O0.
    + eapply import_result_step; [|exact Hres]. by eapply guest_step_trans.
  - intros h' g' Sh Fh Ug Hn. apply Hno; [done..|by eapply guest_upd_trans|].
    unfold import_trouble. destruct Hn as [Hn|[Hn|Hn]]; [auto| |auto]. right. left. intros E0. apply Hn, S1, S0, E0.
Qed.

Lemma import_run fuel a content h g :
  h_files h !! arg_src a = Some content -> len content < 2 ^ 45 ->
  (Z.to_nat (len content / SZ_MAX_FILECHUNK) < fuel)%nat -> plain (ascii_bytes "impo " ++ arg_dst a) ->
  ends (Net (run_action fuel AGENT_ACT_IMPO a) (server_round log_text junk) [] [] h g) (import_end content (arg_dst a) h g).
Proof.
  intros Hf Hl Hfuel Hp.
  destruct (open_read_cases _ _ _ Hf) as (h1 & S1 & F1 & [(E1 & Hn1 & _)|(E1 & D1)]); client; rewrite E1; cbn [fst snd].
  { apply ends_waiting. right. right. exists h1. split_and!; [done|done|by apply S1|done]. }
  assert (h_files h1 !! arg_src a = Some content) as Hf1 by congruence.
  destruct (stat_cases _ _ _ Hf1) as (h2 & S2 & F2 & D2 & [[E2 Hn2]|E2]); client; rewrite E2; cbn [fst snd].
  { client. apply ends_waiting. right. right. eexists. split_and!; [done|simpl; congruence|..].
    - simpl. rewrite (proj1 S2). apply S1.
    - intros E. apply Hn2, S1, E. }
  client. client. apply server_accepts; [done|]. intros log ptr.
  set (buf := received (command (ascii_bytes "impo ") (arg_dst a))).
  assert (run_command log_text junk buf = import_cmd log_text junk (arg_dst a)) as ->.
  { unfold run_command, buf. rewrite command_line_plain by done. by rewrite (identify_plain MBA_CMD_IMPO). }
  apply (import_cmd_run _ acknowledge _ (arg_src a) _ content); try done; [by rewrite F2|by rewrite D2|..].
  - intros h' g' f Sh Fh Dh Sg Og Fg Hv Hres. apply both_succeeded; [done|]. intros h3 g3 F3 D3 O3 _ X3 Y3 Sg3 Fg3 Og3 _ _.
    left. exists h3, g3, f. split_and!; [done|congruence|congruence| | | | |by rewrite Fg3, Fg|by rewrite Og3, Og|done|done].
    + rewrite O3, (proj1 Sh), (proj1 S2), (proj1 S1). done.
    + intros E. rewrite X3. apply Sh, S2, S1, E.
    + intros E. rewrite Y3. apply Sh, S2, S1, E.
    + eapply guest_step_trans; [exact Sg|done].
  - intros h' g' Sh Fh Ug Ht. apply both_failed. intros g3 Sg3 Fg3 Og3 _. right. left. exists h', g3.
    split_and!; [done|congruence| | |].
    + by rewrite (proj1 Sh), (proj1 S2), (proj1 S1).
    + destruct Ug as [Ug Ud]. split; [by eapply guest_step_trans|by rewrite Fg3].
    + unfold import_trouble in *. destruct Ht as [Ht|Ht]; [left|by right]. intros E. apply Ht, S2, S1, E.
Qed.
End ImportAction.

(** The end of an import that worked. *)
Definition imported (content dst : list Z) (h : host) (g : guest)
    (x : net host guest (option MBA_AGENT_RETURN) round_end) : Prop :=
  exists h' g', x = Net (Done (Some AGENT_RET_SUCCESS)) (Done (Answered RET_SUCCESS)) [] [] h' g' /\
    h_files h' = h_files h /\ h_fd h' = None /\ h_out h' = h_out h ++ ack_text (ascii_bytes "impo " ++ dst) /\
    h_faults h' = [] /\ (h_short h = [] -> h_short h' = []) /\ guest_step g g' /\ g_files g' = <[dst := content]> (g_files g) /\ g_open g' = g_open g.

Lemma import_success log_text junk fuel a content h g :
  h_files h !! arg_src a = Some content -> Z.of_nat (length content) < 2 ^ 31 ->
  (Z.to_nat (Z.of_nat (length content) / SZ_MAX_FILECHUNK) < fuel)%nat ->
  plain (ascii_bytes "impo " ++ arg_dst a) ->
  h_faults h = [] -> g_faults g = [] -> sharing_violation (g_open g) (arg_dst a) true = false ->
  ends (Net (run_action fuel AGENT_ACT_IMPO a) (server_round log_text junk) [] [] h g) (imported content (arg_dst a) h g).
Proof.
  intros Hf Hl Hfuel Hp Hh Hg Hv.
  assert (s32 (Z.of_nat (length content)) = Z.of_nat (length content)) as Es.
  { unfold s32. rewrite Z.mod_small by lia. case_if; lia. }
  eapply ends_mono; [|by apply import_run; [done|lia|..]]. simpl.
  intros x [(h' & g' & f & -> & Fh & Dh & Oh & Xh & Yh & Sg & Fg & Og & _ & Hr)|[(h' & g' & -> & _ & _ & _ & Ht)|(h' & -> & _ & _ & Hne)]].
  - exists h', g'. split_and!; auto; [by apply Sg..|]. rewrite Fg. f_equal. unfold import_result in Hr.
    rewrite Es, Nat2Z.id, Hg in Hr. revert Hr. case_if; [done|]. intros [_ [->|[? _]]]; [by rewrite take_ge|done].
  - unfold import_trouble in Ht. rewrite Es, Hh, Hg, Hv in Ht. exfalso. destruct Ht as [?|[?|[?|?]]]; done || lia.
  - done.
Qed.

(** ** Theorems: import *)

(** C10: An import with working file systems copies the host's file into the
    guest, whatever the order in which the emulator's thread and the guest's
    server run: every schedule is bounded, none gets stuck, and at the end both
    sides report success, the guest's file has the bytes of the host's, no other
    file and no open handle has changed, no datagram is left, and the monitor shows
    the server's echo of the command. The file is below 2 GiB, the destination's
    name is one that the server can log, and no handle to the destination is open. *)
Theorem import_end_to_end log_text junk fuel a content h g :
  h_files h !! arg_src a = Some content -> Z.of_nat (length content) < 2 ^ 31 ->
  (Z.to_nat (Z.of_nat (length content) / SZ_MAX_FILECHUNK) < fuel)%nat ->
  plain (ascii_bytes "impo " ++ arg_dst a) ->
  h_faults h = [] -> g_faults g = [] -> sharing_violation (g_open g) (arg_dst a) true = false ->
  always_ends (Net (run_action fuel AGENT_ACT_IMPO a) (server_round log_text junk) [] [] h g)
    (imported content (arg_dst a) h g).
Proof. intros. apply ends_all. by apply import_success. Qed.


(** The size that ends the imported file is given to SetFilePointer as a
    32-bit number: a file of 4 GiB and a few bytes is cut to those few bytes, and
    both sides report success. *)
Theorem import_truncates log_text junk fuel a content h g :
  h_files h !! arg_src a = Some content -> 2 ^ 32 < Z.of_nat (length content) < 2 ^ 32 + SZ_MAX_FILECHUNK ->
  (Z.to_nat (Z.of_nat (length content) / SZ_MAX_FILECHUNK) < fuel)%nat -> plain (ascii_bytes "impo " ++ arg_dst a) ->
  h_faults h = [] -> g_faults g = [] -> sharing_violation (g_open g) (arg_dst a) true = false ->
  always_ends (Net (run_action fuel AGENT_ACT_IMPO a) (server_round log_text junk) [] [] h g)
    (fun x => exists h' g',
       x = Net (Done (Some AGENT_RET_SUCCESS)) (Done (Answered RET_SUCCESS)) [] [] h' g' /\
       g_files g' = <[arg_dst a := take (length content - Z.to_nat (2 ^ 32)) content]> (g_files g)).
Proof.
  intros Hf Hl Hfuel Hp Hh Hg Hv. unfold SZ_MAX_FILECHUNK in Hl. apply ends_all.
  set (r := Z.of_nat (length content) - 2 ^ 32). assert (Z.of_nat (length content) = r + 1 * 2 ^ 32) as Er by lia.
  assert (s32 (Z.of_nat (length content)) = r) as Es.
  { unfold s32. rewrite Er, Z_mod_plus_full, Z.mod_small by lia. case_if; lia. }
  eapply ends_mono; [|by apply import_run; [done|lia|..]]. simpl.
  intros x [(h' & g' & f & -> & Fh & Dh & Oh & _ & _ & _ & Fg & Og & _ & Hr)|[(h' & g' & -> & _ & _ & _ & Ht)|(h' & -> & _ & _ & Hne)]].
  - exists h', g'. split_and!; try done. rewrite Fg. f_equal. unfold import_result in Hr.
    rewrite Es, Hg in Hr. revert Hr. replace (Z.of_nat (length content) mod SZ_MAX_FILECHUNK) with r.
    + case_if; [lia|]. intros [_ [->|[? _]]]; [f_equal; lia|done].
    + rewrite Er. unfold SZ_MAX_FILECHUNK. change (1 * 2 ^ 32) with (524288 * 8192). rewrite Z_mod_plus_full, Z.mod_small; lia.
  - unfold import_trouble in Ht. rewrite Es, Hh, Hg, Hv in Ht. exfalso. destruct Ht as [?|[?|[?|?]]]; done || lia.
  - done.
Qed.

(** *** Witnesses *)

Lemma demo_plain : plain (ascii_bytes "impo " ++ arg_dst demo_args).
Proof. split_and!; [apply (bool_decide_unpack _); vm_compute; exact I..|vm_compute; discriminate]. Qed.

Lemma import_end_to_end_witness :
  h_faults (demo_host [1; 2; 3] []) = [] /\
  always_ends (Net (run_action 1 AGENT_ACT_IMPO demo_args) (server_round demo_log 0) [] []
                 (demo_host [1; 2; 3] []) (demo_guest []))
    (imported [1; 2; 3] (arg_dst demo_args) (demo_host [1; 2; 3] []) (demo_guest [])).
Proof.
  split; [reflexivity|]. apply import_end_to_end; [reflexivity|vm_compute; reflexivity|vm_compute; lia|apply demo_plain|reflexivity..].
Defined.


Lemma import_truncates_witness :
  let content := replicate (Z.to_nat (2 ^ 32 + 1)) 65 in
  h_faults (demo_host content []) = [] /\
  always_ends (Net (run_action (Z.to_nat (2 ^ 20)) AGENT_ACT_IMPO demo_args) (server_round demo_log 0) [] []
                 (demo_host content []) (demo_guest []))
    (fun x => exists h' g',
       x = Net (Done (Some AGENT_RET_SUCCESS)) (Done (Answered RET_SUCCESS)) [] [] h' g' /\
       g_files g' = <[arg_dst demo_args := take (length content - Z.to_nat (2 ^ 32)) content]> (g_files (demo_guest []))).
Proof.
  intros content. assert (Z.of_nat (length content) = 2 ^ 32 + 1) as El.
  { unfold content. rewrite length_replicate. apply Z2Nat.id. discriminate. }
  clearbody content. split; [reflexivity|].
  apply import_truncates; [reflexivity|rewrite El; split; vm_compute; reflexivity| |apply demo_plain|reflexivity..].
  rewrite El. change ((2 ^ 32 + 1) / SZ_MAX_FILECHUNK) with (2 ^ 19). lia.
Defined.
