(* ===== verification/AgentExport.v ===== *)
(** * Export

    A file of the guest goes to the host: [export_guest_file] against
    [export_cmd]. *)

From S2P Require Import Prelude AgentNet AgentClient AgentServer AgentProto.
From stdpp Require Import strings.

#[local] Open Scope Z_scope.

(** ** Export *)

Section ExportServer.
Context (log_text : string -> list Z -> list Z) (junk : Z).
Local Abbreviation system := (net host guest (option MBA_AGENT_RETURN) round_end).
Context (P : system -> Prop).
Local Abbreviation len l := (Z.of_nat (length l)).

(** One chunk: the client stores it, or both sides give up. *)
Lemma chunk_run kc ks dst old new bs fuel fsize h g :
  0 < len bs -> len bs = (if fsize <? SZ_MAX_FILECHUNK then fsize else SZ_MAX_FILECHUNK) ->
  h_fd h = Some (dst, len new) -> h_files h !! dst = Some (over old new) -> h_short h = [] ->
  (forall h', host_step h h' -> h_fd h' = Some (dst, len (new ++ bs)) ->
     h_files h' = <[dst := over old (new ++ bs)]> (h_files h) ->
     ends (Net (store_loop fuel (fsize - len bs) ≫= kc) (ks true) [] [] h' g) P) ->
  (forall h', host_step h h' -> h_files h' = h_files h -> h_faults h <> [] ->
     ends (Net (kc AGENT_RET_EFAIL) (ks false) [] [] h' g) P) ->
  ends (Net (store_loop (S fuel) fsize ≫= kc)
          (proc_bind ks (send_ecm_msg log_text true;; ac_write log_text bs;; recv_ecm_msg log_text)) [] [] h g) P.
Proof.
  intros Hb Hlen Hd Hf Hsh Hok Hno. cbn [store_loop].
  destruct (Z.eqb_spec fsize 0) as [->|Hz]; [by simpl in Hlen; lia|].
  assert (bs <> []) as Hbs by (intros ->; simpl in *; lia).
  server. server. simp. rewrite (bool_decide_false (bs = [])) by done. client. client.
  rewrite take_all by lia. simp. rewrite (bool_decide_false (bs = [])) by done. simp.
  rewrite (bool_decide_false (bs = [])) by done.
  destruct bs as [|b0 bs0] eqn:Ebs; [done|]. rewrite <- Ebs in *. clear b0 bs0 Ebs.
  destruct (length bs) as [|fuel0] eqn:El; [lia|]. cbn [write_loop]. rewrite (bool_decide_false (bs = [])) by done.
  destruct (write_cases bs h dst old new Hd Hf Hsh) as (h1 & S1 & [(E & Hne & F1)|(E & D1 & F1)]); client; rewrite E; cbn [fst snd].
  - client. client. server. simp. apply Hno; [by unfold host_step in *|done..].
  - client. server. simp. rewrite Nat2Z.id, drop_all, write_loop_nil. simp. by apply Hok.
Qed.

Lemma send_chunk_eq (ks : bool -> proc guest round_end) bs msg :
  proc_bind ks (send_chunk log_text 0 bs msg) =
  proc_bind (fun stored : bool => proc_bind ks (if negb stored then write_agent_log log_text msg [];; mret false else mret true))
    (send_ecm_msg log_text true;; ac_write log_text bs;; recv_ecm_msg log_text).
Proof.
  unfold send_chunk. rewrite Z.mul_0_l, Z.add_0_l, Z.eqb_refl. cbn [negb].
  rewrite !(bind_assoc (send_ecm_msg log_text true)). apply bind_ext. intros _.
  rewrite !(bind_assoc (ac_write log_text bs)). apply bind_ext. intros _. by rewrite (bind_assoc (recv_ecm_msg log_text)).
Qed.

Lemma send_chunk_run kc ks dst old new bs msg fuel fsize h g :
  0 < len bs -> len bs = (if fsize <? SZ_MAX_FILECHUNK then fsize else SZ_MAX_FILECHUNK) ->
  h_fd h = Some (dst, len new) -> h_files h !! dst = Some (over old new) -> h_short h = [] ->
  (forall h', host_step h h' -> h_fd h' = Some (dst, len (new ++ bs)) ->
     h_files h' = <[dst := over old (new ++ bs)]> (h_files h) ->
     ends (Net (store_loop fuel (fsize - len bs) ≫= kc) (ks true) [] [] h' g) P) ->
  (forall h' g', host_step h h' -> h_files h' = h_files h -> h_faults h <> [] ->
     guest_step g g' -> g_files g' = g_files g ->
     ends (Net (kc AGENT_RET_EFAIL) (ks false) [] [] h' g') P) ->
  ends (Net (store_loop (S fuel) fsize ≫= kc) (proc_bind ks (send_chunk log_text 0 bs msg)) [] [] h g) P.
Proof.
  intros Hb Hlen Hd Hf Hsh Hok Hno. rewrite send_chunk_eq. eapply chunk_run; try done.
  intros h' Sh Fh Hne. server. by apply Hno.
Qed.

(** The full chunks. *)
Lemma export_rounds_run kc ks src dst old n : forall fuel pre rest h g sent,
  (n <= fuel)%nat -> Z.of_nat n * 8192 <= len rest -> n = 0%nat \/ junk = 0 ->
  0 <= sent -> sent + Z.of_nat n * 8192 < 2 ^ 64 ->
  h_fd h = Some (dst, len pre) -> h_files h !! dst = Some (over old pre) -> h_short h = [] ->
  g_files g !! src = Some (pre ++ rest) -> g_cur g = Some (src, false, len pre) ->
  (forall h' g' pre' rest', pre' ++ rest' = pre ++ rest -> len rest' = len rest - Z.of_nat n * 8192 ->
     host_step h h' -> h_fd h' = Some (dst, len pre') -> h_files h' = <[dst := over old pre']> (h_files h) ->
     guest_step g g' -> g_open g' = g_open g -> g_files g' = g_files g -> g_cur g' = Some (src, false, len pre') ->
     ends (Net (store_loop (fuel - n) (len rest') ≫= kc) (ks (Some (sent + Z.of_nat n * 8192))) [] [] h' g') P) ->
  (forall h' g', host_upd dst h h' -> guest_step g g' -> g_files g' = g_files g ->
     h_faults h <> [] \/ g_faults g <> [] ->
     ends (Net (kc AGENT_RET_EFAIL) (ks None) [] [] h' g') P) ->
  ends (Net (store_loop fuel (len rest) ≫= kc) (export_rounds log_text junk n sent ≫= ks) [] [] h g) P.
Proof.
  induction n as [|n IH]; intros fuel pre rest h g sent Hfuel Hr Hj Hs0 Hs Hd Hf Hsh Hgf Hgc Hok Hno.
  - specialize (Hok h g pre rest). rewrite Nat.sub_0_r, Z.add_0_r in Hok. apply Hok; try done; [lia|by rewrite insert_id].
  - destruct Hj as [Hj|Hj]; [done|]. destruct fuel as [|fuel]; [lia|]. cbn [export_rounds].
    destruct (ReadFile_cases SZ_MAX_FILECHUNK g src false (len pre) (pre ++ rest) Hgc Hgf) as (g1 & T1 & O1 & G1 & Hcase).
    rewrite Nat2Z.id, drop_app_length in Hcase.
    server. destruct Hcase as [(E & Hne & C1)|[E C1]]; rewrite E; cbn [fst snd].
    + server. server. cbn [store_loop]. destruct (Z.eqb_spec (len rest) 0); [lia|]. client. client.
      apply Hno; [by unfold host_upd, host_step in *|by unfold guest_step in *|done|by right].
    + set (bs := take (Z.to_nat SZ_MAX_FILECHUNK) rest) in *.
      assert (len bs = 8192) as Hl by (unfold bs; rewrite length_take; unfold SZ_MAX_FILECHUNK; lia).
      set (rest1 := drop (Z.to_nat SZ_MAX_FILECHUNK) rest) in *.
      assert (pre ++ rest = (pre ++ bs) ++ rest1) as Epr by (unfold bs, rest1; by rewrite <- (assoc_L (++)), take_drop).
      assert (len rest1 = len rest - 8192) as Hl1 by (unfold rest1; rewrite length_drop; unfold SZ_MAX_FILECHUNK in *; lia).
      simp. rewrite (bind_assoc (send_chunk _ _ _ _)).
      replace (send_chunk log_text junk) with (send_chunk log_text 0) by (by rewrite Hj).
      apply (send_chunk_run _ _ dst old pre); try done.
      * lia.
      * unfold SZ_MAX_FILECHUNK. case_if; lia.
      * intros h1 S1 D1 F1. cbn [negb]. rewrite Hl, <- Hl1.
        replace (u64 (sent + 8192)) with (sent + 8192) by (symmetry; apply Z.mod_small; lia).
        apply (IH fuel (pre ++ bs)); try done; [lia|lia|by right|lia|lia|by rewrite F1, lookup_insert_eq|by apply S1|by rewrite G1, <- Epr| | |].
        -- rewrite C1, length_app. do 2 f_equal. lia.
        -- intros h' g' pre' rest' Ep El Sh Dh Fh Sg Og Gg Cg.
           replace (sent + 8192 + Z.of_nat n * 8192) with (sent + Z.of_nat (S n) * 8192) by lia.
           apply (Hok h' g' pre' rest'); try done; [congruence|lia|by eauto with mba| |by eauto with mba|congruence..].
           by rewrite Fh, F1, insert_insert_eq.
        -- intros h' g' Uh Sg Gg Hne. apply Hno; [|by eauto with mba|congruence|].
           ++ eapply host_upd_trans; [by eapply host_upd_insert|done].
           ++ destruct Hne as [Hne|Hne]; [left; intros E0; apply Hne, S1, E0|right; intros E0; apply Hne, T1, E0].
      * intros h' g' Sh Fh Hne Sg Gg. apply Hno; [split; [done|congruence]|by eauto with mba|congruence|by left].
Qed.

Lemma store_loop_0 fuel : store_loop fuel 0 = (close;; mret AGENT_RET_SUCCESS).
Proof. by destruct fuel. Qed.

(** Where the last chunk is read from: the pointer is set with a 32-bit call
    whose failure goes unnoticed. *)
Definition tail_pointer (sent ptr : Z) (g : guest) : Prop :=
  ptr = s32 sent /\ 0 <= s32 sent \/ ptr = 0 /\ (g_faults g <> [] \/ s32 sent < 0).

Lemma tail_pointer_le sent ptr g : 0 <= sent -> tail_pointer sent ptr g -> 0 <= ptr <= sent.
Proof. intros Hs [[-> Hp]|[-> _]]; [|lia]. pose proof (s32_le sent Hs). lia. Qed.

(** The pointer is placed and the rest is read. *)
Lemma read_tail g src content sent n :
  g_cur g = Some (src, false, 0) -> g_files g !! src = Some content -> 0 <= sent -> sent + n <= len content -> 0 <= n ->
  exists g1 g2, fst (SetFilePointer sent g) = g1 /\ guest_step g g2 /\ g_open g2 = g_open g /\ g_files g2 = g_files g /\
    ((ReadFile n g1 = (g2, None) /\ g_faults g <> []) \/
     exists ptr, tail_pointer sent ptr g /\ ReadFile n g1 = (g2, Some (take (Z.to_nat n) (drop (Z.to_nat ptr) content))) /\
       exists p, g_cur g2 = Some (src, false, p)).
Proof.
  intros Hc Hf Hs Hsn Hn.
  assert (exists g1 ptr, fst (SetFilePointer sent g) = g1 /\ guest_step g g1 /\ g_open g1 = g_open g /\ g_files g1 = g_files g /\
    tail_pointer sent ptr g /\ g_cur g1 = Some (src, false, ptr)) as (g1 & ptr & E & S1 & O1 & F1 & Ht & C1).
  { unfold tail_pointer.
    destruct (SetFilePointer_cases sent g src false 0 Hc) as (g1 & S1 & O1 & F1 & [(E & Hne & C1)|(E & Hp & C1)]).
    - exists g1, 0. rewrite E, C1. split_and!; auto.
    - exists g1, (s32 sent). rewrite E. split_and!; auto. }
  destruct (ReadFile_cases n g1 src false ptr content C1) as (g2 & S2 & O2 & F2 & Hcase); [congruence|].
  exists g1, g2. split_and!; [done|by eauto with mba|congruence|congruence|].
  destruct Hcase as [(E2 & Hne & _)|[E2 C2]]; [left|right].
  - split; [done|]. intros E0. apply Hne, S1, E0.
  - exists ptr. split_and!; [done|done|by eauto].
Qed.

(** The last, short chunk. *)
Lemma export_last_run kc ks src dst old pre rest fuel h g :
  0 < len rest < 8192 -> h_fd h = Some (dst, len pre) -> h_files h !! dst = Some (over old pre) -> h_short h = [] ->
  g_files g !! src = Some (pre ++ rest) -> sharing_violation (g_open g) src false = false ->
  (forall h' g' ptr, tail_pointer (len pre) ptr g -> host_step h h' -> h_fd h' = None ->
     h_files h' = <[dst := over old (pre ++ take (length rest) (drop (Z.to_nat ptr) (pre ++ rest)))]> (h_files h) ->
     guest_step g g' -> g_open g' = g_open g -> g_files g' = g_files g ->
     ends (Net (kc AGENT_RET_SUCCESS) (ks RET_SUCCESS) [] [] h' g') P) ->
  (forall h' g', host_upd dst h h' -> guest_step g g' -> g_files g' = g_files g ->
     h_faults h <> [] \/ g_faults g <> [] ->
     ends (Net (kc AGENT_RET_EFAIL) (ks RET_FAIL) [] [] h' g') P) ->
  ends (Net (store_loop (S fuel) (len rest) ≫= kc) (proc_bind ks (export_last log_text src (len rest) (len pre))) [] [] h g) P.
Proof.
  intros Hr Hd Hf Hsh Hgf Hv Hok Hno.
  destruct (CreateFile_cases src false OPEN_EXISTING g) as (g0 & S0 & [(E & Hne & C0 & F0 & O0)|(E & _ & C0 & O0 & F0)]); [by eauto|..].
  { server. rewrite E. cbn [fst snd]. server. server. cbn [store_loop]. destruct (Z.eqb_spec (len rest) 0); [lia|].
    client. client. apply Hno; [by unfold host_upd, host_step in *|done|done|].
    rewrite Hv in Hne. destruct Hne as [Hne|Hne]; [by right|done]. }
  server. rewrite E. cbn [fst snd]. server.
  destruct (read_tail g0 src (pre ++ rest) (len pre) (len rest)) as (g1 & g2 & E1 & S2 & O2 & F2 & Hcase);
    [done|by rewrite F0|lia|rewrite length_app; lia|lia|].
  rewrite E1. server. destruct Hcase as [[E2 Hne]|(ptr & Ht & E2 & p & C2)]; rewrite E2; cbn [fst snd].
  { server. server. server. cbn [store_loop]. destruct (Z.eqb_spec (len rest) 0); [lia|].
    client. client. apply Hno; [by unfold host_upd, host_step in *| | |].
    - eapply guest_step_trans; [exact S0|]. eapply guest_step_trans; [exact S2|]. unfold CloseHandle. simpl. by destruct (g_cur g2) as [[[? ?] ?]|].
    - unfold CloseHandle. simpl. destruct (g_cur g2) as [[[? ?] ?]|]; simpl; congruence.
    - right. intros E0. apply Hne, S0, E0. }
  rewrite Nat2Z.id. set (bs := take (length rest) (drop (Z.to_nat ptr) (pre ++ rest))).
  assert (len bs = len rest) as Hl.
  { apply tail_pointer_le in Ht; [|lia]. unfold bs. rewrite length_take, length_drop, length_app. lia. }
  simp. rewrite (bind_assoc (send_chunk _ _ _ _)). apply (send_chunk_run _ _ dst old pre); try done.
  - lia.
  - rewrite Hl. unfold SZ_MAX_FILECHUNK. case_if; lia.
  - intros h1 S1 D1 F1. rewrite Hl, Z.sub_diag, store_loop_0. cbn [negb]. client. server. server.
    destruct (CloseHandle_open g2 src false p (g_open g)) as (Oc & Fc & Cc & Sc & _); [done|congruence|].
    apply (Hok _ _ ptr); try done.
    + destruct Ht as [Ht|[Ht Hn]]; [by left|right]. split; [done|]. destruct Hn as [Hn|Hn]; [left|by right].
      intros E0. apply Hn, S0, E0.
    + eapply guest_step_trans; [exact S0|]. by eapply guest_step_trans.
    + simpl. congruence.
  - intros h' g' Sh Fh Hne Sg Gg. cbn [negb]. apply Hno; [split; [done|congruence]|by eauto with mba|congruence|by left].
Qed.

(** What an export of [content] can leave in place of the start of the
    destination when both sides report success. *)
Definition export_result (content f : list Z) (g : guest) : Prop :=
  let r := len content mod SZ_MAX_FILECHUNK in
  let sent := len content - r in
  exists ptr, tail_pointer sent ptr g /\
    f = take (Z.to_nat sent) content ++ take (Z.to_nat r) (drop (Z.to_nat ptr) content).

(** Why an export can fail. *)
Definition export_trouble (src : list Z) (h : host) (g : guest) : Prop :=
  h_faults h <> [] \/ g_faults g <> [] \/ sharing_violation (g_open g) src false = true.

Lemma tail_pointer_step sent ptr g g' : guest_step g g' -> tail_pointer sent ptr g' -> tail_pointer sent ptr g.
Proof.
  intros (_ & _ & _ & S1) [Ht|[Ht [Hn|Hn]]]; [by left|right; split; [done|left]|right; auto].
  intros E. by apply Hn, S1.
Qed.

(** After the full chunks. *)
Lemma export_tail_run kc ks src dst old content pre rest fuel h g p :
  pre ++ rest = content -> len rest < 8192 -> len content mod 8192 = len rest -> (length rest <= fuel)%nat ->
  h_fd h = Some (dst, len pre) -> h_files h !! dst = Some (over old pre) -> h_short h = [] ->
  g_files g !! src = Some content -> g_cur g = Some (src, false, p) ->
  sharing_violation (List.tl (g_open g)) src false = false -> g_open g = (src, false) :: List.tl (g_open g) ->
  (forall h' g' f, export_result content f g -> host_step h h' -> h_fd h' = None ->
     h_files h' = <[dst := over old f]> (h_files h) ->
     guest_step g g' -> g_open g' = List.tl (g_open g) -> g_files g' = g_files g ->
     ends (Net (kc AGENT_RET_SUCCESS) (ks RET_SUCCESS) [] [] h' g') P) ->
  (forall h' g', host_upd dst h h' -> guest_step g g' -> g_files g' = g_files g ->
     h_faults h <> [] \/ g_faults g <> [] ->
     ends (Net (kc AGENT_RET_EFAIL) (ks RET_FAIL) [] [] h' g') P) ->
  ends (Net (store_loop fuel (len rest) ≫= kc)
          (proc_bind ks (close_handle;;
             if len rest =? 0
             then write_agent_log log_text "File size: %ld bytes, Total send: %ld bytes" [];; mret RET_SUCCESS
             else export_last log_text src (len rest) (len pre))) [] [] h g) P.
Proof.
  intros Ec Hr Em Hfuel Hd Hf Hsh Hgf Hgc Hv Ho Hok Hno.
  destruct (CloseHandle_open g src false p (List.tl (g_open g))) as (Oc & Fc & Cc & Sc & Xc); [done..|].
  assert (len content = len pre + len rest) as Elen by (rewrite <- Ec, length_app; lia).
  unfold export_result in Hok. change SZ_MAX_FILECHUNK with 8192 in Hok. rewrite Em, Nat2Z.id in Hok.
  replace (len content - len rest) with (len pre) in Hok by lia. rewrite Nat2Z.id, <- Ec, take_app_length in Hok.
  server. destruct (Z.eqb_spec (len rest) 0) as [E0|E0].
  - rewrite E0, store_loop_0. client. server. destruct rest; [|done].
    apply (Hok _ _ pre); try done; [|by rewrite insert_id].
    exists (if 0 <=? s32 (len pre) then s32 (len pre) else 0). split; [|by rewrite app_nil_r].
    unfold tail_pointer. case_if; bool_to_prop; auto.
  - destruct fuel as [|fuel]; [lia|]. apply (export_last_run _ _ src dst old pre rest); try done.
    + lia.
    + by rewrite Fc, Hgf, Ec.
    + by rewrite Oc.
    + intros h' g' ptr Ht Sh Dh Fh Sg Og Gg.
      apply (Hok _ _ (pre ++ take (length rest) (drop (Z.to_nat ptr) (pre ++ rest)))); try done; [|by eauto with mba|congruence..].
      exists ptr. split; [by eapply tail_pointer_step|done].
    + intros h' g' Uh Sg Gg Hne. apply Hno; [done|by eauto with mba|congruence|by rewrite <- Xc].
Qed.

(** The content. *)
Lemma export_content_run kc ks src dst old content h g :
  len content < 2 ^ 45 -> len content < 8192 \/ junk = 0 ->
  h_fd h = Some (dst, 0) -> h_files h !! dst = Some (over old []) -> h_short h = [] ->
  g_files g !! src = Some content -> g_cur g = Some (src, false, 0) ->
  g_open g = (src, false) :: List.tl (g_open g) -> sharing_violation (List.tl (g_open g)) src false = false ->
  (forall h' g' f, export_result content f g -> host_step h h' -> h_fd h' = None ->
     h_files h' = <[dst := over old f]> (h_files h) ->
     guest_step g g' -> g_open g' = List.tl (g_open g) -> g_files g' = g_files g ->
     ends (Net (kc AGENT_RET_SUCCESS) (ks RET_SUCCESS) [] [] h' g') P) ->
  (forall h' g', host_upd dst h h' -> guest_step g g' -> g_files g' = g_files g ->
     h_faults h <> [] \/ g_faults g <> [] ->
     ends (Net (kc AGENT_RET_EFAIL) (ks RET_FAIL) [] [] h' g') P) ->
  ends (Net (proc_bind kc (store_loop (Z.to_nat (len content)) (len content)))
          (proc_bind (fun a : option Z => proc_bind ks
             match a with
             | Some sent =>
                 close_handle;;
                 if len content mod SZ_MAX_FILECHUNK =? 0
                 then write_agent_log log_text "File size: %ld bytes, Total send: %ld bytes" [];; mret RET_SUCCESS
                 else export_last log_text src (len content mod SZ_MAX_FILECHUNK) sent
             | None => mret RET_FAIL
             end)
             (export_rounds log_text junk (Z.to_nat (u32 (len content / SZ_MAX_FILECHUNK))) 0)) [] [] h g) P.
Proof.
  intros Hl Hj Hd Hf Hsh Hgf Hgc Ho Hv Hok Hno. change SZ_MAX_FILECHUNK with 8192. set (q := len content / 8192) in *.
  assert (len content = 8192 * q + len content mod 8192) as Hq by (apply Z.div_mod; done).
  pose proof (Z.mod_pos_bound (len content) 8192 eq_refl) as Hm.
  assert (0 <= q < 2 ^ 32) as Hqr by lia.
  replace (u32 q) with q by (symmetry; by apply Z.mod_small).
  apply (export_rounds_run _ _ src dst old (Z.to_nat q) _ []); simpl; try done; rewrite ?Z2Nat.id by lia; try lia.
  intros h' g' pre rest Ec El Sh Dh Fh Sg Og Gg Cg. rewrite ?Z2Nat.id in * by lia.
  assert (len content mod 8192 = len rest) as Em by lia. rewrite Em.
  assert (len content = len pre + len rest) as Elen by (rewrite <- Ec, length_app; lia).
  replace (0 + q * 8192) with (len pre) by lia.
  apply (export_tail_run _ _ src dst old content pre rest _ _ _ (len pre)); rewrite ?Og; try done.
  - lia.
  - lia.
  - by rewrite Fh, lookup_insert_eq.
  - by apply Sh.
  - by rewrite Gg.
  - intros h2 g2 f (ptr & Ht & Ef) Sh2 Dh2 Fh2 Sg2 Og2 Gg2.
    apply (Hok h2 g2 f); try done; [|by eauto with mba|by rewrite Fh2, Fh, insert_insert_eq|by eauto with mba|congruence].
    exists ptr. split; [by eapply tail_pointer_step|done].
  - intros h2 g2 Uh Sg2 Gg2 Hne. apply Hno; [|by eauto with mba|congruence|].
    + eapply host_upd_trans; [by eapply host_upd_insert|done].
    + destruct Hne as [Hne|Hne]; [left; intros E0; apply Hne, Sh, E0|right; intros E0; apply Hne, Sg, E0].
Qed.

(** After the command. *)
Lemma export_cmd_run kc ks src dst content h g :
  g_files g !! src = Some content -> len content < 2 ^ 45 -> len content < 8192 \/ junk = 0 -> h_short h = [] ->
  (forall h' g' f, export_result content f g -> host_step h h' -> h_fd h' = None ->
     h_files h' = <[dst := over (default [] (h_files h !! dst)) f]> (h_files h) ->
     guest_step g g' -> g_open g' = g_open g -> g_files g' = g_files g ->
     ends (Net (kc AGENT_RET_SUCCESS) (ks RET_SUCCESS) [] [] h' g') P) ->
  (forall h' g', host_upd dst h h' -> guest_step g g' -> g_files g' = g_files g -> export_trouble src h g ->
     ends (Net (kc AGENT_RET_EFAIL) (ks RET_FAIL) [] [] h' g') P) ->
  ends (Net (proc_bind kc (receive_content dst)) (proc_bind ks (export_cmd log_text junk src)) [] [] h g) P.
Proof.
  intros Hgf Hl Hj Hsh Hok Hno. unfold export_trouble in Hno.
  destruct (CreateFile_cases src false OPEN_EXISTING g) as (g0 & S0 & [(E & Hne & C0 & F0 & O0)|(E & Hv & C0 & O0 & F0)]); [by eauto|..].
  { server. rewrite E. cbn [fst snd]. server. server. client. simp. apply Hno; [done|done|done|tauto]. }
  destruct (GetFileSizeEx_cases g0 src false 0 content C0) as (g1 & S1 & O1 & F1 & C1 & [[E1 Hne]|E1]); [by rewrite F0|..].
  { server. rewrite E. cbn [fst snd]. server. rewrite E1. cbn [fst snd]. server. server. server. client. simp.
    apply Hno; [done| | |].
    - eapply guest_step_trans; [exact S0|]. eapply guest_step_trans; [exact S1|]. unfold CloseHandle. simpl. by rewrite C1, C0.
    - unfold CloseHandle. simpl. rewrite C1, C0. simpl. congruence.
    - right. left. intros E0. apply Hne, S0, E0. }
  server. rewrite E. cbn [fst snd]. server. rewrite E1. cbn [fst snd]. server. server. server.
  match goal with |- ends (Net _ _ _ _ _ ?G) _ => set (g2 := G) end.
  assert (g_files g2 = g_files g /\ g_open g2 = (src, false) :: g_open g /\ guest_step g g2 /\ g_cur g2 = Some (src, false, 0))
    as (F2 & O2 & S2 & C2).
  { split_and!; [simpl; congruence..| |simpl; congruence]. eapply guest_step_trans; [exact S0|]. by eapply guest_step_trans. }
  clearbody g2. clear E E1 g0 g1 S0 S1 O0 O1 F0 F1 C0 C1.
  server. client. client. rewrite take_all by (rewrite le_bytes_length; done).
  assert (le_bytes 8 (len content) <> []) as Hn by (intros E0; by apply (f_equal length) in E0; rewrite le_bytes_length in E0).
  simp. rewrite (bool_decide_false (le_bytes 8 (len content) = [])) by done. simp.
  rewrite le_bytes_length, le_value_bytes by lia. change (negb (Z.of_nat 8 =? 8)) with false. cbv iota.
  destruct (open_write_cases dst h) as (h1 & Sh & [(E & Hne & F1 & _)|(E & D1 & F1)]); client; rewrite E; cbn [fst snd].
  { client. server. simp. server. apply Hno; [by unfold host_upd, host_step in *; rewrite F1|done|done|by left]. }
  client. server. simp. rewrite (bind_assoc (export_rounds _ _ _ _)).
  apply (export_content_run _ _ src dst (default [] (h_files h !! dst)) content); rewrite ?O2; try done.
  - by rewrite F1, lookup_insert_eq.
  - by apply Sh.
  - by rewrite F2.
  - intros h' g' f Hres Sh' Dh Fh Sg Og Gg. apply (Hok h' g' f); try done; [|by eauto with mba|by rewrite Fh, F1, insert_insert_eq|by eauto with mba|congruence].
    destruct Hres as (ptr & Ht & ->). exists ptr. split; [by eapply tail_pointer_step|done].
  - intros h' g' Uh Sg Gg Hne. apply Hno; [|by eauto with mba|congruence|].
    + eapply host_upd_trans; [by eapply host_upd_insert|done].
    + destruct Hne as [Hne|Hne]; [left; intros E0; apply Hne, Sh, E0|right; left; intros E0; apply Hne, S2, E0].
Qed.
End ExportServer.

Section ExportAction.
Context (log_text : string -> list Z -> list Z) (junk : Z).
Local Abbreviation len l := (Z.of_nat (length l)).

(** The ends of an export. *)
Definition export_end (content src dst : list Z) (h : host) (g : guest)
    (x : net host guest (option MBA_AGENT_RETURN) round_end) : Prop :=
  (exists h' g' f, x = Net (Done (Some AGENT_RET_SUCCESS)) (Done (Answered RET_SUCCESS)) [] [] h' g' /\
     h_files h' = <[dst := over (default [] (h_files h !! dst)) f]> (h_files h) /\ h_fd h' = None /\
     h_out h' = h_out h ++ ack_text (ascii_bytes "expo " ++ src) /\
     (h_faults h = [] -> h_faults h' = []) /\ h_short h' = [] /\ guest_step g g' /\
     g_files g' = g_files g /\ g_open g' = g_open g /\ export_result content f g) \/
  (exists h' g', x = Net (Done (Some AGENT_RET_EFAIL)) (Done (Answered RET_FAIL)) [] [] h' g' /\
     host_upd dst h h' /\ g_files g' = g_files g /\ export_trouble src h g).

Lemma export_run fuel a content h g :
  g_files g !! arg_src a = Some content -> len content < 2 ^ 45 -> len content < 8192 \/ junk = 0 -> h_short h = [] ->
  plain (ascii_bytes "expo " ++ arg_src a) ->
  ends (Net (run_action fuel AGENT_ACT_EXPO a) (server_round log_text junk) [] [] h g)
    (export_end content (arg_src a) (arg_dst a) h g).
Proof.
  intros Hf Hl Hj Hsh Hp. client. apply server_accepts; [done|]. intros log ptr.
  set (buf := received (command (ascii_bytes "expo ") (arg_src a))).
  assert (run_command log_text junk buf = export_cmd log_text junk (arg_src a)) as ->.
  { unfold run_command, buf. rewrite command_line_plain by done. by rewrite (identify_plain MBA_CMD_EXPO). }
  match goal with |- ends (Net ?p _ _ _ _ _) _ =>
    replace p with (proc_bind (fun r => acknowledge (Some r)) (receive_content (arg_dst a))) end.
  2:{ cbn [proc_bind]. unfold proc_mbind. symmetry. etrans; [apply bind_assoc|]. done. }
  apply (export_cmd_run log_text junk _ _ _ (arg_src a) (arg_dst a) content); try done.
  - intros h' g' f Hres Sh Dh Fh Sg Og Gg. apply both_succeeded; [done|]. intros h3 g3 F3 D3 O3 _ X3 Y3 Sg3 Fg3 Og3 _ _.
    left. exists h3, g3, f. split_and!; [done|congruence|congruence| | | | |by rewrite Fg3, Gg|by rewrite Og3, Og|done].
    + by rewrite O3, (proj1 Sh).
    + intros E. rewrite X3. apply Sh, E.
    + rewrite Y3. by apply Sh.
    + eapply guest_step_trans; [exact Sg|done].
  - intros h' g' Uh Sg Gg Ht. apply both_failed. intros g3 Sg3 Fg3 Og3 _. right. exists h', g3.
    split_and!; [done|done| |done]. by rewrite Fg3, Gg.
Qed.
End ExportAction.

(** The end of an export that worked. *)
Definition exported (content src dst : list Z) (h : host) (g : guest)
    (x : net host guest (option MBA_AGENT_RETURN) round_end) : Prop :=
  exists h' g', x = Net (Done (Some AGENT_RET_SUCCESS)) (Done (Answered RET_SUCCESS)) [] [] h' g' /\
    h_files h' = <[dst := content ++ drop (length content) (default [] (h_files h !! dst))]> (h_files h) /\
    h_fd h' = None /\ h_out h' = h_out h ++ ack_text (ascii_bytes "expo " ++ src) /\
    h_faults h' = [] /\ h_short h' = [] /\ guest_step g g' /\ g_files g' = g_files g /\ g_open g' = g_open g.

Lemma export_success log_text junk fuel a content h g :
  g_files g !! arg_src a = Some content -> Z.of_nat (length content) < 2 ^ 31 ->
  Z.of_nat (length content) < 8192 \/ junk = 0 -> plain (ascii_bytes "expo " ++ arg_src a) ->
  h_faults h = [] -> h_short h = [] -> g_faults g = [] -> sharing_violation (g_open g) (arg_src a) false = false ->
  ends (Net (run_action fuel AGENT_ACT_EXPO a) (server_round log_text junk) [] [] h g)
    (exported content (arg_src a) (arg_dst a) h g).
Proof.
  intros Hf Hl Hj Hp Hh Hsh Hg Hv.
  eapply ends_mono; [|by apply (export_run _ _ _ _ content); [done|lia|..]]. simpl.
  intros x [(h' & g' & f & -> & Fh & Dh & Oh & Xh & Yh & Sg & Gg & Og & Hr)|(h' & g' & -> & _ & _ & Ht)].
  - exists h', g'. split_and!; auto; [|by apply Sg..]. rewrite Fh. f_equal.
    assert (f = content) as ->; [|done]. destruct Hr as (ptr & Ht & ->).
    change SZ_MAX_FILECHUNK with 8192 in *. pose proof (Z.mod_pos_bound (Z.of_nat (length content)) 8192 eq_refl).
    pose proof (Z.mod_le (Z.of_nat (length content)) 8192).
    set (r := Z.of_nat (length content) mod 8192) in *. set (sent := Z.of_nat (length content) - r) in *.
    assert (s32 sent = sent) as Es by (unfold s32; rewrite Z.mod_small by lia; case_if; lia).
    unfold tail_pointer in Ht. rewrite Es in Ht. assert (ptr = sent) as -> by (destruct Ht as [[-> _]|[_ [Hn|Hn]]]; done || lia).
    rewrite (take_ge (drop _ _)) by (rewrite length_drop; lia). apply take_drop.
  - unfold export_trouble in Ht. rewrite Hh, Hg, Hv in Ht. exfalso. by destruct Ht as [?|[?|?]].
Qed.

(** ** Theorems: export *)

(** C11: An export writes the guest's file over the start of the host's destination
    under every schedule, and both sides report success. The destination is not
    truncated: what it held beyond the size of the guest's file stays. The file systems
    work and store every write whole, the file is below 2 GiB, its name is one that
    the server can log, and no handle excludes reading it. The server compares what it sent with a counter
    whose upper half it never sets: the file is below 8 KiB, or that half happens to
    be 0. *)
Theorem export_end_to_end log_text junk fuel a content h g :
  g_files g !! arg_src a = Some content -> Z.of_nat (length content) < 2 ^ 31 ->
  Z.of_nat (length content) < 8192 \/ junk = 0 -> plain (ascii_bytes "expo " ++ arg_src a) ->
  h_faults h = [] -> h_short h = [] -> g_faults g = [] -> sharing_violation (g_open g) (arg_src a) false = false ->
  always_ends (Net (run_action fuel AGENT_ACT_EXPO a) (server_round log_text junk) [] [] h g)
    (exported content (arg_src a) (arg_dst a) h g).
Proof. intros. apply ends_all. by apply export_success. Qed.

(** C30: However the file operations on either machine fail, an export ends under
    every schedule with no datagram left, and the two sides agree: both report
    success, and then the destination starts with what the export result allows, or both
    report failure, for a fault or a sharing violation, and then at most the
    destination on the host has changed. The guest's files never change. The
    source exists and is below 2^45 bytes, its name is one that the server can log,
    and the file is below 8 KiB or the never-set upper half of the server's counter is 0. A write
    on the host fails or stores all it is given: a partial one is not among the failures
    covered here, because the client answers it twice. *)
Theorem export_agreement log_text junk fuel a content h g :
  g_files g !! arg_src a = Some content -> Z.of_nat (length content) < 2 ^ 45 ->
  Z.of_nat (length content) < 8192 \/ junk = 0 -> h_short h = [] -> plain (ascii_bytes "expo " ++ arg_src a) ->
  always_ends (Net (run_action fuel AGENT_ACT_EXPO a) (server_round log_text junk) [] [] h g)
    (export_end content (arg_src a) (arg_dst a) h g).
Proof. intros. apply ends_all. by apply export_run. Qed.

Definition demo_export_args : act_args :=
  Args (padded 256 []) (padded 256 (ascii_bytes "/a.txt")) (padded 256 (ascii_bytes "C:/b.txt")) [].
Definition demo_export_guest (content : list Z) (faults : list bool) : guest :=
  Guest {[ascii_bytes "C:/b.txt" := content]} [] None [] 0 faults [] [] 0.

Lemma demo_export_plain : plain (ascii_bytes "expo " ++ arg_src demo_export_args).
Proof. split_and!; [apply (bool_decide_unpack _); vm_compute; exact I..|vm_compute; discriminate]. Qed.

Lemma export_end_to_end_witness :
  h_faults (demo_host [9; 9; 9; 9] []) = [] /\
  always_ends (Net (run_action 1 AGENT_ACT_EXPO demo_export_args) (server_round demo_log 5) [] []
                 (demo_host [9; 9; 9; 9] []) (demo_export_guest [1; 2; 3] []))
    (exported [1; 2; 3] (arg_src demo_export_args) (arg_dst demo_export_args)
       (demo_host [9; 9; 9; 9] []) (demo_export_guest [1; 2; 3] [])).
Proof.
  split; [reflexivity|]. apply export_end_to_end; [reflexivity|vm_compute; reflexivity|left; vm_compute; reflexivity|
    apply demo_export_plain|reflexivity..].
Defined.

Lemma export_agreement_witness :
  g_files (demo_export_guest [1; 2; 3] [false; true]) !! arg_src demo_export_args = Some [1; 2; 3] /\
  always_ends (Net (run_action 1 AGENT_ACT_EXPO demo_export_args) (server_round demo_log 0) [] []
                 (demo_host [] [true]) (demo_export_guest [1; 2; 3] [false; true]))
    (export_end [1; 2; 3] (arg_src demo_export_args) (arg_dst demo_export_args)
       (demo_host [] [true]) (demo_export_guest [1; 2; 3] [false; true])).
Proof.
  split; [reflexivity|]. apply export_agreement; [reflexivity|vm_compute; reflexivity|left; vm_compute; reflexivity|reflexivity|
    apply demo_export_plain].
Defined.
