(* ===== verification/AgentSession.v ===== *)
(** * Sessions with the agent

    The remaining actions ([execute_guest_cmd_return], [execute_guest_cmd_noreturn],
    [sync_cache]) and sequences of actions against the server's main loop. A
    session refines an abstract machine that knows the files, the processes started
    and the text on the monitor, and nothing of datagrams and handles. *)

From S2P Require Import Prelude AgentNet AgentClient AgentServer AgentProto AgentImport AgentExport.
From stdpp Require Import strings.

#[local] Open Scope Z_scope.

(** ** The abstract machine *)

Record world : Type := World {
  w_host : gmap path (list Z);
  w_guest : gmap path (list Z);
  w_started : list (list Z);
  w_flushed : Z;
  w_shown : list Z
}.

(** What the two machines show of their states. *)
Definition view (h : host) (g : guest) : world :=
  World (h_files h) (g_files g) (g_started g) (g_flushed g) (h_out h).

(** The effect of an action; [output] is what a command prints. *)
Definition world_step (output : list (list Z)) (t : MBA_AGENT_ACTION) (a : act_args) (w : world) : world * MBA_AGENT_RETURN :=
  let shows text w := World (w_host w) (w_guest w) (w_started w) (w_flushed w) (w_shown w ++ text) in
  match t with
  | AGENT_ACT_IMPO =>
      match w_host w !! arg_src a with
      | Some content =>
          (shows (ack_text (ascii_bytes "impo " ++ arg_dst a))
             (World (w_host w) (<[arg_dst a := content]> (w_guest w)) (w_started w) (w_flushed w) (w_shown w)),
           AGENT_RET_SUCCESS)
      | None => (w, AGENT_RET_EFAIL)
      end
  | AGENT_ACT_EXPO =>
      match w_guest w !! arg_src a with
      | Some content =>
          (shows (ack_text (ascii_bytes "expo " ++ arg_src a))
             (World (<[arg_dst a := over (default [] (w_host w !! arg_dst a)) content]> (w_host w)) (w_guest w)
                (w_started w) (w_flushed w) (w_shown w)),
           AGENT_RET_SUCCESS)
      | None => (w, AGENT_RET_EFAIL)
      end
  | AGENT_ACT_EXEC =>
      (shows (concat output ++ ack_text (ascii_bytes "exec " ++ arg_cmdline a))
         (World (w_host w) (w_guest w) (w_started w ++ [arg_cmdline a]) (w_flushed w) (w_shown w)), AGENT_RET_SUCCESS)
  | AGENT_ACT_INVO =>
      (shows (ack_text (ascii_bytes "invo " ++ arg_cmdline a))
         (World (w_host w) (w_guest w) (w_started w ++ [arg_cmdline a]) (w_flushed w) (w_shown w)), AGENT_RET_SUCCESS)
  | AGENT_ACT_SYNC =>
      (shows (ack_text (ascii_bytes "sync"))
         (World (w_host w) (w_guest w) (w_started w) (w_flushed w + 1) (w_shown w)), AGENT_RET_SUCCESS)
  | _ => (w, AGENT_RET_EFAIL)
  end.

(** ** Sessions *)

(** The actions that are given to the client one after the other. *)
Fixpoint client_session (fuel : nat) (acts : list (MBA_AGENT_ACTION * act_args))
    (results : list (option MBA_AGENT_RETURN)) : proc host (list (option MBA_AGENT_RETURN)) :=
  match acts with
  | [] => mret results
  | (t, a) :: acts' => r ← run_action fuel t a; client_session fuel acts' (results ++ [r])
  end.

Fixpoint world_run (output : list (list Z)) (acts : list (MBA_AGENT_ACTION * act_args)) (w : world) :
    world * list (option MBA_AGENT_RETURN) :=
  match acts with
  | [] => (w, [])
  | (t, a) :: acts' =>
      let '(w1, r) := world_step output t a w in
      let '(w2, rs) := world_run output acts' w1 in
      (w2, Some r :: rs)
  end.

(** An action that the server can log; the log's export is not among them. *)
Definition action_ok (act : MBA_AGENT_ACTION * act_args) : Prop :=
  let '(t, a) := act in
  match t with
  | AGENT_ACT_IMPO => plain (ascii_bytes "impo " ++ arg_dst a)
  | AGENT_ACT_EXPO => plain (ascii_bytes "expo " ++ arg_src a)
  | AGENT_ACT_EXEC => plain (ascii_bytes "exec " ++ arg_cmdline a)
  | AGENT_ACT_INVO => plain (ascii_bytes "invo " ++ arg_cmdline a)
  | AGENT_ACT_SYNC => True
  | _ => False
  end.

(** The sizes that an export can handle: the server's 32-bit file pointer allows files
    below 2 GiB, and a full chunk is taken for sent only if the upper half of its
    counter, which it never sets, is 0. *)
Definition size_limit (junk : Z) : Z := if junk =? 0 then 2 ^ 31 else 8192.

Definition small (junk : Z) (fs : gmap path (list Z)) : Prop :=
  map_Forall (fun _ c => Z.of_nat (length c) < size_limit junk) fs.

Lemma size_limit_cases junk n : n < size_limit junk -> n < 2 ^ 31 /\ (n < 8192 \/ junk = 0).
Proof. unfold size_limit. destruct (Z.eqb_spec junk 0); lia. Qed.

(** File systems that work and store every write whole, files of such sizes, no handle open; what the
    child's pipe gives fits its buffer. *)
Definition ready (junk : Z) (h : host) (g : guest) : Prop :=
  (h_faults h = [] /\ h_short h = []) /\ g_faults g = [] /\ g_open g = [] /\
  small junk (h_files h) /\ small junk (g_files g) /\
  Forall (fun bs => 0 < Z.of_nat (length bs) <= 4096) (g_output g).

Lemma g_fault_none g : g_faults g = [] -> g_fault g = (g, false).
Proof. intros E. unfold g_fault. by rewrite E. Qed.

Section Actions.
Context (log_text : string -> list Z -> list Z) (junk : Z).
Local Abbreviation len l := (Z.of_nat (length l)).
Local Abbreviation system := (net host guest (option MBA_AGENT_RETURN) round_end).

(** The end of an action: both sides have finished, or the client gave up before
    it sent anything. *)
Definition action_end (t : MBA_AGENT_ACTION) (a : act_args) (h : host) (g : guest) (x : system) : Prop :=
  exists h' g' r, n_client x = Done (Some r) /\ n_cs x = [] /\ n_sc x = [] /\ n_host x = h' /\ n_guest x = g' /\
    (n_server x = server_round log_text junk \/ exists s, n_server x = Done (Answered s)) /\
    world_step (g_output g) t a (view h g) = (view h' g', r) /\ ready junk h' g' /\ g_output g' = g_output g.

(** An acknowledged action. *)
Lemma action_acknowledged t a name arg h0 g0 h g :
  plain (name ++ arg) ->
  world_step (g_output g0) t a (view h0 g0) =
    (World (h_files h) (g_files g) (g_started g) (g_flushed g) (h_out h ++ ack_text (name ++ arg)), AGENT_RET_SUCCESS) ->
  ready junk h g -> g_output g = g_output g0 ->
  ends (Net (acknowledge (Some AGENT_RET_SUCCESS)) (answer log_text (received (command name arg)) RET_SUCCESS) [] [] h g)
    (action_end t a h0 g0).
Proof.
  intros Hp Hw ([X1 X0] & X2 & X3 & X4 & X5 & X6) Ho. apply both_succeeded; [done|].
  intros h' g' Fh Dh Oh _ Xh Yh (Sg1 & Sg2 & Sg3 & Sg4) Fg Og _ _. exists h', g', AGENT_RET_SUCCESS. split_and!; try done; try eauto.
  - rewrite Hw. unfold view. by rewrite Fh, Fg, Sg1, Sg3, Oh.
  - unfold ready. rewrite Xh, Yh, Fh, Fg, Og, Sg2. split_and!; auto.
  - by rewrite Sg2.
Qed.

Lemma invoke_action fuel a h g : ready junk h g -> plain (ascii_bytes "invo " ++ arg_cmdline a) ->
  ends (Net (run_action fuel AGENT_ACT_INVO a) (server_round log_text junk) [] [] h g) (action_end AGENT_ACT_INVO a h g).
Proof.
  intros Hr Hp. pose proof Hr as ([X1 X0] & X2 & X3 & X4 & X5 & X6). client. apply server_accepts; [done|]. intros log ptr.
  unfold run_command at 1. rewrite command_line_plain, (identify_plain MBA_CMD_INVO) by done.
  assert (CreateProcess (arg_cmdline a) (set_log g log ptr) =
    (Guest (g_files g) (g_open g) (g_cur g) log ptr (g_faults g) (g_started g ++ [arg_cmdline a]) (g_output g) (g_flushed g), true)) as E.
  { unfold CreateProcess. by rewrite g_fault_none. }
  server. rewrite E. cbn [fst snd]. server. client. simp.
  apply action_acknowledged; [done|reflexivity|done|done].
Qed.

Lemma sync_action fuel a h g : ready junk h g ->
  ends (Net (run_action fuel AGENT_ACT_SYNC a) (server_round log_text junk) [] [] h g) (action_end AGENT_ACT_SYNC a h g).
Proof.
  intros Hr. pose proof Hr as ([X1 X0] & X2 & X3 & X4 & X5 & X6). client.
  assert (plain (ascii_bytes "sync" ++ [])) as Hp
    by (split_and!; [apply (bool_decide_unpack _); vm_compute; exact I..|vm_compute; discriminate]).
  apply server_accepts; [done|]. intros log ptr.
  unfold run_command at 1. assert (identify_command (received (command (ascii_bytes "sync") [])) = MBA_CMD_SYNC) as -> by reflexivity.
  server. unfold api. rewrite !g_fault_none by done. cbn [fst snd negb].
  server. rewrite !g_fault_none by done. cbn [fst snd]. server. client. simp.
  apply action_acknowledged; [done|rewrite app_nil_r; reflexivity|done|done].
Qed.

Lemma import_action fuel a h g : ready junk h g -> plain (ascii_bytes "impo " ++ arg_dst a) -> (Z.to_nat (2 ^ 18) <= fuel)%nat ->
  ends (Net (run_action fuel AGENT_ACT_IMPO a) (server_round log_text junk) [] [] h g) (action_end AGENT_ACT_IMPO a h g).
Proof.
  intros Hr Hp Hfuel. pose proof Hr as ([X1 X0] & X2 & X3 & X4 & X5 & X6).
  destruct (h_files h !! arg_src a) as [c|] eqn:Hf.
  - pose proof (X4 _ _ Hf) as Hc. simpl in Hc. destruct (size_limit_cases _ _ Hc) as [Hl _].
    assert (len c / 8192 < 2 ^ 18) by (apply Z.div_lt_upper_bound; lia).
    eapply ends_mono; [|apply (import_success _ _ _ _ c); try done].
    + intros x (h' & g' & -> & Fh & _ & Oh & Xh & Yh & (Sg1 & Sg2 & Sg3 & Sg4) & Fg & Og). exists h', g', AGENT_RET_SUCCESS.
      split_and!; try done; eauto.
      * unfold view, world_step. simpl. rewrite Hf. by rewrite Fh, Fg, Oh, Sg1, Sg3.
      * unfold ready. rewrite Fh, Fg, Og, Sg2. split_and!; auto. by apply map_Forall_insert_2.
    + unfold SZ_MAX_FILECHUNK. lia.
    + by rewrite X3.
  - assert (open_read (arg_src a) h = (h, false)) as E by (unfold open_read, h_fault; by rewrite X1, Hf).
    client. rewrite E. cbn [fst snd negb]. apply ends_waiting. exists h, g, AGENT_RET_EFAIL.
    split_and!; try done; eauto. unfold world_step. simpl. by rewrite Hf.
Qed.

Lemma export_action fuel a h g : ready junk h g -> plain (ascii_bytes "expo " ++ arg_src a) ->
  ends (Net (run_action fuel AGENT_ACT_EXPO a) (server_round log_text junk) [] [] h g) (action_end AGENT_ACT_EXPO a h g).
Proof.
  intros Hr Hp. pose proof Hr as ([X1 X0] & X2 & X3 & X4 & X5 & X6).
  destruct (g_files g !! arg_src a) as [c|] eqn:Hf.
  - pose proof (X5 _ _ Hf) as Hc. simpl in Hc. destruct (size_limit_cases _ _ Hc) as [Hl Hj].
    eapply ends_mono; [|apply (export_success _ _ _ _ c); try done; by rewrite X3].
    intros x (h' & g' & -> & Fh & _ & Oh & Xh & Yh & (Sg1 & Sg2 & Sg3 & Sg4) & Fg & Og). exists h', g', AGENT_RET_SUCCESS.
    split_and!; try done; eauto.
    + unfold view, world_step. simpl. rewrite Hf. by rewrite Fh, Fg, Oh, Sg1, Sg3.
    + unfold ready. rewrite Fh, Fg, Og, Sg2. split_and!; auto. apply map_Forall_insert_2; [|done].
      rewrite length_app, length_drop. destruct (h_files h !! arg_dst a) as [old|] eqn:Hd; simpl; [|lia].
      pose proof (X4 _ _ Hd) as Ho. simpl in Ho. lia.
  - client. apply server_accepts; [done|]. intros log ptr.
    unfold run_command at 1. rewrite command_line_plain, (identify_plain MBA_CMD_EXPO) by done.
    assert (CreateFile (arg_src a) false OPEN_EXISTING (set_log g log ptr) =
      (set_file (set_log g log ptr) (g_files g) (g_open g) None, false)) as E.
    { unfold CreateFile. rewrite g_fault_none by done. simpl. rewrite Hf. by destruct (sharing_violation _ _ _). }
    server. rewrite E. cbn [fst snd]. server. server. client. simp. apply both_failed.
    intros g' (Sg1 & Sg2 & Sg3 & Sg4) Fg Og _. exists h, g', AGENT_RET_EFAIL. split_and!; try done; eauto.
    + unfold world_step, view. simpl. rewrite Hf. by rewrite Sg1, Sg3, Fg.
    + unfold ready. rewrite Fg, Og, Sg2. split_and!; auto.
Qed.

Lemma api_calls_run {A} (P : net host guest A round_end -> Prop) ks p msgs k cs sc h g : g_faults g = [] ->
  ends (Net p (proc_bind ks k) cs sc h g) P -> ends (Net p (proc_bind ks (api_calls log_text msgs k)) cs sc h g) P.
Proof.
  intros Hg Hk. induction msgs as [|msg msgs IH]; [done|].
  server. unfold api. rewrite !g_fault_none by done. exact IH.
Qed.

Definition printed (h : host) (text : list Z) : host :=
  Host (h_files h) (h_fd h) (h_faults h) (h_out h ++ text) (h_broken h) (h_short h).

(** One message of the child's output. *)
Lemma message_run (P : system -> Prop) kc ks fuel bs h g : 0 < len bs <= 4096 ->
  ends (Net (proc_bind kc (output_loop fuel)) (ks tt) [] [] (printed h bs) g) P ->
  ends (Net (proc_bind kc (output_loop (S fuel)))
          (proc_bind ks (ac_write log_text (le_bytes 4 (len bs));; ac_write log_text bs)) [] [] h g) P.
Proof.
  intros Hb Hk. assert (bs <> []) as Hbs by (intros ->; simpl in *; lia).
  assert (le_bytes 4 (len bs) <> []) as Hn by (intros E0; by apply (f_equal length) in E0; rewrite le_bytes_length in E0).
  server. simp. rewrite (bool_decide_false (le_bytes 4 (len bs) = [])) by done.
  server. simp. rewrite (bool_decide_false (bs = [])) by done.
  cbn [output_loop]. client. rewrite take_all by (rewrite le_bytes_length; done).
  simp. rewrite (bool_decide_false (le_bytes 4 (len bs) = [])) by done. simp.
  rewrite le_bytes_length, le_value_bytes by lia. change (negb (Z.of_nat 4 =? 4)) with false. cbv iota.
  destruct (Z.eqb_spec (len bs) 0) as [E0|_]; [lia|].
  destruct (Z.to_nat (len bs)) as [|m] eqn:Em; [lia|]. cbn [print_loop].
  destruct (Z.eqb_spec (len bs) 0) as [E0|_]; [lia|].
  client. rewrite (take_all _ bs) by (case_if; lia). simp.
  rewrite (bool_decide_false (bs = [])) by done. simp. rewrite (bool_decide_false (bs = [])) by done.
  client. rewrite Z.sub_diag. destruct m; exact Hk.
Qed.

Lemma printed_app h a b : printed (printed h a) b = printed h (a ++ b).
Proof. unfold printed. simpl. by rewrite <- (assoc_L (++)). Qed.

(** All of it. *)
Lemma output_run (P : system -> Prop) kc ks outs : forall fuel h g, (length outs <= fuel)%nat ->
  Forall (fun bs => 0 < len bs <= 4096) outs ->
  ends (Net (proc_bind kc (output_loop (fuel - length outs))) (ks tt) [] [] (printed h (concat outs)) g) P ->
  ends (Net (proc_bind kc (output_loop fuel)) (proc_bind ks (output_rounds log_text outs)) [] [] h g) P.
Proof.
  induction outs as [|bs outs IH]; intros fuel h g Hfuel Ho Hk.
  - revert Hk. simpl. rewrite Nat.sub_0_r. unfold printed. rewrite app_nil_r. by destruct h.
  - inversion Ho as [|? ? Hb Ho']; subst. destruct fuel as [|fuel]; [simpl in Hfuel; lia|].
    cbn [output_rounds]. rewrite bool_decide_false by (intros ->; simpl in *; lia).
    match goal with |- ends (Net _ ?q _ _ _ _) _ =>
      replace q with (proc_bind (fun _ : unit => proc_bind ks (output_rounds log_text outs))
        (ac_write log_text (le_bytes 4 (len bs));; ac_write log_text bs)) end.
    + apply message_run; [done|]. apply IH; [simpl in Hfuel; lia|done|]. by rewrite printed_app.
    + simp. rewrite !(bind_assoc (ac_write log_text (le_bytes 4 (len bs)))). apply bind_ext. intros _.
      by rewrite (bind_assoc (ac_write log_text bs)).
Qed.

Lemma exec_action fuel a h g : ready junk h g -> plain (ascii_bytes "exec " ++ arg_cmdline a) -> (length (g_output g) < fuel)%nat ->
  ends (Net (run_action fuel AGENT_ACT_EXEC a) (server_round log_text junk) [] [] h g) (action_end AGENT_ACT_EXEC a h g).
Proof.
  intros Hr Hp Hfuel. pose proof Hr as ([X1 X0] & X2 & X3 & X4 & X5 & X6). client. apply server_accepts; [done|]. intros log ptr.
  unfold run_command at 1. rewrite command_line_plain, (identify_plain MBA_CMD_EXEC) by done.
  apply api_calls_run; [done|].
  assert (CreateProcess (arg_cmdline a) (set_log g log ptr) =
    (Guest (g_files g) (g_open g) (g_cur g) log ptr (g_faults g) (g_started g ++ [arg_cmdline a]) (g_output g) (g_flushed g), true)) as E.
  { unfold CreateProcess. by rewrite g_fault_none. }
  server. rewrite E. cbn [fst snd]. server. unfold api. rewrite !g_fault_none by done. cbn [fst snd negb]. simp.
  apply api_calls_run; [done|].
  server. server. server. client. simp.
  match goal with |- ends (Net _ _ _ _ _ ?G) _ => set (g1 := G) end.
  match goal with |- context [output_rounds _ ?o] => change o with (g_output g) end.
  assert (view h g1 = World (h_files h) (g_files g) (g_started g ++ [arg_cmdline a]) (g_flushed g) (h_out h)) as Ev by done.
  assert (ready junk h g1 /\ g_output g1 = g_output g) as [Hr1 Ho1] by done. clearbody g1.
  match goal with |- ends (Net _ (proc_bind ?k2 (proc_bind ?k ?p)) _ _ _ _) _ =>
    replace (proc_bind k2 (proc_bind k p)) with (proc_bind (fun u => proc_bind k2 (k u)) p) by (symmetry; apply bind_assoc) end.
  apply output_run; [lia|done|].
  destruct (fuel - length (g_output g))%nat as [|f] eqn:Ef; [lia|]. cbn [output_loop].
  server. simp. apply api_calls_run; [apply Hr1|]. server. client. simp. client. simp.
  apply action_acknowledged; [done| | |done].
  - injection Ev as -> -> ->. unfold world_step, view. simpl. by rewrite <- (assoc_L (++)).
  - exact Hr1.
Qed.
End Actions.

(** ** Lemmas: sessions *)

Lemma action_run log_text junk fuel t a h g : ready junk h g -> action_ok (t, a) ->
  (Z.to_nat (2 ^ 18) <= fuel)%nat -> (length (g_output g) < fuel)%nat ->
  ends (Net (run_action fuel t a) (server_round log_text junk) [] [] h g) (action_end log_text junk t a h g).
Proof.
  intros Hr Hok Hf Ho. destruct t; simpl in Hok; try done;
    auto using import_action, export_action, exec_action, invoke_action, sync_action.
Qed.

Lemma session_run log_text junk fuel acts : forall rounds results h g, ready junk h g -> Forall action_ok acts ->
  (Z.to_nat (2 ^ 18) <= fuel)%nat -> (length (g_output g) < fuel)%nat -> (length acts < rounds)%nat ->
  ends (Net (client_session fuel acts results) (server_mainloop log_text junk rounds) [] [] h g)
    (fun x => exists h' g' rounds' rs, n_client x = Done (results ++ rs) /\
       n_server x = server_mainloop log_text junk (S rounds') /\ n_cs x = [] /\ n_sc x = [] /\
       n_host x = h' /\ n_guest x = g' /\ world_run (g_output g) acts (view h g) = (view h' g', rs)).
Proof.
  induction acts as [|[t a] acts IH]; intros rounds results h g Hr Hok Hf Ho Hn;
    (destruct rounds as [|rounds]; [simpl in Hn; lia|]).
  - apply ends_waiting. exists h, g, rounds, []. by rewrite app_nil_r.
  - inversion Hok as [|? ? Ha Hok']; subst. simpl in Hn.
    apply (ends_bind (fun r => client_session fuel acts (results ++ [r]))
             (fun r => match r with Answered _ => server_mainloop log_text junk rounds | _ => mret tt end)
             (Net (run_action fuel t a) (server_round log_text junk) [] [] h g) _ (action_end log_text junk t a h g));
      [by apply action_run|].
    intros [p q cs sc h0 g0] (h1 & g1 & r & Ec & Ecs & Esc & Eh & Eg & Es & Ew & Hr1 & Ho1). simpl in *. subst.
    assert (exists rounds1, (length acts < rounds1)%nat /\
      net_bind (fun r => client_session fuel acts (results ++ [r]))
        (fun r => match r with Answered _ => server_mainloop log_text junk rounds | _ => mret tt end)
        (Net (Done (Some r)) q [] [] h1 g1) =
      Net (client_session fuel acts (results ++ [Some r])) (server_mainloop log_text junk rounds1) [] [] h1 g1) as (n1 & Hn1 & ->).
    { destruct Es as [->|[s ->]]; [exists (S rounds)|exists rounds]; (split; [lia|done]). }
    eapply ends_mono; [|apply IH; try done; by rewrite Ho1].
    intros x (h2 & g2 & n2 & rs & E1 & E2 & E3 & E4 & E5 & E6 & E7). exists h2, g2, n2, (Some r :: rs).
    rewrite E1, <- (assoc_L (++)). split_and!; try done. simpl. rewrite Ew. rewrite Ho1 in E7. by rewrite E7.
Qed.

(** ** Theorems *)

(** C6: A session refines the abstract machine: with working file systems, any
    sequence of imports, exports, commands with and without output and flushes,
    run by the client against the server's main loop under any schedule, ends with the
    client's results and the files, started processes, flushes and monitor text
    that the abstract machine gives, with no datagram left over and the server
    back at its receive. Writes on the host are stored whole, the names are such as the server
    can log, the export of the log is not among the actions, files are below 2 GiB
    if the never-set upper half of the server's byte counter is zero and below 8
    KiB if it is not, and the fuel covers the chunks of a file and the messages of a
    command's output. *)
Theorem session_refines log_text junk fuel rounds acts h g :
  ready junk h g -> Forall action_ok acts ->
  (Z.to_nat (2 ^ 18) <= fuel)%nat -> (length (g_output g) < fuel)%nat -> (length acts < rounds)%nat ->
  always_ends (Net (client_session fuel acts []) (server_mainloop log_text junk rounds) [] [] h g)
    (fun x => exists h' g' rounds' rs,
       x = Net (Done rs) (server_mainloop log_text junk (S rounds')) [] [] h' g' /\
       world_run (g_output g) acts (view h g) = (view h' g', rs)).
Proof.
  intros Hr Hok Hf Ho Hn. apply ends_all. eapply ends_mono; [|by apply session_run].
  intros [p q cs sc h0 g0] (h' & g' & n & rs & Ec & Es & E1 & E2 & E3 & E4 & Ew). simpl in *. subst. by exists h', g', n, rs.
Qed.

(** C12: A file that is imported into the guest and exported again to a new name
    comes back unchanged, under every schedule. The file systems work and store
    every write whole, no handle is open in the guest, the names are such as the
    server can log, and the files are below 2 GiB, or below 8 KiB if the upper half
    of the server's byte counter, which is never set, is not zero. *)
Theorem import_export_roundtrip log_text junk fuel rounds a b content h g :
  ready junk h g -> action_ok (AGENT_ACT_IMPO, a) -> action_ok (AGENT_ACT_EXPO, b) ->
  arg_src b = arg_dst a -> h_files h !! arg_src a = Some content -> h_files h !! arg_dst b = None ->
  (Z.to_nat (2 ^ 18) <= fuel)%nat -> (length (g_output g) < fuel)%nat -> (2 < rounds)%nat ->
  always_ends (Net (client_session fuel [(AGENT_ACT_IMPO, a); (AGENT_ACT_EXPO, b)] [])
                 (server_mainloop log_text junk rounds) [] [] h g)
    (fun x => n_client x = Done [Some AGENT_RET_SUCCESS; Some AGENT_RET_SUCCESS] /\
       h_files (n_host x) = <[arg_dst b := content]> (h_files h) /\
       g_files (n_guest x) = <[arg_dst a := content]> (g_files g)).
Proof.
  intros Hr Ha Hb Hab Hf Hd Hfuel Ho Hn. apply ends_all.
  eapply ends_mono; [|apply (session_run _ _ _ [(AGENT_ACT_IMPO, a); (AGENT_ACT_EXPO, b)]); [done|by apply Forall_cons_2, Forall_cons_2, Forall_nil_2|done..]].
  intros [p q cs sc h0 g0] (h' & g' & n & rs & Ec & Es & E1 & E2 & E3 & E4 & Ew). simpl in *. subst.
  rewrite Hf, Hab in Ew. simpl in Ew. rewrite lookup_insert_eq, Hd in Ew. injection Ew as Eh Eg _ _ _ <-.
  rewrite <- Eh, <- Eg. unfold over. simpl. by rewrite drop_nil, app_nil_r.
Qed.

(** *** Witnesses *)

Definition demo_back_args : act_args :=
  Args (padded 256 []) (padded 256 (ascii_bytes "/c.txt")) (padded 256 (ascii_bytes "C:/b.txt")) [].

Lemma demo_ready junk : ready junk (demo_host [1; 2; 3] []) (demo_guest []).
Proof.
  unfold ready. split_and!; try reflexivity; [|apply map_Forall_empty|constructor].
  apply map_Forall_singleton. unfold size_limit. by destruct (junk =? 0).
Qed.

Lemma demo_back_plain : plain (ascii_bytes "expo " ++ arg_src demo_back_args).
Proof. split_and!; [apply (bool_decide_unpack _); vm_compute; exact I..|vm_compute; discriminate]. Qed.

Lemma session_refines_witness :
  let acts := [(AGENT_ACT_IMPO, demo_args); (AGENT_ACT_SYNC, demo_args); (AGENT_ACT_EXPO, demo_back_args)] in
  length acts = 3%nat /\
  always_ends (Net (client_session (Z.to_nat (2 ^ 18)) acts []) (server_mainloop demo_log 5 4) [] []
                 (demo_host [1; 2; 3] []) (demo_guest []))
    (fun x => exists h' g' rounds' rs,
       x = Net (Done rs) (server_mainloop demo_log 5 (S rounds')) [] [] h' g' /\
       world_run (g_output (demo_guest [])) acts (view (demo_host [1; 2; 3] []) (demo_guest [])) = (view h' g', rs)).
Proof.
  split; [reflexivity|]. apply session_refines.
  - apply demo_ready.
  - apply Forall_cons_2; [apply demo_plain|]. apply Forall_cons_2; [exact I|].
    apply Forall_cons_2; [apply demo_back_plain|constructor].
  - lia.
  - cbn [g_output demo_guest length]. lia.
  - simpl. lia.
Defined.

Lemma import_export_roundtrip_witness :
  arg_src demo_back_args = arg_dst demo_args /\
  always_ends (Net (client_session (Z.to_nat (2 ^ 18)) [(AGENT_ACT_IMPO, demo_args); (AGENT_ACT_EXPO, demo_back_args)] [])
                 (server_mainloop demo_log 5 3) [] [] (demo_host [1; 2; 3] []) (demo_guest []))
    (fun x => n_client x = Done [Some AGENT_RET_SUCCESS; Some AGENT_RET_SUCCESS] /\
       h_files (n_host x) = <[arg_dst demo_back_args := [1; 2; 3]]> (h_files (demo_host [1; 2; 3] [])) /\
       g_files (n_guest x) = <[arg_dst demo_args := [1; 2; 3]]> (g_files (demo_guest []))).
Proof.
  split; [reflexivity|]. apply import_export_roundtrip.
  - apply demo_ready.
  - apply demo_plain.
  - apply demo_back_plain.
  - reflexivity.
  - reflexivity.
  - reflexivity.
  - lia.
  - cbn [g_output demo_guest length]. lia.
  - lia.
Defined.
