(* ===== verification/AgentLog.v ===== *)
(** * The export of the server's log

    [export_agent_log] against [expolog_cmd]. The server reads its log through a
    duplicate of the handle it writes it with, and the two share a file
    pointer. *)

From S2P Require Import Prelude AgentNet AgentClient AgentServer AgentProto AgentExport AgentSession.
From stdpp Require Import strings.

#[local] Open Scope Z_scope.

Lemma h_fault_none h : h_faults h = [] -> h_fault h = (h, false).
Proof. intros E. unfold h_fault. by rewrite E. Qed.

Section Log.
Context (log_text : string -> list Z -> list Z).
Local Abbreviation len l := (Z.of_nat (length l)).
Local Abbreviation system := (net host guest (option MBA_AGENT_RETURN) round_end).
Context (P : system -> Prop).

(** One chunk of the log. *)
Lemma log_chunk_run kc ks dst old new bs n fuel fsize h g :
  0 < len bs -> len bs = (if fsize <? SZ_MAX_FILECHUNK then fsize else SZ_MAX_FILECHUNK) ->
  h_fd h = Some (dst, len new) -> h_files h !! dst = Some (over old new) -> h_faults h = [] -> h_short h = [] -> g_faults g = [] ->
  take (Z.to_nat n) (drop (Z.to_nat (g_logptr g)) (g_log g)) = bs ->
  (forall h', host_step h h' -> h_fd h' = Some (dst, len (new ++ bs)) ->
     h_files h' = <[dst := over old (new ++ bs)]> (h_files h) ->
     ends (Net (store_loop fuel (fsize - len bs) ≫= kc) (ks (Some (len bs))) [] []
             h' (set_log g (g_log g) (g_logptr g + len bs))) P) ->
  ends (Net (store_loop (S fuel) fsize ≫= kc) (proc_bind ks (log_chunk log_text n 0)) [] [] h g) P.
Proof.
  intros Hb Hlen Hd Hf Hh Hsh Hg Hbs Hok.
  assert (log_read n g = (set_log g (g_log g) (g_logptr g + len bs), Some bs)) as E
    by (unfold log_read; rewrite g_fault_none by done; simpl; by rewrite Hbs).
  server. rewrite E. cbn [fst snd]. simp. rewrite Z.mul_0_l, Z.add_0_l, Z.eqb_refl. cbn [negb].
  match goal with |- ends (Net _ ?q _ _ _ _) _ =>
    replace q with (proc_bind (fun stored : bool => proc_bind ks
        (if negb stored then write_agent_log log_text "exportlog_cmd - client write file fail" [];; mret None
         else mret (Some (len bs))))
      (send_ecm_msg log_text true;; ac_write log_text bs;; recv_ecm_msg log_text)) end.
  - eapply chunk_run; [done..| |]; [|done]. intros h' Sh Dh Fh. by apply Hok.
  - rewrite !(bind_assoc (send_ecm_msg log_text true)). apply bind_ext. intros _.
    rewrite !(bind_assoc (ac_write log_text bs)). apply bind_ext. intros _. by rewrite (bind_assoc (recv_ecm_msg log_text)).
Qed.

(** The full chunks. *)
Lemma log_rounds_run kc ks dst old log n : forall fuel pre rest h g,
  (n <= fuel)%nat -> Z.of_nat n * 8192 <= len rest -> pre ++ rest = log ->
  h_fd h = Some (dst, len pre) -> h_files h !! dst = Some (over old pre) -> h_faults h = [] -> h_short h = [] ->
  g_log g = log -> g_logptr g = len pre -> g_faults g = [] ->
  (forall h' pre' rest', pre' ++ rest' = log -> len rest' = len rest - Z.of_nat n * 8192 -> host_step h h' ->
     h_fd h' = Some (dst, len pre') -> h_files h' = <[dst := over old pre']> (h_files h) ->
     ends (Net (store_loop (fuel - n) (len rest') ≫= kc) (ks true) [] [] h' (set_log g log (len pre'))) P) ->
  ends (Net (store_loop fuel (len rest) ≫= kc) (proc_bind ks (log_rounds log_text 0 n)) [] [] h g) P.
Proof.
  induction n as [|n IH]; intros fuel pre rest h g Hfuel Hr Ec Hd Hf Hh Hsh Hl Hp Hg Hok.
  - specialize (Hok h pre rest). rewrite Nat.sub_0_r in Hok.
    assert (set_log g log (len pre) = g) as Eg by (rewrite <- Hl, <- Hp; by destruct g). rewrite Eg in Hok.
    apply Hok; try done; [lia|by rewrite insert_id].
  - destruct fuel as [|fuel]; [lia|]. cbn [log_rounds].
    set (bs := take (Z.to_nat SZ_MAX_FILECHUNK) rest). set (rest1 := drop (Z.to_nat SZ_MAX_FILECHUNK) rest).
    assert (len bs = 8192) as Hb by (unfold bs; rewrite length_take; unfold SZ_MAX_FILECHUNK; lia).
    assert (len rest1 = len rest - 8192) as Hl1 by (unfold rest1; rewrite length_drop; unfold SZ_MAX_FILECHUNK in *; lia).
    assert ((pre ++ bs) ++ rest1 = log) as Epr by (unfold bs, rest1; by rewrite <- (assoc_L (++)), take_drop).
    rewrite (bind_assoc (log_chunk _ _ _)). apply (log_chunk_run _ _ dst old pre bs); try done.
    + lia.
    + unfold SZ_MAX_FILECHUNK. case_if; lia.
    + by rewrite Hp, Hl, Nat2Z.id, <- Ec, drop_app_length.
    + intros h1 S1 D1 F1. rewrite Hb, <- Hl1.
      apply (IH fuel (pre ++ bs)); try done; [lia|lia|by rewrite F1, lookup_insert_eq|by apply S1|by apply S1|simpl; rewrite length_app; lia|].
      intros h' pre' rest' Ep El Sh Dh Fh. apply (Hok h' pre' rest'); try done; [lia|by eauto with mba|].
      by rewrite Fh, F1, insert_insert_eq.
Qed.
End Log.

Section LogAction.
Context (log_text : string -> list Z -> list Z).
Local Abbreviation len l := (Z.of_nat (length l)).
Local Abbreviation system := (net host guest (option MBA_AGENT_RETURN) round_end).

(** The entry about the command itself. *)
Definition logf_entry : list Z :=
  log_text "Bytes received: 0x%08x, Received message: %s" (command (ascii_bytes "logf") []).

Lemma logf_plain : plain (ascii_bytes "logf" ++ []).
Proof. split_and!; [apply (bool_decide_unpack _); vm_compute; exact I..|vm_compute; discriminate]. Qed.

Lemma logf_command junk : run_command log_text junk (received (command (ascii_bytes "logf") [])) = expolog_cmd log_text junk.
Proof.
  unfold run_command. assert (identify_command (received (command (ascii_bytes "logf") [])) = MBA_CMD_LOGF) as -> by reflexivity.
  done.
Qed.

(** After the full chunks. *)
Lemma log_tail_run (P : system -> Prop) kc ks dst old log pre rest fuel h g :
  pre ++ rest = log -> len rest < 8192 -> (length rest <= fuel)%nat ->
  h_fd h = Some (dst, len pre) -> h_files h !! dst = Some (over old pre) -> h_faults h = [] -> h_short h = [] ->
  g_log g = log -> g_logptr g = len pre -> g_faults g = [] ->
  (forall h', host_step h h' -> h_fd h' = None -> h_files h' = <[dst := over old log]> (h_files h) ->
     ends (Net (kc AGENT_RET_SUCCESS) (ks RET_SUCCESS) [] [] h' (set_log g log (len log))) P) ->
  ends (Net (store_loop fuel (len rest) ≫= kc)
          (proc_bind ks (if len rest =? 0 then mret RET_SUCCESS
             else r ← log_chunk log_text (len rest) 0;
                  match r with None => mret RET_FAIL | Some _ => mret RET_SUCCESS end)) [] [] h g) P.
Proof.
  intros Ec Hr Hfuel Hd Hf Hh Hsh Hl Hp Hg Hok. destruct (Z.eqb_spec (len rest) 0) as [E0|E0].
  - rewrite E0, store_loop_0. client. destruct rest; [|done]. rewrite app_nil_r in Ec. subst pre.
    assert (set_log g log (len log) = g) as Eg by (rewrite <- Hl at 1; rewrite <- Hp; by destruct g). rewrite Eg in Hok.
    apply Hok; try done. by rewrite insert_id.
  - destruct fuel as [|fuel]; [lia|]. rewrite (bind_assoc (log_chunk _ _ _)).
    apply (log_chunk_run log_text P _ _ dst old pre rest); try done.
    + lia.
    + unfold SZ_MAX_FILECHUNK. case_if; lia.
    + by rewrite Hp, Hl, !Nat2Z.id, <- Ec, drop_app_length, take_ge by lia.
    + intros h1 S1 D1 F1. rewrite Z.sub_diag, store_loop_0. client. rewrite Ec in F1.
      rewrite Hl, Hp, <- Nat2Z.inj_add, <- length_app, Ec. by apply Hok.
Qed.

(** The content. *)
Lemma log_content_run (P : system -> Prop) kc ks dst old log h g :
  len log < 2 ^ 45 -> h_fd h = Some (dst, 0) -> h_files h !! dst = Some (over old []) -> h_faults h = [] -> h_short h = [] ->
  g_log g = log -> g_logptr g = 0 -> g_faults g = [] ->
  (forall h', host_step h h' -> h_fd h' = None -> h_files h' = <[dst := over old log]> (h_files h) ->
     ends (Net (kc AGENT_RET_SUCCESS) (ks RET_SUCCESS) [] [] h' (set_log g log (len log))) P) ->
  ends (Net (proc_bind kc (store_loop (Z.to_nat (len log)) (len log)))
          (proc_bind (fun ok : bool => proc_bind ks
             (if negb ok then mret RET_FAIL
              else if len log mod SZ_MAX_FILECHUNK =? 0 then mret RET_SUCCESS
              else r ← log_chunk log_text (len log mod SZ_MAX_FILECHUNK) 0;
                   match r with None => mret RET_FAIL | Some _ => mret RET_SUCCESS end))
             (log_rounds log_text 0 (Z.to_nat (u32 (len log / SZ_MAX_FILECHUNK))))) [] [] h g) P.
Proof.
  intros Hl Hd Hf Hh Hsh Hgl Hp Hg Hok. change SZ_MAX_FILECHUNK with 8192. set (q := len log / 8192) in *.
  assert (len log = 8192 * q + len log mod 8192) as Hq by (apply Z.div_mod; done).
  pose proof (Z.mod_pos_bound (len log) 8192 eq_refl) as Hm.
  assert (0 <= q < 2 ^ 32) as Hqr by lia.
  replace (u32 q) with q by (symmetry; by apply Z.mod_small).
  apply (log_rounds_run log_text P _ _ dst old log (Z.to_nat q) _ []); simpl; try done; rewrite ?Z2Nat.id by lia; try lia.
  intros h' pre rest Ec El Sh Dh Fh. rewrite ?Z2Nat.id in * by lia.
  assert (len log mod 8192 = len rest) as Em by lia. rewrite Em.
  assert (len log = len pre + len rest) as Elen by (rewrite <- Ec, length_app; lia).
  apply (log_tail_run P _ _ dst old log pre rest); try done.
  - lia.
  - lia.
  - by rewrite Fh, lookup_insert_eq.
  - by apply Sh.
  - by apply Sh.
  - intros h2 Sh2 Dh2 Fh2. apply Hok; [by eauto with mba|done|by rewrite Fh2, Fh, insert_insert_eq].
Qed.

(** Up to the client's opening of its file. *)
Lemma log_start_run (P : system -> Prop) fuel a h g :
  g_faults g = [] -> g_logptr g = len (g_log g) -> len (g_log g ++ logf_entry) < 2 ^ 45 ->
  let log := g_log g ++ logf_entry in
  ends (Net (proc_bind (fun r => acknowledge (Some r))
               (opened ← act (open_write (arg_dst a));
                if negb opened then ecm_write false;; mret AGENT_RET_EFAIL
                else ecm_write true;; store_loop (Z.to_nat (len log)) (len log)))
          (proc_bind (answer log_text (received (command (ascii_bytes "logf") [])))
             (opened ← recv_ecm_msg log_text;
              if negb opened then write_agent_log log_text "exportlog_cmd - client open file fail" [];; mret RET_FAIL
              else
                ok ← log_rounds log_text 0 (Z.to_nat (u32 (len log / SZ_MAX_FILECHUNK)));
                if negb ok then mret RET_FAIL
                else if len log mod SZ_MAX_FILECHUNK =? 0 then mret RET_SUCCESS
                else r ← log_chunk log_text (len log mod SZ_MAX_FILECHUNK) 0;
                     match r with None => mret RET_FAIL | Some _ => mret RET_SUCCESS end))
          [] [] h (set_log g log 0)) P ->
  ends (Net (run_action fuel AGENT_ACT_LOGF a) (server_round log_text 0) [] [] h g) P.
Proof.
  intros Hg Hp Hl log Hk. client. apply server_accepts_log; [apply logf_plain|]. rewrite logf_command.
  assert (logged log_text "Bytes received: 0x%08x, Received message: %s" (command (ascii_bytes "logf") []) g =
    set_log g log (len log)) as ->.
  { unfold logged. fold logf_entry. rewrite Hp, overwrite_end. fold log. f_equal. unfold log. rewrite length_app. lia. }
  match goal with |- ends (Net ?p _ _ _ _ _) _ =>
    replace p with (proc_bind (fun r => acknowledge (Some r)) (receive_content (arg_dst a))) end.
  2:{ cbn [proc_bind]. unfold proc_mbind. symmetry. etrans; [apply bind_assoc|]. done. }
  server. unfold api. rewrite !g_fault_none by done. cbn [fst snd negb].
  server. unfold log_rewind. rewrite !g_fault_none by done. cbn [fst snd negb].
  server. unfold log_size. rewrite !g_fault_none by done. cbn [fst snd negb].
  change (g_log (set_log _ (g_log (set_log g log (len log))) 0)) with log. fold log in Hl.
  server. server. client. client. rewrite take_all by (rewrite le_bytes_length; done).
  assert (le_bytes 8 (len log) <> []) as Hn by (intros E0; by apply (f_equal length) in E0; rewrite le_bytes_length in E0).
  simp. rewrite !(bool_decide_false (le_bytes 8 (len log) = [])) by done. simp.
  rewrite le_bytes_length, le_value_bytes by lia. exact Hk.
Qed.

Lemma log_run fuel a h g :
  h_faults h = [] -> h_short h = [] -> g_faults g = [] -> g_logptr g = len (g_log g) -> len (g_log g ++ logf_entry) < 2 ^ 45 ->
  ends (Net (run_action fuel AGENT_ACT_LOGF a) (server_round log_text 0) [] [] h g)
    (fun x => exists h' g', x = Net (Done (Some AGENT_RET_SUCCESS)) (Done (Answered RET_SUCCESS)) [] [] h' g' /\
       h_files h' = <[arg_dst a := over (default [] (h_files h !! arg_dst a)) (g_log g ++ logf_entry)]> (h_files h) /\
       h_out h' = h_out h ++ ack_text (ascii_bytes "logf") /\ g_files g' = g_files g /\
       g_log g' = (g_log g ++ logf_entry) ++ log_text "Bytes sent: %d" [] /\ g_logptr g' = len (g_log g')).
Proof.
  intros Hh Hsh Hg Hp Hl. apply log_start_run; [done..|]. set (log := g_log g ++ logf_entry) in *.
  assert (open_write (arg_dst a) h = (with_fd (with_files h (<[arg_dst a := default [] (h_files h !! arg_dst a)]> (h_files h)))
    (Some (arg_dst a, 0)), true)) as E by (unfold open_write; by rewrite h_fault_none).
  client. rewrite E. cbn [fst snd]. client. server. simp.
  rewrite (bind_assoc (log_rounds _ _ _)). apply (log_content_run _ _ _ (arg_dst a) (default [] (h_files h !! arg_dst a)) log); try done.
  - simpl. by rewrite lookup_insert_eq.
  - intros h' Sh Dh Fh. apply both_succeeded; [apply logf_plain|].
    intros h3 g3 F3 _ O3 _ _ _ _ Fg3 _ _ Eg3. exists h3, g3. split_and!; [done| | |by rewrite Fg3|..].
    + rewrite F3, Fh. simpl. by rewrite insert_insert_eq.
    + rewrite O3, app_nil_r, (proj1 Sh). done.
    + rewrite Eg3. simpl. apply overwrite_end.
    + rewrite Eg3. simpl. rewrite overwrite_end, length_app. lia.
Qed.
End LogAction.

(** ** Theorems *)

(** The log export with working file systems writes the server's log, with
    the entry about the export itself, over the start of the host's file, under
    every schedule, and the server goes on writing its log at the end. *)
Theorem log_export_end_to_end log_text fuel a h g :
  h_faults h = [] -> h_short h = [] -> g_faults g = [] -> g_logptr g = Z.of_nat (length (g_log g)) ->
  Z.of_nat (length (g_log g ++ logf_entry log_text)) < 2 ^ 45 ->
  always_ends (Net (run_action fuel AGENT_ACT_LOGF a) (server_round log_text 0) [] [] h g)
    (fun x => exists h' g', x = Net (Done (Some AGENT_RET_SUCCESS)) (Done (Answered RET_SUCCESS)) [] [] h' g' /\
       h_files h' = <[arg_dst a := over (default [] (h_files h !! arg_dst a)) (g_log g ++ logf_entry log_text)]> (h_files h) /\
       h_out h' = h_out h ++ ack_text (ascii_bytes "logf") /\ g_files g' = g_files g /\
       g_log g' = (g_log g ++ logf_entry log_text) ++ log_text "Bytes sent: %d" [] /\
       g_logptr g' = Z.of_nat (length (g_log g'))).
Proof. intros. apply ends_all. by apply log_run. Qed.

(** When the client cannot open the file for the log, the server's log
    pointer has been rewound and stays there: the entries that follow are written
    over the start of the log. *)
Theorem log_export_overwrites_log log_text fuel a h g faults :
  h_faults h = true :: faults -> g_faults g = [] -> g_logptr g = Z.of_nat (length (g_log g)) ->
  Z.of_nat (length (g_log g ++ logf_entry log_text)) < 2 ^ 45 ->
  always_ends (Net (run_action fuel AGENT_ACT_LOGF a) (server_round log_text 0) [] [] h g)
    (fun x => exists h' g', x = Net (Done (Some AGENT_RET_EFAIL)) (Done (Answered RET_FAIL)) [] [] h' g' /\
       g_log g' = over (g_log g ++ logf_entry log_text)
         (log_text "exportlog_cmd - client open file fail" [] ++ log_text "Bytes sent: %d" [])).
Proof.
  intros Hh Hg Hp Hl. apply ends_all, log_start_run; [done..|].
  assert (open_write (arg_dst a) h = (Host (h_files h) (h_fd h) faults (h_out h) (h_broken h) (h_short h), false)) as E
    by (unfold open_write, h_fault; by rewrite Hh).
  client. rewrite E. cbn [fst snd]. client. server. simp. server. apply both_failed.
  intros g' _ _ _ ->. eexists _, _. split; [reflexivity|]. simpl.
  rewrite <- (overwrite_next _ (log_text "exportlog_cmd - client open file fail" [])). f_equal.
Qed.

(** *** Witnesses *)

Lemma log_export_end_to_end_witness :
  let g := Guest ∅ [] None [1; 2] 2 [] [] [] 0 in
  g_log g = [1; 2] /\
  always_ends (Net (run_action 1 AGENT_ACT_LOGF demo_args) (server_round demo_log 0) [] [] (demo_host [] []) g)
    (fun x => exists h' g', x = Net (Done (Some AGENT_RET_SUCCESS)) (Done (Answered RET_SUCCESS)) [] [] h' g' /\
       h_files h' = <[arg_dst demo_args := over (default [] (h_files (demo_host [] []) !! arg_dst demo_args))
         (g_log g ++ logf_entry demo_log)]> (h_files (demo_host [] [])) /\
       h_out h' = h_out (demo_host [] []) ++ ack_text (ascii_bytes "logf") /\ g_files g' = g_files g /\
       g_log g' = (g_log g ++ logf_entry demo_log) ++ demo_log "Bytes sent: %d" [] /\
       g_logptr g' = Z.of_nat (length (g_log g'))).
Proof. intros g. split; [reflexivity|]. apply log_export_end_to_end; [reflexivity..|vm_compute; reflexivity]. Defined.

Lemma log_export_overwrites_log_witness :
  let g := Guest ∅ [] None [1; 2] 2 [] [] [] 0 in
  h_faults (demo_host [] [true]) = [true] /\
  always_ends (Net (run_action 1 AGENT_ACT_LOGF demo_args) (server_round demo_log 0) [] [] (demo_host [] [true]) g)
    (fun x => exists h' g', x = Net (Done (Some AGENT_RET_EFAIL)) (Done (Answered RET_FAIL)) [] [] h' g' /\
       g_log g' = over (g_log g ++ logf_entry demo_log)
         (demo_log "exportlog_cmd - client open file fail" [] ++ demo_log "Bytes sent: %d" [])).
Proof. intros g. split; [reflexivity|]. apply log_export_overwrites_log with (faults := []); [reflexivity..|vm_compute; reflexivity]. Defined.
