(* ===== verification/AgentFaults.v ===== *)
(** * Where the agent's protocol breaks

    Commands that stop the server, and failures that outlive the action in which
    they happen. *)

From S2P Require Import Prelude AgentNet AgentClient AgentServer AgentProto AgentImport AgentExport AgentSession.
From stdpp Require Import strings.

#[local] Open Scope Z_scope.

Section Faults.
Context (log_text : string -> list Z -> list Z) (junk : Z).
Local Abbreviation len l := (Z.of_nat (length l)).
Local Abbreviation system := (net host guest (option MBA_AGENT_RETURN) round_end).

(** ** Lemmas: commands that cannot be logged *)

Lemma server_aborts (P : system -> Prop) p name arg h g :
  length name = 5%nat -> no_zero name -> no_zero arg -> (202 < length arg)%nat ->
  ends (Net p (Done Aborted) [] [] h g) P ->
  ends (Net p (server_round log_text junk) [command name arg] [] h g) P.
Proof.
  intros Hn Hzn Hza Hl Hk. server. rewrite take_all by (rewrite command_length; done).
  assert (command name arg <> []) as Hne by (intros E; by pose proof (command_length name arg) as Hc; rewrite E in Hc).
  simp. rewrite (bool_decide_false (command name arg = [])) by done. simp.
  rewrite (bool_decide_false (command name arg = [])) by done. fold (received (command name arg)).
  assert (loggable (received (command name arg)) = false) as ->; [|exact Hk].
  assert (cstr (received (command name arg)) = name ++ take 250 arg) as Ec.
  { rewrite received_command, (assoc_L (++)) by done.
    assert (length (take 250 arg) <= 250)%nat by (rewrite length_take; lia).
    destruct (507 - length (take 250 arg))%nat eqn:E; [lia|]. simpl. apply cstr_app.
    apply Forall_app. split; [done|by apply no_zero_take]. }
  unfold loggable. rewrite Ec, length_app, Hn, length_take. apply andb_false_intro1, Z.ltb_ge. unfold SZ_MAX_LOG. lia.
Qed.

(** ** Lemmas: a handle that is not closed *)

(** The client cannot read the first chunk. *)
Lemma unread_import_run fuel a content h g faults :
  h_files h !! arg_src a = Some content -> 0 < len content < 2 ^ 45 -> plain (ascii_bytes "impo " ++ arg_dst a) ->
  h_faults h = false :: false :: true :: faults -> g_faults g = [] ->
  sharing_violation (g_open g) (arg_dst a) true = false ->
  ends (Net (run_action (S fuel) AGENT_ACT_IMPO a) (server_round log_text junk) [] [] h g)
    (fun x => exists h' g', x = Net (Done (Some AGENT_RET_EFAIL)) (Done (Answered RET_FAIL)) [] [] h' g' /\
       h_files h' = h_files h /\ h_faults h' = faults /\ g_open g' = (arg_dst a, true) :: g_open g).
Proof.
  intros Hf Hl Hp Hh Hg Hv. set (h1 := Host (h_files h) (Some (arg_src a, 0)) (false :: true :: faults) (h_out h) (h_broken h) (h_short h)).
  assert (open_read (arg_src a) h = (h1, true)) as E1 by (unfold open_read, h_fault; rewrite Hh; simpl; by rewrite Hf).
  set (h2 := Host (h_files h) (Some (arg_src a, 0)) (true :: faults) (h_out h) (h_broken h) (h_short h)).
  assert (stat (arg_src a) h1 = (h2, Some (len content))) as E2 by (unfold stat, h_fault; simpl; by rewrite Hf).
  client. rewrite E1. cbn [fst snd]. client. rewrite E2. cbn [fst snd]. client. client.
  apply server_accepts; [done|]. intros log ptr.
  unfold run_command at 1. rewrite command_line_plain, (identify_plain MBA_CMD_IMPO) by done.
  server. rewrite take_all by (rewrite le_bytes_length; done).
  assert (le_bytes 8 (len content) <> []) as Hn by (intros E0; by apply (f_equal length) in E0; rewrite le_bytes_length in E0).
  simp. rewrite (bool_decide_false (le_bytes 8 (len content) = [])) by done. simp.
  rewrite le_bytes_length, le_value_bytes by lia. change (negb (Z.of_nat 8 =? 8)) with false.
  server. server.
  match goal with |- ends (Net _ _ _ _ _ ?G) _ => set (g0 := G) end.
  assert (g_open g0 = g_open g /\ g_faults g0 = []) as [O0 X0] by done. clearbody g0.
  destruct (CreateFile_cases (arg_dst a) true CREATE_ALWAYS g0) as (g1 & _ & [(_ & Hc & _)|(E & _ & _ & O1 & _)]); [done|..].
  { exfalso. rewrite X0, O0, Hv in Hc. by destruct Hc. }
  server. rewrite E. cbn [fst snd]. server. client. simp.
  set (h3 := Host (h_files h) (Some (arg_src a, 0)) faults (h_out h) (h_broken h) (h_short h)).
  assert (read SZ_MAX_FILECHUNK h2 = (h3, None)) as E3 by done.
  cbn [import_loop]. destruct (Z.eqb_spec (len content) 0) as [E0|_]; [lia|].
  client. rewrite E3. cbn [fst snd]. client. client.
  assert (forall g2, g_open g2 = (arg_dst a, true) :: g_open g ->
    ends (Net (acknowledge (Some AGENT_RET_EFAIL)) (answer log_text (received (command (ascii_bytes "impo ") (arg_dst a))) RET_FAIL)
            [] [] (with_fd h3 None) g2)
      (fun x => exists h' g', x = Net (Done (Some AGENT_RET_EFAIL)) (Done (Answered RET_FAIL)) [] [] h' g' /\
         h_files h' = h_files h /\ h_faults h' = faults /\ g_open g' = (arg_dst a, true) :: g_open g)) as Hend.
  { intros g2 Hg2. apply both_failed. intros g' _ _ Og' _. eexists _, g'. split; [reflexivity|]. simpl. by rewrite Og'. }
  rewrite O0 in O1. set (q := len content / SZ_MAX_FILECHUNK) in *.
  assert (len content = SZ_MAX_FILECHUNK * q + len content mod SZ_MAX_FILECHUNK) as Hq by (apply Z.div_mod; done).
  pose proof (Z.mod_pos_bound (len content) SZ_MAX_FILECHUNK eq_refl) as Hm. unfold SZ_MAX_FILECHUNK in Hq at 1, Hm at 3.
  replace (u32 q) with q by (symmetry; apply Z.mod_small; lia).
  destruct (Z.to_nat q) as [|n] eqn:Eq.
  - simp. destruct (Z.eqb_spec (len content mod SZ_MAX_FILECHUNK) 0) as [E0|_]; [lia|].
    server. simp. server. by apply Hend.
  - cbn [import_rounds]. server. simp. server. by apply Hend.
Qed.

(** A destination with an open handle is refused. *)
Lemma shared_import_run fuel a content h g :
  h_files h !! arg_src a = Some content -> len content < 2 ^ 45 ->
  (Z.to_nat (len content / SZ_MAX_FILECHUNK) < fuel)%nat -> plain (ascii_bytes "impo " ++ arg_dst a) ->
  h_faults h = [] -> sharing_violation (g_open g) (arg_dst a) true = true ->
  ends (Net (run_action fuel AGENT_ACT_IMPO a) (server_round log_text junk) [] [] h g)
    (fun x => exists h' g', x = Net (Done (Some AGENT_RET_EFAIL)) (Done (Answered RET_FAIL)) [] [] h' g').
Proof.
  intros Hf Hl Hfuel Hp Hh Hv. eapply ends_mono; [|by apply (import_run _ _ _ _ content)].
  intros x [(h' & g' & f & _ & _ & _ & _ & _ & _ & _ & _ & _ & Hv' & _)|[(h' & g' & -> & _)|(h' & _ & _ & _ & Hne)]].
  - congruence.
  - by exists h', g'.
  - done.
Qed.
(** ** Lemmas: a write that stores a part *)

(** The two writes of a chunk of which the first stores [k] bytes. *)
Lemma short_writes h dst bs k : h_faults h = [] -> h_short h = [k] -> h_fd h = Some (dst, 0) -> 0 < k < len bs ->
  exists h1 h2, write bs h = (h1, Some k) /\ write (drop (Z.to_nat k) bs) h1 = (h2, Some (len bs - k)).
Proof.
  intros Hh Hs Hd Hk. unfold write at 1, h_fault. rewrite Hh, Hd. unfold write_size. rewrite Hs.
  replace (Z.max 1 (Z.min k (len bs))) with k by lia. eexists _, _. split; [reflexivity|].
  unfold write, h_fault. simpl. rewrite Hh. unfold write_size. simpl. rewrite length_drop.
  replace (Z.of_nat (length bs - Z.to_nat k)) with (len bs - k) by lia. reflexivity.
Qed.

(** A chunk: the server takes the first of the client's two answers, and the second stays. *)
Lemma short_chunk_run (P : system -> Prop) kc ks dst bs k msg h g :
  0 < k < len bs -> len bs < 8192 -> h_faults h = [] -> h_short h = [k] -> h_fd h = Some (dst, 0) ->
  (forall h', ends (Net (kc AGENT_RET_SUCCESS) (ks true) [MSG_REC_SUCCESS] [] h' g) P) ->
  ends (Net (store_loop (length bs) (len bs) ≫= kc) (proc_bind ks (send_chunk log_text 0 bs msg)) [] [] h g) P.
Proof.
  intros Hk Hb Hh Hs Hd Hok. rewrite send_chunk_eq.
  destruct (short_writes h dst bs k Hh Hs Hd Hk) as (h1 & h2 & E1 & E2).
  assert (bs <> []) as Hne by (intros ->; simpl in *; lia).
  assert (drop (Z.to_nat k) bs <> []) as Hne2 by (intros E; apply (f_equal length) in E; rewrite length_drop in E; simpl in E; lia).
  destruct (length bs) as [|fuel] eqn:El; [lia|]. cbn [store_loop].
  destruct (Z.eqb_spec (Z.of_nat (S fuel)) 0) as [Hz|Hz]; [lia|].
  server. server. simp. rewrite (bool_decide_false (bs = [])) by done. client. client.
  rewrite take_all by (unfold SZ_MAX_FILECHUNK; case_if; lia). simp. rewrite (bool_decide_false (bs = [])) by done. simp.
  rewrite (bool_decide_false (bs = [])) by done. rewrite El.
  destruct fuel as [|fuel]; [lia|]. cbn [write_loop]. rewrite (bool_decide_false (bs = [])) by done.
  client. rewrite E1. cbn [fst snd]. client.
  rewrite (bool_decide_false (drop (Z.to_nat k) bs = [])) by done. client. rewrite E2. cbn [fst snd]. client.
  rewrite (drop_ge (drop _ _)) by (rewrite length_drop; lia). rewrite write_loop_nil. simp.
  rewrite Z.sub_diag, store_loop_0. client. server. simp. apply Hok.
Qed.
(** The content, as one short chunk. *)
Lemma short_content_run (P : system -> Prop) kc ks src dst content k h g :
  0 < k < len content -> len content < 8192 -> h_faults h = [] -> h_short h = [k] -> h_fd h = Some (dst, 0) ->
  g_files g !! src = Some content -> g_cur g = Some (src, false, 0) -> g_faults g = [] ->
  g_open g = (src, false) :: List.tl (g_open g) -> sharing_violation (List.tl (g_open g)) src false = false ->
  (forall h' g', ends (Net (kc AGENT_RET_SUCCESS) (ks RET_SUCCESS) [MSG_REC_SUCCESS] [] h' g') P) ->
  ends (Net (proc_bind kc (store_loop (length content) (len content)))
          (proc_bind ks (close_handle;; export_last log_text src (len content) 0)) [] [] h g) P.
Proof.
  intros Hk Hl Hh Hs Hd Hgf Hgc Hg Ho Hv Hok.
  destruct (CloseHandle_open g src false 0 (List.tl (g_open g))) as (Oc & Fc & _ & _ & Xc); [done..|].
  server. match goal with |- ends (Net _ _ _ _ _ ?G) _ => set (g1 := G) in * end.
  destruct (CreateFile_cases src false OPEN_EXISTING g1) as (g2 & S2 & [(_ & Hne & _)|(E & _ & C2 & _ & F2)]);
    [by rewrite Fc, Hgf|exfalso; rewrite Xc, Hg, Oc, Hv in Hne; by destruct Hne|].
  server. rewrite E. cbn [fst snd]. server.
  destruct (read_tail g2 src content 0 (len content)) as (g3 & g4 & E3 & _ & _ & _ & Hcase);
    [done|by rewrite F2, Fc|lia..|].
  assert (g_faults g2 = []) as X2 by (apply S2; by rewrite Xc).
  rewrite E3. server. destruct Hcase as [[_ Hne]|(ptr & Ht & E4 & _)]; [done|]. rewrite E4. cbn [fst snd].
  assert (ptr = 0) as ->.
  { destruct Ht as [[-> _]|[-> _]]; done. }
  rewrite Nat2Z.id, drop_0, firstn_all. simp. rewrite (bind_assoc (send_chunk _ _ _ _)).
  apply (short_chunk_run _ _ _ dst content k); try done.
  intros h'. cbn [negb]. server. server. apply Hok.
Qed.

(** After the command. *)
Lemma short_export_run (P : system -> Prop) kc ks src dst content k h g :
  0 < k < len content -> len content < 8192 -> h_faults h = [] -> h_short h = [k] ->
  g_files g !! src = Some content -> g_faults g = [] -> sharing_violation (g_open g) src false = false ->
  (forall h' g', ends (Net (kc AGENT_RET_SUCCESS) (ks RET_SUCCESS) [MSG_REC_SUCCESS] [] h' g') P) ->
  ends (Net (proc_bind kc (receive_content dst)) (proc_bind ks (export_cmd log_text junk src)) [] [] h g) P.
Proof.
  intros Hk Hl Hh Hs Hgf Hg Hv Hok.
  destruct (CreateFile_cases src false OPEN_EXISTING g) as (g0 & S0 & [(_ & Hne & _)|(E & _ & C0 & O0 & F0)]);
    [by eauto|exfalso; rewrite Hg, Hv in Hne; by destruct Hne|].
  assert (g_faults g0 = []) as X0 by (by apply S0).
  destruct (GetFileSizeEx_cases g0 src false 0 content C0) as (g1 & S1 & O1 & F1 & C1 & [[_ Hne]|E1]); [by rewrite F0|done|].
  server. rewrite E. cbn [fst snd]. server. rewrite E1. cbn [fst snd]. server. server. server.
  match goal with |- ends (Net _ _ _ _ _ ?G) _ => set (g2 := G) end.
  assert (g_files g2 = g_files g /\ g_open g2 = (src, false) :: g_open g /\ g_faults g2 = [] /\ g_cur g2 = Some (src, false, 0))
    as (F2 & O2 & X2 & C2) by (split_and!; [simpl; congruence..|by apply S1|simpl; congruence]).
  clearbody g2. clear E E1 g0 g1 S0 S1 O0 O1 F0 F1 C0 C1 X0.
  server. client. client. rewrite take_all by (rewrite le_bytes_length; done).
  assert (le_bytes 8 (len content) <> []) as Hn by (intros E0; by apply (f_equal length) in E0; rewrite le_bytes_length in E0).
  simp. rewrite (bool_decide_false (le_bytes 8 (len content) = [])) by done. simp.
  rewrite le_bytes_length, le_value_bytes by lia. change (negb (Z.of_nat 8 =? 8)) with false. cbv iota.
  assert (exists h1, open_write dst h = (h1, true) /\ h_faults h1 = [] /\ h_short h1 = [k] /\ h_fd h1 = Some (dst, 0))
    as (h1 & E & Hh1 & Hs1 & Hd1) by (unfold open_write, h_fault; rewrite Hh; eexists; split; [reflexivity|]; done).
  client. rewrite E. cbn [fst snd]. client. server. simp.
  assert (len content / SZ_MAX_FILECHUNK = 0) as Eq by (apply Z.div_small; unfold SZ_MAX_FILECHUNK; lia).
  assert (len content mod SZ_MAX_FILECHUNK = len content) as Em by (apply Z.mod_small; unfold SZ_MAX_FILECHUNK; lia).
  rewrite Eq, Em. change (Z.to_nat (u32 0)) with 0%nat. cbn [export_rounds]. simp.
  destruct (Z.eqb_spec (len content) 0) as [E0|_]; [lia|]. rewrite Nat2Z.id.
  apply (short_content_run _ _ _ src dst content k); rewrite ?O2; try done. by rewrite F2.
Qed.
End Faults.

(** ** Theorems *)

(** A command whose text, with the five characters of its name, is longer
    than 207 characters stops the server: the log message about it does not fit the
    buffer that sprintf_s is given, and the process is terminated. The
    client accepts such names, sends the command and waits for an answer that
    cannot come. *)
Theorem long_name_stops_server log_text junk fuel a h g :
  (202 < length (arg_src a))%nat ->
  always_ends (Net (run_action fuel AGENT_ACT_EXPO a) (server_round log_text junk) [] [] h g)
    (fun x => n_server x = Done Aborted /\ n_sc x = [] /\ exists n k, n_client x = Recv n k).
Proof.
  intros Hl. apply ends_all. client. apply server_aborts; [reflexivity| |apply cstr_no_zero|done|].
  - apply (proj2 (command_name_ok MBA_CMD_EXPO)).
  - apply ends_stuck. split_and!; [done|done|by eauto].
Qed.

(** An import in which the host's file cannot be read leaves the server's
    exclusive handle to the destination open: the same import, tried again when the
    file can be read and the guest's file system works, fails as well. *)
Theorem failed_import_blocks_retry log_text junk fuel a content h g :
  h_files h !! arg_src a = Some content -> 0 < Z.of_nat (length content) < 2 ^ 45 ->
  (Z.to_nat (Z.of_nat (length content) / SZ_MAX_FILECHUNK) < fuel)%nat -> plain (ascii_bytes "impo " ++ arg_dst a) ->
  h_faults h = [false; false; true] -> g_faults g = [] -> sharing_violation (g_open g) (arg_dst a) true = false ->
  always_ends (Net (client_session fuel [(AGENT_ACT_IMPO, a); (AGENT_ACT_IMPO, a)] []) (server_mainloop log_text junk 3) [] [] h g)
    (fun x => n_client x = Done [Some AGENT_RET_EFAIL; Some AGENT_RET_EFAIL] /\ n_cs x = [] /\ n_sc x = []).
Proof.
  intros Hf Hl Hfuel Hp Hh Hg Hv. apply ends_all. destruct fuel as [|fuel]; [lia|].
  set (kr rounds := fun r => match r with Answered _ => server_mainloop log_text junk rounds | _ => mret tt end).
  apply (ends_bind (fun r => client_session (S fuel) [(AGENT_ACT_IMPO, a)] ([] ++ [r])) (kr 2%nat)
           (Net (run_action (S fuel) AGENT_ACT_IMPO a) (server_round log_text junk) [] [] h g) _ _
           (unread_import_run log_text junk fuel a content h g [] Hf Hl Hp Hh Hg Hv)).
  intros x (h1 & g1 & -> & F1 & X1 & O1).
  apply (ends_bind (fun r => client_session (S fuel) [] ([Some AGENT_RET_EFAIL] ++ [r])) (kr 1%nat)
           (Net (run_action (S fuel) AGENT_ACT_IMPO a) (server_round log_text junk) [] [] h1 g1) _
           (fun x => exists h' g', x = Net (Done (Some AGENT_RET_EFAIL)) (Done (Answered RET_FAIL)) [] [] h' g')).
  - apply (shared_import_run _ _ _ _ content); try done; [congruence|lia|].
    rewrite O1. simpl. by rewrite bool_decide_true.
  - intros x (h2 & g2 & ->). by apply ends_waiting.
Qed.

(** A write on the host that stores a part of what it was given puts the two sides
    out of step: the client answers the chunk once for every write, the
    server reads one answer, and both report success with an answer left that the
    server will take for its next command. *)
Theorem short_write_left_over log_text junk fuel a content k h g :
  g_files g !! arg_src a = Some content -> 0 < k < Z.of_nat (length content) -> Z.of_nat (length content) < 8192 ->
  plain (ascii_bytes "expo " ++ arg_src a) -> h_faults h = [] -> h_short h = [k] -> g_faults g = [] ->
  sharing_violation (g_open g) (arg_src a) false = false ->
  always_ends (Net (run_action fuel AGENT_ACT_EXPO a) (server_round log_text junk) [] [] h g)
    (fun x => n_client x = Done (Some AGENT_RET_SUCCESS) /\ n_server x = Done (Answered RET_SUCCESS) /\
       n_cs x = [MSG_REC_SUCCESS] /\ n_sc x = []).
Proof.
  intros Hf Hk Hl Hp Hh Hs Hg Hv. apply ends_all. client. apply server_accepts; [done|]. intros log ptr.
  unfold run_command at 1. rewrite command_line_plain, (identify_plain MBA_CMD_EXPO) by done.
  match goal with |- ends (Net ?p _ _ _ _ _) _ =>
    replace p with (proc_bind (fun r => acknowledge (Some r)) (receive_content (arg_dst a))) end.
  2:{ cbn [proc_bind]. unfold proc_mbind. symmetry. etrans; [apply bind_assoc|]. done. }
  apply (short_export_run log_text junk _ _ _ (arg_src a) (arg_dst a) content k); try done.
  intros h' g'. apply both_succeeded; [done|]. intros h3 g3 _ _ _ _ _ _ _ _ _ _ _. by split_and!.
Qed.

(** *** Witnesses *)

Definition demo_long_args : act_args :=
  Args (padded 256 []) (padded 256 (ascii_bytes "/a.txt")) (padded 256 (replicate 203 97)) [].

Lemma long_name_stops_server_witness :
  length (arg_src demo_long_args) = 203%nat /\
  always_ends (Net (run_action 1 AGENT_ACT_EXPO demo_long_args) (server_round demo_log 0) [] [] (demo_host [] []) (demo_guest []))
    (fun x => n_server x = Done Aborted /\ n_sc x = [] /\ exists n k, n_client x = Recv n k).
Proof. split; [reflexivity|]. apply long_name_stops_server. vm_compute. lia. Defined.

Lemma failed_import_blocks_retry_witness :
  h_faults (demo_host [1; 2; 3] [false; false; true]) = [false; false; true] /\
  always_ends (Net (client_session 1 [(AGENT_ACT_IMPO, demo_args); (AGENT_ACT_IMPO, demo_args)] [])
                 (server_mainloop demo_log 0 3) [] [] (demo_host [1; 2; 3] [false; false; true]) (demo_guest []))
    (fun x => n_client x = Done [Some AGENT_RET_EFAIL; Some AGENT_RET_EFAIL] /\ n_cs x = [] /\ n_sc x = []).
Proof.
  split; [reflexivity|]. apply failed_import_blocks_retry with (content := [1; 2; 3]); try reflexivity.
  - vm_compute. done.
  - vm_compute. lia.
  - apply demo_plain.
Defined.

Lemma short_write_left_over_witness :
  let h := Host {[ascii_bytes "/a.txt" := []]} None [] [] false [2] in
  h_short h = [2] /\
  always_ends (Net (run_action 1 AGENT_ACT_EXPO demo_export_args) (server_round demo_log 0) [] [] h (demo_export_guest [1; 2; 3] []))
    (fun x => n_client x = Done (Some AGENT_RET_SUCCESS) /\ n_server x = Done (Answered RET_SUCCESS) /\
       n_cs x = [MSG_REC_SUCCESS] /\ n_sc x = []).
Proof.
  intros h. split; [reflexivity|]. apply short_write_left_over with (content := [1; 2; 3]) (k := 2);
    [reflexivity|simpl; lia|vm_compute; reflexivity|apply demo_export_plain|reflexivity..].
Defined.
