(* ===== verification/AgentApi.v ===== *)
(** * The agent's programming interface

    The calls that the monitor makes (src/ext/agent/agent.c 206-223, 817-1099, and
    the commands of src/ext/agent/agent-commands.c) and the main loop of the agent
    thread (706-773), interleaved step by step. The locks are those of the code:
    [thread.mtx] is a variable of the state, the short sections under [act.mtx] are
    single steps. An action itself is one step here; what it does is in
    [AgentClient]. Calls of the pthread library that only fail for invalid
    arguments succeed; connecting, forwarding the port and creating the thread
    may fail. *)

From S2P Require Import Prelude AgentNet AgentClient AgentServer AgentProto.
From stdpp Require Import strings.

#[local] Open Scope Z_scope.

(** ** State *)

Inductive who : Type := Monitor_thread | Agent_thread.

(** The requests and their arguments. *)
Inductive call : Type :=
| Import (dst_path src_path : list Z) | Export (dst_path src_path : list Z)
| Execute (cmdline : list Z) | Invoke (cmdline : list Z) | Sync | Logfile (dst_path : list Z).

Definition call_type (c : call) : MBA_AGENT_ACTION :=
  match c with
  | Import _ _ => AGENT_ACT_IMPO | Export _ _ => AGENT_ACT_EXPO | Execute _ => AGENT_ACT_EXEC
  | Invoke _ => AGENT_ACT_INVO | Sync => AGENT_ACT_SYNC | Logfile _ => AGENT_ACT_LOGF
  end.

(** [bzero] and [strncpy] into the buffers of the context. *)
Definition fill (c : call) (a : act_args) : act_args :=
  match c with
  | Import d s | Export d s => Args (a_cmdline a) (padded SZ_MAX_FILEPATH d) (padded SZ_MAX_FILEPATH s) (a_rest a)
  | Execute l | Invoke l => Args (padded SZ_MAX_COMMAND l) (a_dst_path a) (a_src_path a) (a_rest a)
  | Sync => a
  | Logfile d => Args (a_cmdline a) (padded SZ_MAX_FILEPATH d) (a_src_path a) (a_rest a)
  end.

(** Where the agent thread is: before connecting, about to set the idle action for
    the first time, about to lock, holding the lock before the test, waiting on the
    condition, woken and about to lock again, performing the action, about to
    reset it, about to unlock, or not there. *)
Inductive agent_pc : Type :=
| A_connect | A_first_idle | A_lock | A_check | A_wait | A_wake | A_run | A_reset | A_unlock | A_gone.

(** Where the monitor is in a call: outside, before trylock, before
    set_agent_action, before the arguments, the signal and the unlock; or joining
    the agent thread in agent_cleanup. *)
Inductive monitor_pc : Type :=
| M_out | M_trylock (c : call) | M_set (c : call) | M_fill (c : call) | M_signal (c : call) | M_unlock (c : call)
| M_join (created : bool).

Record api : Type := Api {
  s_mtx : option who;
  s_type : MBA_AGENT_ACTION;
  s_args : act_args;
  s_ready : bool;
  s_cancel : bool;               (* the agent thread has been cancelled *)
  s_spawned : bool;              (* thread.tid is a thread *)
  s_agent : agent_pc;
  s_mon : monitor_pc;
  s_ret : option MBA_AGENT_RETURN;   (* what the last call returned *)
  s_accepted : list call;        (* since the last initialisation *)
  s_executed : list (MBA_AGENT_ACTION * act_args)
}.

(** The zeroed context; [rest] is the memory behind the argument buffers. *)
Definition zero_args (rest : list Z) : act_args :=
  Args (padded SZ_MAX_COMMAND []) (padded SZ_MAX_FILEPATH []) (padded SZ_MAX_FILEPATH []) rest.
Definition api0 (rest : list Z) : api :=
  Api None AGENT_ACT_IDLE (zero_args rest) false false false A_gone M_out None [] [].

Definition set_mtx (m : option who) (s : api) : api :=
  Api m (s_type s) (s_args s) (s_ready s) (s_cancel s) (s_spawned s) (s_agent s) (s_mon s) (s_ret s) (s_accepted s) (s_executed s).
Definition set_type (t : MBA_AGENT_ACTION) (s : api) : api :=
  Api (s_mtx s) t (s_args s) (s_ready s) (s_cancel s) (s_spawned s) (s_agent s) (s_mon s) (s_ret s) (s_accepted s) (s_executed s).
Definition set_agent (p : agent_pc) (s : api) : api :=
  Api (s_mtx s) (s_type s) (s_args s) (s_ready s) (s_cancel s) (s_spawned s) p (s_mon s) (s_ret s) (s_accepted s) (s_executed s).
Definition set_mon (p : monitor_pc) (s : api) : api :=
  Api (s_mtx s) (s_type s) (s_args s) (s_ready s) (s_cancel s) (s_spawned s) (s_agent s) p (s_ret s) (s_accepted s) (s_executed s).
(** Return from a call. *)
Definition return_ (r : MBA_AGENT_RETURN) (s : api) : api :=
  Api (s_mtx s) (s_type s) (s_args s) (s_ready s) (s_cancel s) (s_spawned s) (s_agent s) M_out (Some r) (s_accepted s) (s_executed s).

(** ** The agent thread *)

(** [agent_client_mainloop]; [ok] is whether connecting works. *)
Definition agent_move (ok : bool) (s : api) : option api :=
  match s_agent s with
  | A_connect =>
      if ok then Some (set_agent A_first_idle
        (Api (s_mtx s) (s_type s) (s_args s) true (s_cancel s) (s_spawned s) (s_agent s) (s_mon s) (s_ret s)
           (s_accepted s) (s_executed s)))
      else Some (set_agent A_gone s)
  | A_first_idle => Some (set_agent A_lock (set_type AGENT_ACT_IDLE s))
  | A_lock | A_wake =>
      match s_mtx s with
      | None => Some (set_agent A_check (set_mtx (Some Agent_thread) s))
      | Some _ => None
      end
  | A_check =>
      if bool_decide (s_type s = AGENT_ACT_IDLE) then Some (set_agent A_wait (set_mtx None s))
      else Some (set_agent A_run
        (Api (s_mtx s) (s_type s) (s_args s) (s_ready s) (s_cancel s) (s_spawned s) (s_agent s) (s_mon s) (s_ret s)
           (s_accepted s) (s_executed s ++ [(s_type s, s_args s)])))
  | A_run => Some (set_agent A_reset s)
  | A_reset => Some (set_agent A_unlock (set_type AGENT_ACT_IDLE s))
  | A_unlock => Some (set_agent A_lock (set_mtx None s))
  | A_wait | A_gone => None
  end.

(** A cancelled thread ends where it blocks on the network or on the condition;
    the latter takes the mutex first. *)
Definition cancel_move (s : api) : option api :=
  if negb (s_cancel s) then None
  else match s_agent s with
  | A_connect | A_run => Some (set_agent A_gone s)
  | A_wait =>
      match s_mtx s with
      | None => Some (set_agent A_gone (set_mtx (Some Agent_thread) s))
      | Some _ => None
      end
  | _ => None
  end.

(** ** The calls *)

(** [agent_init] on a context that is neither initialising nor ready;
    [forwarded] and [created] are whether the port could be forwarded and the thread
    created. *)
Definition agent_init (forwarded created : bool) (s : api) : api :=
  if bool_decide (s_type s = AGENT_ACT_INIT) then return_ AGENT_RET_EBUSY s
  else if s_ready s then return_ AGENT_RET_SUCCESS s
  else
    let s := api0 (a_rest (s_args s)) in
    if negb forwarded then return_ AGENT_RET_EFAIL s
    else
      let s := set_type AGENT_ACT_INIT s in
      if negb created then return_ AGENT_RET_EFAIL s
      else return_ AGENT_RET_SUCCESS
        (Api (s_mtx s) (s_type s) (s_args s) (s_ready s) (s_cancel s) true A_connect (s_mon s) (s_ret s)
           (s_accepted s) (s_executed s)).

(** The rest of a call. The two returns for a busy agent differ: after
    set_agent_action the mutex stays locked. *)
Definition monitor_move (s : api) : option api :=
  match s_mon s with
  | M_out => None
  | M_trylock c =>
      match s_mtx s with
      | None => Some (set_mon (M_set c) (set_mtx (Some Monitor_thread) s))
      | Some _ => Some (return_ AGENT_RET_EBUSY s)
      end
  | M_set c =>
      if bool_decide (s_type s = AGENT_ACT_IDLE) then Some (set_mon (M_fill c) (set_type (call_type c) s))
      else Some (return_ AGENT_RET_EBUSY s)
  | M_fill c =>
      Some (set_mon (M_signal c)
        (Api (s_mtx s) (s_type s) (fill c (s_args s)) (s_ready s) (s_cancel s) (s_spawned s) (s_agent s) (s_mon s)
           (s_ret s) (s_accepted s) (s_executed s)))
  | M_signal c =>
      Some (set_mon (M_unlock c)
        (match s_agent s with A_wait => set_agent A_wake s | _ => s end))
  | M_unlock c =>
      Some (return_ AGENT_RET_SUCCESS
        (Api None (s_type s) (s_args s) (s_ready s) (s_cancel s) (s_spawned s) (s_agent s) (s_mon s) (s_ret s)
           (s_accepted s ++ [c]) (s_executed s)))
  | M_join created =>
      match s_agent s with
      | A_gone => Some (agent_init true created (api0 (a_rest (s_args s))))
      | _ => None
      end
  end.

(** Who moves, and what the environment decides. *)
Inductive move : Type :=
| Agent_move (connected : bool)
| Spurious_wakeup
| Cancel_move
| Monitor_move
| Call (c : call)
| Call_init (forwarded created : bool)
| Call_reset (created : bool).

Definition step (m : move) (s : api) : option api :=
  match m with
  | Agent_move ok => agent_move ok s
  | Spurious_wakeup => match s_agent s with A_wait => Some (set_agent A_wake s) | _ => None end
  | Cancel_move => cancel_move s
  | Monitor_move => monitor_move s
  | Call c =>
      match s_mon s with
      | M_out => if negb (s_ready s) then Some (return_ AGENT_RET_EINIT s) else Some (set_mon (M_trylock c) s)
      | _ => None
      end
  | Call_init forwarded created =>
      match s_mon s with M_out => Some (agent_init forwarded created s) | _ => None end
  | Call_reset created =>
      match s_mon s with
      | M_out =>
          if negb (s_spawned s) then None
          else Some (set_mon (M_join created)
            (Api (s_mtx s) (s_type s) (s_args s) (s_ready s) true (s_spawned s) (s_agent s) (s_mon s) (s_ret s)
               (s_accepted s) (s_executed s)))
      | _ => None
      end
  end.

Definition steps (s s' : api) : Prop := exists m, step m s = Some s'.

Fixpoint run_moves (ms : list move) (s : api) : option api :=
  match ms with
  | [] => Some s
  | m :: ms' => s' ← step m s; run_moves ms' s'
  end.

(** ** Queries *)

Definition agent_is_exec (s : api) : bool := bool_decide (s_type s = AGENT_ACT_EXEC).
Definition agent_is_idle (s : api) : bool := bool_decide (s_type s = AGENT_ACT_IDLE).

(** ** Input for a running command *)

(** The line that is sent: [strncpy] of at most 255 characters, then [strcat] of a
    newline, into a buffer of 256. *)
Definition exec_line (cmdline : list Z) : res (list Z) :=
  let text := take (Z.to_nat (SZ_MAX_COMMAND - 1)) (cstr cmdline) ++ [10] in
  if SZ_MAX_COMMAND <=? Z.of_nat (length text) then UB
  else Ret (padded SZ_MAX_COMMAND text).

(** [Ret None]: nothing is sent. *)
Definition agent_handle_exec_command (s : api) (cmdline : list Z) : res (option (list Z)) :=
  if negb (s_ready s) || negb (agent_is_exec s) then Ret None
  else line ← exec_line cmdline; Ret (Some line).

(** ** The monitor's commands *)

(** What do_win_impo, do_win_expo, do_win_exec, do_win_invo, do_win_logf and
    do_win_sync print for the result of their call. *)
Definition do_win_request (c : call) (ret : MBA_AGENT_RETURN) : string :=
  let busy := "Agent is busy handling the previous command. Come back later" in
  let busy_comma := "Agent is busy handling the previous command, Come back later" in
  let init := "Please enter w_init to initialize agent thread" in
  match c, ret with
  | Sync, AGENT_RET_SUCCESS => "Agent Sync command is sent successfully, please wait for the ack-message"
  | Sync, AGENT_RET_EBUSY => busy
  | Sync, AGENT_RET_EFAIL => "Agent Sync failed"
  | Sync, _ => "Unkown error when reseting agent"
  | _, AGENT_RET_SUCCESS => ""
  | _, AGENT_RET_EINIT => init
  | Import _ _, AGENT_RET_EBUSY | Logfile _, AGENT_RET_EBUSY => busy_comma
  | _, AGENT_RET_EBUSY => busy
  | Import _ _, AGENT_RET_EFAIL => "Failed to setup 'import' action"
  | Export _ _, AGENT_RET_EFAIL => "Failed to setup 'export' action"
  | Execute _, AGENT_RET_EFAIL => "Failed to setup 'execute' action"
  | Invoke _, AGENT_RET_EFAIL => "Failed to setup 'invoke' action"
  | Logfile _, AGENT_RET_EFAIL => "Failed to setup 'log file export' action"
  end%string.

Definition do_win_init (ret : MBA_AGENT_RETURN) : string :=
  match ret with
  | AGENT_RET_SUCCESS => "Agent thread starting"
  | AGENT_RET_EBUSY => "Agent is busy handling the previous command. Come back later"
  | AGENT_RET_EFAIL => "Agent thread start failed"
  | _ => "Unkown error when initializing agent"
  end%string.

Definition do_win_reset (ret : MBA_AGENT_RETURN) : string :=
  match ret with
  | AGENT_RET_SUCCESS => "Agent thread has been reset"
  | AGENT_RET_EBUSY => "Agent is busy handling the previous command. Come back later"
  | AGENT_RET_EFAIL => "Agent thread reset failed"
  | _ => "Unkown error when reseting agent"
  end%string.

(** ** The invariant *)

Definition agent_holds (p : agent_pc) : bool :=
  match p with A_check | A_run | A_reset | A_unlock => true | _ => false end.
Definition agent_new (p : agent_pc) : bool := match p with A_connect | A_first_idle => true | _ => false end.
(** In a call; with the mutex; with the action set. *)
Definition calling (p : monitor_pc) : bool := match p with M_out | M_join _ => false | _ => true end.
Definition mon_holds (p : monitor_pc) : bool :=
  match p with M_set _ | M_fill _ | M_signal _ | M_unlock _ => true | _ => false end.
Definition prepared (p : monitor_pc) : option call :=
  match p with M_fill c | M_signal c | M_unlock c => Some c | _ => None end.
Definition is_prepared (p : monitor_pc) : bool := match prepared p with Some _ => true | None => false end.
Definition joining (p : monitor_pc) : bool := match p with M_join _ => true | _ => false end.

(** The action that a request asks for. *)
Definition runs (c : call) (x : MBA_AGENT_ACTION * act_args) : Prop :=
  x.1 = call_type c /\ exists a, x.2 = fill c a.

(** The requests that wait for the agent thread. *)
Definition waiting (s : api) (pending : list call) : Prop :=
  match s_agent s with
  | A_run | A_reset => pending = []
  | A_gone => (length pending <= 1)%nat
  | _ =>
      if is_prepared (s_mon s) then pending = []
      else if bool_decide (s_type s = AGENT_ACT_IDLE) || bool_decide (s_type s = AGENT_ACT_INIT) then pending = []
      else exists c, pending = [c] /\ runs c (s_type s, s_args s)
  end.

Record inv (s : api) : Prop := Inv {
  inv_agent : agent_holds (s_agent s) = true -> s_mtx s = Some Agent_thread;
  inv_mon : mon_holds (s_mon s) = true -> s_mtx s = Some Monitor_thread;
  inv_new : agent_new (s_agent s) = true -> s_type s = AGENT_ACT_INIT /\ prepared (s_mon s) = None;
  inv_init : s_type s = AGENT_ACT_INIT -> agent_new (s_agent s) = true \/ s_agent s = A_gone;
  inv_wait : s_agent s = A_wait ->
    s_type s = AGENT_ACT_IDLE \/ exists c, s_mon s = M_fill c \/ s_mon s = M_signal c;
  inv_type : forall c, prepared (s_mon s) = Some c -> s_type s = call_type c;
  inv_args : forall c, s_mon s = M_signal c \/ s_mon s = M_unlock c -> exists a, s_args s = fill c a;
  inv_ready : s_ready s = false -> calling (s_mon s) = false /\ s_accepted s = [] /\ s_executed s = [];
  inv_cancel : s_cancel s = true -> joining (s_mon s) = true;
  inv_gone : s_agent s = A_gone -> s_ready s = false \/ joining (s_mon s) = true;
  inv_unready : s_agent s = A_connect -> s_ready s = false;
  inv_order : exists done pending, s_accepted s = done ++ pending /\ Forall2 runs done (s_executed s) /\ waiting s pending
}.

Lemma call_type_proper c : call_type c <> AGENT_ACT_IDLE /\ call_type c <> AGENT_ACT_INIT.
Proof. by destruct c. Qed.

Lemma inv_start rest : inv (api0 rest).
Proof. split; simpl; try done; [by intros c []|by left|]. exists [], []. split_and!; [done|by apply Forall2_nil_2|unfold waiting; simpl; lia]. Qed.

Lemma agent_move_inv ok s s' : inv s -> agent_move ok s = Some s' -> inv s'.
Proof.
  destruct s as [mtx typ args rdy cn sp ag mo rt acc exe].
  intros [Ha Hm Hn Hi Hw Ht Hg Hr Hc Hx Hu (dn & pd & E & F & W)] Es. unfold agent_move, waiting in *.
  destruct ag; simpl in *.
  all: try done.
  - destruct ok; injection Es as <-; split; simpl in *; try done; auto; exists dn, pd; (split_and!; [done..|]); unfold waiting; simpl.
    + done.
    + destruct (Hn eq_refl) as [-> Hp]. unfold is_prepared in W. rewrite Hp in W. simpl in W. subst pd. simpl. lia.
  - injection Es as <-. destruct (Hn eq_refl) as [-> Hp]. unfold is_prepared in W. rewrite Hp in W. simpl in W. subst pd.
    split; simpl in *; try done; auto; [by rewrite Hp|]. exists dn, []. split_and!; [done..|]. unfold waiting. simpl. by destruct (is_prepared mo).
  - destruct mtx; [done|]. injection Es as <-.
    split; simpl in *; try done; auto; [by intros H; apply Hm in H|by intros H; destruct (Hi H)|by exists dn, pd].
  - assert (mtx = Some Agent_thread) as -> by auto.
    assert (mon_holds mo = false) as Hmo by (destruct (mon_holds mo); [by specialize (Hm eq_refl)|done]).
    assert (is_prepared mo = false) as Hpr by (by destruct mo). rewrite Hpr in W.
    case_bool_decide as Eb; injection Es as <-.
    + subst typ. split; simpl in *; try done; auto; [by rewrite Hmo|]. exists dn, pd. split_and!; [done..|]. unfold waiting. simpl. by rewrite Hpr.
    + rewrite bool_decide_false in W by (intros H; by destruct (Hi H)). destruct W as (c & -> & Hrun).
      split; simpl in *; try done; auto; [by intros H; destruct (Hi H)| |].
      * intros H. destruct (Hr H) as (_ & Hacc & _). rewrite Hacc in E. by destruct dn.
      * exists (dn ++ [c]), []. rewrite app_nil_r. split_and!; [done| |done]. apply Forall2_app; [done|]. by apply Forall2_cons_2, Forall2_nil_2.
  - destruct mtx; [done|]. injection Es as <-.
    split; simpl in *; try done; auto; [by intros H; apply Hm in H|by intros H; destruct (Hi H)|by exists dn, pd].
  - injection Es as <-. split; simpl in *; try done; auto; [by intros H; destruct (Hi H)|by exists dn, pd].
  - injection Es as <-. assert (mtx = Some Agent_thread) as -> by auto.
    assert (mon_holds mo = false) as Hmo by (destruct (mon_holds mo); [by specialize (Hm eq_refl)|done]).
    split; simpl in *; try done; auto; [by destruct mo|]. exists dn, []. subst pd. split_and!; [done..|]. unfold waiting. simpl. by destruct (is_prepared mo).
  - injection Es as <-. assert (mtx = Some Agent_thread) as -> by auto.
    assert (mon_holds mo = false) as Hmo by (destruct (mon_holds mo); [by specialize (Hm eq_refl)|done]).
    split; simpl in *; try done; auto; [by rewrite Hmo|by intros H; destruct (Hi H)|by exists dn, pd].
Qed.

Lemma cancel_move_inv s s' : inv s -> cancel_move s = Some s' -> inv s'.
Proof.
  destruct s as [mtx typ args rdy cn sp ag mo rt acc exe].
  intros [Ha Hm Hn Hi Hw Ht Hg Hr Hc Hx Hu (dn & pd & E & F & W)] Es. unfold cancel_move, waiting in *. simpl in *.
  destruct cn; [|done]. specialize (Hc eq_refl). destruct mo; try done. simpl in *.
  assert (length pd <= 1)%nat as Hl 
    by (destruct ag; simpl in *; try lia; try (subst pd; simpl; lia);
        (destruct (_ || _); [subst pd|destruct W as (c & -> & _)]; simpl; lia)).
  destruct ag; simpl in *; try done.
  - injection Es as <-. split; simpl; try done; auto. by exists dn, pd.
  - destruct mtx; [done|]. injection Es as <-. split; simpl in *; try done; auto. by exists dn, pd.
  - injection Es as <-. split; simpl in *; try done; auto. by exists dn, pd.
Qed.

Lemma agent_init_inv f c s : inv s -> s_mon s = M_out -> inv (agent_init f c s).
Proof.
  intros Hs Hm. assert (inv (return_ AGENT_RET_EBUSY s) /\ inv (return_ AGENT_RET_SUCCESS s)) as [Hb Hk].
  { destruct s, Hs; simpl in *; subst; split; by split. }
  unfold agent_init. case_bool_decide; [done|]. destruct (s_ready s); [done|].
  assert (forall r t a sp, (t = AGENT_ACT_INIT /\ a = A_connect) \/ a = A_gone -> inv (return_ r (Api None t (zero_args (a_rest (s_args s))) false false sp a M_out None [] []))) as Hz.
  { intros r t a sp Ht. split; simpl; try done; try (by destruct Ht as [[-> ->]| ->]; auto); [by intros c0 []|].
    exists [], []. split_and!; [done|by apply Forall2_nil_2|]. unfold waiting. simpl. by destruct Ht as [[-> ->]| ->]; simpl; [|lia]. }
  destruct f; simpl; [destruct c; simpl|]; apply Hz; auto.
Qed.

(** While a call holds the mutex the agent thread neither runs nor has gone. *)
Lemma inv_held s : inv s -> mon_holds (s_mon s) = true -> agent_holds (s_agent s) = false /\ s_agent s <> A_gone.
Proof.
  intros [Ha Hm _ _ _ _ _ Hr _ Hx _ _] H. split.
  - destruct (agent_holds (s_agent s)); [|done]. specialize (Ha eq_refl). specialize (Hm H). congruence.
  - intros E. destruct (Hx E) as [E2|E2]; [apply Hr in E2 as [E2 _]|]; by destruct (s_mon s).
Qed.

Lemma monitor_move_inv s s' : inv s -> monitor_move s = Some s' -> inv s'.
Proof.
  intros Hs Es. pose proof (inv_held s Hs) as Hheld.
  destruct s as [mtx typ args rdy cn sp ag mo rt acc exe].
  destruct Hs as [Ha Hm Hn Hi Hw Ht Hg Hr Hc Hx Hu (dn & pd & E & F & W)]. unfold monitor_move, waiting in *. simpl in *.
  assert (forall c, ag = A_wait -> (mo = M_trylock c \/ mo = M_set c) -> typ = AGENT_ACT_IDLE) as Hw1.
  { intros c Ew Hmo. destruct (Hw Ew) as [?|(c' & [?|?])]; [done| |]; destruct Hmo; congruence. }
  destruct mo as [|c|c|c|c|c|b]; simpl in *.
  - done.
  - destruct mtx; injection Es as <-; (split; simpl in *; try done; auto; try (by intros c' []);
      try (by intros H; destruct (Hr H)); try (by intros H; specialize (Ha H)); [..|by exists dn, pd]); eauto.
  - destruct (Hheld eq_refl) as [Hah Hag]. case_bool_decide as Et; injection Es as <-.
    + subst typ. split; simpl in *; try done; auto; try (by intros c' []); try (by intros H; destruct c).
      * intros H. by destruct (Hn H).
      * intros _. right. exists c. by left.
      * intros c' [= ->]. done.
      * exists dn, pd. split_and!; [done..|]. unfold waiting. simpl. by destruct ag.
    + split; simpl in *; try done; auto; try (by intros c' []); try (by intros H; destruct (Hr H)).
      * intros H. left. apply (Hw1 c H). by right.
      * exists dn, pd. split_and!; [done..|]. unfold waiting. simpl. by rewrite bool_decide_false.
  - injection Es as <-. split; simpl in *; try done; auto.
    + intros _. right. exists c. by right.
    + intros c' [[= ->]|?]; [by eexists|done].
    + exists dn, pd. done.
  - destruct (Hheld eq_refl) as [Hah Hag]. injection Es as <-. destruct ag; simpl in *; try done; try (by destruct (Hn eq_refl)).
    all: split; simpl in *; try done; auto; try (by intros c' [H|[= ->]]; [|apply Hg; left]);
      try (by intros H; destruct (Hi H)).
    all: by exists dn, pd.
  - destruct (Hheld eq_refl) as [Hah Hag]. injection Es as <-.
    assert (typ = call_type c) as -> by auto. destruct (call_type_proper c) as [Hc1 Hc2].
    assert (pd = []) as -> by (by destruct ag). rewrite app_nil_r in E.
    split; simpl in *; try done; auto; try (by intros c' []); try (by intros H; destruct (Hr H)).
    + intros H. by rewrite H in Hah.
    + intros H. by destruct (Hn H).
    + intros H. destruct (Hw H) as [?|(c' & [?|?])]; done.
    + exists dn, [c]. rewrite E. split_and!; [done..|]. unfold waiting. simpl.
      rewrite !bool_decide_false by done. simpl. destruct (Hg c) as [a Hargs]; [by right|].
      assert (exists c0, [c] = [c0] /\ runs c0 (call_type c, args)) as Hex by (exists c; split; [done|]; split; [done|by exists a]).
      by destruct ag.
  - destruct ag; try done. injection Es as <-. apply agent_init_inv; [apply inv_start|done].
Qed.

Lemma step_inv m s s' : inv s -> step m s = Some s' -> inv s'.
Proof.
  intros Hs Es. destruct m as [ok| | | |c|f c|c]; simpl in Es.
  - by eapply agent_move_inv.
  - destruct s as [mtx typ args rdy cn sp ag mo rt acc exe]. simpl in Es. destruct ag; try done. injection Es as <-.
    destruct Hs; simpl in *. split; simpl in *; try done; auto. intros H. by destruct (inv_init0 H).
  - by eapply cancel_move_inv.
  - by eapply monitor_move_inv.
  - destruct s as [mtx typ args rdy cn sp ag mo rt acc exe]. simpl in Es. destruct mo; try done. destruct Hs; simpl in *.
    destruct rdy; simpl in Es; injection Es as <-; split; simpl in *; try done; auto.
    all: try (by intros c' []). all: intros H; destruct (inv_wait0 H) as [?|(c' & [?|?])]; auto; done.
  - destruct (s_mon s) eqn:E; try done. injection Es as <-. by apply agent_init_inv.
  - destruct s as [mtx typ args rdy cn sp ag mo rt acc exe]. simpl in Es. destruct mo; try done. destruct Hs; simpl in *.
    destruct sp; simpl in Es; [|done]. injection Es as <-. split; simpl in *; try done; auto.
    all: try (by intros c' []). all: intros H; destruct (inv_wait0 H) as [?|(c' & [?|?])]; auto; done.
Qed.

Lemma reachable_inv rest s : rtc steps (api0 rest) s -> inv s.
Proof.
  intros H. assert (inv (api0 rest)) as H0 by apply inv_start. revert H0.
  induction H as [s|s1 s2 s3 [m Hm] _ IH]; [done|]. intros Hi. by eapply IH, step_inv.
Qed.

(** The agent thread owns the mutex only where it holds it. *)
Definition owner (s : api) : Prop :=
  s_mtx s = Some Agent_thread -> agent_holds (s_agent s) = true \/ s_agent s = A_gone.

Lemma step_owner m s s' : owner s -> step m s = Some s' -> owner s'.
Proof.
  destruct s as [mtx typ args rdy cn sp ag mo rt acc exe]. unfold owner. simpl. intros Ho Es.
  destruct m as [ok| | | |c|f c|c]; simpl in Es.
  - unfold agent_move in Es. simpl in Es. destruct ag; try done.
    + destruct ok; injection Es as <-; simpl; [|by right]. intros H. by destruct (Ho H).
    + injection Es as <-. simpl. intros H. by destruct (Ho H).
    + destruct mtx; [done|]. injection Es as <-. by left.
    + case_bool_decide; injection Es as <-; [done|by left].
    + destruct mtx; [done|]. injection Es as <-. by left.
    + injection Es as <-. by left.
    + injection Es as <-. by left.
    + by injection Es as <-.
  - destruct ag; try done. injection Es as <-. simpl. intros H. by destruct (Ho H).
  - unfold cancel_move in Es. simpl in Es. destruct cn; [|done]. destruct ag; try done; [|destruct mtx; [done|]|]; injection Es as <-; by right.
  - unfold monitor_move in Es. simpl in Es. destruct mo; try done.
    + destruct mtx; by injection Es as <-.
    + case_bool_decide; by injection Es as <-.
    + by injection Es as <-.
    + injection Es as <-. destruct ag; simpl in *; auto. intros H. by destruct (Ho H).
    + by injection Es as <-.
    + destruct ag; try done. injection Es as <-. unfold agent_init. simpl. by destruct created.
  - destruct mo; try done. by destruct rdy; injection Es as <-.
  - destruct mo; try done. injection Es as <-. unfold agent_init. simpl.
    case_bool_decide; [done|]. destruct rdy; [done|]. by destruct f, c.
  - destruct mo; try done. destruct sp; [|done]. by injection Es as <-.
Qed.

Lemma reachable_owner rest s : rtc steps (api0 rest) s -> owner s.
Proof.
  intros H. assert (owner (api0 rest)) as H0 by done. revert H0.
  induction H as [s|s1 s2 s3 [m Hm] _ IH]; [done|]. intros Hi. by eapply IH, step_owner.
Qed.

(** ** Lemmas: a call that returns with the mutex *)

(** The mutex belongs to a call that is over. *)
Definition leaked (s : api) : Prop :=
  s_mtx s = Some Monitor_thread /\ mon_holds (s_mon s) = false /\ s_ready s = true /\
  match s_agent s with A_first_idle | A_lock | A_wait | A_wake => True | _ => False end.

Lemma leaked_step m s s' : leaked s -> step m s = Some s' ->
  leaked s' /\ s_executed s' = s_executed s /\ s_accepted s' = s_accepted s.
Proof.
  destruct s as [mtx typ args rdy cn sp ag mo rt acc exe]. intros (Hm & Hmo & Hr & Ha) Es. unfold leaked. simpl in *. subst mtx rdy.
  destruct m as [ok| | | |c|f c|c]; simpl in Es.
  - unfold agent_move in Es. by destruct ag; try done; injection Es as <-.
  - by destruct ag; try done; injection Es as <-.
  - unfold cancel_move in Es. simpl in Es. destruct cn; [|done]. by destruct ag.
  - unfold monitor_move in Es. destruct mo; simpl in *; try done; [by injection Es as <-|by destruct ag].
  - destruct mo; try done. by injection Es as <-.
  - destruct mo; try done. unfold agent_init in Es. simpl in Es. case_bool_decide; by injection Es as <-.
  - destruct mo; try done. destruct sp; [|done]. by injection Es as <-.
Qed.

Lemma leaked_for_ever s s' : leaked s -> rtc steps s s' ->
  leaked s' /\ s_executed s' = s_executed s /\ s_accepted s' = s_accepted s.
Proof.
  intros Hl Hs. induction Hs as [s|s1 s2 s3 [m Hm] _ IH]; [done|].
  destruct (leaked_step m s1 s2 Hl Hm) as (Hl2 & E & F). destruct (IH Hl2) as (Hl3 & E3 & F3). split_and!; [done|congruence..].
Qed.

(** A call refused while it has the mutex. *)
Lemma refused_leaked s c : inv s -> s_mon s = M_set c -> leaked (return_ AGENT_RET_EBUSY s).
Proof.
  intros Hi Hm. pose proof (inv_held s Hi) as Hh. rewrite Hm in Hh. destruct (Hh eq_refl) as [Hn Hg].
  assert (s_mtx s = Some Monitor_thread) as Hx by (apply (inv_mon s Hi); by rewrite Hm).
  assert (s_ready s = true) as Hr.
  { destruct (s_ready s) eqn:E; [done|]. destruct (inv_ready s Hi E) as [Hc _]. by rewrite Hm in Hc. }
  unfold leaked. simpl. split_and!; try done.
  pose proof (inv_unready s Hi) as Hu. rewrite Hr in Hu.
  destruct (s_agent s); simpl in *; try done. by specialize (Hu eq_refl).
Qed.

Lemma run_moves_steps ms s s' : run_moves ms s = Some s' -> rtc steps s s'.
Proof.
  revert s. induction ms as [|m ms IH]; intros s E; simpl in E.
  - injection E as <-. done.
  - destruct (step m s) as [s1|] eqn:E1; simpl in E; [|done]. eapply rtc_l; [by exists m|by apply IH].
Qed.

(** ** Theorems *)

(** C8: The requests that were accepted are performed in the order in which
    they were made, each once, with the action and the arguments of its call, and at
    most one is outstanding: this holds in every state that the monitor and
    the agent thread can reach in any interleaving, with spurious wakeups,
    cancellation and failing initialisations. *)
Theorem requests_in_order rest s : rtc steps (api0 rest) s ->
  exists done pending, s_accepted s = done ++ pending /\ (length pending <= 1)%nat /\ Forall2 runs done (s_executed s).
Proof.
  intros Hs. destruct (reachable_inv _ _ Hs) as [_ _ _ _ _ _ _ _ _ _ _ (dn & pd & E & F & W)].
  exists dn, pd. split_and!; [done| |done]. unfold waiting in W.
  destruct (s_agent s); try done; try (by subst pd; simpl; lia).
  all: destruct (is_prepared (s_mon s)); [subst pd; simpl; lia|].
  all: destruct (_ || _); [subst pd|destruct W as (c & -> & _)]; simpl; lia.
Qed.

(** C33: No accepted request is lost: in every reachable state in which a request
    is outstanding, no call is under way and no earlier call kept the mutex, the agent
    thread needs nothing but its own steps, at most three, to perform the request; in
    particular it does not wait for another signal. *)
Theorem accepted_request_runs rest s c :
  rtc steps (api0 rest) s -> s_mon s = M_out -> s_mtx s <> Some Monitor_thread ->
  last (s_accepted s) = Some c -> (length (s_executed s) < length (s_accepted s))%nat ->
  exists n s', (n <= 3)%nat /\ run_moves (replicate n (Agent_move true)) s = Some s' /\
    s_executed s' = s_executed s ++ [(s_type s, s_args s)] /\ runs c (s_type s, s_args s).
Proof.
  intros Hs Hm Hx Hl Hlen. destruct (reachable_inv _ _ Hs) as [Ha _ Hn _ Hw _ _ Hr _ Hg _ (dn & pd & E & F & W)].
  pose proof (reachable_owner _ _ Hs) as Ho. unfold owner in Ho. clear Hs.
  assert (length dn = length (s_executed s)) as El by (by eapply Forall2_length).
  rewrite E, length_app, El in Hlen.
  destruct s as [mtx typ args rdy cn sp ag mo rt acc exe]. unfold waiting in W. simpl in *. subst mo acc. simpl in *.
  assert (ag <> A_gone) as Hag.
  { intros ->. destruct (Hg eq_refl) as [->|?]; [|done]. destruct (Hr eq_refl) as (_ & Hacc & _). by destruct dn, pd. }
  assert (ag <> A_run /\ ag <> A_reset) as [Hag1 Hag2] by (split; intros ->; subst pd; simpl in Hlen; lia).
  assert (exists c0, typ <> AGENT_ACT_IDLE /\ typ <> AGENT_ACT_INIT /\ pd = [c0] /\ runs c0 (typ, args)) as (c0 & Ht1 & Ht2 & -> & Hrun).
  { assert (if bool_decide (typ = AGENT_ACT_IDLE) || bool_decide (typ = AGENT_ACT_INIT) then pd = []
            else exists c, pd = [c] /\ runs c (typ, args)) as W' by (by destruct ag).
    destruct (decide (typ = AGENT_ACT_IDLE)); [rewrite bool_decide_true in W' by done; simpl in W'; subst pd; simpl in Hlen; lia|].
    destruct (decide (typ = AGENT_ACT_INIT)); [rewrite (bool_decide_true (typ = AGENT_ACT_INIT)), orb_true_r in W' by done; subst pd; simpl in Hlen; lia|].
    rewrite !bool_decide_false in W' by done. destruct W' as (c0 & ? & ?). by exists c0. }
  rewrite last_snoc in Hl. injection Hl as ->.
  assert (bool_decide (typ = AGENT_ACT_IDLE) = false) as Hb by (by apply bool_decide_false).
  assert (agent_holds ag = false -> mtx = None) as Hnone.
  { intros H. destruct mtx as [[|]|]; [done| |done]. by destruct (Ho eq_refl); [congruence|]. }
  destruct ag; simpl in *; try done; try (by destruct (Hn eq_refl)).
  - exists 2%nat. rewrite (Hnone eq_refl). unfold agent_move. simpl. unfold agent_move. simpl. rewrite Hb.
    eexists. split_and!; [lia|reflexivity|done..].
  - exists 1%nat. simpl. unfold agent_move. simpl. rewrite Hb. eexists. split_and!; [lia|reflexivity|done..].
  - by destruct (Hw eq_refl) as [?|(? & [?|?])].
  - exists 2%nat. rewrite (Hnone eq_refl). unfold agent_move. simpl. unfold agent_move. simpl. rewrite Hb.
    eexists. split_and!; [lia|reflexivity|done..].
  - exists 3%nat. simpl. unfold agent_move. simpl. unfold agent_move. simpl. unfold agent_move. simpl. rewrite Hb.
    eexists. split_and!; [lia|reflexivity|done..].
Qed.

(** C39: A call that got the mutex and finds an action set, one that waits for the
    agent thread or the initialisation, is refused as busy and returns without
    releasing the mutex. From there on, whatever the two threads do, the mutex
    stays with the monitor's thread, no request is accepted or performed any more,
    not even the one that was pending, every call that tries the mutex is refused as
    busy, and a reset does not return. This holds in every reachable state in which
    a call has the mutex and the action is not idle. *)
Theorem busy_request_hangs_agent rest s c :
  rtc steps (api0 rest) s -> s_mon s = M_set c -> s_type s <> AGENT_ACT_IDLE ->
  s_mtx s = Some Monitor_thread /\
  exists s1, step Monitor_move s = Some s1 /\ s_ret s1 = Some AGENT_RET_EBUSY /\ s_mon s1 = M_out /\
    forall s', rtc steps s1 s' ->
      s_mtx s' = Some Monitor_thread /\ s_executed s' = s_executed s /\ s_accepted s' = s_accepted s /\
      (forall c', s_mon s' = M_trylock c' ->
         exists s2, step Monitor_move s' = Some s2 /\ s_ret s2 = Some AGENT_RET_EBUSY /\ s_mon s2 = M_out) /\
      (forall created, s_mon s' = M_join created -> step Monitor_move s' = None).
Proof.
  intros Hs Hm Ht. pose proof (reachable_inv rest s Hs) as Hi.
  assert (s_mtx s = Some Monitor_thread) as Hx by (apply (inv_mon s Hi); by rewrite Hm).
  assert (step Monitor_move s = Some (return_ AGENT_RET_EBUSY s)) as Em
    by (simpl; unfold monitor_move; by rewrite Hm, bool_decide_false).
  split; [done|]. exists (return_ AGENT_RET_EBUSY s). split_and!; [done..|]. intros s' Hs'.
  apply leaked_for_ever in Hs' as ((Hx' & _ & _ & Ha) & He & Hc); [|by apply (refused_leaked s c)].
  split_and!; [done..| |].
  - intros c' Hc'. simpl. unfold monitor_move. rewrite Hc', Hx'. by eexists.
  - intros created Hj. simpl. unfold monitor_move. rewrite Hj. by destruct (s_agent s').
Qed.

(** A failure to create the agent thread is permanent: the action stays
    at initialising, so that every later initialisation is refused as busy and every
    request as uninitialised. *)
Theorem init_failure_is_permanent rest s' :
  rtc steps (agent_init true false (api0 rest)) s' ->
  s_ready s' = false /\ s_executed s' = [] /\ s_ret s' <> Some AGENT_RET_SUCCESS.
Proof.
  intros Hs. assert (forall s, s_type s = AGENT_ACT_INIT /\ s_ready s = false /\ s_spawned s = false /\ s_agent s = A_gone /\
    s_mon s = M_out /\ s_executed s = [] /\ s_ret s <> Some AGENT_RET_SUCCESS ->
    forall m s2, step m s = Some s2 ->
    s_type s2 = AGENT_ACT_INIT /\ s_ready s2 = false /\ s_spawned s2 = false /\ s_agent s2 = A_gone /\
    s_mon s2 = M_out /\ s_executed s2 = [] /\ s_ret s2 <> Some AGENT_RET_SUCCESS) as Hstep.
  { intros [mtx typ args rdy cn sp ag mo rt acc exe] (? & ? & ? & ? & ? & ? & Hrt) m s2 Es. simpl in *. subst.
    destruct m; simpl in Es; try done.
    - unfold cancel_move in Es. simpl in Es. by destruct cn.
    - by injection Es as <-.
    - unfold agent_init in Es. simpl in Es. by injection Es as <-. }
  assert (forall s, rtc steps s s' -> s_type s = AGENT_ACT_INIT /\ s_ready s = false /\ s_spawned s = false /\ s_agent s = A_gone /\
    s_mon s = M_out /\ s_executed s = [] /\ s_ret s <> Some AGENT_RET_SUCCESS ->
    s_ready s' = false /\ s_executed s' = [] /\ s_ret s' <> Some AGENT_RET_SUCCESS) as Hall.
  { induction 1 as [s|s1 s2 s3 [m Hm] _ IH]; [by intros (_ & H2 & _ & _ & _ & H6 & H7)|]. intros H. eapply IH, Hstep; done. }
  by apply (Hall _ Hs).
Qed.

(** C40: A line for a running command is sent with a newline after it, in a
    buffer of 256 bytes. A line of 255 characters or more is cut to 255, for which
    the newline and the terminating zero need one byte more than there is: the
    buffer overflows exactly then. *)
Theorem exec_line_bounds cmdline :
  exec_line cmdline = (if 255 <=? Z.of_nat (length (cstr cmdline)) then UB
                       else Ret (padded SZ_MAX_COMMAND (cstr cmdline ++ [10]))).
Proof.
  unfold exec_line. rewrite length_app, length_take. change (Z.to_nat (SZ_MAX_COMMAND - 1)) with 255%nat. simpl length.
  unfold SZ_MAX_COMMAND at 1. destruct (Z.leb_spec 255 (Z.of_nat (length (cstr cmdline)))).
  - by destruct (Z.leb_spec 256 (Z.of_nat (255 `min` length (cstr cmdline) + 1))); [|lia].
  - destruct (Z.leb_spec 256 (Z.of_nat (255 `min` length (cstr cmdline) + 1))); [lia|]. by rewrite take_ge by lia.
Qed.

(** The action sees the paths of the request, if they are shorter than the
    buffers. A destination that fills its buffer is copied without a terminating zero:
    the action sees it run on into the source path. *)
Theorem request_paths d s a :
  no_zero d -> no_zero s -> (length s < 256)%nat ->
  arg_src (fill (Import d s) a) = s /\
  arg_dst (fill (Import d s) a) = (if (length d <? 256)%nat then d else take 256 d ++ s).
Proof.
  intros Hd Hs Hl. unfold arg_src, arg_dst. cbn [fill a_src_path a_dst_path a_rest].
  assert (forall b rest, no_zero b -> (length b < 256)%nat -> cstr (padded SZ_MAX_FILEPATH b ++ rest) = b) as Hshort.
  { intros b rest Hb Hlb. rewrite padded_short by (unfold SZ_MAX_FILEPATH; lia). rewrite <- (assoc_L (++)).
    destruct (Z.to_nat SZ_MAX_FILEPATH - length b)%nat eqn:E; [unfold SZ_MAX_FILEPATH in E; lia|]. by apply cstr_app. }
  split; [by apply Hshort|]. destruct (Nat.ltb_spec (length d) 256) as [Hld|Hld]; [by apply Hshort|].
  assert (padded SZ_MAX_FILEPATH d = take 256 d) as ->.
  { unfold padded. change (Z.to_nat SZ_MAX_FILEPATH) with 256%nat. by rewrite take_app_le by lia. }
  assert (forall b rest, no_zero b -> cstr (b ++ rest) = b ++ cstr rest) as Happ.
  { intros b rest Hb. induction Hb as [|x b Hx Hb IH]; simpl; [done|]. by destruct (Z.eqb_spec x 0); [|rewrite IH]. }
  rewrite Happ by (by apply no_zero_take). f_equal. by apply Hshort.
Qed.

(** Of the requests only sync does not say that the agent has to be initialised. *)
Lemma uninitialised_message c :
  do_win_request c AGENT_RET_EINIT = "Please enter w_init to initialize agent thread"%string <-> c <> Sync.
Proof. by destruct c. Qed.

(** *** Witnesses *)

Definition demo_moves : list move :=
  [Call_init true true; Agent_move true; Agent_move true; Agent_move true; Agent_move true] ++
  Call Sync :: replicate 5 Monitor_move.

Lemma requests_in_order_witness : exists s, run_moves demo_moves (api0 []) = Some s /\
  exists done pending, s_accepted s = done ++ pending /\ (length pending <= 1)%nat /\ Forall2 runs done (s_executed s).
Proof.
  eexists. split; [vm_compute; reflexivity|]. apply (requests_in_order []).
  apply (run_moves_steps demo_moves). vm_compute. reflexivity.
Defined.

Lemma accepted_request_runs_witness : exists s, run_moves demo_moves (api0 []) = Some s /\
  exists n s', (n <= 3)%nat /\ run_moves (replicate n (Agent_move true)) s = Some s' /\
    s_executed s' = s_executed s ++ [(s_type s, s_args s)] /\ runs Sync (s_type s, s_args s).
Proof.
  eexists. split; [vm_compute; reflexivity|]. apply (accepted_request_runs []).
  - apply (run_moves_steps demo_moves). vm_compute. reflexivity.
  - reflexivity.
  - discriminate.
  - reflexivity.
  - simpl. lia.
Defined.

Definition demo_call : call := Execute (ascii_bytes "dir").

(** Two requests in a row, before the agent thread has taken the mutex. *)
Definition busy_moves (c1 c2 : call) : list move :=
  [Call_init true true; Agent_move true; Agent_move true; Agent_move true; Agent_move true] ++
  Call c1 :: replicate 5 Monitor_move ++ [Call c2; Monitor_move].

(** A request before the agent thread has reset the action of the initialisation. *)
Definition early_moves (c : call) : list move :=
  [Call_init true true; Agent_move true; Call c; Monitor_move].

Lemma busy_request_hangs_agent_witness : exists s e,
  run_moves (busy_moves demo_call demo_call) (api0 []) = Some s /\ s_accepted s = [demo_call] /\ s_executed s = [] /\
  run_moves (early_moves demo_call) (api0 []) = Some e /\ s_type e = AGENT_ACT_INIT /\
  (exists s1, step Monitor_move s = Some s1 /\ s_mtx s1 = Some Monitor_thread /\
     forall s', rtc steps s1 s' -> s_executed s' = [] /\ s_accepted s' = [demo_call]) /\
  (exists e1, step Monitor_move e = Some e1 /\ forall s', rtc steps e1 s' -> s_mtx s' = Some Monitor_thread).
Proof.
  eexists _, _. split; [vm_compute; reflexivity|]. split; [reflexivity|]. split; [reflexivity|].
  split; [vm_compute; reflexivity|]. split; [reflexivity|]. split.
  - edestruct (busy_request_hangs_agent []) as (_ & s1 & E & _ & _ & H);
      [apply (run_moves_steps (busy_moves demo_call demo_call)); vm_compute; reflexivity|reflexivity|discriminate|].
    exists s1. split; [exact E|]. split; [apply H; apply rtc_refl|].
    intros s' Hs'. destruct (H s' Hs') as (_ & He & Ha & _). split; [exact He|exact Ha].
  - edestruct (busy_request_hangs_agent []) as (_ & e1 & E & _ & _ & H);
      [apply (run_moves_steps (early_moves demo_call)); vm_compute; reflexivity|reflexivity|discriminate|].
    exists e1. split; [exact E|]. intros s' Hs'. apply (H s' Hs').
Defined.

Lemma init_failure_is_permanent_witness :
  let s' := agent_init true true (agent_init true false (api0 [])) in
  s_ret s' = Some AGENT_RET_EBUSY /\ s_ready s' = false /\ s_executed s' = [] /\ s_ret s' <> Some AGENT_RET_SUCCESS.
Proof.
  split; [reflexivity|]. apply (init_failure_is_permanent []).
  apply (run_moves_steps [Call_init true true]). vm_compute. reflexivity.
Defined.

Lemma request_paths_witness :
  let d := replicate 256 97 in let s := ascii_bytes "/a.txt" in
  length d = 256%nat /\
  arg_src (fill (Import d s) (zero_args [])) = s /\
  arg_dst (fill (Import d s) (zero_args [])) = (if (length d <? 256)%nat then d else take 256 d ++ s).
Proof.
  split; [reflexivity|]. apply request_paths; [apply (bool_decide_unpack _); vm_compute; exact I..|vm_compute; lia].
Defined.
