(* ===== verification/GuestMem.v ===== *)
(** * Guest memory as the emulator sees it

    How MBA reads the guest's virtual memory: cpu_memory_rw_debug
    (src/exec.c 3297-3325) over the page walk for debugging,
    x86_cpu_get_phys_page_debug (src/target-i386/helper.c 802-905). The walk the
    guest's own accesses take, x86_cpu_handle_mmu_fault (helper.c 511-800), is
    modelled as well, with its protection checks and the accessed and dirty bits it
    sets, and the two are shown to agree. Physical memory is flat bytes: reads of
    devices are not modelled. *)

From S2P Require Import Prelude X86.

#[local] Open Scope Z_scope.

(** ** Registers and masks *)

(** [pf_intercept] is the address of exit_info_2 when page faults are intercepted. *)
Record env : Type := Env {
  cr0 : Z; cr3 : Z; cr4 : Z; efer : Z; hflags : Z; a20_mask : Z; pf_intercept : option Z
}.

Definition CR0_WP_MASK : Z := 2 ^ 16.
Definition CR0_PG_MASK : Z := 2 ^ 31.
Definition CR4_PSE_MASK : Z := 2 ^ 4.
Definition CR4_PAE_MASK : Z := 2 ^ 5.
Definition CR4_SMEP_MASK : Z := 2 ^ 20.
Definition HF_LMA_MASK : Z := 2 ^ 14.
Definition MSR_EFER_NXE : Z := 2 ^ 11.

Definition PG_PRESENT_MASK : Z := 1.
Definition PG_RW_MASK : Z := 2.
Definition PG_USER_MASK : Z := 4.
Definition PG_ACCESSED_MASK : Z := 0x20.
Definition PG_DIRTY_MASK : Z := 0x40.
Definition PG_PSE_MASK : Z := 0x80.
Definition PG_PSE_PAT_MASK : Z := 0x1000.
Definition PG_ADDRESS_MASK : Z := 0x000ffffffffff000.
Definition PHYS_ADDR_MASK : Z := 0xffffffffff.
Definition PG_HI_RSVD_MASK : Z := Z.ldiff PG_ADDRESS_MASK PHYS_ADDR_MASK.
Definition PG_HI_USER_MASK : Z := 0x7ff0000000000000.
Definition PG_NX_MASK : Z := 2 ^ 63.

Definition PAGE_SIZE : Z := 4096.

(** [x & mask] as a condition. *)
Definition has (x mask : Z) : bool := negb (x .& mask =? 0).

(** [addr & TARGET_PAGE_MASK] *)
Definition page_of (addr : Z) : Z := Z.ldiff addr 0xfff.

(** [PG_ADDRESS_MASK & ~(page_size - 1)] *)
Definition leaf_mask (page_size : Z) : Z := Z.ldiff PG_ADDRESS_MASK (page_size - 1).

(** A virtual address whose bits 63 to 47 are not all equal. *)
Definition noncanonical (addr : Z) : bool :=
  let sext := Z.shiftr (if addr <? 2 ^ 63 then addr else addr - 2 ^ 64) 47 in
  negb (sext =? 0) && negb (sext =? -1).

(** ** The walk for debugging *)

Section Walk.
Context (e : env).

(** Where an entry is; the sums cannot wrap, as the base has its low bits clear. *)
Definition entry_at (base off : Z) : Z := (base + off) .& a20_mask e.

(** The offset of an entry: nine bits of the address, times eight. *)
Definition index (addr shift : Z) : Z := Z.shiftl (Z.shiftr addr shift .& 0x1ff) 3.

Definition pml4e_addr (addr : Z) : Z := entry_at (Z.ldiff (cr3 e) 0xfff) (index addr 39).
Definition pdpe_addr (pml4e addr : Z) : Z := entry_at (pml4e .& PG_ADDRESS_MASK) (index addr 30).
Definition pdpe_addr_pae (addr : Z) : Z := entry_at (Z.ldiff (cr3 e) 0x1f) (Z.shiftr addr 27 .& 0x18).
Definition pde_addr (pdpe addr : Z) : Z := entry_at (pdpe .& PG_ADDRESS_MASK) (index addr 21).
Definition pte_addr (pde addr : Z) : Z := entry_at (pde .& PG_ADDRESS_MASK) (index addr 12).
Definition pde_addr32 (addr : Z) : Z := entry_at (Z.ldiff (cr3 e) 0xfff) (Z.shiftr addr 20 .& 0xffc).
Definition pte_addr32 (pde addr : Z) : Z := entry_at (Z.ldiff pde 0xfff) (Z.shiftr addr 10 .& 0xffc).

(** The address of a 4 MB page: [pde] is a [uint32_t], so the shift is one of 32
    bits. *)
Definition pse36 (pde : Z) : Z := pde .| u32 (Z.shiftl (pde .& 0x1fe000) (32 - 13)).

(** The entry that maps a page, and the page's size; [None] when none does. *)
Definition debug_low (m : memory) (pdpe addr : Z) : option (Z * Z) :=
  let pde := ld 8 m (pde_addr pdpe addr) in
  if negb (has pde PG_PRESENT_MASK) then None
  else if has pde PG_PSE_MASK then Some (pde, 2048 * 1024)
  else
    let pte := ld 8 m (pte_addr pde addr) in
    if negb (has pte PG_PRESENT_MASK) then None else Some (pte, 4096).

Definition debug_leaf (m : memory) (addr : Z) : option (Z * Z) :=
  if negb (has (cr0 e) CR0_PG_MASK) then Some (addr .& a20_mask e, 4096)
  else if has (cr4 e) CR4_PAE_MASK then
    if has (hflags e) HF_LMA_MASK then
      if noncanonical addr then None
      else
        let pml4e := ld 8 m (pml4e_addr addr) in
        if negb (has pml4e PG_PRESENT_MASK) then None
        else
          let pdpe := ld 8 m (pdpe_addr pml4e addr) in
          if negb (has pdpe PG_PRESENT_MASK) then None
          else if has pdpe PG_PSE_MASK then Some (pdpe, 1024 * 1024 * 1024)
          else debug_low m pdpe addr
    else
      let pdpe := ld 8 m (pdpe_addr_pae addr) in
      if negb (has pdpe PG_PRESENT_MASK) then None else debug_low m pdpe addr
  else
    let pde := ld 4 m (pde_addr32 addr) in
    if negb (has pde PG_PRESENT_MASK) then None
    else if has pde PG_PSE_MASK && has (cr4 e) CR4_PSE_MASK then Some (pse36 pde .& a20_mask e, 4096 * 1024)
    else
      let pte := ld 4 m (pte_addr32 pde addr) in
      if negb (has pte PG_PRESENT_MASK) then None else Some (pte .& a20_mask e, 4096).

Definition x86_cpu_get_phys_page_debug (m : memory) (addr : Z) : option Z :=
  '(pte, page_size) ← debug_leaf m addr;
  Some ((pte .& leaf_mask page_size) .| (page_of addr .& (page_size - 1))).

(** ** The walk of the guest's own accesses *)

(** Mark an entry as accessed, in memory too. *)
Definition set_accessed (m : memory) (a w : Z) : memory * Z :=
  if has w PG_ACCESSED_MASK then (m, w)
  else let w' := w .| PG_ACCESSED_MASK in (sd 4 m a (u32 w'), w').

(** How the walk ends: at an entry with the rights gathered on the way
    ([pse] when only bit 21 is reserved), or in a fault. *)
Inductive walk : Type :=
| W_leaf (m : memory) (pte_addr pte ptep page_size rsvd_mask : Z) (pse : bool)
| W_fault (m : memory)
| W_rsvd (m : memory)
| W_general.

Definition mmu_low (m : memory) (pdpe ptep rsvd_mask addr : Z) : walk :=
  let pde_at := pde_addr pdpe addr in
  let pde := ld 8 m pde_at in
  if negb (has pde PG_PRESENT_MASK) then W_fault m
  else if has pde rsvd_mask then W_rsvd m
  else
    let ptep := ptep .& Z.lxor pde PG_NX_MASK in
    if has pde PG_PSE_MASK then W_leaf m pde_at pde ptep (2048 * 1024) rsvd_mask false
    else
      let '(m, pde) := set_accessed m pde_at pde in
      let pte_at := pte_addr pde addr in
      let pte := ld 8 m pte_at in
      if negb (has pte PG_PRESENT_MASK) then W_fault m
      else if has pte rsvd_mask then W_rsvd m
      else W_leaf m pte_at pte (ptep .& Z.lxor pte PG_NX_MASK) 4096 rsvd_mask false.

Definition mmu_walk (m : memory) (addr : Z) : walk :=
  let rsvd_mask :=
    if has (efer e) MSR_EFER_NXE then PG_HI_RSVD_MASK else PG_HI_RSVD_MASK .| PG_NX_MASK in
  if has (cr4 e) CR4_PAE_MASK then
    if has (hflags e) HF_LMA_MASK then
      if noncanonical addr then W_general
      else
        let pml4e_at := pml4e_addr addr in
        let pml4e := ld 8 m pml4e_at in
        if negb (has pml4e PG_PRESENT_MASK) then W_fault m
        else if has pml4e (rsvd_mask .| PG_PSE_MASK) then W_rsvd m
        else
          let '(m, pml4e) := set_accessed m pml4e_at pml4e in
          let ptep := Z.lxor pml4e PG_NX_MASK in
          let pdpe_at := pdpe_addr pml4e addr in
          let pdpe := ld 8 m pdpe_at in
          if negb (has pdpe PG_PRESENT_MASK) then W_fault m
          else if has pdpe rsvd_mask then W_rsvd m
          else
            let ptep := ptep .& Z.lxor pdpe PG_NX_MASK in
            let '(m, pdpe) := set_accessed m pdpe_at pdpe in
            if has pdpe PG_PSE_MASK then W_leaf m pdpe_at pdpe ptep (1024 * 1024 * 1024) rsvd_mask false
            else mmu_low m pdpe ptep rsvd_mask addr
    else
      let pdpe := ld 8 m (pdpe_addr_pae addr) in
      if negb (has pdpe PG_PRESENT_MASK) then W_fault m
      else
        let rsvd_mask := rsvd_mask .| PG_HI_USER_MASK in
        if has pdpe (rsvd_mask .| PG_NX_MASK) then W_rsvd m
        else mmu_low m pdpe (PG_NX_MASK .| PG_USER_MASK .| PG_RW_MASK) rsvd_mask addr
  else
    let pde_at := pde_addr32 addr in
    let pde := ld 4 m pde_at in
    if negb (has pde PG_PRESENT_MASK) then W_fault m
    else
      let ptep := pde .| PG_NX_MASK in
      if has pde PG_PSE_MASK && has (cr4 e) CR4_PSE_MASK
      then W_leaf m pde_at (pse36 pde) ptep (4096 * 1024) 0x200000 true
      else
        let '(m, pde) := set_accessed m pde_at pde in
        let pte_at := pte_addr32 pde addr in
        let pte := ld 4 m pte_at in
        if negb (has pte PG_PRESENT_MASK) then W_fault m
        else W_leaf m pte_at pte (ptep .& (pte .| PG_NX_MASK)) 4096 0 false.

Inductive mmu_idx : Type := MMU_KSMAP_IDX | MMU_USER_IDX | MMU_KNOSMAP_IDX.
Inductive access : Type := Read | Write | Fetch.

Definition is_write (w : access) : bool := match w with Write => true | _ => false end.
Definition is_fetch (w : access) : bool := match w with Fetch => true | _ => false end.
Definition is_user (i : mmu_idx) : bool := match i with MMU_USER_IDX => true | _ => false end.

(** Whether the rights [ptep], its NX bit restored, forbid the access. *)
Definition protected (ptep : Z) (w : access) (i : mmu_idx) : bool :=
  (has ptep PG_NX_MASK && is_fetch w) ||
  match i with
  | MMU_USER_IDX => negb (has ptep PG_USER_MASK) || (is_write w && negb (has ptep PG_RW_MASK))
  | _ =>
      (match i with MMU_KSMAP_IDX => negb (is_fetch w) && has ptep PG_USER_MASK | _ => false end)
      || (is_fetch w && has (cr4 e) CR4_SMEP_MASK && has ptep PG_USER_MASK)
      || (has (cr0 e) CR0_WP_MASK && is_write w && negb (has ptep PG_RW_MASK))
  end.

(** The entry with its accessed and dirty bits, in memory and out. *)
Definition set_dirty (m : memory) (a pte : Z) (w : access) : memory * Z :=
  let is_dirty := is_write w && negb (has pte PG_DIRTY_MASK) in
  if negb (has pte PG_ACCESSED_MASK) || is_dirty then
    let pte := pte .| PG_ACCESSED_MASK in
    let pte := if is_dirty then pte .| PG_DIRTY_MASK else pte in
    (sd 4 m a (u32 pte), pte)
  else (m, pte).

Record protection : Type := Prot { p_write : bool; p_exec : bool }.

Definition page_prot (pte ptep : Z) (i : mmu_idx) : protection :=
  Prot (has pte PG_DIRTY_MASK &&
        (if is_user i then has ptep PG_RW_MASK else negb (has (cr0 e) CR0_WP_MASK) || has ptep PG_RW_MASK))
       (negb (has ptep PG_NX_MASK) &&
        (is_user i || negb (has (cr4 e) CR4_SMEP_MASK && has ptep PG_USER_MASK))).

(** What tlb_set_page is given, or the exception; [cr2] is [None] when an
    intercepted fault leaves the register alone. *)
Inductive mmu_result : Type :=
| Mapped (vaddr paddr : Z) (prot : protection) (page_size : Z)
| PageFault (error_code : Z) (cr2 : option Z)
| GeneralProtection.

Definition do_fault (m : memory) (addr code : Z) (w : access) (i : mmu_idx) : memory * mmu_result :=
  let code := code .| (if is_write w then 2 else 0) in
  let code := code .| (if is_user i then 4 else 0) in
  let code := code .| (if is_fetch w && ((has (efer e) MSR_EFER_NXE && has (cr4 e) CR4_PAE_MASK)
                                        || has (cr4 e) CR4_SMEP_MASK) then 0x10 else 0) in
  match pf_intercept e with
  | Some a => (sd 8 m a addr, PageFault code None)
  | None => (m, PageFault code (Some addr))
  end.

Definition do_mapping (addr pte page_size : Z) (prot : protection) : mmu_result :=
  let pte := pte .& a20_mask e in
  let pte := pte .& leaf_mask page_size in
  let vaddr := page_of addr in
  Mapped vaddr (pte + (vaddr .& (page_size - 1))) prot page_size.

Definition x86_cpu_handle_mmu_fault (m : memory) (addr : Z) (w : access) (i : mmu_idx) : memory * mmu_result :=
  if negb (has (cr0 e) CR0_PG_MASK) then
    (m, do_mapping addr (if has (hflags e) HF_LMA_MASK then addr else u32 addr) 4096 (Prot true true))
  else
    match mmu_walk m addr with
    | W_general => (m, GeneralProtection)
    | W_fault m => do_fault m addr 0 w i
    | W_rsvd m => do_fault m addr (8 .| 1) w i
    | W_leaf m pte_at pte ptep page_size rsvd_mask pse =>
        let rsvd_mask :=
          if pse then rsvd_mask
          else rsvd_mask .| Z.ldiff ((page_size - 1) .& PG_ADDRESS_MASK) PG_PSE_PAT_MASK in
        if has pte rsvd_mask then do_fault m addr (8 .| 1) w i
        else
          let ptep := Z.lxor ptep PG_NX_MASK in
          if protected ptep w i then do_fault m addr 1 w i
          else
            let '(m, pte) := set_dirty m pte_at pte w in
            (m, do_mapping addr pte page_size (page_prot pte ptep i))
    end.

(** ** Reading virtual memory *)

(** Physical memory, [cpu_physical_memory_read]. *)
Definition cpu_physical_memory_read (m : memory) (a : Z) (len : nat) : list Z :=
  (fun k => byte m (a + Z.of_nat k)) <$> seq 0 len.

(** The loop of cpu_memory_rw_debug for a read: what it returns and the buffer,
    which keeps its bytes from the first page that is not mapped on. Every round
    takes at least one byte. *)
Fixpoint rw_debug_loop (fuel : nat) (m : memory) (addr : Z) (buf : list Z) : Z * list Z :=
  match fuel, buf with
  | S fuel', _ :: _ =>
      let page := page_of addr in
      match x86_cpu_get_phys_page_debug m page with
      | None => (-1, buf)
      | Some phys_addr =>
          let l := Z.to_nat (page + PAGE_SIZE - addr) in
          let l := if (length buf <? l)%nat then length buf else l in
          let '(ret, rest) := rw_debug_loop fuel' m (u64 (addr + Z.of_nat l)) (drop l buf) in
          (ret, cpu_physical_memory_read m (phys_addr + (addr .& 0xfff)) l ++ rest)
      end
  | _, _ => (0, buf)
  end.

Definition cpu_memory_rw_debug (m : memory) (addr : Z) (buf : list Z) : Z * list Z :=
  rw_debug_loop (length buf) m addr buf.

(** ** Reference: a byte at a time *)

Definition vbyte (m : memory) (a : Z) : option Z :=
  p ← x86_cpu_get_phys_page_debug m (page_of a); Some (byte m (p + (a .& 0xfff))).

Fixpoint read_bytes (m : memory) (a : Z) (buf : list Z) : Z * list Z :=
  match buf with
  | [] => (0, [])
  | _ :: buf' =>
      match vbyte m a with
      | None => (-1, buf)
      | Some x => let '(ret, rest) := read_bytes m (u64 (a + 1)) buf' in (ret, x :: rest)
      end
  end.

End Walk.

(** ** Entries up to their accessed and dirty bits *)

Definition AD : Z := PG_ACCESSED_MASK .| PG_DIRTY_MASK.

(** Two words that differ in these bits at most. *)
Definition ad_word (x y : Z) : Prop := x .| AD = y .| AD.

(** Two memories whose aligned words of [n] bytes do. *)
Definition ad_eq (n : nat) (m m' : memory) : Prop :=
  forall a, a mod Z.of_nat n = 0 -> ad_word (ld n m a) (ld n m' a).

#[export] Instance ad_word_equiv : Equivalence ad_word.
Proof. split; [intros ?|intros ??|intros ???]; unfold ad_word; congruence. Qed.

#[export] Instance ad_eq_equiv n : Equivalence (ad_eq n).
Proof.
  split; [intros m a _; reflexivity|intros m m' H a Ha; symmetry; auto|].
  intros m1 m2 m3 H1 H2 a Ha. etransitivity; eauto.
Qed.

Lemma ad_land x y mask : ad_word x y -> mask .& AD = 0 -> x .& mask = y .& mask.
Proof.
  intros H Hm. apply Z.bits_inj. intros i. rewrite !Z.land_spec.
  assert (Z.testbit (x .| AD) i = Z.testbit (y .| AD) i) as Hi by (unfold ad_word in H; by rewrite H).
  assert (Z.testbit (mask .& AD) i = false) as Hk by (rewrite Hm; apply Z.bits_0).
  rewrite !Z.lor_spec in Hi. rewrite Z.land_spec in Hk.
  destruct (Z.testbit mask i), (Z.testbit AD i), (Z.testbit x i), (Z.testbit y i); done.
Qed.

Lemma ad_ldiff x y mask : ad_word x y -> Z.ldiff AD mask = 0 -> Z.ldiff x mask = Z.ldiff y mask.
Proof.
  intros H Hm. apply Z.bits_inj. intros i. rewrite !Z.ldiff_spec.
  assert (Z.testbit (x .| AD) i = Z.testbit (y .| AD) i) as Hi by (unfold ad_word in H; by rewrite H).
  assert (Z.testbit (Z.ldiff AD mask) i = false) as Hk by (rewrite Hm; apply Z.bits_0).
  rewrite !Z.lor_spec in Hi. rewrite Z.ldiff_spec in Hk.
  destruct (Z.testbit mask i), (Z.testbit AD i), (Z.testbit x i), (Z.testbit y i); done.
Qed.

Lemma ad_has x y mask : ad_word x y -> mask .& AD = 0 -> has x mask = has y mask.
Proof. intros H Hm. unfold has. by rewrite (ad_land x y). Qed.

Lemma ad_lor x k : Z.lor AD k = AD -> ad_word x (x .| k).
Proof. intros H. unfold ad_word. by rewrite <- Z.lor_assoc, (Z.lor_comm k), H. Qed.

(** ** Storing an entry back with more of these bits *)

Lemma ld_sd_entry m a k : 0 <= k < 2 ^ 32 ->
  ld 8 (sd 4 m a (u32 (ld 8 m a .| k))) a = ld 8 m a .| k.
Proof.
  intros Hk. rewrite ld_halves, ld_sd_same, (ld_sd_apart 4 4) by (unfold apart; lia).
  set (w := ld 8 m a .| k). pose proof (ld_range 4 m a). pose proof (ld_range 4 m (a + 4)).
  assert (w / 2 ^ 32 = ld 4 m (a + 4)) as E.
  { rewrite <- Z.shiftr_div_pow2 by lia. subst w. rewrite Z.shiftr_lor, !Z.shiftr_div_pow2, (Z.div_small k) by lia.
    rewrite Z.lor_0_r, ld_halves, (Z.mul_comm (2 ^ 32)), Z.div_add, Z.div_small by lia. lia. }
  unfold u32. change (256 ^ Z.of_nat 4) with (2 ^ 32). rewrite Z.mod_mod by lia.
  rewrite <- E. pose proof (Z.div_mod w (2 ^ 32)). lia.
Qed.

Lemma ld_sd_word m a k : 0 <= k < 2 ^ 32 ->
  ld 4 (sd 4 m a (u32 (ld 4 m a .| k))) a = ld 4 m a .| k.
Proof.
  intros Hk. pose proof (ld_range 4 m a). rewrite ld_sd_same. unfold u32. change (256 ^ Z.of_nat 4) with (2 ^ 32) in *.
  rewrite Z.mod_mod by lia. rewrite <- (Z.mod_small (ld 4 m a) (2 ^ 32)), <- (Z.mod_small k (2 ^ 32)) by lia.
  rewrite <- !Z.land_ones, <- Z.land_lor_distr_l, <- Z.land_assoc, Z.land_diag by lia. done.
Qed.

Lemma ad_store n m a k : n = 4%nat \/ n = 8%nat -> a mod Z.of_nat n = 0 -> 0 <= k < 2 ^ 32 -> Z.lor AD k = AD ->
  ad_eq n m (sd 4 m a (u32 (ld n m a .| k))).
Proof.
  intros Hn Ha Hk HAD b Hb. destruct (decide (a = b)) as [<-|Hne].
  - destruct Hn as [-> | ->]; rewrite ?ld_sd_entry, ?ld_sd_word by done; by apply ad_lor.
  - rewrite ld_sd_apart; [reflexivity|]. unfold apart.
    assert (exists i, b - a = i * Z.of_nat n) as [i Ei].
    { exists (b / Z.of_nat n - a / Z.of_nat n). pose proof (Z.div_mod a (Z.of_nat n)). pose proof (Z.div_mod b (Z.of_nat n)).
      destruct Hn as [-> | ->]; lia. }
    destruct Hn as [-> | ->]; simpl in *; lia.
Qed.

Section AccessedDirty.
Context (e : env).

Lemma set_accessed_ad n m a : n = 4%nat \/ n = 8%nat -> a mod Z.of_nat n = 0 ->
  ad_eq n m (set_accessed m a (ld n m a)).1 /\ ad_word (ld n m a) (set_accessed m a (ld n m a)).2.
Proof.
  intros Hn Ha. unfold set_accessed. destruct (has _ _); [done|]. cbn [fst snd].
  split; [by apply ad_store|by apply ad_lor].
Qed.

Lemma set_dirty_ad n m a w : n = 4%nat \/ n = 8%nat -> a mod Z.of_nat n = 0 ->
  ad_eq n m (set_dirty m a (ld n m a) w).1 /\ ad_word (ld n m a) (set_dirty m a (ld n m a) w).2.
Proof.
  intros Hn Ha. unfold set_dirty. destruct (negb _ || _); [|done]. cbn [fst snd].
  destruct (is_write w && _); rewrite <- ?Z.lor_assoc; (split; [by apply ad_store|by apply ad_lor]).
Qed.
End AccessedDirty.

(** ** Pages and alignment *)

Lemma page_of_sub a : page_of a = a - a mod 4096.
Proof.
  unfold page_of. change 0xfff with (Z.ones 12). rewrite Z.ldiff_ones_r, Z.shiftl_mul_pow2, Z.shiftr_div_pow2 by lia.
  pose proof (Z.div_mod a (2 ^ 12)). change (2 ^ 12) with 4096 in *. lia.
Qed.

Lemma page_of_idem a : page_of (page_of a) = page_of a.
Proof.
  rewrite !page_of_sub. replace (a - a mod 4096) with (a / 4096 * 4096) by (pose proof (Z.div_mod a 4096); lia).
  rewrite Z.mod_mul by lia. lia.
Qed.

Lemma page_offset a : a .& 0xfff = a mod 4096.
Proof. change 0xfff with (Z.ones 12). by rewrite Z.land_ones by lia. Qed.

Lemma shiftr_page a s : 12 <= s -> Z.shiftr (page_of a) s = Z.shiftr a s.
Proof.
  intros Hs. unfold page_of. rewrite Z.shiftr_ldiff. replace (Z.shiftr 0xfff s) with 0; [by rewrite Z.ldiff_0_r|].
  assert (2 ^ 12 <= 2 ^ s) by (apply Z.pow_le_mono_r; lia).
  by rewrite Z.shiftr_div_pow2, Z.div_small by lia.
Qed.

Lemma shiftr_page_10 a : Z.shiftr (page_of a) 10 .& 0xffc = Z.shiftr a 10 .& 0xffc.
Proof.
  unfold page_of. rewrite Z.shiftr_ldiff. change (Z.shiftr 0xfff 10) with 3.
  apply Z.bits_inj. intros i. rewrite !Z.land_spec, Z.ldiff_spec.
  assert (Z.testbit 3 i && Z.testbit 0xffc i = false) as Hi by (rewrite <- Z.land_spec; apply Z.bits_0).
  destruct (Z.testbit 3 i), (Z.testbit 0xffc i), (Z.testbit (Z.shiftr a 10) i); done.
Qed.

Lemma noncanonical_page a : 0 <= a < 2 ^ 64 -> noncanonical (page_of a) = noncanonical a.
Proof.
  intros Ha. unfold noncanonical. rewrite page_of_sub. pose proof (Z.mod_pos_bound a 4096).
  pose proof (Z.div_mod a 4096).
  assert ((a - a mod 4096 <? 2 ^ 63) = (a <? 2 ^ 63)) as ->.
  { destruct (Z.ltb_spec a (2 ^ 63)), (Z.ltb_spec (a - a mod 4096) (2 ^ 63)); lia. }
  assert (forall b, b mod 4096 = 0 -> Z.shiftr (a + b - a mod 4096) 47 = Z.shiftr (a + b) 47) as E.
  { intros b Hb. assert (a mod 4096 = (a + b) mod 4096) as ->.
    { rewrite Z.add_mod, Hb, Z.add_0_r, Z.mod_mod by lia. done. }
    rewrite <- page_of_sub. apply shiftr_page. lia. }
  destruct (a <? 2 ^ 63).
  - specialize (E 0 eq_refl). by rewrite Z.add_0_r in E; rewrite E.
  - replace (a - a mod 4096 - 2 ^ 64) with (a + (- 2 ^ 64) - a mod 4096) by lia.
    replace (a - 2 ^ 64) with (a + - 2 ^ 64) by lia. by rewrite E.
Qed.

Lemma land_aligned x mask k : 0 <= k -> mask .& Z.ones k = 0 -> (x .& mask) mod 2 ^ k = 0.
Proof. intros Hk H. by rewrite <- Z.land_ones, <- Z.land_assoc, H, Z.land_0_r by lia. Qed.

Lemma ldiff_aligned x n k : 0 <= k <= n -> Z.ldiff x (Z.ones n) mod 2 ^ k = 0.
Proof.
  intros Hk. rewrite Z.ldiff_ones_r, Z.shiftl_mul_pow2 by lia.
  replace n with ((n - k) + k) at 2 by lia. rewrite Z.pow_add_r, Z.mul_assoc, Z.mod_mul by lia. done.
Qed.

Lemma index_aligned a s : index a s mod 8 = 0.
Proof. unfold index. rewrite Z.shiftl_mul_pow2 by lia. by rewrite Z.mod_mul by lia. Qed.

Section Aligned.
Context (e : env) (Ha20 : a20_mask e = -1).

Lemma entry_at_sum base off : entry_at e base off = base + off.
Proof. unfold entry_at. by rewrite Ha20, Z.land_m1_r. Qed.

Lemma pml4e_aligned a : pml4e_addr e a mod 8 = 0.
Proof.
  unfold pml4e_addr. rewrite entry_at_sum, Z.add_mod, index_aligned by lia.
  change 0xfff with (Z.ones 12). change 8 with (2 ^ 3). by rewrite ldiff_aligned by lia.
Qed.

Lemma table_aligned w a s : entry_at e (w .& PG_ADDRESS_MASK) (index a s) mod 8 = 0.
Proof.
  rewrite entry_at_sum, Z.add_mod, index_aligned by lia. change 8 with (2 ^ 3). by rewrite (land_aligned w) by done.
Qed.

Lemma pdpe_pae_aligned a : pdpe_addr_pae e a mod 8 = 0.
Proof.
  unfold pdpe_addr_pae. rewrite entry_at_sum, Z.add_mod by lia. change 0x1f with (Z.ones 5). change 8 with (2 ^ 3).
  by rewrite ldiff_aligned, land_aligned by (done || lia).
Qed.

Lemma pde32_aligned a : pde_addr32 e a mod 4 = 0.
Proof.
  unfold pde_addr32. rewrite entry_at_sum, Z.add_mod by lia. change 0xfff with (Z.ones 12). change 4 with (2 ^ 2).
  by rewrite ldiff_aligned, land_aligned by (done || lia).
Qed.

Lemma pte32_aligned w a : pte_addr32 e w a mod 4 = 0.
Proof.
  unfold pte_addr32. rewrite entry_at_sum, Z.add_mod by lia. change 0xfff with (Z.ones 12). change 4 with (2 ^ 2).
  by rewrite ldiff_aligned, land_aligned by (done || lia).
Qed.
End Aligned.

(** ** The debugging walk *)

(** It depends on the page of the address only. *)
Lemma debug_leaf_page e m a : 0 <= a < 2 ^ 64 -> has (cr0 e) CR0_PG_MASK = true ->
  debug_leaf e m (page_of a) = debug_leaf e m a.
Proof.
  intros Ha Hpg. unfold debug_leaf, debug_low, pml4e_addr, pdpe_addr, pdpe_addr_pae, pde_addr, pte_addr, pde_addr32, pte_addr32, index.
  rewrite noncanonical_page, Hpg by done. by rewrite !shiftr_page, shiftr_page_10 by lia.
Qed.

Definition same_leaf (o o' : option (Z * Z)) : Prop :=
  match o, o' with
  | Some (p, s), Some (p', s') => ad_word p p' /\ s = s'
  | None, None => True
  | _, _ => False
  end.

(** It does not depend on accessed and dirty bits. *)
Lemma debug_low_ad e m m' w w' a : a20_mask e = -1 -> ad_eq 8 m m' -> ad_word w w' ->
  same_leaf (debug_low e m w a) (debug_low e m' w' a).
Proof.
  intros Ha20 Hm Hw. unfold debug_low, pde_addr, pte_addr. rewrite (ad_land w w') by done.
  specialize (Hm (entry_at e (w' .& PG_ADDRESS_MASK) (index a 21)) (table_aligned e Ha20 _ _ _)) as Hp.
  rewrite !(ad_has _ _ _ Hp), (ad_land _ _ PG_ADDRESS_MASK Hp) by done.
  destruct (negb _); [done|]. destruct (has _ PG_PSE_MASK); [done|].
  rewrite (ad_has _ _ _ (Hm _ (table_aligned e Ha20 _ _ _))) by done.
  destruct (negb _); [done|]. split; [|done]. apply Hm, table_aligned, Ha20.
Qed.

Lemma leaf_mask_ad s : leaf_mask s .& AD = 0.
Proof.
  unfold leaf_mask. apply Z.bits_inj. intros i. rewrite Z.land_spec, Z.ldiff_spec, Z.bits_0.
  assert (Z.testbit PG_ADDRESS_MASK i && Z.testbit AD i = false) as Hi by (rewrite <- Z.land_spec; apply Z.bits_0).
  destruct (Z.testbit PG_ADDRESS_MASK i), (Z.testbit AD i), (Z.testbit (s - 1) i); done.
Qed.

(** The width of an entry: eight bytes with PAE, four without. *)
Definition entry_size (e : env) : nat := if has (cr4 e) CR4_PAE_MASK then 8 else 4.

Lemma pse36_lost w : 0 <= w < 2 ^ 32 -> pse36 w = w.
Proof.
  intros Hw. unfold pse36, u32. rewrite Z.shiftl_mul_pow2 by lia.
  change 0x1fe000 with (Z.shiftl 0xff 13). rewrite <- (Z.lor_0_r w) at 3. f_equal.
  assert ((w .& Z.shiftl 0xff 13) mod 2 ^ 13 = 0) as H.
  { apply land_aligned; done. }
  apply Z.mod_divide in H as [q ->]; [|lia]. replace (q * 2 ^ 13 * 2 ^ (32 - 13)) with (q * 2 ^ 32) by lia.
  by rewrite Z.mod_mul by lia.
Qed.

Lemma debug_leaf_ad e m m' a : a20_mask e = -1 -> ad_eq (entry_size e) m m' ->
  same_leaf (debug_leaf e m a) (debug_leaf e m' a).
Proof.
  intros Ha20 Hm. unfold debug_leaf. unfold entry_size in Hm. rewrite Ha20, !Z.land_m1_r.
  destruct (negb (has (cr0 e) _)); [done|]. destruct (has (cr4 e) CR4_PAE_MASK).
  - destruct (has (hflags e) _).
    + destruct (noncanonical a); [done|].
      pose proof (Hm _ (pml4e_aligned e Ha20 a)) as H4.
      rewrite (ad_has _ _ PG_PRESENT_MASK H4) by done. destruct (negb _); [done|].
      unfold pdpe_addr. rewrite (ad_land _ _ PG_ADDRESS_MASK H4) by done.
      pose proof (Hm _ (table_aligned e Ha20 (ld 8 m' (pml4e_addr e a)) a 30)) as H3.
      rewrite !(ad_has _ _ _ H3) by done. destruct (negb _); [done|]. destruct (has _ PG_PSE_MASK); [done|].
      by apply debug_low_ad.
    + pose proof (Hm _ (pdpe_pae_aligned e Ha20 a)) as H3.
      rewrite !(ad_has _ _ _ H3) by done. destruct (negb _); [done|]. by apply debug_low_ad.
  - pose proof (Hm _ (pde32_aligned e Ha20 a)) as H2. rewrite !(ad_has _ _ _ H2) by done.
    destruct (negb _); [done|]. destruct (has _ PG_PSE_MASK && _).
    + rewrite !pse36_lost by apply (ld_range 4). done.
    + unfold pte_addr32. rewrite (ad_ldiff _ _ _ H2) by done.
      pose proof (Hm _ (pte32_aligned e Ha20 (ld 4 m' (pde_addr32 e a)) a)) as H1.
      rewrite (ad_has _ _ _ H1) by done. by destruct (negb _).
Qed.

Lemma debug_ad e m m' a : a20_mask e = -1 -> ad_eq (entry_size e) m m' ->
  x86_cpu_get_phys_page_debug e m a = x86_cpu_get_phys_page_debug e m' a.
Proof.
  intros Ha20 Hm. pose proof (debug_leaf_ad e m m' a Ha20 Hm) as H. unfold x86_cpu_get_phys_page_debug.
  destruct (debug_leaf e m a) as [[p s]|], (debug_leaf e m' a) as [[p' s']|]; try done.
  simpl in H. destruct H as [H ->]. cbv [mbind option_bind]. do 2 f_equal. apply (ad_land p p' (leaf_mask s')); [done|apply leaf_mask_ad].
Qed.

(** ** The two walks agree *)

Lemma set_accessed_spec n m a : n = 4%nat \/ n = 8%nat -> a mod Z.of_nat n = 0 ->
  exists m' w', set_accessed m a (ld n m a) = (m', w') /\ ad_eq n m m' /\ ad_word (ld n m a) w' /\ ld n m' a = w'.
Proof.
  intros Hn Ha. pose proof (set_accessed_ad n m a Hn Ha) as [H1 H2].
  eexists _, _. split; [apply surjective_pairing|]. split_and!; [done|done|].
  unfold set_accessed in *. destruct (has _ _); [done|]. cbn [fst snd].
  destruct Hn as [-> | ->]; by rewrite ?ld_sd_entry, ?ld_sd_word by done.
Qed.

(** The walk ended at an entry of [m], where the debugging walk on [m0] ends too. *)
Definition leaf_ok (e : env) (m0 : memory) (debug : option (Z * Z)) (m : memory) (at_ pte size : Z) : Prop :=
  ad_eq (entry_size e) m0 m /\ at_ mod Z.of_nat (entry_size e) = 0 /\ ld (entry_size e) m at_ = pte /\
  exists p0, debug = Some (p0, size) /\ ad_word p0 pte.

Lemma mmu_low_leaf e m0 m w0 w ptep rsvd a m1 at_ pte ptep' size r pse :
  a20_mask e = -1 -> has (cr4 e) CR4_PAE_MASK = true -> ad_eq 8 m0 m -> ad_word w0 w ->
  mmu_low e m w ptep rsvd a = W_leaf m1 at_ pte ptep' size r pse ->
  leaf_ok e m0 (debug_low e m0 w0 a) m1 at_ pte size.
Proof.
  intros Ha20 Hpae Hm Hw E. unfold mmu_low in E. cbv zeta in E. unfold leaf_ok, entry_size. rewrite Hpae.
  pose proof (debug_low_ad e m0 m w0 w a Ha20 Hm Hw) as Hd. unfold debug_low in Hd at 2. cbv zeta in Hd.
  pose proof (table_aligned e Ha20 w a 21) as Al. change (entry_at e _ _) with (pde_addr e w a) in Al.
  destruct (negb (has (ld 8 m (pde_addr e w a)) PG_PRESENT_MASK)); [done|].
  destruct (has _ rsvd); [done|]. destruct (has _ PG_PSE_MASK).
  - injection E as <- <- <- <- <- <- <-. destruct (debug_low e m0 w0 a) as [[p s]|]; [|done].
    destruct Hd as [Hd ->]. split_and!; [done..|]. by eexists.
  - destruct (set_accessed_spec 8 m (pde_addr e w a)) as (m2 & w2 & Eq & Hm2 & Hw2 & _); [by right|done|].
    rewrite Eq in E. unfold pte_addr in *. rewrite (ad_land _ w2 PG_ADDRESS_MASK Hw2) in Hd by done.
    pose proof (table_aligned e Ha20 w2 a 12) as Al2. pose proof (Hm2 _ Al2) as Hp.
    rewrite (ad_has _ _ PG_PRESENT_MASK Hp) in Hd by done.
    destruct (negb _); [done|]. destruct (has _ rsvd); [done|].
    injection E as <- <- <- <- <- <- <-. destruct (debug_low e m0 w0 a) as [[p s]|]; [|done].
    destruct Hd as [Hd ->]. split_and!; [by etransitivity|done|done|]. eexists. split; [done|]. by etransitivity.
Qed.

Lemma mmu_walk_leaf e m a m1 at_ pte ptep size r pse :
  a20_mask e = -1 -> has (cr0 e) CR0_PG_MASK = true ->
  mmu_walk e m a = W_leaf m1 at_ pte ptep size r pse ->
  leaf_ok e m (debug_leaf e m a) m1 at_ pte size.
Proof.
  intros Ha20 Hpg E. unfold debug_leaf. rewrite Hpg, Ha20, !Z.land_m1_r. simpl negb. cbv iota.
  unfold mmu_walk in E. cbv zeta in E. destruct (has (cr4 e) CR4_PAE_MASK) eqn:Hpae.
  - set (rsvd := if has (efer e) MSR_EFER_NXE then _ else _) in E. clearbody rsvd.
    destruct (has (hflags e) _).
    + destruct (noncanonical a); [done|].
      destruct (negb (has (ld 8 m (pml4e_addr e a)) _)); [done|]. destruct (has _ (rsvd .| _)); [done|].
      destruct (set_accessed_spec 8 m (pml4e_addr e a)) as (m2 & w2 & Eq & Hm2 & Hw2 & _); [by right|by apply pml4e_aligned|].
      rewrite Eq in E. unfold pdpe_addr in *. rewrite (ad_land _ w2 PG_ADDRESS_MASK Hw2) by done.
      pose proof (table_aligned e Ha20 w2 a 30) as Al. pose proof (Hm2 _ Al) as Hp.
      rewrite !(ad_has _ _ _ Hp) by done. destruct (negb _); [done|]. destruct (has _ rsvd); [done|].
      destruct (set_accessed_spec 8 m2 (entry_at e (w2 .& PG_ADDRESS_MASK) (index a 30))) as (m3 & w3 & Eq3 & Hm3 & Hw3 & L3); [by right|done|].
      rewrite Eq3 in E. rewrite (ad_has _ _ PG_PSE_MASK Hw3) by done.
      assert (ad_eq 8 m m3) by (by etransitivity). destruct (has w3 PG_PSE_MASK).
      * injection E as <- <- <- <- <- <- <-. unfold leaf_ok, entry_size. rewrite Hpae.
        split_and!; [done..|]. eexists. split; [done|]. by etransitivity.
      * eapply mmu_low_leaf; [done|done|done| |done]. by etransitivity.
    + destruct (negb _); [done|]. destruct (has _ (_ .| PG_NX_MASK)); [done|]. eapply mmu_low_leaf; done.
  - unfold leaf_ok, entry_size. rewrite Hpae. destruct (negb (has (ld 4 m (pde_addr32 e a)) _)); [done|].
    pose proof (pde32_aligned e Ha20 a) as Al. destruct (has _ PG_PSE_MASK && _).
    + rewrite pse36_lost in * by apply (ld_range 4). injection E as <- <- <- <- <- <- <-. split_and!; [done..|]. by eexists.
    + destruct (set_accessed_spec 4 m (pde_addr32 e a)) as (m2 & w2 & Eq & Hm2 & Hw2 & _); [by left|done|].
      rewrite Eq in E. unfold pte_addr32 in *. rewrite (ad_ldiff _ w2 0xfff Hw2) by done.
      pose proof (pte32_aligned e Ha20 w2 a) as Al2. pose proof (Hm2 _ Al2) as Hp. unfold pte_addr32 in Hp, Al2.
      rewrite (ad_has _ _ _ Hp) by done. destruct (negb _); [done|].
      injection E as <- <- <- <- <- <- <-. split_and!; [done..|]. by eexists.
Qed.

Lemma leaf_sum p v s : (p .& leaf_mask s) + (v .& (s - 1)) = (p .& leaf_mask s) .| (v .& (s - 1)).
Proof.
  rewrite <- Z.add_lor_land. replace ((p .& leaf_mask s) .& (v .& (s - 1))) with 0; [lia|].
  apply Z.bits_inj. intros i. unfold leaf_mask. rewrite !Z.land_spec, Z.ldiff_spec, Z.bits_0.
  destruct (Z.testbit (s - 1) i), (Z.testbit p i), (Z.testbit v i), (Z.testbit PG_ADDRESS_MASK i); done.
Qed.

Lemma page_of_leaf a : page_of a .& leaf_mask 4096 = a .& leaf_mask 4096.
Proof.
  apply Z.bits_inj. intros i. unfold leaf_mask, page_of. change (4096 - 1) with 0xfff. rewrite !Z.land_spec, !Z.ldiff_spec.
  destruct (Z.testbit a i), (Z.testbit 0xfff i), (Z.testbit PG_ADDRESS_MASK i); done.
Qed.

Lemma do_fault_not_mapped e m a c w i m' v p pr s : do_fault e m a c w i <> (m', Mapped v p pr s).
Proof. unfold do_fault. by destruct (pf_intercept e). Qed.

Lemma mapped_inj (m m' : memory) v v' p p' pr pr' s s' : (m, Mapped v p pr s) = (m', Mapped v' p' pr' s') ->
  m = m' /\ v = v' /\ p = p' /\ pr = pr' /\ s = s'.
Proof. by intros [= -> -> -> -> ->]. Qed.

Lemma debug_walk_translation e m addr w i m' vaddr paddr prot size :
  a20_mask e = -1 -> 0 <= addr < 2 ^ 64 ->
  has (cr0 e) CR0_PG_MASK = true \/ has (hflags e) HF_LMA_MASK = true \/ addr < 2 ^ 32 ->
  x86_cpu_handle_mmu_fault e m addr w i = (m', Mapped vaddr paddr prot size) ->
  vaddr = page_of addr /\ x86_cpu_get_phys_page_debug e m vaddr = Some paddr /\ ad_eq (entry_size e) m m'.
Proof.
  intros Ha20 Ha Hmode E. unfold x86_cpu_handle_mmu_fault, do_mapping in E. rewrite Ha20, !Z.land_m1_r in E.
  destruct (has (cr0 e) CR0_PG_MASK) eqn:Hpg; simpl negb in E; cbv iota in E.
  - destruct (mmu_walk e m addr) as [m1 at_ pte ptep s r pse|m1|m1|] eqn:Ew;
      [|by apply do_fault_not_mapped in E..|done].
    apply mmu_walk_leaf in Ew as (Hm1 & Al & Hld & p0 & Ed & Hp); [|done..]. cbv zeta in E.
    destruct (has pte _); [by apply do_fault_not_mapped in E|].
    destruct (protected e _ w i); [by apply do_fault_not_mapped in E|].
    destruct (set_dirty_ad (entry_size e) m1 at_ w) as [Hm2 Hp2]; [unfold entry_size; case_if; auto|done|].
    rewrite Hld in Hm2, Hp2. destruct (set_dirty m1 at_ pte w) as [m2 pte2]. cbn [fst snd] in *.
    rewrite Z.land_m1_r in E. apply mapped_inj in E as (<- & <- & <- & <- & <-). split_and!; [done| |by etransitivity].
    unfold x86_cpu_get_phys_page_debug. rewrite debug_leaf_page, Ed by done. cbv [mbind option_bind].
    rewrite page_of_idem, <- leaf_sum. f_equal. f_equal.
    apply (ad_land p0 pte2 (leaf_mask s)); [by etransitivity|apply leaf_mask_ad].
  - apply mapped_inj in E as (<- & <- & <- & <- & <-). split_and!; [done| |done].
    unfold x86_cpu_get_phys_page_debug, debug_leaf. rewrite Hpg, Ha20, Z.land_m1_r. simpl negb. cbv iota. cbv [mbind option_bind].
    rewrite page_of_idem, <- leaf_sum. f_equal. f_equal. rewrite page_of_leaf. f_equal.
    destruct (has (hflags e) _); [done|]. destruct Hmode as [?|[?|?]]; [done..|]. symmetry. apply Z.mod_small. lia.
Qed.

(** ** Reading by pages and by bytes *)

Section Read.
Context (e : env) (m : memory).

Lemma read_page_end a k : 0 <= a < 2 ^ 64 -> (Z.of_nat k <= 4096 - a mod 4096) ->
  forall j, (j < k)%nat -> page_of (u64 (a + Z.of_nat j)) = page_of a /\ u64 (a + Z.of_nat j) .& 0xfff = (a .& 0xfff) + Z.of_nat j.
Proof.
  intros Ha Hk j Hj. pose proof (Z.div_mod a 4096). pose proof (Z.mod_pos_bound a 4096).
  assert (a + Z.of_nat j < 2 ^ 64).
  { assert (a / 4096 <= 2 ^ 52 - 1); [|lia]. apply Z.lt_le_pred, Z.div_lt_upper_bound; lia. }
  unfold u64. rewrite (Z.mod_small (a + _)) by lia.
  assert ((a + Z.of_nat j) mod 4096 = a mod 4096 + Z.of_nat j) as E.
  { rewrite Z.add_mod, (Z.mod_small (Z.of_nat j)), Z.mod_small by lia. done. }
  rewrite !page_of_sub, !page_offset, E. lia.
Qed.

(** Bytes of one page. *)
Lemma read_bytes_page p k buf rest : forall a i,
  (forall j, (j < k)%nat -> vbyte e m (u64 (a + Z.of_nat j)) = Some (byte m (p + Z.of_nat (i + j)))) ->
  0 <= a < 2 ^ 64 -> length buf = k ->
  read_bytes e m a (buf ++ rest) =
    let '(ret, rest') := read_bytes e m (u64 (a + Z.of_nat k)) rest in
    (ret, ((fun j => byte m (p + Z.of_nat j)) <$> seq i k) ++ rest').
Proof.
  revert buf. induction k as [|k IH]; intros [|b buf] a i Hv Ha Hl; try done.
  - cbn [length app]. rewrite Z.add_0_r. unfold u64. rewrite Z.mod_small by done. by destruct (read_bytes e m a rest).
  - cbn [app read_bytes]. specialize (Hv 0%nat ltac:(lia)) as H0. rewrite Z.add_0_r, Nat.add_0_r in H0. unfold u64 in H0 at 1. rewrite Z.mod_small in H0 by done.
    rewrite H0, (IH buf (u64 (a + 1)) (S i)); [|intros j Hj|apply u64_range|by injection Hl].
    + unfold u64. rewrite Zplus_mod_idemp_l. replace (a + 1 + Z.of_nat k) with (a + Z.of_nat (S k)) by lia.
      destruct (read_bytes e m _ rest). done.
    + unfold u64. rewrite Zplus_mod_idemp_l. specialize (Hv (S j) ltac:(lia)). unfold u64 in Hv.
      replace (a + 1 + Z.of_nat j) with (a + Z.of_nat (S j)) by lia. rewrite Hv. do 3 f_equal. lia.
Qed.

Lemma rw_debug_loop_bytes fuel : forall a buf, 0 <= a < 2 ^ 64 -> (length buf <= fuel)%nat ->
  rw_debug_loop e fuel m a buf = read_bytes e m a buf.
Proof.
  induction fuel as [|fuel IH]; intros a buf Ha Hf; [by destruct buf; [|simpl in Hf; lia]|].
  destruct buf as [|b buf]; [done|]. cbn [rw_debug_loop].
  destruct (x86_cpu_get_phys_page_debug e m (page_of a)) as [p|] eqn:Ep.
  - set (buf0 := b :: buf) in *. pose proof (Z.mod_pos_bound a 4096). 
    set (l := if (length buf0 <? _)%nat then _ else _).
    assert ((l <= length buf0)%nat /\ (0 < l)%nat /\ Z.of_nat l <= 4096 - a mod 4096) as (Hl1 & Hl2 & Hl3).
    { subst l. unfold PAGE_SIZE. rewrite page_of_sub. destruct (Nat.ltb_spec (length buf0) (Z.to_nat (a - a mod 4096 + 4096 - a))); subst buf0; simpl in *; lia. }
    assert (length (drop l buf0) <= fuel)%nat by (rewrite length_drop; lia).
    rewrite IH by (done || apply u64_range). rewrite <- (take_drop l buf0) at 2.
    assert (length (take l buf0) = l) as Et by (rewrite length_take; lia).
    rewrite (read_bytes_page (p + (a .& 0xfff)) l (take l buf0) (drop l buf0) a 0); [done| |done|done].
    intros j Hj. unfold vbyte. destruct (read_page_end a l Ha Hl3 j Hj) as [-> ->]. rewrite Ep. cbv [mbind option_bind].
    do 2 f_equal. lia.
  - cbn [read_bytes]. unfold vbyte. by rewrite Ep.
Qed.
End Read.

(** ** Theorems *)

(** C13: The introspection sees the memory the guest sees: when an access of
    the guest is translated, in whatever mode of paging and with whatever rights,
    the walk for debugging gives the same physical page, and the accessed and
    dirty bits the access sets in the tables change no translation. The A20 line is
    enabled, and an address above 4 GiB needs paging or long mode. *)
Theorem debug_walk_agrees e m addr w i m' vaddr paddr prot size :
  a20_mask e = -1 -> 0 <= addr < 2 ^ 64 ->
  has (cr0 e) CR0_PG_MASK = true \/ has (hflags e) HF_LMA_MASK = true \/ addr < 2 ^ 32 ->
  x86_cpu_handle_mmu_fault e m addr w i = (m', Mapped vaddr paddr prot size) ->
  vaddr = page_of addr /\ x86_cpu_get_phys_page_debug e m vaddr = Some paddr /\
  forall a, x86_cpu_get_phys_page_debug e m' a = x86_cpu_get_phys_page_debug e m a.
Proof.
  intros Ha20 Ha Hmode E.
  destruct (debug_walk_translation e m addr w i m' vaddr paddr prot size) as (Hv & Hd & Hm); [done..|].
  split_and!; [done|done|]. intros a. symmetry. by apply debug_ad.
Qed.

(** C37: A read of virtual memory, which goes page by page, is the read of its
    bytes one by one, each through the page tables: it succeeds exactly when all are
    mapped, also across pages and around the end of the address space, and
    otherwise fills the buffer up to the first byte that is not. *)
Theorem rw_debug_reads_bytes e m addr buf :
  0 <= addr < 2 ^ 64 -> cpu_memory_rw_debug e m addr buf = read_bytes e m addr buf.
Proof. intros. by apply rw_debug_loop_bytes. Qed.

(** A page of long mode at 0x7000, mapped to 0x5000. *)
Definition demo_env : env := Env CR0_PG_MASK 0x1000 CR4_PAE_MASK 0 HF_LMA_MASK (-1) None.
Definition demo_tables : memory :=
  <[0x5ffe := 0xaa]> (<[0x5fff := 0xbb]> (sd 8 (sd 8 (sd 8 (sd 8 ∅ 0x1000 0x2003) 0x2000 0x3003) 0x3000 0x4003) 0x4038 0x5003)).

Lemma debug_walk_agrees_witness :
  (x86_cpu_handle_mmu_fault demo_env demo_tables 0x7123 Write MMU_KNOSMAP_IDX).2 = Mapped 0x7000 0x5000 (Prot true true) 4096 /\
  x86_cpu_get_phys_page_debug demo_env demo_tables 0x7000 = Some 0x5000.
Proof.
  assert ((x86_cpu_handle_mmu_fault demo_env demo_tables 0x7123 Write MMU_KNOSMAP_IDX).2 = Mapped 0x7000 0x5000 (Prot true true) 4096) as E
    by (vm_compute; reflexivity).
  split; [exact E|].
  refine (proj1 (proj2 (debug_walk_agrees demo_env demo_tables 0x7123 Write MMU_KNOSMAP_IDX
    (x86_cpu_handle_mmu_fault demo_env demo_tables 0x7123 Write MMU_KNOSMAP_IDX).1 0x7000 0x5000 (Prot true true) 4096 _ _ _ _))).
  - reflexivity.
  - lia.
  - left. reflexivity.
  - rewrite <- E. apply surjective_pairing.
Defined.

Lemma rw_debug_reads_bytes_witness :
  cpu_memory_rw_debug demo_env demo_tables 0x7ffe [1; 2; 3; 4] = (-1, [0xaa; 0xbb; 3; 4]).
Proof. rewrite rw_debug_reads_bytes; [vm_compute; reflexivity|lia]. Defined.

(** A 4 MB page of 32-bit paging gives the bits above 32 of its address in bits
    20 to 13 of its entry; the shift that should bring them there is one of 32 bits
    and loses them, in both walks. *)
Lemma pse36_ignored e m addr pde :
  a20_mask e = -1 -> has (cr0 e) CR0_PG_MASK = true -> has (cr4 e) CR4_PAE_MASK = false ->
  has (cr4 e) CR4_PSE_MASK = true -> ld 4 m (pde_addr32 e addr) = pde ->
  has pde PG_PRESENT_MASK = true -> has pde PG_PSE_MASK = true ->
  debug_leaf e m addr = Some (pde, 4096 * 1024).
Proof.
  intros Ha20 Hpg Hpae Hpse Hld Hp Hps. unfold debug_leaf. rewrite Hpg, Hpae, Hld, Hp, Hps, Hpse, Ha20, Z.land_m1_r.
  simpl negb. simpl andb. cbv iota. by rewrite pse36_lost, Z.land_m1_r by (rewrite <- Hld; apply (ld_range 4)).
Qed.
