(* ===== verification/Memfrs.v ===== *)
(** * Memory forensics: structures of the guest's kernel

    The core of src/ext/memfrs/memfrs.c: the descriptions of Windows structures
    and global variables, loaded from JSON files, the fields they give, and the
    contents of fields in guest memory. The accessors of the vendored json-c that it
    uses (src/json-c/json_object.c, json_util.c) are modelled on association lists:
    the order of an object's members is kept, the hash table is not. Guest memory is
    that of [GuestMem]. [UB] is a null pointer used or an access outside an object. *)

From S2P Require Import Prelude X86 GuestMem.
From Stdlib Require Import Ascii.
From stdpp Require Import strings.

#[local] Open Scope Z_scope.

(** ** JSON values *)

(** A value NULL is [None] of [option json]. Of a double only the truncation is
    kept. *)
Inductive json : Type :=
| J_boolean (b : bool)
| J_double (i : Z)
| J_int (i : Z)
| J_object (members : list (string * option json))
| J_array (items : list (option json))
| J_string (s : string).

Fixpoint member (ms : list (string * option json)) (key : string) : option json :=
  match ms with
  | [] => None
  | (k, v) :: ms' => if bool_decide (k = key) then v else member ms' key
  end.

Definition json_object_object_get_ex (jso : option json) (key : string) : option json :=
  match jso with
  | Some (J_object ms) => member ms key
  | _ => None
  end.

(** Replace the value of a key that is there, else append. *)
Fixpoint set_member (ms : list (string * option json)) (key : string) (val : option json)
  : list (string * option json) :=
  match ms with
  | [] => [(key, val)]
  | (k, v) :: ms' => if bool_decide (k = key) then (k, val) :: ms' else (k, v) :: set_member ms' key val
  end.

Definition json_object_object_add (jso : json) (key : string) (val : option json) : res json :=
  match jso with
  | J_object ms => Ret (J_object (set_member ms key val))
  | _ => UB
  end.

Definition json_object_array_get_idx (jso : option json) (idx : nat) : res (option json) :=
  match jso with
  | Some (J_array js) => Ret (mjoin (js !! idx))
  | _ => UB
  end.

(** The digits at the start of a string, and whether there are any. *)
Fixpoint digits (s : string) (acc : Z) (any : bool) : Z * bool :=
  match s with
  | EmptyString => (acc, any)
  | String c s' =>
      let d := Z.of_nat (Ascii.nat_of_ascii c) - 48 in
      if (0 <=? d) && (d <? 10) then digits s' (10 * acc + d) true else (acc, any)
  end.

Definition isspace (c : Ascii.ascii) : bool :=
  let n := Z.of_nat (Ascii.nat_of_ascii c) in (n =? 32) || ((9 <=? n) && (n <=? 13)).

Fixpoint skip_spaces (s : string) : string :=
  match s with
  | String c s' => if isspace c then skip_spaces s' else s
  | EmptyString => s
  end.

(** [sscanf] works and reports numbers that do not fit. *)
Definition json_parse_int64 (buf : string) : option Z :=
  let s := skip_spaces buf in
  let '(neg, s) :=
    match s with
    | String "-"%char s' => (true, s')
    | String "+"%char s' => (false, s')
    | _ => (false, s)
    end in
  let '(n, any) := digits s 0 false in
  if negb any then None
  else
    let v := if neg then - n else n in
    Some (if v <? - 2 ^ 63 then - 2 ^ 63 else if 2 ^ 63 <=? v then 2 ^ 63 - 1 else v).

(** A number kept in the range of [int32_t]. *)
Definition clamp32 (i : Z) : Z :=
  if i <=? - 2 ^ 31 then - 2 ^ 31 else if 2 ^ 31 - 1 <=? i then 2 ^ 31 - 1 else i.

Definition json_object_get_int (jso : option json) : res Z :=
  match jso with
  | None => Ret 0
  | Some (J_string s) => Ret (match json_parse_int64 s with None => 0 | Some i => clamp32 i end)
  | Some (J_int i) => Ret (clamp32 i)
  | Some (J_double i) => if (- 2 ^ 31 <=? i) && (i <? 2 ^ 31) then Ret i else UB
  | Some (J_boolean b) => Ret (if b then 1 else 0)
  | Some _ => Ret 0
  end.

(** ** The loaded descriptions *)

Inductive MEMFRS_ERRNO : Type :=
| MEMFRS_ERR_NOT_LOADED_GLOBAL_STRUCTURE
| MEMFRS_ERR_NOT_LOADED_STRUCTURE
| MEMFRS_ERR_NOT_FOUND_KPCR
| MEMFRS_ERR_NOT_FOUND_GLOBAL_STRUCTURE
| MEMFRS_ERR_NOT_FOUND_KERNEL_BASE
| MEMFRS_ERR_MEMORY_READ_FAILED
| MEMFRS_ERR_INVALID_CPU.

Record memfrs : Type := Memfrs {
  g_kpcr_ptr : Z;
  g_struct_info : option json;
  g_globalvar_info : option json;
  nt_kernel_base : Z
}.

Definition STRLEN : nat := 128.

(** [jobject_type] is [UB] where it is left uninitialised. *)
Record field_info : Type := FieldInfo {
  f_offset : Z;
  type_name : string;
  type_size : Z;
  is_pointer : bool;
  pointer_dereference_count : Z;
  jobject_type : res (option json)
}.

Definition memfrs_check_struct_info (x : memfrs) : bool := bool_decide (is_Some (g_struct_info x)).
Definition memfrs_check_globalvar_info (x : memfrs) : bool := bool_decide (is_Some (g_globalvar_info x)).

Section Descriptions.
Context (to_json_string : json -> string).  (* json_object_to_json_string *)

Definition json_object_get_string (jso : option json) : option string :=
  match jso with
  | None => None
  | Some (J_string s) => Some s
  | Some j => Some (to_json_string j)
  end.

(** The description of a field: an array of its type, offset, size and the depth of
    pointers. A type name that fills its buffer has no terminating zero when it is
    looked up. *)
Definition memfrs_q_field (x : memfrs) (struc : option json) (field_name : string) : res (option field_info) :=
  let target := json_object_object_get_ex struc field_name in
  match target with
  | None => Ret None
  | Some _ =>
      tmp ← json_object_array_get_idx target 1;
      offset ← json_object_get_int tmp;
      tmp ← json_object_array_get_idx target 0;
      match json_object_get_string tmp with
      | None => UB
      | Some name =>
          tmp ← json_object_array_get_idx target 2;
          size ← json_object_get_int tmp;
          tmp ← json_object_array_get_idx target 3;
          count ← json_object_get_int tmp;
          match g_struct_info x with
          | None => Ret (Some (FieldInfo offset name size (0 <? count) count UB))
          | Some info =>
              if (STRLEN <=? String.length name)%nat then UB
              else Ret (Some (FieldInfo offset name size (0 <? count) count
                                (Ret (json_object_object_get_ex (Some info) name))))
          end
      end
  end.

Definition memfrs_q_struct (x : memfrs) (ds_name : string) : option json :=
  json_object_object_get_ex (g_struct_info x) ds_name.

Definition memfrs_q_globalvar (x : memfrs) (gvar_name : string) : option json :=
  json_object_object_get_ex (g_globalvar_info x) gvar_name.

(** -1 when there is no such variable. *)
Definition memfrs_gvar_offset (gvarobj : option json) : res Z :=
  match gvarobj with
  | None => Ret (-1)
  | Some _ => tmp ← json_object_array_get_idx gvarobj 0; json_object_get_int tmp
  end.

(** [file] is what json_object_from_file makes of the file: NULL when it cannot be
    read or parsed. A second file is merged into the first, member by member. *)
Fixpoint merge (info : json) (ms : list (string * option json)) : res json :=
  match ms with
  | [] => Ret info
  | (key, val) :: ms' => info ← json_object_object_add info key val; merge info ms'
  end.

Definition with_struct_info (x : memfrs) (i : option json) : memfrs :=
  Memfrs (g_kpcr_ptr x) i (g_globalvar_info x) (nt_kernel_base x).

Definition memfrs_load_structs (x : memfrs) (file : option json) : res memfrs :=
  match g_struct_info x with
  | None => Ret (with_struct_info x file)
  | Some info =>
      match file with
      | Some (J_object ms) => info ← merge info ms; Ret (with_struct_info x (Some info))
      | _ => UB
      end
  end.

Definition memfrs_load_globalvar (x : memfrs) (file : option json) : memfrs :=
  Memfrs (g_kpcr_ptr x) (g_struct_info x) file (nt_kernel_base x).

(** ** Contents of guest memory *)

(** The processor and physical memory. *)
Record target : Type := Target { t_env : env; t_mem : memory }.

(** The bytes of a little-endian number, and back. *)
Definition word_of (bs : list Z) : Z := le_word (fun k => bs !!! Z.to_nat k) (length bs).

(** A read of [n] bytes into a variable that holds [old]. *)
Definition rw_word (n : nat) (t : target) (addr old : Z) : Z * Z :=
  let '(ret, bs) := cpu_memory_rw_debug (t_env t) (t_mem t) addr (le_bytes n old) in (ret, word_of bs).

Definition set_cr3 (t : target) (c : Z) : target :=
  let e := t_env t in
  Target (Env (cr0 e) c (cr4 e) (efer e) (hflags e) (a20_mask e) (pf_intercept e)) (t_mem t).

(** A CR3 of 0 stands for that of the processor. *)
Definition memfrs_get_virmem_content (t : target) (c : Z) (target_addr : Z) (buf : list Z) : Z * list Z :=
  let t := if c =? 0 then t else set_cr3 t c in
  let '(ret, buf) := cpu_memory_rw_debug (t_env t) (t_mem t) target_addr buf in
  if negb (ret =? 0) then (-1, buf) else (0, buf).

Definition virmem_word (n : nat) (t : target) (c addr old : Z) : Z * Z :=
  let '(ret, bs) := memfrs_get_virmem_content t c addr (le_bytes n old) in (ret, word_of bs).

(** A name of the query chain: a marker, [*] for a pointer, and the field. *)
Definition marked (name : string) : bool :=
  match name with String "*"%char _ => true | _ => false end.
Definition unmarked (name : string) : string :=
  match name with String _ f => f | EmptyString => EmptyString end.

(** The loop over a chain in virtual memory: [pointer] tells whether the field
    before was one, which is then followed first. [None] is the error return, and the
    address otherwise. *)
Fixpoint content_loop (x : memfrs) (t : target) (c : Z) (names : list string)
  (struct_type : option json) (pointer : bool) (struct_addr : Z) : res (option Z) :=
  match names with
  | [] => Ret (Some struct_addr)
  | field_name :: names' =>
      let '(ret, struct_addr) := if pointer then virmem_word 8 t c struct_addr struct_addr else (0, struct_addr) in
      if ret =? -1 then Ret None
      else
        info ← memfrs_q_field x struct_type (unmarked field_name);
        match info with
        | None => Ret None
        | Some i =>
            ty ← jobject_type i;
            content_loop x t c names' ty (marked field_name) (u64 (struct_addr + f_offset i))
        end
  end.

(** The loop after a first field in physical memory: a pointer is followed at
    once, unless it is the last field. *)
Fixpoint content_loop_phys (x : memfrs) (t : target) (c : Z) (names : list string)
  (struct_type : option json) (struct_addr : Z) : res (option Z) :=
  match names with
  | [] => Ret (Some struct_addr)
  | field_name :: names' =>
      info ← memfrs_q_field x struct_type (unmarked field_name);
      match info with
      | None => Ret None
      | Some i =>
          ty ← jobject_type i;
          let struct_addr := u64 (struct_addr + f_offset i) in
          let '(ret, struct_addr) :=
            if negb (bool_decide (names' = [])) && marked field_name
            then virmem_word 8 t c struct_addr struct_addr else (0, struct_addr) in
          if ret =? -1 then Ret None else content_loop_phys x t c names' ty struct_addr
      end
  end.

Definition memfrs_get_mem_struct_content (x : memfrs) (t : target) (c : Z) (buffer : list Z) (struct_addr : Z)
  (from_physical_memory : bool) (struct_type_name : string) (names : list string) : res (Z * list Z) :=
  match memfrs_q_struct x struct_type_name with
  | None => Ret (-1, buffer)
  | Some struct_type =>
      if from_physical_memory then
        match names with
        | [] => UB
        | field_name :: names' =>
            info ← memfrs_q_field x (Some struct_type) (unmarked field_name);
            match info with
            | None => UB
            | Some i =>
                let addr := u64 (struct_addr + f_offset i) in
                if bool_decide (names' = [])
                then Ret (0, cpu_physical_memory_read (t_mem t) addr (length buffer))
                else
                  ty ← jobject_type i;
                  r ← content_loop_phys x t c names' ty (ld 8 (t_mem t) addr);
                  Ret (match r with None => (-1, buffer) | Some a => memfrs_get_virmem_content t c a buffer end)
            end
        end
      else
        r ← content_loop x t c names (Some struct_type) false struct_addr;
        Ret (match r with None => (-1, buffer) | Some a => memfrs_get_virmem_content t c a buffer end)
  end.

(** The value of a field of [n] bytes, read into a variable that holds [old]. *)
Definition struct_word (n : nat) (x : memfrs) (t : target) (c old struct_addr : Z) (phys : bool)
  (struct_type_name : string) (names : list string) : res (Z * Z) :=
  r ← memfrs_get_mem_struct_content x t c (le_bytes n old) struct_addr phys struct_type_name names;
  Ret (r.1, word_of r.2).

Fixpoint nested_offset (x : memfrs) (names : list string) (struct_type : option json) (offset : Z) : res (option Z) :=
  match names with
  | [] => Ret (Some offset)
  | field_name :: names' =>
      info ← memfrs_q_field x struct_type field_name;
      match info with
      | None => Ret None
      | Some i => ty ← jobject_type i; nested_offset x names' ty (s32 (offset + f_offset i))
      end
  end.

(** [None] is the error return, which leaves the output alone. *)
Definition memfrs_get_nested_field_offset (x : memfrs) (struct_type_name : string) (names : list string)
  : res (option Z) :=
  match memfrs_q_struct x struct_type_name with
  | None => Ret None
  | Some struct_type => nested_offset x names (Some struct_type) 0
  end.

End Descriptions.

(** ** Reference: words of virtual memory *)

(** The [n] bytes at an address, if all are mapped, and the word they are. *)
Definition vbytes (n : nat) (t : target) (a : Z) : option (list Z) :=
  mapM (fun k => vbyte (t_env t) (t_mem t) (u64 (a + Z.of_nat k))) (seq 0 n).
Definition vword (n : nat) (t : target) (a : Z) : option Z := word_of <$> vbytes n t a.

(** The processor with the page tables of a process. *)
Definition in_process (t : target) (c : Z) : target := if c =? 0 then t else set_cr3 t c.

Lemma u64_shift a k i : u64 (u64 (a + 1) - Z.of_nat (S i) + k) = u64 (a - Z.of_nat i + k).
Proof.
  unfold u64. rewrite <- (Zplus_mod_idemp_l (_ mod _ - _)), Zminus_mod_idemp_l, Zplus_mod_idemp_l. f_equal. lia.
Qed.

Section Words.
Context (t : target).

Lemma read_bytes_mapped buf : forall a i bs, 0 <= a < 2 ^ 64 ->
  mapM (fun k => vbyte (t_env t) (t_mem t) (u64 (a - Z.of_nat i + Z.of_nat k))) (seq i (length buf)) = Some bs ->
  read_bytes (t_env t) (t_mem t) a buf = (0, bs).
Proof.
  induction buf as [|b buf IH]; intros a i bs Ha E; [by injection E as <-|].
  simpl in E. replace (a - Z.of_nat i + Z.of_nat i) with a in E by lia. simpl.
  rewrite (u64_small a) in E by done.
  destruct (vbyte (t_env t) (t_mem t) a) as [x|]; [|done]. simpl in E.
  destruct (mapM _ _) as [xs|] eqn:Ex; [|done]. injection E as <-.
  rewrite (IH (u64 (a + 1)) (S i) xs); [done|apply u64_range|]. rewrite <- Ex.
  apply mapM_ext. intros k. by rewrite u64_shift.
Qed.

Lemma read_bytes_unmapped buf : forall a i, 0 <= a < 2 ^ 64 ->
  mapM (fun k => vbyte (t_env t) (t_mem t) (u64 (a - Z.of_nat i + Z.of_nat k))) (seq i (length buf)) = None ->
  (read_bytes (t_env t) (t_mem t) a buf).1 = -1.
Proof.
  induction buf as [|b buf IH]; intros a i Ha E; [done|].
  simpl in E. replace (a - Z.of_nat i + Z.of_nat i) with a in E by lia. simpl.
  rewrite (u64_small a) in E by done.
  destruct (vbyte (t_env t) (t_mem t) a) as [x|]; [|done]. simpl in E.
  destruct (mapM _ _) as [xs|] eqn:Ex; [done|].
  specialize (IH (u64 (a + 1)) (S i) (u64_range _)).
  destruct (read_bytes _ _ (u64 (a + 1)) buf) as [r rest]. cbn [fst]. apply IH. rewrite <- Ex.
  apply mapM_ext. intros k. by rewrite u64_shift.
Qed.

Lemma rw_debug_vbytes a buf : 0 <= a < 2 ^ 64 ->
  match vbytes (length buf) t a with
  | Some bs => cpu_memory_rw_debug (t_env t) (t_mem t) a buf = (0, bs)
  | None => (cpu_memory_rw_debug (t_env t) (t_mem t) a buf).1 = -1
  end.
Proof.
  intros Ha. unfold vbytes, cpu_memory_rw_debug. rewrite rw_debug_loop_bytes by done.
  pose proof (read_bytes_mapped buf a 0) as Hm. pose proof (read_bytes_unmapped buf a 0 Ha) as Hu.
  rewrite Z.sub_0_r in Hm, Hu. destruct (mapM _ _) as [bs|]; [by apply Hm|by apply Hu].
Qed.

Lemma rw_word_vword n a old : 0 <= a < 2 ^ 64 ->
  match vword n t a with
  | Some w => rw_word n t a old = (0, w)
  | None => (rw_word n t a old).1 = -1
  end.
Proof.
  intros Ha. unfold vword, rw_word. pose proof (rw_debug_vbytes a (le_bytes n old) Ha) as H.
  rewrite le_bytes_length in H. destruct (vbytes n t a) as [bs|]; simpl; [by rewrite H|].
  by destruct (cpu_memory_rw_debug _ _ a _).
Qed.
End Words.

Lemma vbytes_range n t a bs : vbytes n t a = Some bs -> length bs = n /\ Forall (fun b => 0 <= b < 256) bs.
Proof.
  intros E. split; [apply length_mapM in E; by rewrite <- E, length_seq|].
  unfold vbytes in E. apply mapM_Some in E. induction E as [|k b ks bs H _ IH]; constructor; [|done].
  unfold vbyte in H. destruct (x86_cpu_get_phys_page_debug _ _ _); [|done]. injection H as <-. apply byte_range.
Qed.

Lemma word_of_range bs : Forall (fun b => 0 <= b < 256) bs -> 0 <= word_of bs < 256 ^ Z.of_nat (length bs).
Proof.
  intros H. apply le_word_range. intros k. destruct (decide (Z.to_nat k < length bs)%nat) as [Hk|Hk].
  - apply list_lookup_lookup_total_lt in Hk. by eapply (Forall_lookup_1 _ _ _ _ H).
  - rewrite list_lookup_total_alt, lookup_ge_None_2 by lia. done.
Qed.

Lemma vword_range n t a w : vword n t a = Some w -> 0 <= w < 256 ^ Z.of_nat n.
Proof.
  unfold vword. destruct (vbytes n t a) as [bs|] eqn:E; [|done]. intros [= <-].
  apply vbytes_range in E as [<- H]. by apply word_of_range.
Qed.

(** The same in the address space of a process. *)
Lemma virmem_vbytes t c a buf : 0 <= a < 2 ^ 64 ->
  match vbytes (length buf) (in_process t c) a with
  | Some bs => memfrs_get_virmem_content t c a buf = (0, bs)
  | None => (memfrs_get_virmem_content t c a buf).1 = -1
  end.
Proof.
  intros Ha. unfold memfrs_get_virmem_content. fold (in_process t c).
  pose proof (rw_debug_vbytes (in_process t c) a buf Ha) as H.
  destruct (vbytes _ _ a) as [bs|]; [by rewrite H|].
  destruct (cpu_memory_rw_debug _ _ a buf) as [r b]. simpl in H. by subst.
Qed.

Lemma virmem_vword n t c a old : 0 <= a < 2 ^ 64 ->
  match vword n (in_process t c) a with
  | Some w => virmem_word n t c a old = (0, w)
  | None => (virmem_word n t c a old).1 = -1
  end.
Proof.
  intros Ha. unfold vword, virmem_word. pose proof (virmem_vbytes t c a (le_bytes n old) Ha) as H.
  rewrite le_bytes_length in H. destruct (vbytes _ _ a) as [bs|]; simpl; [by rewrite H|].
  by destruct (memfrs_get_virmem_content t c a _).
Qed.

(** ** Reference: a chain of fields

    What the descriptions say of a chain, the offset of each field and whether
    it is marked as a pointer, and where such a chain leads: every pointer but the
    last is followed. *)

Fixpoint chain_steps (ts : json -> string) (x : memfrs) (ty : option json) (names : list string)
  : res (option (list (Z * bool))) :=
  match names with
  | [] => Ret (Some [])
  | name :: names' =>
      info ← memfrs_q_field ts x ty (unmarked name);
      match info with
      | None => Ret None
      | Some i =>
          ty' ← jobject_type i;
          rest ← chain_steps ts x ty' names';
          Ret (steps ← rest; Some ((f_offset i, marked name) :: steps))
      end
  end.

Fixpoint resolve (load : Z -> option Z) (steps : list (Z * bool)) (a : Z) : option Z :=
  match steps with
  | [] => Some a
  | [(o, _)] => Some (u64 (a + o))
  | (o, true) :: rest => a' ← load (u64 (a + o)); resolve load rest a'
  | (o, false) :: rest => resolve load rest (u64 (a + o))
  end.

Section Chains.
Context (ts : json -> string) (x : memfrs) (t : target) (c : Z).

Let load := vword 8 (in_process t c).

Lemma content_loop_resolve names : forall ty pointer a o, 0 <= a < 2 ^ 64 ->
  chain_steps ts x ty names = Ret o -> names <> [] ->
  content_loop ts x t c names ty pointer a =
    Ret (steps ← o; a' ← (if pointer : bool then load a else Some a); resolve load steps a').
Proof.
  induction names as [|name names IH]; intros ty pointer a o Ha E Hne; [done|]. clear Hne.
  assert (forall a', 0 <= a' < 2 ^ 64 ->
    (info ← memfrs_q_field ts x ty (unmarked name);
     match info with
     | None => Ret None
     | Some i => ty' ← jobject_type i; content_loop ts x t c names ty' (marked name) (u64 (a' + f_offset i))
     end) = Ret (steps ← o; resolve load steps a')) as Hstep.
  { intros a' Ha'. simpl in E. destruct (memfrs_q_field ts x ty (unmarked name)) as [[i|]| |]; simpl in *; try done.
    - destruct (jobject_type i) as [ty'| |]; simpl in *; try done.
      destruct (chain_steps ts x ty' names) as [rest| |] eqn:Er; simpl in *; try done. injection E as <-.
      destruct names as [|name2 names].
      + simpl in Er. injection Er as <-. simpl. by destruct (marked name).
      + rewrite (IH ty' (marked name) _ rest) by (done || apply u64_range). f_equal.
        destruct rest as [steps|]; [|done]. simpl.
        destruct steps as [|s steps].
        { exfalso. simpl in Er. destruct (memfrs_q_field ts x ty' _) as [[i2|]| |]; simpl in Er; try done.
          destruct (jobject_type i2); simpl in Er; try done. destruct (chain_steps ts x _ names) as [[?|]| |]; done. }
        by destruct (marked name).
    - by injection E as <-. }
  cbn [content_loop]. destruct pointer; [|rewrite Hstep by done; by destruct o].
  pose proof (virmem_vword 8 t c a a Ha) as Hv. subst load.
  destruct (vword 8 (in_process t c) a) as [w|] eqn:Ew.
  - rewrite Hv. change (0 =? -1) with false. cbv iota. rewrite Hstep; [by destruct o|].
    by apply (vword_range 8 _ _ _ Ew).
  - destruct (virmem_word 8 t c a a) as [r w]. simpl in Hv. subst r. simpl. by destruct o.
Qed.

Lemma chain_steps_nil ty names steps : chain_steps ts x ty names = Ret (Some steps) -> (names = [] <-> steps = []).
Proof.
  destruct names as [|name names]; simpl; [by intros [= <-]|]. intros E.
  destruct (memfrs_q_field ts x ty _) as [[i|]| |]; simpl in E; try done.
  destruct (jobject_type i); simpl in E; try done.
  destruct (chain_steps ts x _ names) as [[r|]| |]; simpl in E; try done. by injection E as <-.
Qed.

Lemma resolve_cons o p steps a : steps <> [] ->
  resolve load ((o, p) :: steps) a =
    (a' ← (if p : bool then load (u64 (a + o)) else Some (u64 (a + o))); resolve load steps a').
Proof. by destruct p, steps. Qed.

Lemma content_loop_phys_resolve names : forall ty a o, 0 <= a < 2 ^ 64 ->
  chain_steps ts x ty names = Ret o ->
  content_loop_phys ts x t c names ty a = Ret (steps ← o; resolve load steps a).
Proof.
  induction names as [|name names IH]; intros ty a o Ha E; [by injection E as <-|].
  simpl in E. cbn [content_loop_phys]. destruct (memfrs_q_field ts x ty (unmarked name)) as [[i|]| |]; simpl in *; try done.
  - destruct (jobject_type i) as [ty'| |]; simpl in *; try done.
    destruct (chain_steps ts x ty' names) as [rest| |] eqn:Er; simpl in *; try done. injection E as <-.
    case_bool_decide as Hn.
    + subst names. simpl in *. injection Er as <-. simpl. by destruct (marked name).
    + simpl. assert (forall steps a', rest = Some steps -> resolve load ((f_offset i, marked name) :: steps) a' =
        (a'' ← (if marked name then load (u64 (a' + f_offset i)) else Some (u64 (a' + f_offset i))); resolve load steps a'')) as Hr.
      { intros steps a' ->. apply resolve_cons. intros Hs. by apply Hn, (chain_steps_nil _ _ _ Er). }
      destruct (marked name) eqn:Hk.
      * pose proof (virmem_vword 8 t c (u64 (a + f_offset i)) (u64 (a + f_offset i)) (u64_range _)) as Hv. subst load. cbv beta in *.
        destruct (vword 8 (in_process t c) (u64 (a + f_offset i))) as [w|] eqn:Ew.
        -- rewrite Hv. change (0 =? -1) with false. cbv iota. rewrite (IH ty' w rest) by (done || by apply (vword_range 8 _ _ _ Ew)).
           destruct rest as [steps|]; [|done]. simpl mbind at 1. f_equal. cbv [mbind option_bind]. rewrite (Hr steps a eq_refl), Ew. done.
        -- destruct (virmem_word 8 t c _ _) as [r w]. simpl in Hv. subst r. change (-1 =? -1) with true. cbv iota. f_equal.
           destruct rest as [steps|]; [|done]. cbv [mbind option_bind]. by rewrite (Hr steps a eq_refl), Ew.
      * change (0 =? -1) with false. cbv iota. rewrite (IH ty' _ rest) by (done || apply u64_range).
        destruct rest as [steps|]; [|done]. cbv [mbind option_bind]. by rewrite (Hr steps a eq_refl).
  - by injection E as <-.
Qed.

Lemma content_virtual buffer name ty names o a :
  memfrs_q_struct x name = Some ty -> chain_steps ts x (Some ty) names = Ret o -> 0 <= a < 2 ^ 64 ->
  memfrs_get_mem_struct_content ts x t c buffer a false name names =
    Ret (match steps ← o; resolve load steps a with
         | None => (-1, buffer)
         | Some a' => memfrs_get_virmem_content t c a' buffer
         end).
Proof.
  intros Et Ec Ha. unfold memfrs_get_mem_struct_content. rewrite Et.
  destruct names as [|n names]; [by injection Ec as <-|].
  rewrite (content_loop_resolve _ _ _ _ o) by done. by destruct o.
Qed.

Lemma content_physical buffer name ty n names off m steps a :
  memfrs_q_struct x name = Some ty -> chain_steps ts x (Some ty) (n :: names) = Ret (Some ((off, m) :: steps)) ->
  memfrs_get_mem_struct_content ts x t c buffer a true name (n :: names) =
    Ret (let p := u64 (a + off) in
         if bool_decide (steps = []) then (0, cpu_physical_memory_read (t_mem t) p (length buffer))
         else match resolve load steps (ld 8 (t_mem t) p) with
              | None => (-1, buffer)
              | Some a' => memfrs_get_virmem_content t c a' buffer
              end).
Proof.
  intros Et Ec. unfold memfrs_get_mem_struct_content. rewrite Et. simpl in Ec.
  destruct (memfrs_q_field ts x (Some ty) (unmarked n)) as [[i|]| |]; simpl in *; try done.
  destruct (jobject_type i) as [ty'| |]; simpl in *; try done.
  destruct (chain_steps ts x ty' names) as [[rest|]| |] eqn:Er; simpl in *; try done. injection Ec as <- <- ->.
  pose proof (chain_steps_nil _ _ _ Er) as Hn. do 2 case_bool_decide; try tauto.
  rewrite (content_loop_phys_resolve _ _ _ (Some steps)); [done|apply (ld_range 8)|done].
Qed.

Lemma field_mapped buffer a bs : 0 <= a < 2 ^ 64 ->
  vbytes (length buffer) (in_process t c) a = Some bs -> memfrs_get_virmem_content t c a buffer = (0, bs).
Proof. intros Ha E. pose proof (virmem_vbytes t c a buffer Ha) as H. by rewrite E in H. Qed.
End Chains.

Lemma resolve_range t c steps : forall a a', 0 <= a < 2 ^ 64 ->
  resolve (vword 8 (in_process t c)) steps a = Some a' -> 0 <= a' < 2 ^ 64.
Proof.
  induction steps as [|[o p] steps IH]; intros a a' Ha E; [by injection E as <-|].
  destruct (decide (steps = [])) as [->|Hne].
  { assert (a' = u64 (a + o)) as -> by (destruct p; simpl in E; congruence). apply u64_range. }
  rewrite resolve_cons in E by done. destruct p.
  - destruct (vword 8 (in_process t c) (u64 (a + o))) as [w|] eqn:Ew; [|done].
    apply (IH w); [apply (vword_range 8 _ _ _ Ew)|done].
  - apply (IH (u64 (a + o))); [apply u64_range|done].
Qed.

(** The bytes a chain leads to. In physical memory the first field is read there, as
    the bytes themselves or as a pointer to virtual memory. *)
Definition struct_bytes (t : target) (c : Z) (phys : bool) (steps : list (Z * bool)) (a : Z) (n : nat) : option (list Z) :=
  let load := vword 8 (in_process t c) in
  let bytes rest a := a' ← resolve load rest a; vbytes n (in_process t c) a' in
  match phys, steps with
  | true, [(o, _)] => Some (cpu_physical_memory_read (t_mem t) (u64 (a + o)) n)
  | true, (o, _) :: rest => bytes rest (ld 8 (t_mem t) (u64 (a + o)))
  | _, _ => bytes steps a
  end.

Lemma content_bytes t c buffer steps a : 0 <= a < 2 ^ 64 ->
  let load := vword 8 (in_process t c) in
  let r := match resolve load steps a with
           | None => (-1, buffer)
           | Some a' => memfrs_get_virmem_content t c a' buffer
           end in
  match a' ← resolve load steps a; vbytes (length buffer) (in_process t c) a' with
  | Some bs => r = (0, bs)
  | None => r.1 = -1
  end.
Proof.
  intros Ha load. subst load. simpl.
  destruct (resolve _ steps a) as [a'|] eqn:Er; [|done].
  apply (virmem_vbytes t c a' buffer), (resolve_range _ _ _ _ _ Ha Er).
Qed.

(** The bytes of a field and its value, by the descriptions. *)
Definition field_bytes (ts : json -> string) (x : memfrs) (t : target) (c a : Z) (name : string) (names : list string) (n : nat)
  : option (list Z) :=
  ty ← memfrs_q_struct x name;
  match chain_steps ts x (Some ty) names with
  | Ret (Some steps) => struct_bytes t c false steps a n
  | _ => None
  end.

Definition field_word (ts : json -> string) (n : nat) (x : memfrs) (t : target) (c a : Z) (name : string) (names : list string)
  : option Z := word_of <$> field_bytes ts x t c a name names n.

Lemma field_bytes_read ts x t c a name names buffer bs : 0 <= a < 2 ^ 64 ->
  field_bytes ts x t c a name names (length buffer) = Some bs ->
  memfrs_get_mem_struct_content ts x t c buffer a false name names = Ret (0, bs).
Proof.
  unfold field_bytes. intros Ha E. destruct (memfrs_q_struct x name) as [ty|] eqn:Et; [|done]. simpl in E.
  destruct (chain_steps ts x (Some ty) names) as [[steps|]| |] eqn:Ec; try done.
  rewrite (content_virtual _ _ _ _ _ _ _ _ _ _ Et Ec Ha).
  pose proof (content_bytes t c buffer steps a Ha) as H. cbv zeta in H. unfold struct_bytes in E. rewrite E in H. simpl. by f_equal.
Qed.

Lemma field_bytes_length ts x t c a name names n bs : field_bytes ts x t c a name names n = Some bs ->
  length bs = n /\ Forall (fun b => 0 <= b < 256) bs.
Proof.
  unfold field_bytes, struct_bytes. intros E. destruct (memfrs_q_struct x name) as [ty|]; [|done]. simpl in E.
  destruct (chain_steps ts x (Some ty) names) as [[steps|]| |]; try done.
  destruct (resolve _ steps a) as [a'|]; [|done]. by apply vbytes_range in E.
Qed.

Lemma field_word_read ts n x t c old a name names w : 0 <= a < 2 ^ 64 ->
  field_word ts n x t c a name names = Some w -> struct_word ts n x t c old a false name names = Ret (0, w).
Proof.
  unfold field_word, struct_word. intros Ha E. destruct (field_bytes _ _ _ _ _ _ _ n) as [bs|] eqn:Eb; [|done].
  rewrite (field_bytes_read _ _ _ _ _ _ _ _ bs) by (rewrite ?le_bytes_length; done). simpl in *. congruence.
Qed.

Lemma field_word_range ts n x t c a name names w : field_word ts n x t c a name names = Some w -> 0 <= w < 256 ^ Z.of_nat n.
Proof.
  unfold field_word. destruct (field_bytes _ _ _ _ _ _ _ n) as [bs|] eqn:E; [|done]. intros [= <-].
  apply field_bytes_length in E as [<- H]. by apply word_of_range.
Qed.

(** C14: reading a field of a kernel structure by a chain of names. If the
    descriptions give the chain, the call returns; it succeeds exactly when every
    pointer on the way and every byte of the field is mapped in the address space
    asked for, and the buffer then holds the bytes that the reference [struct_bytes]
    reads byte by byte through the page tables. *)
Theorem struct_content_spec ts x t c buffer a phys name ty names steps :
  memfrs_q_struct x name = Some ty -> chain_steps ts x (Some ty) names = Ret (Some steps) ->
  names <> [] -> 0 <= a < 2 ^ 64 ->
  exists r, memfrs_get_mem_struct_content ts x t c buffer a phys name names = Ret r /\
    match struct_bytes t c phys steps a (length buffer) with
    | Some bs => r = (0, bs)
    | None => r.1 = -1
    end.
Proof.
  intros Et Ec Hn Ha. destruct phys.
  - destruct names as [|n names]; [done|].
    destruct steps as [|[off m] steps]; [by apply (chain_steps_nil _ _ _ _ _) in Ec as [_ Hc]; specialize (Hc eq_refl)|].
    rewrite (content_physical _ _ _ _ _ _ _ _ _ _ _ _ _ Et Ec). eexists. split; [done|]. cbv zeta.
    case_bool_decide as Hs; [by subst steps|]. destruct steps as [|s steps]; [done|].
    apply (content_bytes t c buffer (s :: steps)), (ld_range 8).
  - rewrite (content_virtual _ _ _ _ _ _ _ _ _ _ Et Ec Ha). eexists. split; [done|].
    by apply (content_bytes t c buffer steps).
Qed.

(** A thread with a pointer to its process, which has a name, and the page tables of
    [GuestMem]. *)
Definition demo_field (type : string) (offset size count : Z) : option json :=
  Some (J_array [Some (J_string type); Some (J_int offset); Some (J_int size); Some (J_int count)]).

Definition demo_structs : memfrs :=
  Memfrs 0 (Some (J_object
    [("_KTHREAD", Some (J_object [("Process", demo_field "_EPROCESS" 8 8 1)]));
     ("_EPROCESS", Some (J_object [("ImageFileName", demo_field "char" 4 4 0)]))]%string)) None 0.

Definition demo_target : target :=
  Target demo_env (sd 8 (sd 4 demo_tables 0x5204 0x64636261) 0x5108 0x7200).

Lemma struct_content_spec_witness :
  memfrs_get_mem_struct_content (fun _ => ""%string) demo_structs demo_target 0 [0; 0; 0] 0x7100 false "_KTHREAD"
    ["*Process"; "#ImageFileName"]%string = Ret (0, [0x61; 0x62; 0x63]).
Proof.
  destruct (struct_content_spec (fun _ => ""%string) demo_structs demo_target 0 [0; 0; 0] 0x7100 false "_KTHREAD"
    (J_object [("Process"%string, demo_field "_EPROCESS" 8 8 1)]) ["*Process"; "#ImageFileName"]%string
    [(8, true); (4, false)]) as (r & -> & H); [reflexivity|vm_compute; reflexivity|done|lia|].
  assert (struct_bytes demo_target 0 false [(8, true); (4, false)] 0x7100 3 = Some [0x61; 0x62; 0x63]) as E
    by (vm_compute; reflexivity).
  simpl length in H. rewrite E in H. by rewrite H.
Defined.

Lemma rw_debug_length t a buf : 0 <= a < 2 ^ 64 -> length (cpu_memory_rw_debug (t_env t) (t_mem t) a buf).2 = length buf.
Proof.
  intros Ha. unfold cpu_memory_rw_debug. rewrite rw_debug_loop_bytes by done. clear Ha. revert a.
  induction buf as [|b buf IH]; intros a; [done|]. simpl.
  destruct (vbyte (t_env t) (t_mem t) a); [|done].
  specialize (IH (u64 (a + 1))). destruct (read_bytes _ _ (u64 (a + 1)) buf). simpl in *. by rewrite IH.
Qed.

(** Whatever a read does, a buffer of bytes stays one. *)
Lemma rw_debug_range t a buf : 0 <= a < 2 ^ 64 -> Forall (fun b => 0 <= b < 256) buf ->
  Forall (fun b => 0 <= b < 256) (cpu_memory_rw_debug (t_env t) (t_mem t) a buf).2.
Proof.
  intros Ha H. unfold cpu_memory_rw_debug. rewrite rw_debug_loop_bytes by done. clear Ha. revert a.
  induction H as [|b buf Hb H IH]; intros a; [done|]. simpl.
  destruct (vbyte (t_env t) (t_mem t) a) as [v|] eqn:Ev; [|by constructor].
  specialize (IH (u64 (a + 1))). destruct (read_bytes _ _ (u64 (a + 1)) buf). simpl in *. constructor; [|done].
  unfold vbyte in Ev. destruct (x86_cpu_get_phys_page_debug _ _ _); [|done]. injection Ev as <-. apply byte_range.
Qed.

Lemma content_loop_range ts x t c names : forall ty p a a', 0 <= a < 2 ^ 64 ->
  content_loop ts x t c names ty p a = Ret (Some a') -> 0 <= a' < 2 ^ 64.
Proof.
  induction names as [|n names IH]; intros ty p a a' Ha E; [by injection E as <-|]. cbn [content_loop] in E.
  destruct (if p then _ else _) as [ret w]. destruct (ret =? -1); [done|].
  apply res_bind_inv in E as ([i|] & _ & E); [|done]. apply res_bind_inv in E as (ty' & _ & E).
  apply IH in E; [done|apply u64_range].
Qed.

Lemma struct_word_range ts n x t c old a name names r : 0 <= a < 2 ^ 64 ->
  struct_word ts n x t c old a false name names = Ret r -> 0 <= r.2 < 256 ^ Z.of_nat n.
Proof.
  intros Ha E. unfold struct_word in E. apply res_bind_inv in E as ([ret bs] & E & Er). injection Er as <-. simpl.
  assert (Forall (fun b => 0 <= b < 256) bs /\ length bs = n) as [Hb <-]; [|by apply word_of_range].
  assert (Forall (fun b => 0 <= b < 256) (le_bytes n old)) as Hb by apply le_bytes_range.
  pose proof (le_bytes_length n old) as Hl. unfold memfrs_get_mem_struct_content in E.
  destruct (memfrs_q_struct x name); [|by injection E as <- <-].
  apply res_bind_inv in E as ([a'|] & Ea & E); [|by injection E as <- <-]. injection E as E.
  apply content_loop_range in Ea; [|done]. unfold memfrs_get_virmem_content in E. fold (in_process t c) in E.
  pose proof (rw_debug_range (in_process t c) a' _ Ea Hb) as H. pose proof (rw_debug_length (in_process t c) a' (le_bytes n old) Ea) as H'.
  destruct (cpu_memory_rw_debug _ _ a' _) as [r b]. simpl in H, H'. rewrite Hl in H'.
  destruct (negb (r =? 0)); by injection E as <- <-.
Qed.

(** ** Loading a second file *)

Lemma member_set ms key val k :
  member (set_member ms key val) k = if bool_decide (k = key) then val else member ms k.
Proof.
  induction ms as [|[k' v] ms IH]; simpl.
  - repeat case_bool_decide; congruence.
  - destruct (decide (k' = key)) as [->|Hk]; [|rewrite (bool_decide_eq_false_2 (k' = key)) by done]; simpl;
      [rewrite bool_decide_eq_true_2 by done; simpl|rewrite IH]; repeat case_bool_decide; congruence.
Qed.

(** The last value a list of members gives a key; [None] when it has none. *)
Fixpoint last_member (ms : list (string * option json)) (key : string) : option (option json) :=
  match ms with
  | [] => None
  | (k, v) :: ms' =>
      match last_member ms' key with
      | Some w => Some w
      | None => if bool_decide (k = key) then Some v else None
      end
  end.

Lemma merge_member ms : forall old, exists info,
  merge (J_object old) ms = Ret (J_object info) /\
  forall k, member info k = default (member old k) (last_member ms k).
Proof.
  induction ms as [|[key val] ms IH]; intros old; [by exists old|]. simpl.
  destruct (IH (set_member old key val)) as (info & -> & Hi). exists info. split; [done|]. intros k.
  rewrite Hi, member_set. destruct (last_member ms k); [done|].
  repeat case_bool_decide; simpl; congruence.
Qed.

(** A second file of structures: what it describes replaces what was loaded, the
    other structures stay. *)
Theorem load_structs_merges x old ms : g_struct_info x = Some (J_object old) ->
  exists x', memfrs_load_structs x (Some (J_object ms)) = Ret x' /\
    (forall name, memfrs_q_struct x' name = default (memfrs_q_struct x name) (last_member ms name)) /\
    g_globalvar_info x' = g_globalvar_info x /\ g_kpcr_ptr x' = g_kpcr_ptr x.
Proof.
  intros E. unfold memfrs_load_structs, memfrs_q_struct. rewrite E.
  destruct (merge_member ms old) as (info & -> & Hi). simpl. eexists. split; [done|].
  split; [exact Hi|done].
Qed.

(** A file that cannot be read after the first is a null pointer used. *)
Lemma load_structs_unreadable x info : g_struct_info x = Some info -> memfrs_load_structs x None = UB.
Proof. intros E. unfold memfrs_load_structs. by rewrite E. Qed.
