(* ===== verification/MemfrsWalk.v ===== *)
(** * Memory forensics: walks of kernel structures

    The parts of src/ext/memfrs that find things in guest memory by the
    descriptions of [Memfrs]: strings, the processor control region and the
    Windows version (memfrs.c) and the tree of virtual address descriptors
    (vad.c); [MemfrsList] has the others. A variable that is not initialised
    holds bytes of [junk]; a read that fails leaves it, or what the last round
    of a loop left. Printing is left out. *)

From S2P Require Import Prelude X86 GuestMem Memfrs.
From Stdlib Require Import Ascii.
From stdpp Require Import strings.

#[local] Open Scope Z_scope.

(** The characters of a string constant. *)
Definition text (s : string) : list Z := (fun c => Z.of_nat (nat_of_ascii c)) <$> String.list_ascii_of_string s.

(** A buffer read as a C string. *)
Fixpoint c_string (b : list Z) : list Z :=
  match b with
  | [] => []
  | x :: b' => if x =? 0 then [] else x :: c_string b'
  end.

Section Walks.
Context (ts : json -> string) (junk : Z -> Z).

Definition junk_bytes (n : nat) : list Z := (fun k => u8 (junk (Z.of_nat k))) <$> seq 0 n.
Definition junk_word (n : nat) : Z := word_of (junk_bytes n).

(** The offset of a field that the code does not check to be there. *)
Definition field_offset (x : memfrs) (struc : option json) (name : string) : res Z :=
  info ← memfrs_q_field ts x struc name;
  match info with None => UB | Some i => Ret (f_offset i) end.

(** ** Strings *)

(** The low bytes of the characters, up to [max_length] bytes of them, in a
    block of [max_length + 1] bytes; the zero after them is written at the next even
    index. *)
Fixpoint low_bytes (b : list Z) : list Z :=
  match b with
  | x :: _ :: b' => x :: low_bytes b'
  | [x] => [x]
  | [] => []
  end.

Definition narrow (max_length : Z) (buf : list Z) : res (list Z) :=
  let str := low_bytes (take (Z.to_nat max_length) buf) in
  let i := 2 * ((max_length + 1) / 2) in
  if max_length + 1 <=? i then UB
  else Ret (str ++ replicate (Z.to_nat (max_length + 1) - length str) 0).

(** The text at [buf_ptr] of a _UNICODE_STRING; [None] for NULL, when one of
    its lengths is 0 or too large. *)
Definition unicode_ok (length max_length : Z) : bool :=
  negb ((length =? 0) || (256 <? length) || (max_length =? 0) || (256 <? max_length)).

Definition unicode_text (t : target) (max_length buf_ptr : Z) : res (option (list Z)) :=
  let buf := (cpu_memory_rw_debug (t_env t) (t_mem t) buf_ptr (junk_bytes (Z.to_nat max_length))).2 in
  str ← narrow max_length buf; Ret (Some str).

Definition parse_unicode_strptr (x : memfrs) (t : target) (ustr_ptr : Z) : res (option (list Z)) :=
  let ustr := memfrs_q_struct x "_UNICODE_STRING" in
  o ← field_offset x ustr "MaximumLength";
  let max_length := (rw_word 2 t (u64 (ustr_ptr + o)) (junk_word 2)).2 in
  o ← field_offset x ustr "Length";
  let length := (rw_word 2 t (u64 (ustr_ptr + o)) (junk_word 2)).2 in
  if negb (unicode_ok length max_length) then Ret None
  else
    o ← field_offset x ustr "Buffer";
    let buf_ptr := (rw_word 8 t (u64 (ustr_ptr + o)) (junk_word 8)).2 in
    unicode_text t max_length buf_ptr.

(** The structure is in a buffer of the caller. *)
Definition buffer_word (n : nat) (b : list Z) (o : Z) : res Z :=
  if (0 <=? o) && (o + Z.of_nat n <=? Z.of_nat (length b))
  then Ret (word_of (take n (drop (Z.to_nat o) b))) else UB.

Definition parse_unicode_str (x : memfrs) (t : target) (ustr : list Z) : res (option (list Z)) :=
  let justr := memfrs_q_struct x "_UNICODE_STRING" in
  o ← field_offset x justr "MaximumLength"; max_length ← buffer_word 2 ustr o;
  o ← field_offset x justr "Length"; length ← buffer_word 2 ustr o;
  if negb (unicode_ok length max_length) then Ret None
  else
    o ← field_offset x justr "Buffer"; buf_ptr ← buffer_word 8 ustr o;
    unicode_text t max_length buf_ptr.

(** A line of the hex dump: its offset and, for each of sixteen places, the byte,
    or nothing past the end. The ASCII column reads the same bytes. *)
Definition dump_cell (buf : list Z) (length k : Z) : res (option Z) :=
  if length <? k then Ret None
  else match buf !! Z.to_nat k with Some b => Ret (Some b) | None => UB end.

Fixpoint dump_cells (buf : list Z) (length i : Z) (js : list nat) : res (list (option Z)) :=
  match js with
  | [] => Ret []
  | j :: js' => c ← dump_cell buf length (i + Z.of_nat j); cs ← dump_cells buf length i js'; Ret (c :: cs)
  end.

Fixpoint hexdump_lines (fuel : nat) (buf : list Z) (length i : Z) : res (list (Z * list (option Z))) :=
  match fuel with
  | O => Ret []
  | S fuel' =>
      if length <=? i then Ret []
      else
        cells ← dump_cells buf length i (seq 0 16);
        lines ← hexdump_lines fuel' buf length (i + 16);
        Ret ((i, cells) :: lines)
  end.

Definition hexdump (buf : list Z) (length : Z) : res (list (Z * list (option Z))) :=
  hexdump_lines (Z.to_nat length) buf length 0.

(** ** The processor control region and the version *)

Definition with_kpcr (x : memfrs) (p : Z) : memfrs :=
  Memfrs p (g_struct_info x) (g_globalvar_info x) (nt_kernel_base x).

Definition memfrs_kpcr_self_check (x : memfrs) (t : target) (kpcr_ptr : Z) : res (bool * memfrs) :=
  match memfrs_q_struct x "_KPCR" with
  | None => Ret (false, x)
  | Some jkpcr =>
      o ← field_offset x (Some jkpcr) "Self";
      let '(ret, self_ptr) := rw_word 8 t (u64 (kpcr_ptr + o)) 0 in
      if negb (ret =? 0) then Ret (false, with_kpcr x 0)
      else if kpcr_ptr =? self_ptr then Ret (true, with_kpcr x kpcr_ptr)
      else Ret (false, with_kpcr x 0)
  end.

(** Whether a structure is described and has a field of this type. *)
Definition has_field (x : memfrs) (struc field : string) (type : string -> bool) : res bool :=
  match memfrs_q_struct x struc with
  | None => Ret false
  | Some s =>
      info ← memfrs_q_field ts x (Some s) field;
      Ret (match info with None => false | Some i => type (type_name i) end)
  end.

(** The version times ten; an error is -10 with the error number. *)
Definition memfrs_get_windows_version (x : memfrs) (kpcr_ptr : Z) (cpu : bool) : res (Z * option MEMFRS_ERRNO) :=
  if negb (memfrs_check_struct_info x) then Ret (-10, Some MEMFRS_ERR_NOT_LOADED_STRUCTURE)
  else if kpcr_ptr =? 0 then Ret (-10, Some MEMFRS_ERR_NOT_FOUND_KPCR)
  else if negb cpu then Ret (-10, Some MEMFRS_ERR_INVALID_CPU)
  else
    win7 ← has_field x "_OBJECT_HEADER" "TypeIndex" (fun _ => true);
    if win7 : bool then
      if bool_decide (is_Some (memfrs_q_globalvar x "ObHeaderCookie")) then Ret (100, None)
      else
        b ← has_field x "_EPROCESS" "VadRoot.BalancedRoot" (fun n => bool_decide (n = "_MMADDRESS_NODE"%string));
        if b : bool then Ret (61, None)
        else
          b ← has_field x "_EPROCESS" "VadRoot" (fun n => bool_decide (n = "_MM_AVL_TABLE"%string));
          if b : bool then Ret (62, None)
          else
            b ← has_field x "_EPROCESS" "VadRoot" (fun n => bool_decide (n = "_RTL_AVL_TREE"%string));
            Ret (if b : bool then 63 else 0, None)
    else
      match memfrs_q_struct x "_MM_AVL_TABLE" with
      | None => Ret (0, None)
      | Some s =>
          info ← memfrs_q_field ts x (Some s) "BalancedRoot";
          Ret (match info with None => 51 | Some _ => 0 end, None)
      end.

(** ** Scans *)

(** The addresses from [i] on, [n] of them, at which the pattern stands. The buffer
    is kept from one address to the next. *)
Fixpoint scan_virmem_loop (n : nat) (t : target) (i : Z) (pattern buf : list Z) : list Z :=
  match n with
  | O => []
  | S n' =>
      let buf := (cpu_memory_rw_debug (t_env t) (t_mem t) i buf).2 in
      (if bool_decide (buf = pattern) then [i] else []) ++ scan_virmem_loop n' t (i + 1) pattern buf
  end.

(** The bound is computed with 64 bits: for a pattern longer than the end address it
    wraps. *)
Definition scan_count (start_addr end_addr length : Z) : nat :=
  Z.to_nat (u64 (end_addr - length + 1) - start_addr).

Definition memfrs_scan_virmem (t : target) (start_addr end_addr : Z) (pattern : list Z) : option (list Z) :=
  if end_addr <=? start_addr then None
  else
    let length := Z.of_nat (length pattern) in
    Some (scan_virmem_loop (scan_count start_addr end_addr length) t start_addr pattern
            (replicate (Z.to_nat length) 0)).

Fixpoint scan_phymem_loop (n : nat) (m : memory) (i : Z) (pattern : list Z) : list Z :=
  match n with
  | O => []
  | S n' =>
      (if bool_decide (cpu_physical_memory_read m i (length pattern) = pattern) then [i] else [])
      ++ scan_phymem_loop n' m (i + 1) pattern
  end.

Definition memfrs_scan_phymem (m : memory) (start_addr end_addr : Z) (pattern : list Z) : option (list Z) :=
  if end_addr <=? start_addr then None
  else Some (scan_phymem_loop (scan_count start_addr end_addr (Z.of_nat (length pattern))) m start_addr pattern).

(** ** Virtual address descriptors *)

Record vad_node : Type := VadNode {
  start_viraddr : Z; end_viraddr : Z; vad_type : Z; vad_protection : Z; filename : option (list Z)
}.

Definition VadImageMap : Z := 2.

(** The file of an image: _MMVAD, its subsection, the control area, the file
    object. *)
Definition vad_filename (x : memfrs) (t : target) (mmvad_ptr : Z) : res (option (list Z)) :=
  let follow struc name ptr :=
    info ← memfrs_q_field ts x struc name;
    match info with
    | None => UB
    | Some i => ty ← jobject_type i; Ret ((rw_word 8 t (u64 (ptr + f_offset i)) (junk_word 8)).2, ty)
    end in
  '(subsection_ptr, jobj) ← follow (memfrs_q_struct x "_MMVAD") "Subsection" mmvad_ptr;
  '(control_area_ptr, jobj) ← follow jobj "ControlArea" subsection_ptr;
  '(file_pointer_ptr, _) ← follow jobj "FilePointer" control_area_ptr;
  let file_pointer_ptr := Z.ldiff file_pointer_ptr 0xf in
  if file_pointer_ptr =? 0 then Ret None
  else
    o ← field_offset x (memfrs_q_struct x "_FILE_OBJECT") "FileName";
    parse_unicode_strptr x t (u64 (file_pointer_ptr + o)).

Definition parse_mmvad_node (x : memfrs) (t : target) (mmvad_ptr : Z) : res vad_node :=
  let jmmvad := memfrs_q_struct x "_MMVAD_SHORT" in
  let field n name :=
    o ← field_offset x jmmvad name; Ret (rw_word n t (u64 (mmvad_ptr + o)) (junk_word n)).2 in
  starting_vpn ← field 4%nat "StartingVpn"%string;
  ending_vpn ← field 4%nat "EndingVpn"%string;
  starting_vpn_high ← field 1%nat "StartingVpnHigh"%string;
  ending_vpn_high ← field 1%nat "EndingVpnHigh"%string;
  let start_viraddr := u64 (Z.shiftl (Z.shiftl starting_vpn_high 32 + starting_vpn) 12) in
  let end_viraddr := u64 (u64 (Z.shiftl (Z.shiftl ending_vpn_high 32 + ending_vpn) 12) + 0xfff) in
  u ← field 4%nat "u"%string;
  let vad_type := u .& 7 in
  let vad_protection := Z.shiftr u 3 .& 0x1f in
  file ← (if vad_type =? VadImageMap then vad_filename x t mmvad_ptr else Ret None);
  Ret (VadNode start_viraddr end_viraddr vad_type vad_protection file).

(** The loop: the addresses still to visit, the last one first, the nodes found and
    the two links, which are variables of the function. *)
Record traversal : Type := Traversal {
  vad_adr_queue : list Z; vad_node_queue : list vad_node; tv_left : Z; tv_right : Z
}.

Definition vad_round (x : memfrs) (t : target) (offset_left offset_right : Z) (s : traversal) : res traversal :=
  match vad_adr_queue s with
  | [] => Ret s
  | current_node :: queue =>
      vad ← parse_mmvad_node x t current_node;
      let left := (rw_word 8 t (u64 (current_node + offset_left)) (tv_left s)).2 in
      let right := (rw_word 8 t (u64 (current_node + offset_right)) (tv_right s)).2 in
      let queue := (if left =? 0 then [] else [left]) ++ queue in
      let queue := (if right =? 0 then [] else [right]) ++ queue in
      Ret (Traversal queue (vad_node_queue s ++ [vad]) left right)
  end.

Fixpoint vad_rounds (fuel : nat) (x : memfrs) (t : target) (offset_left offset_right : Z) (s : traversal) : res traversal :=
  match fuel with
  | O => Ret s
  | S fuel' => s ← vad_round x t offset_left offset_right s; vad_rounds fuel' x t offset_left offset_right s
  end.

(** The state after [fuel] rounds: the function returns the nodes once the queue is
    empty. [None] when the descriptions are not loaded. *)
Definition memfrs_traverse_vad_tree (fuel : nat) (x : memfrs) (t : target) (eprocess_ptr : Z) : res (option traversal) :=
  if negb (memfrs_check_struct_info x) then Ret None
  else
    offset_vadroot ← field_offset x (memfrs_q_struct x "_EPROCESS") "VadRoot";
    let jvadnode := memfrs_q_struct x "_RTL_BALANCED_NODE" in
    offset_left ← field_offset x jvadnode "Left";
    offset_right ← field_offset x jvadnode "Right";
    let vad_root := (rw_word 8 t (u64 (eprocess_ptr + offset_vadroot)) (junk_word 8)).2 in
    s ← vad_rounds fuel x t offset_left offset_right
          (Traversal (if vad_root =? 0 then [] else [vad_root]) [] (junk_word 8) (junk_word 8));
    Ret (Some s).

End Walks.

Lemma junk_bytes_length junk n : length (junk_bytes junk n) = n.
Proof. unfold junk_bytes. by rewrite length_fmap, length_seq. Qed.

(** ** Reads that succeed *)

Lemma rw_word_mapped n t a old w : vword n t (u64 a) = Some w -> rw_word n t (u64 a) old = (0, w).
Proof. intros E. pose proof (rw_word_vword t n (u64 a) old (u64_range _)) as H. by rewrite E in H. Qed.

(** ** The tree of descriptors *)

(** A tree of nodes at addresses, and that it is in memory: no node is at 0, the
    links are mapped and lead to the subtrees, and the descriptor can be parsed. *)
Inductive vtree : Type :=
| VLeaf
| VNode (addr : Z) (left right : vtree).

Definition vroot (tr : vtree) : Z := match tr with VLeaf => 0 | VNode a _ _ => a end.

Fixpoint vsize (tr : vtree) : nat :=
  match tr with VLeaf => 0 | VNode _ l r => S (vsize r + vsize l) end.

(** A node, its right subtree, its left one. *)
Fixpoint visit (tr : vtree) : list Z :=
  match tr with VLeaf => [] | VNode a l r => a :: visit r ++ visit l end.

Section Tree.
Context (ts : json -> string) (junk : Z -> Z) (x : memfrs) (t : target) (offset_left offset_right : Z).

Fixpoint tree_in_memory (tr : vtree) : Prop :=
  match tr with
  | VLeaf => True
  | VNode a l r =>
      a <> 0 /\ (exists v, parse_mmvad_node ts junk x t a = Ret v) /\
      vword 8 t (u64 (a + offset_left)) = Some (vroot l) /\ vword 8 t (u64 (a + offset_right)) = Some (vroot r) /\
      tree_in_memory l /\ tree_in_memory r
  end.

Let rounds := vad_rounds ts junk.
Let pending tr := if vroot tr =? 0 then [] else [vroot tr].

Lemma vad_round_node a l r q ns lf rt v : tree_in_memory (VNode a l r) -> parse_mmvad_node ts junk x t a = Ret v ->
  vad_round ts junk x t offset_left offset_right (Traversal (a :: q) ns lf rt) =
    Ret (Traversal (pending r ++ pending l ++ q) (ns ++ [v]) (vroot l) (vroot r)).
Proof.
  intros (Ha & _ & Hl & Hr & _) E. unfold vad_round. simpl vad_adr_queue. cbv iota. rewrite E. simpl.
  by rewrite (rw_word_mapped _ _ _ _ _ Hl), (rw_word_mapped _ _ _ _ _ Hr).
Qed.

Lemma vad_rounds_tree tr : forall n q ns lf rt, tree_in_memory tr ->
  exists vs lf' rt', Forall2 (fun a v => parse_mmvad_node ts junk x t a = Ret v) (visit tr) vs /\
    rounds (vsize tr + n) x t offset_left offset_right (Traversal (pending tr ++ q) ns lf rt) =
    rounds n x t offset_left offset_right (Traversal q (ns ++ vs) lf' rt').
Proof.
  induction tr as [|a l IHl r IHr]; intros n q ns lf rt Ht.
  { exists [], lf, rt. split; [constructor|]. by rewrite app_nil_r. }
  pose proof Ht as (Ha & (v & Ev) & _ & _ & Hl & Hr).
  destruct (IHr (vsize l + n)%nat (pending l ++ q) (ns ++ [v]) (vroot l) (vroot r) Hr) as (vr & lf1 & rt1 & Fr & Er).
  destruct (IHl n q ((ns ++ [v]) ++ vr) lf1 rt1 Hl) as (vl & lf2 & rt2 & Fl & El).
  exists (v :: vr ++ vl), lf2, rt2. split; [by constructor; [|apply Forall2_app]|].
  assert (pending (VNode a l r) = [a]) as -> by (unfold pending; simpl; by rewrite (proj2 (Z.eqb_neq a 0) Ha)).
  cbn [vsize plus]. rewrite <- Nat.add_assoc. unfold rounds in *. cbn [vad_rounds app].
  rewrite (vad_round_node a l r q ns lf rt v Ht Ev). simpl mbind. cbv beta iota. rewrite Er, El.
  by rewrite <- !app_assoc.
Qed.

Lemma vad_rounds_empty n s : vad_adr_queue s = [] -> rounds n x t offset_left offset_right s = Ret s.
Proof.
  intros E. unfold rounds. induction n as [|n IH]; [done|]. cbn [vad_rounds]. unfold vad_round. by rewrite E.
Qed.

(** Up to its last round the function has an address to visit. *)
Lemma vad_rounds_busy tr : forall n q ns lf rt, tree_in_memory tr -> (n < vsize tr)%nat ->
  exists s, rounds n x t offset_left offset_right (Traversal (pending tr ++ q) ns lf rt) = Ret s /\ vad_adr_queue s <> [].
Proof.
  induction tr as [|a l IHl r IHr]; intros n q ns lf rt Ht Hn; [simpl in Hn; lia|].
  pose proof Ht as (Ha & (v & Ev) & _ & _ & Hl & Hr).
  assert (pending (VNode a l r) = [a]) as -> by (unfold pending; simpl; by rewrite (proj2 (Z.eqb_neq a 0) Ha)).
  destruct n as [|n]; [eexists; split; [reflexivity|discriminate]|]. simpl vsize in Hn.
  unfold rounds in *. cbn [vad_rounds app].
  rewrite (vad_round_node a l r q ns lf rt v Ht Ev). simpl mbind. cbv beta iota.
  destruct (decide (n < vsize r)%nat) as [H|H]; [by apply IHr|].
  replace n with (vsize r + (n - vsize r))%nat by lia.
  destruct (vad_rounds_tree r (n - vsize r)%nat (pending l ++ q) (ns ++ [v]) (vroot l) (vroot r) Hr) as (vr & lf1 & rt1 & _ & Er).
  unfold rounds in Er. rewrite Er. apply IHl; [done|lia].
Qed.

(** A node that is its own right child is visited for ever. *)
Lemma vad_rounds_cycle a l v n : forall q ns lf rt, a <> 0 -> parse_mmvad_node ts junk x t a = Ret v ->
  vword 8 t (u64 (a + offset_left)) = Some l -> vword 8 t (u64 (a + offset_right)) = Some a ->
  exists s, rounds n x t offset_left offset_right (Traversal (a :: q) ns lf rt) = Ret s /\ vad_adr_queue s <> [].
Proof.
  unfold rounds. induction n as [|n IH]; intros q ns lf rt Ha Ev Hl Hr; [eexists; split; [reflexivity|discriminate]|].
  cbn [vad_rounds]. unfold vad_round at 1. simpl vad_adr_queue. cbv iota. rewrite Ev. simpl mbind. cbv beta.
  rewrite (rw_word_mapped _ _ _ _ _ Hl), (rw_word_mapped _ _ _ _ _ Hr). simpl.
  rewrite (proj2 (Z.eqb_neq a 0) Ha). by apply IH.
Qed.
End Tree.

(** The descriptions the traversal uses, and the root it starts at. *)
Definition vad_described (ts : json -> string) (x : memfrs) (t : target) (eprocess_ptr offset_left offset_right root : Z) : Prop :=
  memfrs_check_struct_info x = true /\
  field_offset ts x (memfrs_q_struct x "_RTL_BALANCED_NODE") "Left" = Ret offset_left /\
  field_offset ts x (memfrs_q_struct x "_RTL_BALANCED_NODE") "Right" = Ret offset_right /\
  exists o, field_offset ts x (memfrs_q_struct x "_EPROCESS") "VadRoot" = Ret o /\
    vword 8 t (u64 (eprocess_ptr + o)) = Some root.

Lemma traverse_rounds ts junk fuel x t e ol or root : vad_described ts x t e ol or root ->
  memfrs_traverse_vad_tree ts junk fuel x t e =
    (s ← vad_rounds ts junk fuel x t ol or
           (Traversal (if root =? 0 then [] else [root]) [] (junk_word junk 8) (junk_word junk 8));
     Ret (Some s)).
Proof.
  intros (Hs & Hl & Hr & o & Ho & Hv). unfold memfrs_traverse_vad_tree.
  rewrite Hs, Ho, Hl, Hr. simpl. by rewrite (rw_word_mapped _ _ _ _ _ Hv).
Qed.

(** C24: the tree of virtual address descriptors of a process. If a tree of nodes is
    in guest memory at the root the process names, the function empties its queue
    after exactly as many rounds as the tree has nodes, and it returns the parsed
    descriptor of each node, once, in the order node, right subtree, left subtree. *)
Theorem vad_traversal ts junk x t e ol or tr :
  vad_described ts x t e ol or (vroot tr) -> tree_in_memory ts junk x t ol or tr ->
  (forall fuel, (fuel < vsize tr)%nat -> exists s,
     memfrs_traverse_vad_tree ts junk fuel x t e = Ret (Some s) /\ vad_adr_queue s <> []) /\
  exists vs, Forall2 (fun a v => parse_mmvad_node ts junk x t a = Ret v) (visit tr) vs /\
    forall fuel, (vsize tr <= fuel)%nat -> exists lf rt,
      memfrs_traverse_vad_tree ts junk fuel x t e = Ret (Some (Traversal [] vs lf rt)).
Proof.
  intros Hd Ht. split.
  - intros fuel Hf. rewrite (traverse_rounds _ _ _ _ _ _ _ _ _ Hd).
    destruct (vad_rounds_busy ts junk x t ol or tr fuel [] [] (junk_word junk 8) (junk_word junk 8) Ht Hf) as (s & E & Hs).
    rewrite app_nil_r in E. rewrite E. by exists s.
  - destruct (vad_rounds_tree ts junk x t ol or tr 0 [] [] (junk_word junk 8) (junk_word junk 8) Ht) as (vs & _ & _ & Hv & _).
    exists vs. split; [done|]. intros fuel Hf. rewrite (traverse_rounds _ _ _ _ _ _ _ _ _ Hd).
    destruct (vad_rounds_tree ts junk x t ol or tr (fuel - vsize tr) [] [] (junk_word junk 8) (junk_word junk 8) Ht)
      as (vs' & lf & rt & Hv' & E).
    rewrite app_nil_r, Nat.add_comm, Nat.sub_add in E by done. rewrite E, vad_rounds_empty by done.
    exists lf, rt. assert (vs' = vs) as ->; [|done].
    eapply Forall2_functional; [|exact Hv'|exact Hv]. simpl. congruence.
Qed.

(** A node that is its own child keeps the function in its loop. *)
Theorem vad_cycle_never_ends ts junk x t e ol or a l v :
  vad_described ts x t e ol or a -> a <> 0 -> parse_mmvad_node ts junk x t a = Ret v ->
  vword 8 t (u64 (a + ol)) = Some l -> vword 8 t (u64 (a + or)) = Some a ->
  forall fuel, exists s, memfrs_traverse_vad_tree ts junk fuel x t e = Ret (Some s) /\ vad_adr_queue s <> [].
Proof.
  intros Hd Ha Ev Hl Hr fuel. rewrite (traverse_rounds _ _ _ _ _ _ _ _ _ Hd), (proj2 (Z.eqb_neq a 0) Ha).
  destruct (vad_rounds_cycle ts junk x t ol or a l v fuel [] [] (junk_word junk 8) (junk_word junk 8)) as (s & -> & Hs); try done.
  by exists s.
Qed.

(** A process without paging, with three nodes. *)
Definition flat_env : env := Env 0 0 0 0 0 (-1) None.

Definition demo_vads : memfrs :=
  Memfrs 0 (Some (J_object
    [("_EPROCESS", Some (J_object [("VadRoot", demo_field "_RTL_AVL_TREE" 16 8 0)]));
     ("_RTL_BALANCED_NODE", Some (J_object [("Left", demo_field "Void" 0 8 1); ("Right", demo_field "Void" 8 8 1)]));
     ("_MMVAD_SHORT", Some (J_object
       [("StartingVpn", demo_field "long" 24 4 0); ("EndingVpn", demo_field "long" 28 4 0);
        ("StartingVpnHigh", demo_field "char" 32 1 0); ("EndingVpnHigh", demo_field "char" 33 1 0);
        ("u", demo_field "long" 48 4 0)]))]%string)) None 0.

Definition demo_tree : vtree := VNode 0x1000 (VNode 0x2000 VLeaf VLeaf) (VNode 0x3000 VLeaf VLeaf).

Definition demo_vad_target : target :=
  Target flat_env (sd 8 (sd 8 (sd 8 (sd 4 ∅ 0x3018 7) 0x510 0x1000) 0x1000 0x2000) 0x1008 0x3000).

Lemma vad_traversal_witness :
  exists vs lf rt, start_viraddr <$> vs = [0; 0x7000; 0] /\
    memfrs_traverse_vad_tree (fun _ => ""%string) (fun _ => 0) 3 demo_vads demo_vad_target 0x500 =
      Ret (Some (Traversal [] vs lf rt)).
Proof.
  destruct (vad_traversal (fun _ => ""%string) (fun _ => 0) demo_vads demo_vad_target 0x500 0 8 demo_tree) as (_ & vs & Hv & H).
  - repeat split; [reflexivity..|]. exists 16. split; vm_compute; reflexivity.
  - simpl. repeat split; try lia; try (eexists; vm_compute; reflexivity); vm_compute; reflexivity.
  - destruct (H 3%nat) as (lf & rt & E); [vm_compute; lia|]. exists vs, lf, rt. split; [|exact E].
    inversion_clear Hv as [|? ? ? ? E1 Hv1]. inversion_clear Hv1 as [|? ? ? ? E2 Hv2].
    inversion_clear Hv2 as [|? ? ? ? E3 Hv3]. inversion_clear Hv3.
    vm_compute in E1, E2, E3. injection E1 as <-. injection E2 as <-. injection E3 as <-. reflexivity.
Defined.

(** ** Strings *)

Lemma narrow_odd max buf : Z.odd max = true -> narrow max buf = UB.
Proof.
  intros H. unfold narrow. rewrite Zodd_mod in H. apply Z.eqb_eq in H.
  pose proof (Z.div_mod max 2 ltac:(lia)). rewrite (proj2 (Z.leb_le _ _)); [done|].
  replace (max + 1) with ((max / 2 + 1) * 2) by lia. rewrite Z.div_mul by lia. lia.
Qed.

Lemma low_bytes_lookup : forall b k, low_bytes b !! k = b !! (2 * k)%nat.
Proof.
  fix IH 1. intros [|x1 [|x2 b]] k; [by rewrite lookup_nil|destruct k as [|[|k]]; done|].
  destruct k as [|k]; [done|]. cbn [low_bytes]. replace (2 * S k)%nat with (S (S (2 * k))) by lia. simpl lookup. apply IH.
Qed.

Lemma low_bytes_length : forall b, (2 * length (low_bytes b) <= length b + 1)%nat.
Proof.
  fix IH 1. intros [|x1 [|x2 b]]; [simpl; lia..|]. specialize (IH b). cbn [low_bytes length]. lia.
Qed.

(** An even number of bytes: each second byte, and zeros up to the end of the block. *)
Definition narrowed (max : Z) (bytes str : list Z) : Prop :=
  Z.of_nat (length str) = max + 1 /\
  (forall k : nat, 2 * Z.of_nat k < max -> str !! k = bytes !! (2 * k)%nat) /\
  (forall k : nat, max <= 2 * Z.of_nat k -> Z.of_nat k <= max -> str !! k = Some 0).

Lemma narrow_even max bytes : Z.odd max = false -> Z.of_nat (length bytes) = max ->
  exists str, narrow max bytes = Ret str /\ narrowed max bytes str.
Proof.
  intros Ho Hl. unfold narrow. rewrite Zodd_mod in Ho. apply Z.eqb_neq in Ho.
  pose proof (Z.mod_pos_bound max 2 ltac:(lia)). pose proof (Z.div_mod max 2 ltac:(lia)).
  assert (max = 2 * (max / 2)) as E by lia.
  replace (2 * ((max + 1) / 2)) with max by (pose proof (Z.div_unique (max + 1) 2 (max / 2) 1); lia).
  rewrite (proj2 (Z.leb_gt _ _)), take_ge by lia.
  assert (length (low_bytes bytes) = Z.to_nat (max / 2)) as El.
  { pose proof (low_bytes_length bytes). destruct (decide (length (low_bytes bytes) < Z.to_nat (max / 2))%nat) as [Hlt|]; [|lia].
    pose proof (low_bytes_lookup bytes (length (low_bytes bytes))) as Hn. rewrite lookup_ge_None_2 in Hn by lia.
    symmetry in Hn. apply lookup_ge_None_1 in Hn. lia. }
  eexists. split; [done|]. split_and!.
  - rewrite length_app, length_replicate. lia.
  - intros k Hk. rewrite lookup_app_l by lia. apply low_bytes_lookup.
  - intros k Hk Hk'. rewrite lookup_app_r by lia. apply lookup_replicate. lia.
Qed.

Section Unicode.
Context (ts : json -> string) (junk : Z -> Z) (x : memfrs) (t : target).

(** The offsets of the three fields. *)
Record unicode_layout (om ol ob : Z) : Prop := {
  ul_max : field_offset ts x (memfrs_q_struct x "_UNICODE_STRING") "MaximumLength" = Ret om;
  ul_len : field_offset ts x (memfrs_q_struct x "_UNICODE_STRING") "Length" = Ret ol;
  ul_buf : field_offset ts x (memfrs_q_struct x "_UNICODE_STRING") "Buffer" = Ret ob
}.

Definition parsed (len max ptr : Z) : res (option (list Z)) :=
  if negb (unicode_ok len max) then Ret None else unicode_text junk t max ptr.

Lemma strptr_parsed p om ol ob len max ptr : unicode_layout om ol ob ->
  vword 2 t (u64 (p + om)) = Some max -> vword 2 t (u64 (p + ol)) = Some len -> vword 8 t (u64 (p + ob)) = Some ptr ->
  parse_unicode_strptr ts junk x t p = parsed len max ptr.
Proof.
  intros [H1 H2 H3] Em El Eb. unfold parse_unicode_strptr, parsed. rewrite H1, H2. simpl.
  rewrite (rw_word_mapped _ _ _ _ _ Em), (rw_word_mapped _ _ _ _ _ El). simpl.
  destruct (unicode_ok len max); [|done]. simpl. rewrite H3. simpl. by rewrite (rw_word_mapped _ _ _ _ _ Eb).
Qed.

Lemma str_parsed b om ol ob len max ptr : unicode_layout om ol ob ->
  buffer_word 2 b om = Ret max -> buffer_word 2 b ol = Ret len -> buffer_word 8 b ob = Ret ptr ->
  parse_unicode_str ts junk x t b = parsed len max ptr.
Proof.
  intros [H1 H2 H3] Em El Eb. unfold parse_unicode_str, parsed. rewrite H1, H2. simpl. rewrite Em. simpl. rewrite El. simpl.
  destruct (unicode_ok len max); [|done]. simpl. rewrite H3. simpl. by rewrite Eb.
Qed.

Lemma parsed_null len max ptr : len = 0 \/ 256 < len \/ max = 0 \/ 256 < max -> parsed len max ptr = Ret None.
Proof.
  intros H. unfold parsed, unicode_ok.
  destruct (Z.eqb_spec len 0), (Z.ltb_spec 256 len), (Z.eqb_spec max 0), (Z.ltb_spec 256 max); try done. lia.
Qed.

Lemma parsed_text len max ptr : 0 < len <= 256 -> 0 < max <= 256 -> parsed len max ptr = unicode_text junk t max ptr.
Proof.
  intros Hl Hm. unfold parsed, unicode_ok.
  destruct (Z.eqb_spec len 0), (Z.ltb_spec 256 len), (Z.eqb_spec max 0), (Z.ltb_spec 256 max); try done; lia.
Qed.

(** What the two routines return for a string with these lengths, and the
    [max] bytes [bytes] at its pointer. *)
Definition unicode_outcome (len max ptr : Z) (r : res (option (list Z))) : Prop :=
  (len = 0 \/ 256 < len \/ max = 0 \/ 256 < max -> r = Ret None) /\
  (0 < len <= 256 -> 0 < max <= 256 -> Z.odd max = true -> r = UB) /\
  (forall bytes, 0 < len <= 256 -> 0 < max <= 256 -> Z.odd max = false -> vbytes (Z.to_nat max) t ptr = Some bytes ->
     exists str, r = Ret (Some str) /\ narrowed max bytes str).

Lemma parsed_outcome len max ptr : 0 <= ptr < 2 ^ 64 -> unicode_outcome len max ptr (parsed len max ptr).
Proof.
  intros Hp. split_and!; [apply parsed_null|..].
  - intros Hl Hm Ho. rewrite parsed_text by done. unfold unicode_text. by rewrite narrow_odd.
  - intros bytes Hl Hm Ho Ev. rewrite parsed_text by done.
    pose proof (vbytes_range _ _ _ _ Ev) as [Hb _].
    pose proof (rw_debug_vbytes t ptr (junk_bytes junk (Z.to_nat max)) Hp) as Hr.
    rewrite junk_bytes_length, Ev in Hr. unfold unicode_text. rewrite Hr. simpl.
    destruct (narrow_even max bytes) as (str & -> & Hs); [done|lia|]. by exists str.
Qed.

(** C38: strings of the guest's kernel. For a _UNICODE_STRING whose three fields
    are mapped: NULL if Length or MaximumLength is 0 or above 256; else a write outside its block if
    MaximumLength is odd; else, if the MaximumLength bytes of the buffer are
    mapped, a block of MaximumLength + 1 bytes that holds every second byte of the
    whole buffer, whatever Length says, and then zeros. *)
Theorem parse_unicode_spec p om ol ob len max ptr : unicode_layout om ol ob ->
  vword 2 t (u64 (p + om)) = Some max -> vword 2 t (u64 (p + ol)) = Some len -> vword 8 t (u64 (p + ob)) = Some ptr ->
  (len = 0 \/ 256 < len \/ max = 0 \/ 256 < max -> parse_unicode_strptr ts junk x t p = Ret None) /\
  (0 < len <= 256 -> 0 < max <= 256 -> Z.odd max = true -> parse_unicode_strptr ts junk x t p = UB) /\
  (forall bytes, 0 < len <= 256 -> 0 < max <= 256 -> Z.odd max = false -> vbytes (Z.to_nat max) t ptr = Some bytes ->
     exists str, parse_unicode_strptr ts junk x t p = Ret (Some str) /\ Z.of_nat (length str) = max + 1 /\
       (forall k : nat, 2 * Z.of_nat k < max -> str !! k = bytes !! (2 * k)%nat) /\
       (forall k : nat, max <= 2 * Z.of_nat k -> Z.of_nat k <= max -> str !! k = Some 0)).
Proof.
  intros Hl Em El Eb. rewrite (strptr_parsed p om ol ob len max ptr) by done.
  apply parsed_outcome, (vword_range 8 _ _ _ Eb).
Qed.

(** The same for a structure in a buffer of the caller. *)
Theorem parse_unicode_buffer_spec b om ol ob len max ptr : unicode_layout om ol ob -> 0 <= ptr < 2 ^ 64 ->
  buffer_word 2 b om = Ret max -> buffer_word 2 b ol = Ret len -> buffer_word 8 b ob = Ret ptr ->
  unicode_outcome len max ptr (parse_unicode_str ts junk x t b).
Proof. intros Hl Hp Em El Eb. rewrite (str_parsed b om ol ob len max ptr) by done. by apply parsed_outcome. Qed.
End Unicode.

Definition demo_strings : memfrs :=
  Memfrs 0 (Some (J_object
    [("_UNICODE_STRING"%string, Some (J_object
       [("Length", demo_field "short" 0 2 0); ("MaximumLength", demo_field "short" 2 2 0);
        ("Buffer", demo_field "short" 8 8 1)]%string))])) None 0.

Definition demo_string_target : target :=
  Target flat_env (sd 4 (sd 8 (sd 4 ∅ 0x100 0x40002) 0x108 0x200) 0x200 0x00420041).

(** A Length of one character, a buffer of two: both come back. *)
Lemma parse_unicode_spec_witness :
  exists str, parse_unicode_strptr (fun _ => ""%string) (fun _ => 7) demo_strings demo_string_target 0x100 = Ret (Some str) /\
    str !! 0%nat = Some 65 /\ str !! 1%nat = Some 66 /\ str !! 2%nat = Some 0.
Proof.
  destruct (parse_unicode_spec (fun _ => ""%string) (fun _ => 7) demo_strings demo_string_target 0x100 2 0 8 2 4 0x200)
    as (_ & _ & H); [split; reflexivity|vm_compute; reflexivity..|].
  destruct (H [65; 0; 66; 0]) as (str & E & _ & Hs & Hz); [lia|lia|reflexivity|vm_compute; reflexivity|].
  exists str. split; [exact E|]. split; [apply (Hs 0%nat); lia|]. split; [apply (Hs 1%nat); lia|apply (Hz 2%nat); lia].
Defined.

(** ** Scans *)

Lemma scan_phymem_loop_filter n : forall m i p,
  scan_phymem_loop n m i p = filter (fun a => cpu_physical_memory_read m a (length p) = p) (seqZ i (Z.of_nat n)).
Proof.
  induction n as [|n IH]; intros m i p; [done|]. cbn [scan_phymem_loop]. rewrite IH.
  rewrite (seqZ_cons i) by lia. rewrite filter_cons. replace (Z.pred (Z.of_nat (S n))) with (Z.of_nat n) by lia.
  replace (Z.succ i) with (i + 1) by lia. case_bool_decide; by case_decide.
Qed.

(** The addresses of a scan, when the pattern is not longer than the end address. *)
Lemma scan_count_small s e len : 0 <= s < e -> e < 2 ^ 64 - 1 -> 0 <= len <= e + 1 ->
  scan_count s e len = Z.to_nat (e - len + 1 - s).
Proof. intros. unfold scan_count. rewrite u64_small by lia. done. Qed.

(** The scan of physical memory returns the addresses at which the pattern
    stands, all of them and in order, among those where it ends before the end. *)
Theorem scan_phymem_spec m s e p : 0 <= s < e -> e < 2 ^ 64 - 1 -> Z.of_nat (length p) <= e + 1 ->
  memfrs_scan_phymem m s e p =
    Some (filter (fun a => cpu_physical_memory_read m a (length p) = p)
            (seqZ s (e - Z.of_nat (length p) + 1 - s))).
Proof.
  intros Hs He Hl. unfold memfrs_scan_phymem. rewrite (proj2 (Z.leb_gt _ _)) by lia.
  rewrite scan_phymem_loop_filter, scan_count_small by lia.
  destruct (decide (0 <= e - Z.of_nat (length p) + 1 - s)); [by rewrite Z2Nat.id|].
  rewrite (Z2Nat.nonpos (_ - s)) by lia. unfold seqZ. by rewrite (Z2Nat.nonpos (_ - s)) by lia.
Qed.

Lemma scan_virmem_loop_spec n : forall t s p buf a, 0 <= s -> s + Z.of_nat n <= 2 ^ 64 -> length buf = length p ->
  (a ∈ scan_virmem_loop n t s p buf -> s <= a < s + Z.of_nat n /\ forall bs, vbytes (length p) t a = Some bs -> bs = p) /\
  (s <= a < s + Z.of_nat n -> vbytes (length p) t a = Some p -> a ∈ scan_virmem_loop n t s p buf).
Proof.
  induction n as [|n IH]; intros t s p buf a Hs Hn Hb; [split; [by intros ?%not_elem_of_nil|lia]|].
  cbn [scan_virmem_loop]. rewrite elem_of_app.
  pose proof (rw_debug_vbytes t s buf ltac:(lia)) as Hr. pose proof (rw_debug_length t s buf ltac:(lia)) as Hlen.
  rewrite Hb in Hr, Hlen. set (b := cpu_memory_rw_debug _ _ s buf) in *.
  destruct (IH t (s + 1) p b.2 a ltac:(lia) ltac:(lia) Hlen) as [IH1 IH2]. split.
  - intros [H|H]; [|apply IH1 in H as [H ?]; split; [lia|done]].
    case_bool_decide as E; [|by apply not_elem_of_nil in H]. apply list_elem_of_singleton in H as ->.
    split; [lia|]. intros bs Eb. rewrite Eb in Hr. by rewrite Hr in E.
  - intros Ha Ev. destruct (decide (a = s)) as [->|Hne]; [left|right; apply IH2; [lia|done]].
    rewrite Ev in Hr. rewrite Hr. simpl. rewrite bool_decide_eq_true_2 by done. by apply list_elem_of_singleton.
Qed.

(** The scan of virtual memory reports every address at which the pattern stands
    and none at which other bytes do; one that cannot be read may be reported. *)
Theorem scan_virmem_spec t s e p a : 0 <= s < e -> e < 2 ^ 64 - 1 -> Z.of_nat (length p) <= e + 1 ->
  exists l, memfrs_scan_virmem t s e p = Some l /\
    (a ∈ l -> s <= a < e - Z.of_nat (length p) + 1 /\ forall bs, vbytes (length p) t a = Some bs -> bs = p) /\
    (s <= a < e - Z.of_nat (length p) + 1 -> vbytes (length p) t a = Some p -> a ∈ l).
Proof.
  intros Hs He Hl. unfold memfrs_scan_virmem. rewrite (proj2 (Z.leb_gt _ _)) by lia. eexists. split; [done|].
  rewrite scan_count_small, Nat2Z.id by lia.
  destruct (decide (0 <= e - Z.of_nat (length p) + 1 - s)) as [Hc|Hc].
  - destruct (scan_virmem_loop_spec (Z.to_nat (e - Z.of_nat (length p) + 1 - s)) t s p (replicate (length p) 0) a)
      as [H1 H2]; [lia..|by rewrite length_replicate|].
    split; [intros H; destruct (H1 H); split; [lia|done]|intros; apply H2; [lia|done]].
  - rewrite Z2Nat.nonpos by lia. split; [by intros ?%not_elem_of_nil|lia].
Qed.

(** A page that is not mapped after a match is reported once more: the buffer still
    holds the pattern. *)
Example scan_virmem_stale :
  memfrs_scan_virmem (Target demo_env demo_tables) 0x7fff 0x8003 [0xbb] = Some [0x7fff; 0x8000; 0x8001; 0x8002].
Proof. vm_compute. reflexivity. Qed.

(** ** The control region *)

(** The check answers whether the region's own address stands in it, and keeps it then. *)
Theorem kpcr_self_check_spec ts x t p jkpcr o : 0 <= p < 2 ^ 64 ->
  memfrs_q_struct x "_KPCR" = Some jkpcr -> field_offset ts x (Some jkpcr) "Self" = Ret o ->
  let ok := bool_decide (vword 8 t (u64 (p + o)) = Some p) in
  memfrs_kpcr_self_check ts x t p = Ret (ok, with_kpcr x (if ok then p else 0)).
Proof.
  intros Hp Ej Eo. unfold memfrs_kpcr_self_check. rewrite Ej. simpl. rewrite Eo. simpl.
  pose proof (rw_word_vword t 8 (u64 (p + o)) 0 (u64_range _)) as H.
  destruct (vword 8 t (u64 (p + o))) as [w|].
  - rewrite H. simpl. case_bool_decide as E.
    + injection E as ->. by rewrite Z.eqb_refl.
    + rewrite (proj2 (Z.eqb_neq p w)); [done|congruence].
  - destruct (rw_word 8 t _ 0). simpl in H. subst. done.
Qed.

(** ** The hex dump *)

Lemma dump_cells_inside buf i js : 0 <= i -> Forall (fun j => i + Z.of_nat j < Z.of_nat (length buf)) js ->
  dump_cells buf (Z.of_nat (length buf)) i js = Ret ((fun j => buf !! Z.to_nat (i + Z.of_nat j)) <$> js).
Proof.
  intros Hi H. induction H as [|j js Hj _ IH]; [done|]. simpl. unfold dump_cell. rewrite (proj2 (Z.ltb_ge _ _)) by lia.
  destruct (lookup_lt_is_Some_2 buf (Z.to_nat (i + Z.of_nat j))) as [b Eb]; [lia|]. rewrite Eb. simpl. by rewrite IH.
Qed.

Lemma dump_cells_past buf i js : 0 <= i <= Z.of_nat (length buf) ->
  Z.to_nat (Z.of_nat (length buf) - i) ∈ js ->
  dump_cells buf (Z.of_nat (length buf)) i js = UB.
Proof.
  intros Hi. induction js as [|j js IH]; [by intros ?%not_elem_of_nil|]. intros [H|H]%elem_of_cons; simpl; unfold dump_cell.
  - subst j. rewrite (proj2 (Z.ltb_ge _ _)) by lia.
    replace (Z.to_nat (i + Z.of_nat (Z.to_nat (Z.of_nat (length buf) - i)))) with (length buf) by lia.
    by rewrite lookup_ge_None_2.
  - destruct (_ <? _); [simpl; by rewrite IH|]. destruct (buf !! _); [simpl; by rewrite IH|done].
Qed.

(** One byte past the buffer is read in its last line, unless that line is full. *)
Lemma hexdump_lines_overread buf : Z.of_nat (length buf) mod 16 <> 0 -> forall n i,
  (Z.to_nat (Z.of_nat (length buf) - i) <= n)%nat -> 0 <= i < Z.of_nat (length buf) -> i mod 16 = 0 ->
  hexdump_lines n buf (Z.of_nat (length buf)) i = UB.
Proof.
  intros Hb. induction n as [|n IH]; intros i Hn Hi Hm; [lia|]. cbn [hexdump_lines].
  rewrite (proj2 (Z.leb_gt _ _)) by lia.
  destruct (decide (Z.of_nat (length buf) < i + 16)).
  - rewrite dump_cells_past; [done|lia|]. apply elem_of_seq. lia.
  - rewrite dump_cells_inside; [|lia|apply Forall_forall; intros j Hj%elem_of_seq; destruct (decide (i + 16 = Z.of_nat (length buf)))].
    + cbn [mbind res_bind]. rewrite IH; [done|lia| |].
      * destruct (decide (i + 16 = Z.of_nat (length buf))) as [E|]; [|lia]. exfalso. apply Hb. rewrite <- E.
        rewrite <- Zplus_mod_idemp_l, Hm. done.
      * rewrite <- Zplus_mod_idemp_l, Hm. done.
    + lia.
    + lia.
Qed.

Theorem hexdump_overreads buf : Z.of_nat (length buf) mod 16 <> 0 -> hexdump buf (Z.of_nat (length buf)) = UB.
Proof.
  intros H. unfold hexdump. apply hexdump_lines_overread; [done|lia| |done].
  split; [lia|]. destruct buf; [done|simpl; lia].
Qed.
