(* ===== verification/MemfrsList.v ===== *)
(** * Memory forensics: lists of kernel objects

    The parts of src/ext/memfrs that list processes (process.c), find the kernel
    image (kernel.c), name the entries of the system service table (ssdt.c, with
    the symbol map of memfrs.c), scan for loaded modules (kmod.c) and describe
    the current thread (memfrs.c). As in [MemfrsWalk], variables that are not
    initialised hold bytes of [junk] and printing is left out, but for a C
    string printed without its terminating zero. *)

From S2P Require Import Prelude X86 GuestMem Memfrs MemfrsWalk.
From stdpp Require Import strings.

#[local] Open Scope Z_scope.

Section Lists.
Context (ts : json -> string) (junk : Z -> Z).

#[local] Abbreviation junk_bytes := (junk_bytes junk).
#[local] Abbreviation junk_word := (junk_word junk).
#[local] Abbreviation field_offset := (field_offset ts).
#[local] Abbreviation parse_unicode_str := (parse_unicode_str ts junk).

(** ** The process list *)

Record process_list_st : Type := ProcessEntry {
  p_eprocess : Z; p_CR3 : Z; p_pid : Z; full_file_path : list Z
}.

(** The variables of the loop. *)
Record proc_vars : Type := ProcVars {
  v_cr3 : Z; v_processid : Z; v_length : Z; v_buf_ptr : Z; file_name_buf : list Z; file_path_buf : list Z
}.

Definition proc_vars0 : proc_vars :=
  ProcVars (junk_word 8) (junk_word 8) (junk_word 2) (junk_word 8) (junk_bytes 32) (junk_bytes 256).

(** The path of [length] bytes out of a buffer of 256; the last character of an odd
    length is replaced by the terminating zero. *)
Definition path_text (length : Z) (buf : list Z) : res (list Z) :=
  if 256 <? length then UB else Ret (take (Z.to_nat (length / 2)) (low_bytes buf)).

(** Padded with blanks to fifteen characters, in a block of 32 bytes. *)
Definition name_text (name : list Z) : res (list Z) :=
  let n := c_string name in
  let padded := text "[Process Name] " ++ n ++ replicate (15 - length n) 32 in
  if (length name =? length n)%nat || (32 <=? length padded)%nat then UB else Ret padded.

Definition proc_entry (x : memfrs) (t : target) (eprocess_ptr : Z) (v : proc_vars) : res (process_list_st * proc_vars) :=
  let path last := ["*Peb"; "*ProcessParameters"; "#ImagePathName"; last]%string in
  r ← struct_word ts 8 x t 0 (v_cr3 v) eprocess_ptr false "_EPROCESS" ["#Pcb"; "#DirectoryTableBase"]%string;
  let cr3 := r.2 in
  r ← struct_word ts 8 x t 0 (v_processid v) eprocess_ptr false "_EPROCESS" ["#UniqueProcessId"]%string;
  let processid := r.2 in
  r ← memfrs_get_mem_struct_content ts x t 0 (file_name_buf v) eprocess_ptr false "_EPROCESS" ["#ImageFileName"]%string;
  let name := r.2 in
  '(length, buf_ptr) ←
    (if cr3 =? 0 then Ret (v_length v, v_buf_ptr v)
     else
       l ← struct_word ts 2 x t cr3 (v_length v) eprocess_ptr false "_EPROCESS" (path "#Length"%string);
       b ← struct_word ts 8 x t cr3 (v_buf_ptr v) eprocess_ptr false "_EPROCESS" (path "*Buffer"%string);
       Ret (if l.1 =? -1 then 0 else l.2, if b.1 =? -1 then 0 else b.2));
  let '(ret, path_buf) := memfrs_get_virmem_content t cr3 buf_ptr (file_path_buf v) in
  full ← (if negb (ret =? -1) then path_text length path_buf else name_text name);
  Ret (ProcessEntry eprocess_ptr cr3 processid full, ProcVars cr3 processid length buf_ptr name path_buf).

(** The entry before this one in the list; a failed read gives the address of the
    entry itself. *)
Definition proc_next (x : memfrs) (t : target) (eprocess_ptr offset_entry : Z) : res (Z * Z) :=
  r ← struct_word ts 8 x t 0 eprocess_ptr eprocess_ptr false "_EPROCESS" ["#ActiveProcessLinks"; "*Blink"]%string;
  o ← memfrs_get_nested_field_offset ts x "_EPROCESS" ["ActiveProcessLinks"]%string;
  let offset_entry := default offset_entry o in
  Ret (u64 (r.2 - offset_entry), offset_entry).

(** At most [n] entries. *)
Fixpoint proc_loop (n : nat) (x : memfrs) (t : target) (eprocess_ptr_init eprocess_ptr offset_entry : Z) (v : proc_vars)
  : res (list process_list_st) :=
  match n with
  | O => Ret []
  | S n' =>
      '(entry, v) ← proc_entry x t eprocess_ptr v;
      if bool_decide (n' = O) then Ret [entry]
      else
        '(eprocess_ptr, offset_entry) ← proc_next x t eprocess_ptr offset_entry;
        if eprocess_ptr =? eprocess_ptr_init then Ret [entry]
        else rest ← proc_loop n' x t eprocess_ptr_init eprocess_ptr offset_entry v; Ret (entry :: rest)
  end.

(** The loop stops after its thousand and first entry. *)
Definition MAX_PROCESSES : nat := 1001.

Definition memfrs_enum_proc_list (x : memfrs) (kpcr_ptr : Z) (cpu : option target)
  : res (list process_list_st + MEMFRS_ERRNO) :=
  if negb (memfrs_check_struct_info x) then Ret (inr MEMFRS_ERR_NOT_LOADED_GLOBAL_STRUCTURE)
  else if kpcr_ptr =? 0 then Ret (inr MEMFRS_ERR_NOT_FOUND_KPCR)
  else
    match cpu with
    | None => Ret (inr MEMFRS_ERR_INVALID_CPU)
    | Some t =>
        k ← struct_word ts 8 x t 0 (junk_word 8) kpcr_ptr false "_KPCR" ["#Prcb"; "#CurrentThread"]%string;
        p ← struct_word ts 8 x t 0 (junk_word 8) k.2 false "_KTHREAD" ["#Process"]%string;
        l ← proc_loop MAX_PROCESSES x t p.2 p.2 0 proc_vars0;
        Ret (inl l)
    end.

(** ** The kernel image *)

Record win_kernel_module : Type := WinKernel { k_name : list Z; k_base : Z; k_guid : list Z }.

Definition PE_HEADER : list Z := text "MZ".
Definition RSDS_HEADER_SIG : list Z := text "RSDS".
Definition RSDS_HEADER_SIZE : nat := 0x30.
Definition RSDS_HEADER_IMAGE_NAME_OFF : nat := 0x18.
Definition INIT_LOADER_MAP_LOW : Z := 0xFFFFF80000000000.
Definition INIT_LOADER_MAP_HIGH : Z := 0xFFFFF87FFFFFFFFF.
Definition SEARCH_MAX : Z := 0x1000000.
Definition kernel_list : list (list Z) := [text "ntoskrnl.pdb"; text "ntkrnlpa.pdb"; text "ntkrnlmp.pdb"].

(** [n] digits of a number, the highest first; [ten] is the character of the digit
    ten. *)
Fixpoint hex_number (ten : Z) (n : nat) (v : Z) : list Z :=
  match n with
  | O => []
  | S n' => hex_number ten n' (v / 16) ++ [if v mod 16 <? 10 then 48 + v mod 16 else ten + (v mod 16 - 10)]
  end.

(** Without leading zeros. *)
Definition hex_short (ten v : Z) : list Z :=
  hex_number ten (Z.to_nat (if v =? 0 then 1 else Z.log2 v / 4 + 1)) v.

Definition parse_GUID (t : target) (addr : Z) : list Z :=
  let field n o := (rw_word n t (u64 (addr + o)) (junk_word n)).2 in
  let data4 := (cpu_memory_rw_debug (t_env t) (t_mem t) (u64 (addr + 8)) (junk_bytes 8)).2 in
  let X := hex_number 65 in
  X 8%nat (field 4%nat 0) ++ X 4%nat (field 2%nat 4) ++ X 4%nat (field 2%nat 6)
  ++ (data4 ≫= X 2%nat) ++ hex_short 65 (field 4%nat 16).

(** Whether a buffer starts with a pattern. *)
Definition starts (pattern buf : list Z) : bool := bool_decide (take (length pattern) buf = pattern).

(** The first header from [j] on, in [n] addresses, and the buffer at the end. *)
Fixpoint find_rsds (n : nat) (t : target) (j : Z) (buf : list Z) : option Z * list Z :=
  match n with
  | O => (None, buf)
  | S n' =>
      let b := (cpu_memory_rw_debug (t_env t) (t_mem t) j (take RSDS_HEADER_SIZE buf)).2 in
      let buf := b ++ drop RSDS_HEADER_SIZE buf in
      if starts RSDS_HEADER_SIG buf then (Some j, buf) else find_rsds n' t (u64 (j + 1)) buf
  end.

(** The name is also printed, as a C string. [rsds_off] keeps its value from one
    image to the next. *)
Definition image_name (buf : list Z) : list Z := drop RSDS_HEADER_IMAGE_NAME_OFF buf.
Definition terminated (b : list Z) : bool := (length (c_string b) <? length b)%nat.

Fixpoint find_kernel (n : nat) (search : nat) (t : target) (i rsds_off : Z) (buf : list Z) : res (option win_kernel_module) :=
  match n with
  | O => Ret None
  | S n' =>
      let b := (cpu_memory_rw_debug (t_env t) (t_mem t) i (take (length PE_HEADER) buf)).2 in
      let buf := b ++ drop (length PE_HEADER) buf in
      if starts PE_HEADER buf then
        let '(found, buf) := find_rsds search t i buf in
        let rsds_off := default rsds_off found in
        match filter (fun name => starts name (image_name buf) = true) kernel_list with
        | [] => find_kernel n' search t (u64 (i + 0x1000)) rsds_off buf
        | names =>
            if negb (terminated (image_name buf)) then UB
            else Ret (Some (WinKernel (List.last names []) i
                              (parse_GUID t (u64 (rsds_off + Z.of_nat (length RSDS_HEADER_SIG))))))
        end
      else find_kernel n' search t (u64 (i + 0x1000)) rsds_off buf
  end.

Definition with_kernel_base (x : memfrs) (b : Z) : memfrs :=
  Memfrs (g_kpcr_ptr x) (g_struct_info x) (g_globalvar_info x) b.

(** The kernel found, whose base the function returns and stores, 0 without one. *)
Definition memfrs_find_nt_kernel_base (x : memfrs) (t : target) : res (option win_kernel_module * memfrs) :=
  let pages := (INIT_LOADER_MAP_HIGH - INIT_LOADER_MAP_LOW) / 0x1000 + 1 in
  k ← find_kernel (Z.to_nat pages) (Z.to_nat SEARCH_MAX) t INIT_LOADER_MAP_LOW 0 (junk_bytes (S RSDS_HEADER_SIZE));
  Ret (k, with_kernel_base x (match k with None => 0 | Some m => k_base m end)).

(** ** Symbols and the system service table *)

(** The symbols in the order of the file. [UB] for a description that is not
    an object of arrays. *)
Fixpoint symbols (ms : list (string * option json)) : res (list (Z * string)) :=
  match ms with
  | [] => Ret []
  | (key, val) :: ms' =>
      tmp ← json_object_array_get_idx val 0;
      offset ← json_object_get_int tmp;
      rest ← symbols ms';
      Ret ((offset, key) :: rest)
  end.

(** [None] for NULL. *)
Definition memfrs_build_gvar_lookup_map (x : memfrs) : res (option (list (Z * string))) :=
  if nt_kernel_base x =? 0 then Ret None
  else
    match g_globalvar_info x with
    | None => Ret None
    | Some (J_object ms) => l ← symbols ms; Ret (Some l)
    | Some _ => UB
    end.

Context (hash_find : list (Z * string) -> Z -> option string).  (* HASH_FIND_INT *)

Definition memfrs_get_symbolname_via_address (rsym_tab : option (list (Z * string))) (offset : Z) : option string :=
  match rsym_tab with
  | None => None
  | Some l => hash_find l (s32 offset)
  end.

Record ssdt_list_st : Type := SsdtEntry {
  sd_index : Z; sd_address : Z; system_call_name : string; argnum_on_stack : Z
}.

(** The entries [i], [i + 1], ... of the table; one that cannot be read is
    skipped. A name that is not found is used nevertheless. *)
Fixpoint ssdt_loop (n : nat) (x : memfrs) (t : target) (addr_KiServiceTable i old : Z) : res (list ssdt_list_st) :=
  match n with
  | O => Ret []
  | S n' =>
      let '(ret, w) := rw_word 4 t (u64 (addr_KiServiceTable + i * 4)) old in
      if negb (ret =? 0) then ssdt_loop n' x t addr_KiServiceTable (i + 1) w
      else
        let syscall_addr := u64 (Z.shiftr (s32 w) 4 + addr_KiServiceTable) in
        map ← memfrs_build_gvar_lookup_map x;
        match memfrs_get_symbolname_via_address map (syscall_addr - nt_kernel_base x) with
        | None => UB
        | Some name =>
            rest ← ssdt_loop n' x t addr_KiServiceTable (i + 1) w;
            Ret (SsdtEntry i syscall_addr name (s32 w .& 0xf) :: rest)
        end
  end.

(** The kernel's base is looked for when it is not known, and kept. *)
Definition kernel_base (x : memfrs) (t : target) : res memfrs :=
  if nt_kernel_base x =? 0 then r ← memfrs_find_nt_kernel_base x t; Ret r.2 else Ret x.

(** The address of a global variable; [None] when there is none. *)
Definition gvar_address (x : memfrs) (name : string) : res (option Z) :=
  match memfrs_q_globalvar x name with
  | None => Ret None
  | gvar => o ← memfrs_gvar_offset gvar; Ret (Some (u64 (o + nt_kernel_base x)))
  end.

Definition ssdt_entries (x : memfrs) (t : target) : res (list ssdt_list_st + MEMFRS_ERRNO) :=
  if nt_kernel_base x =? 0 then Ret (inr MEMFRS_ERR_NOT_FOUND_KERNEL_BASE)
  else
    table ← gvar_address x "KiServiceTable";
    match table with
    | None => Ret (inr MEMFRS_ERR_NOT_FOUND_GLOBAL_STRUCTURE)
    | Some addr_KiServiceTable =>
        limit ← gvar_address x "KiServiceLimit";
        match limit with
        | None => Ret (inr MEMFRS_ERR_NOT_FOUND_GLOBAL_STRUCTURE)
        | Some addr_KiServiceLimit =>
            let '(ret, syscall_count) := rw_word 2 t addr_KiServiceLimit (junk_word 2) in
            if negb (ret =? 0) then Ret (inr MEMFRS_ERR_MEMORY_READ_FAILED)
            else l ← ssdt_loop (Z.to_nat syscall_count) x t addr_KiServiceTable 0 (junk_word 4); Ret (inl l)
        end
    end.

Definition memfrs_enum_ssdt_list (x : memfrs) (kpcr_ptr : Z) (cpu : option target)
  : res ((list ssdt_list_st + MEMFRS_ERRNO) * memfrs) :=
  if negb (memfrs_check_struct_info x) then Ret (inr MEMFRS_ERR_NOT_LOADED_GLOBAL_STRUCTURE, x)
  else if kpcr_ptr =? 0 then Ret (inr MEMFRS_ERR_NOT_FOUND_KPCR, x)
  else
    match cpu with
    | None => Ret (inr MEMFRS_ERR_INVALID_CPU, x)
    | Some t => x ← kernel_base x t; r ← ssdt_entries x t; Ret (r, x)
    end.

(** ** Loaded modules *)

Record kernel_module : Type := KernelModule { m_fullname : list Z; m_basename : list Z; m_base : Z }.

Definition POOL_TAG_MODULE : list Z := text "MmLd".
Definition SIZE_OF_POOL_HEADER : Z := 0x10.
Definition SIZEOFUNICODESTRING : nat := 0x10.
Definition MAXMEM : Z := 0x80000000.

(** The names at an address that holds the tag. *)
Definition module_at (x : memfrs) (t : target) (i offset_tag offset_fullname offset_basename : Z) : res (option kernel_module) :=
  let name o :=
    parse_unicode_str x t (cpu_physical_memory_read (t_mem t) (u64 (i - offset_tag + SIZE_OF_POOL_HEADER + o)) SIZEOFUNICODESTRING) in
  fullname ← name offset_fullname;
  basename ← name offset_basename;
  Ret (match fullname, basename with
       | Some f, Some b => Some (KernelModule (c_string f) (c_string b) i)
       | _, _ => None
       end).

Fixpoint module_loop (n : nat) (x : memfrs) (t : target) (i offset_tag offset_fullname offset_basename : Z)
  : res (list kernel_module) :=
  match n with
  | O => Ret []
  | S n' =>
      if bool_decide (cpu_physical_memory_read (t_mem t) i (length POOL_TAG_MODULE) = POOL_TAG_MODULE) then
        k ← module_at x t i offset_tag offset_fullname offset_basename;
        rest ← module_loop n' x t (i + 1) offset_tag offset_fullname offset_basename;
        Ret (match k with Some k => k :: rest | None => rest end)
      else module_loop n' x t (i + 1) offset_tag offset_fullname offset_basename
  end.

(** [maxmem] is [MAXMEM]. *)
Definition memfrs_scan_module (maxmem : Z) (x : memfrs) (t : target) : res (option (list kernel_module)) :=
  if negb (memfrs_check_struct_info x) then Ret None
  else
    offset_tag ← field_offset x (memfrs_q_struct x "_POOL_HEADER") "PoolTag";
    let jobj := memfrs_q_struct x "_LDR_DATA_TABLE_ENTRY" in
    offset_fullname ← field_offset x jobj "FullDllName";
    offset_basename ← field_offset x jobj "BaseDllName";
    l ← module_loop (Z.to_nat (maxmem - Z.of_nat (length POOL_TAG_MODULE))) x t 0 offset_tag offset_fullname offset_basename;
    Ret (Some l).

(** ** The current thread *)

Record current_thread : Type := CurrentThread { unique_thread : Z; unique_process : Z; image_file_name : list Z }.

Definition memfrs_get_current_thread (x : memfrs) (t : target) : res (option current_thread) :=
  if g_kpcr_ptr x =? 0 then Ret None
  else
    r ← struct_word ts 8 x t 0 (junk_word 8) (g_kpcr_ptr x) false "_KPCR" ["*CurrentPrcb"; "*CurrentThread"]%string;
    let thread_ptr := r.2 in
    match memfrs_q_struct x "_ETHREAD" with
    | None => Ret None
    | Some ethread =>
        o ← field_offset x (Some ethread) "Cid";
        let client_id := u64 (thread_ptr + o) in
        match memfrs_q_struct x "_CLIENT_ID" with
        | None => Ret None
        | Some cid =>
            o ← field_offset x (Some cid) "UniqueProcess";
            let pid := (virmem_word 8 t 0 (u64 (client_id + o)) (junk_word 8)).2 in
            o ← field_offset x (Some cid) "UniqueThread";
            let tid := (virmem_word 8 t 0 (u64 (client_id + o)) (junk_word 8)).2 in
            r ← struct_word ts 8 x t 0 (junk_word 8) thread_ptr false "_KTHREAD" ["*Process"]%string;
            r ← memfrs_get_mem_struct_content ts x t 0 (junk_bytes 16) r.2 false "_EPROCESS" ["*ImageFileName"]%string;
            Ret (Some (CurrentThread tid pid (c_string (<[15%nat := 0]> r.2))))
        end
    end.

End Lists.

(** ** The process list *)

(** A field that the descriptions have: its value, or [None] when it is not mapped. *)
Definition field_opt (ts : json -> string) (n : nat) (x : memfrs) (t : target) (c a : Z) (name : string) (names : list string)
  : option (option Z) :=
  ty ← memfrs_q_struct x name;
  match chain_steps ts x (Some ty) names with
  | Ret (Some steps) => Some (word_of <$> struct_bytes t c false steps a n)
  | _ => None
  end.

Lemma field_opt_read ts n x t c old a name names o : 0 <= a < 2 ^ 64 ->
  field_opt ts n x t c a name names = Some o ->
  exists r, struct_word ts n x t c old a false name names = Ret r /\ match o with Some w => r = (0, w) | None => r.1 = -1 end.
Proof.
  unfold field_opt, struct_word. intros Ha E. destruct (memfrs_q_struct x name) as [ty|] eqn:Et; [|done]. simpl in E.
  destruct (chain_steps ts x (Some ty) names) as [[steps|]| |] eqn:Ec; try done. injection E as <-.
  rewrite (content_virtual _ _ _ _ _ _ _ _ _ _ Et Ec Ha).
  pose proof (content_bytes t c (le_bytes n old) steps a Ha) as H. cbv zeta in H. rewrite le_bytes_length in H. simpl.
  destruct (_ ← _; _) as [bs|]; eexists; split; try reflexivity; simpl; by rewrite H.
Qed.

Lemma field_opt_range ts n x t c a name names w : field_opt ts n x t c a name names = Some (Some w) -> 0 <= w < 256 ^ Z.of_nat n.
Proof.
  intros E. apply (field_word_range ts n x t c a name names). unfold field_opt in E. unfold field_word, field_bytes.
  destruct (memfrs_q_struct x name); [|done]. simpl in *. destruct (chain_steps _ _ _ _) as [[?|]| |]; simpl in *; congruence.
Qed.

Definition path_field (last : string) : list string := ["*Peb"; "*ProcessParameters"; "#ImagePathName"; last]%string.

(** What a process in guest memory is listed as: with the path of its image, or,
    when that cannot be read, with its name. *)
Inductive process_at (ts : json -> string) (x : memfrs) (t : target) (e : Z) : process_list_st -> Prop :=
| process_with_path c pid name len ptr bs :
    field_word ts 8 x t 0 e "_EPROCESS" ["#Pcb"; "#DirectoryTableBase"]%string = Some c -> c <> 0 ->
    field_word ts 8 x t 0 e "_EPROCESS" ["#UniqueProcessId"]%string = Some pid ->
    field_bytes ts x t 0 e "_EPROCESS" ["#ImageFileName"]%string 32 = Some name ->
    field_opt ts 2 x t c e "_EPROCESS" (path_field "#Length") = Some (Some len) -> len <= 256 ->
    field_opt ts 8 x t c e "_EPROCESS" (path_field "*Buffer") = Some (Some ptr) ->
    vbytes 256 (in_process t c) ptr = Some bs ->
    process_at ts x t e (ProcessEntry e c pid (take (Z.to_nat (len / 2)) (low_bytes bs)))
| process_with_name c pid n rest len ptr :
    field_word ts 8 x t 0 e "_EPROCESS" ["#Pcb"; "#DirectoryTableBase"]%string = Some c -> c <> 0 ->
    field_word ts 8 x t 0 e "_EPROCESS" ["#UniqueProcessId"]%string = Some pid ->
    field_bytes ts x t 0 e "_EPROCESS" ["#ImageFileName"]%string 32 = Some (n ++ 0 :: rest) ->
    Forall (fun b => b <> 0) n -> (length n <= 15)%nat ->
    field_opt ts 2 x t c e "_EPROCESS" (path_field "#Length") = Some len ->
    field_opt ts 8 x t c e "_EPROCESS" (path_field "*Buffer") = Some ptr ->
    vbytes 256 (in_process t c) (default 0 ptr) = None ->
    process_at ts x t e (ProcessEntry e c pid (text "[Process Name] " ++ n ++ replicate (15 - length n) 32)).

Definition sized (v : proc_vars) : Prop := length (file_name_buf v) = 32%nat /\ length (file_path_buf v) = 256%nat.

Lemma c_string_app n rest : Forall (fun b => b <> 0) n -> c_string (n ++ 0 :: rest) = n.
Proof. induction 1 as [|b n Hb _ IH]; [done|]. simpl. by rewrite (proj2 (Z.eqb_neq b 0) Hb), IH. Qed.

Lemma name_text_short n rest : Forall (fun b => b <> 0) n -> (length n <= 15)%nat ->
  name_text (n ++ 0 :: rest) = Ret (text "[Process Name] " ++ n ++ replicate (15 - length n) 32).
Proof.
  intros Hn Hl. unfold name_text. rewrite c_string_app by done.
  rewrite (proj2 (Nat.eqb_neq _ _)) by (rewrite length_app; simpl; lia).
  rewrite (proj2 (Nat.leb_gt _ _)); [done|]. rewrite !length_app, length_replicate. simpl. lia.
Qed.

Lemma virmem_length t c a buf : 0 <= a < 2 ^ 64 -> length (memfrs_get_virmem_content t c a buf).2 = length buf.
Proof.
  intros Ha. unfold memfrs_get_virmem_content. fold (in_process t c).
  pose proof (rw_debug_length (in_process t c) a buf Ha) as H. destruct (cpu_memory_rw_debug _ _ a buf) as [r b].
  by destruct (negb (r =? 0)).
Qed.

(** The fields of a process with page tables and a path that can be read. *)
Record path_at (ts : json -> string) (x : memfrs) (t : target) (e c pid len : Z) (bs : list Z) : Prop := {
  pa_cr3 : field_word ts 8 x t 0 e "_EPROCESS" ["#Pcb"; "#DirectoryTableBase"]%string = Some c /\ c <> 0;
  pa_pid : field_word ts 8 x t 0 e "_EPROCESS" ["#UniqueProcessId"]%string = Some pid;
  pa_name : exists name, field_bytes ts x t 0 e "_EPROCESS" ["#ImageFileName"]%string 32 = Some name;
  pa_len : field_opt ts 2 x t c e "_EPROCESS" (path_field "#Length") = Some (Some len);
  pa_buf : exists ptr, field_opt ts 8 x t c e "_EPROCESS" (path_field "*Buffer") = Some (Some ptr) /\
    vbytes 256 (in_process t c) ptr = Some bs
}.

(** Such a process with a path of more than 128 characters. *)
Definition overlong_at (ts : json -> string) (x : memfrs) (t : target) (e : Z) : Prop :=
  exists c pid len bs, path_at ts x t e c pid len bs /\ 256 < len.

Ltac read_fields He Ec Ei En Hn Hc :=
  unfold proc_entry;
  rewrite (field_word_read _ _ _ _ _ _ _ _ _ _ He Ec); cbn [mbind res_bind snd];
  rewrite (field_word_read _ _ _ _ _ _ _ _ _ _ He Ei); cbn [mbind res_bind snd];
  rewrite <- Hn in En; rewrite (field_bytes_read _ _ _ _ _ _ _ _ _ He En); cbn [mbind res_bind snd];
  rewrite (proj2 (Z.eqb_neq _ 0) Hc).

Ltac read_path v He El Ep rl Hl rb Hrb :=
  let E := fresh in
  destruct (field_opt_read _ _ _ _ _ (v_length v) _ _ _ _ He El) as (rl & E & Hl); unfold path_field in E; rewrite E;
  cbn [mbind res_bind]; clear E;
  destruct (field_opt_read _ _ _ _ _ (v_buf_ptr v) _ _ _ _ He Ep) as (rb & E & Hrb); unfold path_field in E; rewrite E;
  cbn [mbind res_bind]; clear E.

Lemma proc_entry_path ts x t e c pid len bs v : 0 <= e < 2 ^ 64 -> path_at ts x t e c pid len bs -> sized v ->
  exists v', sized v' /\ proc_entry ts x t e v = (full ← path_text len bs; Ret (ProcessEntry e c pid full, v')).
Proof.
  intros He [[Ec Hc] Ei [name En] El (ptr & Ep & Ebs)] [Hn Hb]. read_fields He Ec Ei En Hn Hc.
  read_path v He El Ep rl Hl rb Hrb. apply field_bytes_length in En as [En _]. rewrite Hn in En.
  subst rl rb. cbn [fst snd]. change (0 =? -1) with false. cbv iota.
  pose proof (virmem_vbytes t c ptr (file_path_buf v) (field_opt_range _ _ _ _ _ _ _ _ _ Ep)) as Hv.
  rewrite Hb, Ebs in Hv. rewrite Hv. change (negb (0 =? -1)) with true. cbv iota.
  exists (ProcVars c pid len ptr name bs). split; [|done]. split; [exact En|]. simpl. by apply vbytes_range in Ebs as [? _].
Qed.

Lemma proc_entry_read ts x t e p v : 0 <= e < 2 ^ 64 -> process_at ts x t e p -> sized v ->
  exists v', proc_entry ts x t e v = Ret (p, v') /\ sized v'.
Proof.
  intros He Hp Hs.
  destruct Hp as [c pid name len ptr bs Ec Hc Ei En El Hlen Ep Ebs|c pid n rest len ptr Ec Hc Ei En Hnz Hn15 El Ep Ebs].
  - destruct (proc_entry_path ts x t e c pid len bs v He) as (v' & Hv & ->); [by split; eauto|done|].
    unfold path_text. rewrite (proj2 (Z.ltb_ge _ _)) by lia. by exists v'.
  - destruct Hs as [Hn Hb]. read_fields He Ec Ei En Hn Hc. read_path v He El Ep rl Hl rb Hrb.
    apply field_bytes_length in En as [En _]. rewrite Hn in En.
    assert ((if rb.1 =? -1 then 0 else rb.2) = default 0 ptr) as -> by (destruct ptr; [by subst rb|by rewrite Hrb]).
    assert (0 <= default 0 ptr < 2 ^ 64) as Hr by (destruct ptr; [apply (field_opt_range _ _ _ _ _ _ _ _ _ Ep)|simpl; lia]).
    pose proof (virmem_vbytes t c (default 0 ptr) (file_path_buf v) Hr) as Hv.
    pose proof (virmem_length t c (default 0 ptr) (file_path_buf v) Hr) as Hvl. rewrite Hb, Ebs in Hv.
    destruct (memfrs_get_virmem_content t c _ _) as [ret b]. cbn [fst snd] in Hv, Hvl. subst ret.
    change (negb (-1 =? -1)) with false. cbv iota. rewrite name_text_short by done. cbn [mbind res_bind].
    eexists. split; [done|]. split; [exact En|]. simpl. congruence.
Qed.

Lemma proc_entry_overlong ts x t e v : 0 <= e < 2 ^ 64 -> overlong_at ts x t e -> sized v -> proc_entry ts x t e v = UB.
Proof.
  intros He (c & pid & len & bs & Hp & Hl) Hv.
  destruct (proc_entry_path ts x t e c pid len bs v He Hp Hv) as (v' & _ & ->).
  unfold path_text. by rewrite (proj2 (Z.ltb_lt _ _)).
Qed.

Section Ring.
Context (ts : json -> string) (x : memfrs) (t : target) (o : Z).
Context (Ho : memfrs_get_nested_field_offset ts x "_EPROCESS" ["ActiveProcessLinks"]%string = Ret (Some o)).

(** The backward link of a process leads to the link field of another one. *)
Definition next_process (e e' : Z) : Prop :=
  0 <= e' < 2 ^ 64 /\
  field_word ts 8 x t 0 e "_EPROCESS" ["#ActiveProcessLinks"; "*Blink"]%string = Some (u64 (e' + o)).

(** Every process of a list leads to the next one, the last to [first]. *)
Fixpoint linked (first : Z) (es : list Z) : Prop :=
  match es with
  | [] => True
  | e :: es' => next_process e (hd first es') /\ linked first es'
  end.

Lemma proc_next_read e e' old : 0 <= e < 2 ^ 64 -> next_process e e' -> proc_next ts x t e old = Ret (e', o).
Proof.
  intros He [He' E]. unfold proc_next. rewrite (field_word_read _ _ _ _ _ _ _ _ _ _ He E). cbn [mbind res_bind].
  rewrite Ho. cbn [mbind res_bind snd]. cbv zeta. unfold u64. rewrite Zminus_mod_idemp_l.
  change (default old (Some o)) with o. replace (e' + o - o) with e' by lia. rewrite Z.mod_small; done.
Qed.

Lemma proc_loop_ring first es ps : Forall2 (process_at ts x t) es ps -> Forall (fun e => 0 <= e < 2 ^ 64) es ->
  forall n v old e es', es = e :: es' -> first ∉ es' -> linked first es -> (length es <= n)%nat -> sized v ->
  proc_loop ts n x t first e old v = Ret ps.
Proof.
  induction 1 as [|e1 p es ps Hp Hes IH]; intros Hr n v old e es' [= <- <-] Hf [Hn Hl] Hlen Hv.
  inversion_clear Hr as [|? ? He Hr']. destruct n as [|n]; [simpl in Hlen; lia|]. cbn [proc_loop].
  destruct (proc_entry_read _ _ _ _ _ v He Hp Hv) as (v' & -> & Hv'). cbn [mbind res_bind].
  destruct es as [|e2 es].
  - inversion Hes; subst. case_bool_decide; [done|]. rewrite (proc_next_read _ _ old He Hn). cbn [mbind res_bind hd].
    by rewrite Z.eqb_refl.
  - apply not_elem_of_cons in Hf as [Hne Hf]. simpl in Hlen. rewrite bool_decide_eq_false_2 by lia.
    rewrite (proc_next_read _ _ old He Hn). cbn [mbind res_bind hd]. rewrite (proj2 (Z.eqb_neq e2 first)) by done.
    rewrite (IH Hr' n v' o e2 es); [done..|simpl; lia|done].
Qed.

(** The first process with an overlong path ends the loop. *)
Lemma proc_loop_overlong first e rest l ps : Forall2 (process_at ts x t) l ps -> overlong_at ts x t e ->
  Forall (fun e => 0 <= e < 2 ^ 64) (l ++ e :: rest) ->
  forall n v old e0 es', l ++ e :: rest = e0 :: es' -> first ∉ es' -> linked first (l ++ e :: rest) -> (length l < n)%nat -> sized v ->
  proc_loop ts n x t first e0 old v = UB.
Proof.
  intros Hps Ho'. induction Hps as [|e1 p l ps Hp Hes IH]; intros Hr n v old e0 es' [= <- <-] Hf [Hn Hl] Hlen Hv;
    inversion_clear Hr as [|? ? He Hr']; (destruct n as [|n]; [simpl in Hlen; lia|]); cbn [proc_loop].
  - by rewrite (proc_entry_overlong ts x t e v).
  - destruct (proc_entry_read _ _ _ _ _ v He Hp Hv) as (v' & -> & Hv'). cbn [mbind res_bind].
    simpl in Hlen. rewrite bool_decide_eq_false_2 by lia.
    rewrite (proc_next_read _ _ old He Hn). cbn [mbind res_bind].
    destruct (l ++ e :: rest) as [|e2 es] eqn:E; [by destruct l|]. cbn [hd].
    apply not_elem_of_cons in Hf as [Hne Hf]. rewrite (proj2 (Z.eqb_neq e2 first)) by done.
    by rewrite (IH Hr' n v' o e2 es) by (done || lia).
Qed.
End Ring.

Lemma proc_loop_length ts n : forall x t first e old v l, proc_loop ts n x t first e old v = Ret l -> (length l <= n)%nat.
Proof.
  induction n as [|n IH]; intros x t first e old v l E; [injection E as <-; done|]. cbn [proc_loop] in E.
  apply res_bind_inv in E as ([entry v'] & _ & E). case_bool_decide; [injection E as <-; simpl; lia|].
  apply res_bind_inv in E as ([e' o'] & _ & E). destruct (e' =? first); [injection E as <-; simpl; lia|].
  apply res_bind_inv in E as (rest & Er & E). injection E as <-. apply IH in Er. simpl. lia.
Qed.

Lemma proc_vars0_sized junk : sized (proc_vars0 junk).
Proof. split; apply junk_bytes_length. Qed.

(** C25: the process list. The backward links from the process of the current
    thread run through processes and come back to it. If each of them has page tables
    (a CR3 other than 0) and, as its path, at most 128 characters that can be read or else a name
    of at most 15 characters, and they are at most 1001, the function returns one
    entry for each, in that order, with its page tables, its identifier and its path
    or name. If one of the first 1001, after such processes, has a longer path that can
    be read, the function reads past the end of its buffer. *)
Theorem enum_proc_list_ring ts junk x t kpcr kthread first es o :
  memfrs_check_struct_info x = true -> 0 < kpcr < 2 ^ 64 ->
  field_word ts 8 x t 0 kpcr "_KPCR" ["#Prcb"; "#CurrentThread"]%string = Some kthread ->
  field_word ts 8 x t 0 kthread "_KTHREAD" ["#Process"]%string = Some first ->
  memfrs_get_nested_field_offset ts x "_EPROCESS" ["ActiveProcessLinks"]%string = Ret (Some o) ->
  Forall (fun e => 0 <= e < 2 ^ 64) (first :: es) -> first ∉ es -> linked ts x t o first (first :: es) ->
  (forall ps, Forall2 (process_at ts x t) (first :: es) ps -> (length ps <= MAX_PROCESSES)%nat ->
     memfrs_enum_proc_list ts junk x kpcr (Some t) = Ret (inl ps)) /\
  (forall l ps e rest, first :: es = l ++ e :: rest -> Forall2 (process_at ts x t) l ps -> overlong_at ts x t e ->
     (length l < MAX_PROCESSES)%nat -> memfrs_enum_proc_list ts junk x kpcr (Some t) = UB).
Proof.
  intros Hx Hk Ek Ep Ho Hr Hf Hl.
  assert (memfrs_enum_proc_list ts junk x kpcr (Some t) =
    (l ← proc_loop ts MAX_PROCESSES x t first first 0 (proc_vars0 junk); Ret (inl l))) as ->.
  { unfold memfrs_enum_proc_list. rewrite Hx, (proj2 (Z.eqb_neq kpcr 0)) by lia. simpl negb. cbv iota.
    rewrite (field_word_read _ _ _ _ _ _ _ _ _ _ (conj (Z.lt_le_incl _ _ (proj1 Hk)) (proj2 Hk)) Ek). cbn [mbind res_bind snd].
    by rewrite (field_word_read _ _ _ _ _ _ _ _ _ _ (field_word_range _ _ _ _ _ _ _ _ _ Ek) Ep). }
  split.
  - intros ps Hp Hn. rewrite (proc_loop_ring ts x t o Ho first _ ps Hp Hr _ _ 0 first es eq_refl Hf Hl); [done| |apply proc_vars0_sized].
    by rewrite (Forall2_length _ _ _ Hp).
  - intros l ps e rest El Hp Hov Hn. rewrite El in Hr, Hl. symmetry in El.
    by rewrite (proc_loop_overlong ts x t o Ho first e rest l ps Hp Hov Hr _ _ 0 first es El Hf Hl Hn (proc_vars0_sized junk)).
Qed.

(** Whatever the links are, the list has at most 1001 entries. *)
Theorem enum_proc_list_bounded ts junk x t kpcr ps :
  memfrs_enum_proc_list ts junk x kpcr (Some t) = Ret (inl ps) -> (length ps <= MAX_PROCESSES)%nat.
Proof.
  unfold memfrs_enum_proc_list. intros E. destruct (negb _); [done|]. destruct (kpcr =? 0); [done|].
  apply res_bind_inv in E as (k & _ & E). apply res_bind_inv in E as (p & _ & E).
  apply res_bind_inv in E as (l & El & E). injection E as <-. by apply proc_loop_length in El.
Qed.

(** Two processes, each the other's neighbour, without paging. *)
Definition demo_processes : memfrs :=
  Memfrs 0 (Some (J_object
    [("_KPCR", Some (J_object [("Prcb", demo_field "_KPRCB" 16 64 0)]));
     ("_KPRCB", Some (J_object [("CurrentThread", demo_field "_KTHREAD" 8 8 1)]));
     ("_KTHREAD", Some (J_object [("Process", demo_field "_KPROCESS" 32 8 1)]));
     ("_EPROCESS", Some (J_object
       [("Pcb", demo_field "_KPROCESS" 0 16 0); ("UniqueProcessId", demo_field "Void" 16 8 1);
        ("ActiveProcessLinks", demo_field "_LIST_ENTRY" 24 16 0); ("Peb", demo_field "_PEB" 40 8 1);
        ("ImageFileName", demo_field "char" 48 15 0)]));
     ("_KPROCESS", Some (J_object [("DirectoryTableBase", demo_field "long" 8 8 0)]));
     ("_LIST_ENTRY", Some (J_object [("Blink", demo_field "_LIST_ENTRY" 8 8 1)]));
     ("_PEB", Some (J_object [("ProcessParameters", demo_field "_PARAMETERS" 8 8 1)]));
     ("_PARAMETERS", Some (J_object [("ImagePathName", demo_field "_UNICODE_STRING" 16 16 0)]));
     ("_UNICODE_STRING", Some (J_object [("Length", demo_field "short" 0 2 0); ("Buffer", demo_field "short" 8 8 1)]))]%string))
    None 0.

Definition demo_process (m : memory) (e pid prev : Z) : memory :=
  sd 8 (sd 8 (sd 8 (sd 8 m (e + 8) 0x9000) (e + 16) pid) (e + 32) (prev + 24)) (e + 40) 0x600.

Definition demo_process_target (path_length : Z) : target :=
  Target flat_env
    (demo_process (demo_process
       (sd 4 (sd 8 (sd 2 (sd 8 (sd 8 (sd 8 ∅ 0x118 0x200) 0x220 0x1000) 0x608 0x700) 0x710 path_length) 0x718 0x800) 0x800 0x00620061)
       0x1000 4 0x2000) 0x2000 8 0x1000).

Lemma enum_proc_list_ring_witness :
  memfrs_enum_proc_list (fun _ => ""%string) (fun _ => 7) demo_processes 0x100 (Some (demo_process_target 4)) =
    Ret (inl [ProcessEntry 0x1000 0x9000 4 [97; 98]; ProcessEntry 0x2000 0x9000 8 [97; 98]]) /\
  memfrs_enum_proc_list (fun _ => ""%string) (fun _ => 7) demo_processes 0x100 (Some (demo_process_target 258)) = UB.
Proof.
  split.
  - apply (enum_proc_list_ring (fun _ => ""%string) (fun _ => 7) demo_processes (demo_process_target 4) 0x100 0x200 0x1000 [0x2000] 24);
      [reflexivity|lia|vm_compute; reflexivity..|repeat constructor; lia|vm_compute; by inversion 1 as [|? ? ? H]; inversion H| | |].
    + split; [split; [simpl; lia|vm_compute; reflexivity]|]. split; [split; [simpl; lia|vm_compute; reflexivity]|done].
    + constructor; [|constructor; [|constructor]].
      * refine (process_with_path _ _ _ 0x1000 0x9000 4 (cpu_physical_memory_read (t_mem (demo_process_target 4)) 0x1030 32) 4 0x800
          (cpu_physical_memory_read (t_mem (demo_process_target 4)) 0x800 256) _ _ _ _ _ _ _ _); solve [lia | vm_compute; reflexivity].
      * refine (process_with_path _ _ _ 0x2000 0x9000 8 (cpu_physical_memory_read (t_mem (demo_process_target 4)) 0x2030 32) 4 0x800
          (cpu_physical_memory_read (t_mem (demo_process_target 4)) 0x800 256) _ _ _ _ _ _ _ _); solve [lia | vm_compute; reflexivity].
    + unfold MAX_PROCESSES. simpl. lia.
  - apply (proj2 (enum_proc_list_ring (fun _ => ""%string) (fun _ => 7) demo_processes (demo_process_target 258) 0x100 0x200 0x1000 [0x2000] 24
      ltac:(reflexivity) ltac:(lia) ltac:(vm_compute; reflexivity) ltac:(vm_compute; reflexivity) ltac:(vm_compute; reflexivity)
      ltac:(repeat constructor; lia) ltac:(vm_compute; by inversion 1 as [|? ? ? H]; inversion H)
      ltac:(split; [split; [simpl; lia|vm_compute; reflexivity]|]; split; [split; [simpl; lia|vm_compute; reflexivity]|done]))
      [] [] 0x1000 [0x2000]).
    + reflexivity.
    + constructor.
    + exists 0x9000, 4, 258, (cpu_physical_memory_read (t_mem (demo_process_target 258)) 0x800 256). split; [|lia]. split.
      * split; [vm_compute; reflexivity|lia].
      * vm_compute. reflexivity.
      * exists (cpu_physical_memory_read (t_mem (demo_process_target 258)) 0x1030 32). vm_compute. reflexivity.
      * vm_compute. reflexivity.
      * exists 0x800. split; vm_compute; reflexivity.
    + unfold MAX_PROCESSES. simpl. lia.
Defined.

(** ** The service table *)

(** HASH_FIND_INT returns an element with the key if there is one. *)
Class SymbolFind (find : list (Z * string) -> Z -> option string) : Prop := {
  symbol_sound l k n : find l k = Some n -> (k, n) ∈ l;
  symbol_complete l k n : (k, n) ∈ l -> is_Some (find l k)
}.

Fixpoint first_symbol (l : list (Z * string)) (k : Z) : option string :=
  match l with
  | [] => None
  | (k', n) :: l' => if bool_decide (k' = k) then Some n else first_symbol l' k
  end.

#[export] Instance first_symbol_find : SymbolFind first_symbol.
Proof.
  split; intros l k n; induction l as [|[k' n'] l IH]; simpl.
  - done.
  - case_bool_decide; [intros [= <-]; subst; left|intros ?%IH; by right].
  - by intros ?%not_elem_of_nil.
  - intros [[= -> ->]|H]%elem_of_cons; [by rewrite bool_decide_eq_true_2|].
    case_bool_decide; [done|by apply IH].
Qed.

(** An entry of the table: how far the routine is from the table, and how many
    arguments are on the stack. *)
Definition service_word (table : Z) (s : Z * Z) : Z := u32 (16 * (s.1 - table) + s.2).

Lemma service_word_decode table addr args : 0 <= args < 16 -> - 2 ^ 27 <= addr - table < 2 ^ 27 -> 0 <= addr < 2 ^ 64 ->
  u64 (Z.shiftr (s32 (service_word table (addr, args))) 4 + table) = addr /\
  s32 (service_word table (addr, args)) .& 0xf = args.
Proof.
  intros Ha Hd Hr. unfold service_word. simpl.
  assert (s32 (u32 (16 * (addr - table) + args)) = 16 * (addr - table) + args) as ->.
  { unfold s32, u32. rewrite Z.mod_mod by lia.
    destruct (Z_lt_ge_dec (16 * (addr - table) + args) 0).
    - rewrite <- (Z.mod_unique (16 * (addr - table) + args) (2 ^ 32) (-1) (16 * (addr - table) + args + 2 ^ 32)) by lia.
      case_match; lia.
    - rewrite Z.mod_small by lia. case_match; lia. }
  split.
  - rewrite Z.shiftr_div_pow2 by lia. change (2 ^ 4) with 16.
    rewrite Z.mul_comm, Z.div_add_l, (Z.div_small args) by lia.
    replace (addr - table + 0 + table) with addr by lia. by apply u64_small.
  - change 15 with (Z.ones 4). rewrite Z.land_ones by lia. change (2 ^ 4) with 16.
    rewrite Z.add_comm, Z.mul_comm, Z_mod_plus_full. by apply Z.mod_small.
Qed.

Section Services.
Context (find : list (Z * string) -> Z -> option string) `{!SymbolFind find}.
Context (x : memfrs) (t : target) (ms : list (string * option json)) (l : list (Z * string)) (table : Z).
Context (Hb : nt_kernel_base x <> 0) (Hg : g_globalvar_info x = Some (J_object ms)) (Hs : symbols ms = Ret l).

(** The [i]th entry is in the table, and its routine has a symbol. *)
Definition service_at (i : Z) (s : Z * Z) : Prop :=
  vword 4 t (u64 (table + i * 4)) = Some (service_word table s) /\
  0 <= s.2 < 16 /\ - 2 ^ 27 <= s.1 - table < 2 ^ 27 /\ 0 <= s.1 < 2 ^ 64 /\
  exists name, (s32 (s.1 - nt_kernel_base x), name) ∈ l.

Fixpoint services_from (i : Z) (ss : list (Z * Z)) : Prop :=
  match ss with [] => True | s :: ss' => service_at i s /\ services_from (i + 1) ss' end.

(** The entries listed for them, with a symbol of the routine's offset. *)
Fixpoint listed (i : Z) (ss : list (Z * Z)) (es : list ssdt_list_st) : Prop :=
  match ss, es with
  | [], [] => True
  | s :: ss', e :: es' =>
      sd_index e = i /\ sd_address e = s.1 /\ argnum_on_stack e = s.2 /\
      (s32 (s.1 - nt_kernel_base x), system_call_name e) ∈ l /\ listed (i + 1) ss' es'
  | _, _ => False
  end.

Lemma lookup_map : memfrs_build_gvar_lookup_map x = Ret (Some l).
Proof.
  unfold memfrs_build_gvar_lookup_map. rewrite (proj2 (Z.eqb_neq _ _) Hb), Hg. simpl. by rewrite Hs.
Qed.

Lemma ssdt_loop_services ss : forall i old, services_from i ss ->
  exists es, ssdt_loop find (length ss) x t table i old = Ret es /\ listed i ss es.
Proof.
  induction ss as [|[addr args] ss IH]; intros i old H; [by exists []|].
  destruct H as [(Hw & Ha & Hd & Hr & name & Hn) H]. simpl in *.
  rewrite (rw_word_mapped _ _ _ _ _ Hw). simpl negb. cbv iota. rewrite lookup_map. cbn [mbind res_bind].
  destruct (service_word_decode table addr args Ha Hd Hr) as [-> ->].
  unfold memfrs_get_symbolname_via_address.
  destruct (symbol_complete _ _ _ Hn) as [n En]. rewrite En.
  destruct (IH (i + 1) (service_word table (addr, args)) H) as (es & -> & Hl). cbn [mbind res_bind].
  eexists. split; [done|]. simpl. repeat split; [|done]. by apply symbol_sound.
Qed.
End Services.

(** C27: the system service table. If the base of the kernel is known, the table has, at the address its symbol
    gives, as many encoded entries as the limit says, and each routine has a symbol, the
    function lists exactly these services: index, address, number of arguments on
    the stack and a symbol of the routine's offset in the kernel. *)
Theorem enum_ssdt_lists_services find `{!SymbolFind find} junk x t kpcr ms l table limit ss :
  memfrs_check_struct_info x = true -> kpcr <> 0 -> nt_kernel_base x <> 0 ->
  g_globalvar_info x = Some (J_object ms) -> symbols ms = Ret l ->
  gvar_address x "KiServiceTable" = Ret (Some table) -> gvar_address x "KiServiceLimit" = Ret (Some limit) ->
  vword 2 t limit = Some (Z.of_nat (length ss)) -> services_from x t l table 0 ss ->
  exists es, memfrs_enum_ssdt_list junk find x kpcr (Some t) = Ret (inl es, x) /\ listed x l 0 ss es.
Proof.
  intros Hx Hk Hb Hg Hs Ht Hlim Hc Hss. unfold memfrs_enum_ssdt_list, kernel_base, ssdt_entries.
  rewrite Hx, (proj2 (Z.eqb_neq _ _) Hk), (proj2 (Z.eqb_neq _ _) Hb). simpl negb. cbv iota. cbn [mbind res_bind].
  rewrite (proj2 (Z.eqb_neq _ _) Hb), Ht. cbn [mbind res_bind]. rewrite Hlim. cbn [mbind res_bind].
  assert (limit = u64 limit) as Eu.
  { unfold gvar_address in Hlim. destruct (memfrs_q_globalvar x _); [|done].
    apply res_bind_inv in Hlim as (o & _ & E). injection E as <-. unfold u64. by rewrite Z.mod_mod. }
  rewrite Eu in Hc |- *. rewrite (rw_word_mapped _ _ _ _ _ Hc). simpl negb. cbv iota. rewrite Nat2Z.id.
  destruct (ssdt_loop_services find x t ms l table Hb Hg Hs ss 0 (MemfrsWalk.junk_word junk 4) Hss) as (es & -> & He).
  by exists es.
Qed.

(** A kernel at 0x10000 whose table has two services. *)
Definition demo_gvar (offset : Z) : option json := Some (J_array [Some (J_int offset)]).
Definition demo_kernel_vars : list (string * option json) :=
  [("KiServiceTable", demo_gvar 0x100); ("KiServiceLimit", demo_gvar 0x200);
   ("NtClose", demo_gvar 0x80); ("NtOpen", demo_gvar 0x300)]%string.
Definition demo_kernel : memfrs := Memfrs 0 (Some (J_object [])) (Some (J_object demo_kernel_vars)) 0x10000.
Definition demo_kernel_target : target :=
  Target flat_env (sd 2 (sd 4 (sd 4 ∅ 0x10100 (service_word 0x10100 (0x10080, 0)))
                             0x10104 (service_word 0x10100 (0x10300, 3))) 0x10200 2).

Lemma enum_ssdt_lists_services_witness :
  exists es, memfrs_enum_ssdt_list (fun _ => 7) first_symbol demo_kernel 0x100 (Some demo_kernel_target) = Ret (inl es, demo_kernel) /\
    sd_address <$> es = [0x10080; 0x10300].
Proof.
  destruct (enum_ssdt_lists_services first_symbol (fun _ => 7) demo_kernel demo_kernel_target 0x100 demo_kernel_vars
    [(0x100, "KiServiceTable"); (0x200, "KiServiceLimit"); (0x80, "NtClose"); (0x300, "NtOpen")]%string 0x10100 0x10200
    [(0x10080, 0); (0x10300, 3)]) as (es & E & Hl).
  1-8: solve [discriminate | vm_compute; reflexivity].
  - repeat split; try (vm_compute; reflexivity); try (simpl; lia).
    + exists "NtClose"%string. vm_compute. right. right. left.
    + exists "NtOpen"%string. vm_compute. right. right. right. left.
  - exists es. split; [exact E|]. destruct es as [|e1 [|e2 [|]]]; simpl in Hl; try tauto.
    destruct Hl as (_ & H1 & _ & _ & _ & H2 & _). change ([sd_address e1; sd_address e2] = [0x10080; 0x10300]). by rewrite H1, H2.
Defined.

(** ** The identifier of the kernel image *)

Lemma hex_number_length ten n : forall v, length (hex_number ten n v) = n.
Proof. induction n as [|n IH]; intros v; [done|]. cbn [hex_number]. rewrite length_app, IH. simpl. lia. Qed.

Lemma hex_short_length ten v : 0 <= v < 2 ^ 32 -> (1 <= length (hex_short ten v) <= 8)%nat.
Proof.
  intros Hv. unfold hex_short. rewrite hex_number_length. destruct (Z.eqb_spec v 0) as [->|Hn]; [simpl; lia|].
  pose proof (Z.log2_nonneg v). assert (Z.log2 v < 32) by (apply Z.log2_lt_pow2; lia).
  pose proof (Z.div_lt_upper_bound (Z.log2 v) 4 8 ltac:(lia) ltac:(lia)). pose proof (Z.div_pos (Z.log2 v) 4). lia.
Qed.

Lemma rw_word_range n t a old : 0 <= (rw_word n t (u64 a) old).2 < 256 ^ Z.of_nat n.
Proof.
  unfold rw_word. pose proof (rw_debug_range t (u64 a) (le_bytes n old) (u64_range _) (le_bytes_range _ _)) as H.
  pose proof (rw_debug_length t (u64 a) (le_bytes n old) (u64_range _)) as Hl. rewrite le_bytes_length in Hl.
  destruct (cpu_memory_rw_debug _ _ _ _) as [r b]. simpl in *. rewrite <- Hl. by apply word_of_range.
Qed.

(** Whatever the memory holds, the identifier is 33 to 40 characters long, and fits in its
    80 bytes. *)
Theorem parse_GUID_fits junk t addr : (33 <= length (parse_GUID junk t addr) <= 40)%nat.
Proof.
  unfold parse_GUID. cbv zeta. rewrite !length_app, !hex_number_length.
  assert (forall l, length (l ≫= hex_number 65 2) = (2 * length l)%nat) as Hb.
  { intros l. induction l as [|b l IH]; [done|].
    change (length (hex_number 65 2 b ++ (l ≫= hex_number 65 2)) = (2 * S (length l))%nat).
    rewrite length_app, hex_number_length, IH. lia. }
  rewrite Hb, rw_debug_length, junk_bytes_length by apply u64_range.
  pose proof (hex_short_length 65 _ (rw_word_range 4 t (addr + 16) (MemfrsWalk.junk_word junk 4))). lia.
Qed.
