(* ===== verification/MemfrsHandles.v ===== *)
(** * Memory forensics: handles of processes

    src/ext/memfrs/handles.c: the handle table of a process, of up to three levels,
    the object behind each entry, its type, which Windows obfuscates, and a detail
    that depends on the type. Conventions are those of [MemfrsWalk]. The static
    variable g_body_to_object_header is an argument [body]. *)

From S2P Require Import Prelude X86 GuestMem Memfrs MemfrsWalk MemfrsList.
From stdpp Require Import strings.

#[local] Open Scope Z_scope.

Record handles_node_st : Type := HandleNode {
  handle_table_entry_index : Z; handle_table_entry_address : Z; grantedaccess : Z;
  h_type : list Z; h_detail : list Z
}.

Record handles_st : Type := Handles {
  h_CR3 : Z; h_eprocess : Z; h_pid : Z; imagename : list Z; handles_node : list handles_node_st
}.

Inductive PARSING_HANDLE_TYPE : Type :=
| PARSING_HANDLE_TYPE_ALL
| PARSING_HANDLE_TYPE_CR3
| PARSING_HANDLE_TYPE_EPROCESS
| PARSING_HANDLE_TYPE_PID
| PARSING_HANDLE_TYPE_TYPE
| PARSING_HANDLE_TYPE_FULL_DETAIL
| PARSING_HANDLE_TYPE_DETAIL.

Definition OBJECT_HEADER_CREATOR_INFO : Z := 0x20.
Definition OBJECT_HEADER_NAME_INFO : Z := 0x20.

(** A number printed with a sign, in ten digits at most. *)
Fixpoint decimal (fuel : nat) (v : Z) : list Z :=
  match fuel with
  | O => []
  | S fuel' => (if v <? 10 then [] else decimal fuel' (v / 10)) ++ [48 + v mod 10]
  end.

Definition signed_decimal (v : Z) : list Z := if v <? 0 then 45 :: decimal 10 (- v) else decimal 10 v.

(** A text printed into a block of [n] bytes. *)
Definition sprintf (n : nat) (s : list Z) : res (list Z) := if (n <=? length s)%nat then UB else Ret s.

Definition backslash : list Z := [92].

(** Whether a text contains another. *)
Fixpoint strstr (s pattern : list Z) : bool :=
  starts pattern s || match s with [] => false | _ :: s' => strstr s' pattern end.

Section Handles.
Context (ts : json -> string) (junk : Z -> Z).

#[local] Abbreviation junk_bytes := (junk_bytes junk).
#[local] Abbreviation junk_word := (junk_word junk).

(** An offset variable that holds [init] unless the field is described. *)
Definition nested (x : memfrs) (struc name : string) (init : Z) : res Z :=
  o ← memfrs_get_nested_field_offset ts x struc [name]; Ret (default init o).

Definition parse_unicode_str_ptr (x : memfrs) (t : target) (ustr_ptr : Z) : res (option (list Z)) :=
  let uninitialised := s32 (junk_word 4) in
  o ← nested x "_UNICODE_STRING" "MaximumLength" uninitialised;
  let max_length := (rw_word 2 t (u64 (ustr_ptr + o)) (junk_word 2)).2 in
  o ← nested x "_UNICODE_STRING" "Length" uninitialised;
  let length := (rw_word 2 t (u64 (ustr_ptr + o)) (junk_word 2)).2 in
  if negb (unicode_ok length max_length) then Ret None
  else
    o ← nested x "_UNICODE_STRING" "Buffer" uninitialised;
    let buf_ptr := (rw_word 8 t (u64 (ustr_ptr + o)) (junk_word 8)).2 in
    unicode_text junk t max_length buf_ptr.

(** ** Details of an object *)

Definition extract_entry_name_info_detail (x : memfrs) (t : target) (entry c : Z) : res (option (list Z)) :=
  o ← nested x "_OBJECT_HEADER_NAME_INFO" "Name" 0;
  r ← struct_word ts 1 x t c (junk_word 1) entry false "_OBJECT_HEADER" ["#InfoMask"]%string;
  let infomask := r.2 in
  if Z.testbit infomask 1 then
    let info := if Z.testbit infomask 0 then entry - OBJECT_HEADER_CREATOR_INFO - OBJECT_HEADER_NAME_INFO
                else entry - OBJECT_HEADER_NAME_INFO in
    parse_unicode_str_ptr x t (u64 (info + o))
  else Ret None.

Definition extract_process_detail (x : memfrs) (t : target) (body entry c : Z) : res (list Z) :=
  let body_ptr := u64 (entry + body) in
  r ← memfrs_get_mem_struct_content ts x t c (replicate 16 0) body_ptr false "_EPROCESS" ["#ImageFileName"]%string;
  let buf := r.2 in
  r ← struct_word ts 8 x t c (junk_word 8) body_ptr false "_EPROCESS" ["#UniqueProcessId"]%string;
  if negb (terminated buf) then UB
  else sprintf 32 (text "{" ++ c_string buf ++ text "}({" ++ hex_short 97 r.2 ++ text "})").

(** The path of a key, from its end: [detail] ends with a backslash, and
    [total_key_length] is its length, a number of 16 bits. A length that wraps
    makes the copy of the old path leave the new block. *)
Fixpoint registry_loop (fuel : nat) (x : memfrs) (t : target) (c kcb_ptr kcb_parent_ptr key_length : Z) (detail : list Z)
  : res (list Z) :=
  match fuel with
  | O => UB
  | S fuel' =>
      r ← struct_word ts 8 x t c kcb_parent_ptr kcb_ptr false "_CM_KEY_CONTROL_BLOCK" ["*ParentKcb"]%string;
      if r.1 =? -1 then Ret detail
      else
        let kcb_parent_ptr := r.2 in
        n ← memfrs_get_mem_struct_content ts x t c (replicate 256 0) kcb_ptr false "_CM_KEY_CONTROL_BLOCK"
              ["*NameBlock"; "#Name"]%string;
        if n.1 =? -1 then Ret detail
        else
          l ← struct_word ts 2 x t c key_length kcb_ptr false "_CM_KEY_CONTROL_BLOCK" ["*NameBlock"; "#NameLength"]%string;
          let key_length := l.2 in
          if (256 <? key_length) || (2 ^ 16 <=? Z.of_nat (length detail) + key_length + 1) then UB
          else
            registry_loop fuel' x t c kcb_parent_ptr kcb_parent_ptr key_length
              (take (Z.to_nat key_length) n.2 ++ backslash ++ detail)
  end.

(** Every round makes the path longer, and it stays below 2 ^ 16. *)
Definition REGISTRY_FUEL : nat := Z.to_nat (2 ^ 16 + 1).

Definition extract_registry_detail (x : memfrs) (t : target) (body entry c : Z) : res (option (list Z)) :=
  let body_ptr := u64 (entry + body) in
  r ← struct_word ts 8 x t c (junk_word 8) body_ptr false "_CM_KEY_BODY" ["*KeyControlBlock"]%string;
  detail ← registry_loop REGISTRY_FUEL x t c r.2 (junk_word 8) (junk_word 2) [];
  Ret (if bool_decide (detail = []) then None else Some (removelast detail)).

Definition extract_thread_detail (x : memfrs) (t : target) (body entry c : Z) : res (list Z) :=
  let body_ptr := u64 (entry + body) in
  p ← struct_word ts 4 x t c (junk_word 4) body_ptr false "_ETHREAD" ["#Cid"; "#UniqueProcess"]%string;
  if p.1 =? -1 then Ret []
  else
    th ← struct_word ts 4 x t c (junk_word 4) body_ptr false "_ETHREAD" ["#Cid"; "#UniqueThread"]%string;
    if th.1 =? -1 then Ret []
    else sprintf 33 (text "{TID " ++ signed_decimal (s32 p.2) ++ text " PID " ++ signed_decimal (s32 th.2) ++ text "}").

Definition extract_file_detail (x : memfrs) (t : target) (body entry c : Z) : res (option (list Z)) :=
  o ← nested x "_FILE_OBJECT" "FileName" 0;
  let body_ptr := u64 (entry + body) in
  d ← struct_word ts 8 x t c (junk_word 8) body_ptr false "_DEVICE_OBJECT" ["*DriverObject"]%string;
  let device := u64 (d.2 - body) in
  i ← struct_word ts 1 x t c (junk_word 1) device false "_OBJECT_HEADER" ["#InfoMask"]%string;
  device_detail ← (if i.1 =? -1 then Ret None else extract_entry_name_info_detail x t device c);
  file_detail ← parse_unicode_str_ptr x t (u64 (body_ptr + o));
  Ret (match device_detail with
       | Some d => Some (backslash ++ text "Device" ++ backslash ++ c_string d ++ c_string (default [] file_detail))
       | None => file_detail
       end).

(** ** The object behind an entry *)

(** The kernel's base, looked for if it is not known, is kept; it may be 0. The
    variable is at -1 from it when it is not described. *)
Definition gvar_ptr (x : memfrs) (name : string) : res Z :=
  o ← memfrs_gvar_offset (memfrs_q_globalvar x name); Ret (u64 (o + nt_kernel_base x)).

(** The index of the type, from that of the header, the cookie of the system and the
    address of the header. *)
Definition true_type_index (type_index cookie entry : Z) : Z :=
  u8 (Z.lxor (Z.lxor type_index cookie) (Z.shiftr (entry .& 0x0000ffffffffffff) 8)).

(** A detail that is NULL becomes the empty text. *)
Definition object_detail (x : memfrs) (t : target) (body entry c : Z) (name : list Z) : res (list Z) :=
  let opt (r : res (option (list Z))) := d ← r; Ret (c_string (default [] d)) in
  if bool_decide (name = text "File") then opt (extract_file_detail x t body entry c)
  else if bool_decide (name = text "Thread") then extract_thread_detail x t body entry c
  else if bool_decide (name = text "Key") then opt (extract_registry_detail x t body entry c)
  else if bool_decide (name = text "Process") then extract_process_detail x t body entry c
  else opt (extract_entry_name_info_detail x t entry c).

(** The type and the detail; [None] when the header cannot be read. A type without
    a name is a null pointer used. *)
Definition describe (x : memfrs) (t : target) (body entry c : Z) : res (option (list Z * list Z)) :=
  o ← nested x "_OBJECT_TYPE" "Name" 0;
  table ← gvar_ptr x "ObTypeIndexTable";
  cookie_ptr ← gvar_ptr x "ObHeaderCookie";
  let cookie := (rw_word 1 t cookie_ptr (junk_word 1)).2 in
  r ← struct_word ts 1 x t c (junk_word 1) entry false "_OBJECT_HEADER" ["#TypeIndex"]%string;
  if r.1 =? -1 then Ret None
  else
    let i := true_type_index r.2 cookie entry in
    let object_type_ptr := (rw_word 8 t (u64 (table + 8 * i)) (junk_word 8)).2 in
    name ← parse_unicode_str_ptr x t (u64 (object_type_ptr + o));
    match name with
    | None => UB
    | Some name =>
        detail ← object_detail x t body entry c (c_string name);
        Ret (Some (c_string name, detail))
    end.

Definition do_table_entry (x : memfrs) (t : target) (body entry_index entry access c : Z)
  : res (list handles_node_st * memfrs) :=
  x ← kernel_base junk x t;
  d ← describe x t body entry c;
  Ret (match d with
       | None => []
       | Some (type, detail) => [HandleNode (entry_index * 4) entry access type detail]
       end, x).

Definition entry_is_legal (x : memfrs) (t : target) (entry c : Z) : res bool :=
  let field n name := struct_word ts n x t c (junk_word n) entry false "_OBJECT_HEADER" [name] in
  let ok (r : Z * Z) (bad : bool) := negb (negb (r.1 =? -1) && bad) in
  p ← field 4%nat "#PointerCount"%string;
  if negb (ok p ((0x1000000 <? s32 p.2) || (s32 p.2 <? 0))) then Ret false
  else
    h ← field 4%nat "#HandleCount"%string;
    if negb (ok h ((0x1000 <? s32 h.2) || (s32 h.2 <? 0))) then Ret false
    else
      i ← field 1%nat "#InfoMask"%string;
      if negb (ok i (0x7f <? i.2)) then Ret false
      else
        y ← field 1%nat "#TypeIndex"%string;
        Ret (ok y ((53 <? y.2) || (y.2 <? 1))).

(** ** The tables *)

(** The address of the header in an entry. *)
Definition entry_pointer (w : Z) : Z := u64 (Z.shiftr (w .& 0xfffffffffff00000) 16 + 0xffff000000000000).

(** [n] entries after the one at [level0_ptr], the first of them the [i]th; the two
    variables are kept from one entry to the next. *)
Fixpoint level_0_loop (n : nat) (x : memfrs) (t : target) (body c level1_index i level0_ptr entry access : Z)
  : res (list handles_node_st * memfrs) :=
  match n with
  | O => Ret ([], x)
  | S n' =>
      let level0_ptr := u64 (level0_ptr + 0x10) in
      let entry := entry_pointer (rw_word 8 t level0_ptr entry).2 in
      legal ← entry_is_legal x t entry c;
      if legal : bool then
        let access := (rw_word 8 t (u64 (level0_ptr + 8)) access).2 .& 0x1ffffff in
        '(node, x) ← do_table_entry x t body (i + level1_index * 256) entry access c;
        '(nodes, x) ← level_0_loop n' x t body c level1_index (i + 1) level0_ptr entry access;
        Ret (node ++ nodes, x)
      else level_0_loop n' x t body c level1_index (i + 1) level0_ptr entry access
  end.

Definition do_table_level_0 (x : memfrs) (t : target) (body c level1_index level0_ptr : Z) : res (list handles_node_st * memfrs) :=
  level_0_loop 256 x t body c level1_index 1 level0_ptr (junk_word 8) (junk_word 8).

(** The tables in a table of tables from [ptr] on, up to [n] of them. *)
Fixpoint upper_loop (n : nat) (x : memfrs) (t : target) (body c first i ptr old : Z) : res (list handles_node_st * memfrs) :=
  match n with
  | O => Ret ([], x)
  | S n' =>
      let '(ret, lower) := rw_word 8 t ptr old in
      if (ret =? -1) || (lower =? 0) then Ret ([], x)
      else
        '(nodes, x) ← do_table_level_0 x t body c (i + first) lower;
        '(rest, x) ← upper_loop n' x t body c first (i + 1) (u64 (ptr + 8)) lower;
        Ret (nodes ++ rest, x)
  end.

Definition do_table_level_1 (x : memfrs) (t : target) (body c level2_index level1_ptr : Z) : res (list handles_node_st * memfrs) :=
  upper_loop 512 x t body c (level2_index * 256) 0 level1_ptr (junk_word 8).

(** The loop has no bound of its own: [fuel] rounds of it. *)
Definition do_table_level_2 (fuel : nat) (x : memfrs) (t : target) (body c level2_ptr : Z) : res (list handles_node_st * memfrs) :=
  upper_loop fuel x t body c 0 0 level2_ptr (junk_word 8).

Definition do_table (fuel : nat) (x : memfrs) (t : target) (body c tablecode : Z) : res (list handles_node_st * memfrs) :=
  let table_level := tablecode .& 3 in
  let tablecode_ptr := Z.ldiff tablecode 3 in
  if table_level =? 0 then do_table_level_0 x t body c 0 tablecode_ptr
  else if table_level =? 1 then do_table_level_1 x t body c 0 tablecode_ptr
  else do_table_level_2 fuel x t body c tablecode_ptr.

(** ** All processes *)

Definition wanted (type : PARSING_HANDLE_TYPE) (wish cr3 eprocess_ptr processid : Z) : bool :=
  match type with
  | PARSING_HANDLE_TYPE_ALL => true
  | PARSING_HANDLE_TYPE_CR3 => wish =? cr3
  | PARSING_HANDLE_TYPE_EPROCESS => wish =? eprocess_ptr
  | PARSING_HANDLE_TYPE_PID => wish =? processid
  | _ => false
  end.

(** At most [n] processes; the variables are kept from one to the next. *)
Fixpoint handles_loop (fuel n : nat) (x : memfrs) (t : target) (body offset : Z) (type : PARSING_HANDLE_TYPE) (wish first e : Z)
  (cr3 pid tablecode : Z) (buf : list Z) : res (list handles_st * memfrs) :=
  match n with
  | O => Ret ([], x)
  | S n' =>
      r ← struct_word ts 8 x t 0 cr3 e false "_EPROCESS" ["#Pcb"; "#DirectoryTableBase"]%string;
      let cr3 := r.2 in
      r ← memfrs_get_mem_struct_content ts x t 0 buf e false "_EPROCESS" ["#ImageFileName"]%string;
      let buf := r.2 in
      r ← struct_word ts 8 x t 0 pid e false "_EPROCESS" ["#UniqueProcessId"]%string;
      let pid := r.2 in
      '(entry, tablecode, x) ←
        (if negb (cr3 =? 0) && wanted type wish cr3 e pid then
           r ← struct_word ts 8 x t cr3 tablecode e false "_EPROCESS" ["*ObjectTable"; "#TableCode"]%string;
           '(nodes, x) ← do_table fuel x t body cr3 r.2;
           Ret ([Handles cr3 e pid buf nodes], Z.ldiff r.2 3, x)
         else Ret ([], tablecode, x));
      if bool_decide (n' = O) then Ret (entry, x)
      else
        r ← struct_word ts 8 x t 0 e e false "_EPROCESS" ["#ActiveProcessLinks"; "*Blink"]%string;
        let e := u64 (r.2 - offset) in
        if e =? first then Ret (entry, x)
        else
          '(rest, x) ← handles_loop fuel n' x t body offset type wish first e cr3 pid tablecode buf;
          Ret (entry ++ rest, x)
  end.

(** The result, and the two variables that are kept; [body] is what the last call left. *)
Definition memfrs_enum_proc_handles (fuel : nat) (x : memfrs) (body : Z) (type : PARSING_HANDLE_TYPE) (wish kpcr_ptr : Z)
  (cpu : option target) : res ((list handles_st + MEMFRS_ERRNO) * memfrs * Z) :=
  if negb (memfrs_check_struct_info x) then Ret (inr MEMFRS_ERR_NOT_LOADED_STRUCTURE, x, body)
  else if negb (memfrs_check_globalvar_info x) then Ret (inr MEMFRS_ERR_NOT_LOADED_GLOBAL_STRUCTURE, x, body)
  else if kpcr_ptr =? 0 then Ret (inr MEMFRS_ERR_NOT_FOUND_KPCR, x, body)
  else
    match cpu with
    | None => Ret (inr MEMFRS_ERR_INVALID_CPU, x, body)
    | Some t =>
        k ← struct_word ts 8 x t 0 (junk_word 8) kpcr_ptr false "_KPCR" ["#Prcb"; "#CurrentThread"]%string;
        p ← struct_word ts 8 x t 0 (junk_word 8) k.2 false "_KTHREAD" ["#Process"]%string;
        offset ← nested x "_EPROCESS" "ActiveProcessLinks" 0;
        body ← nested x "_OBJECT_HEADER" "Body" body;
        '(l, x) ← handles_loop fuel MAX_PROCESSES x t body offset type wish p.2 p.2
                    (junk_word 8) (junk_word 8) (junk_word 8) (junk_bytes 15);
        Ret (inl l, x, body)
    end.

(** The handles of a type or with a detail. The name of the process is printed
    into a block of 15 bytes. *)
Definition node_wanted (type : PARSING_HANDLE_TYPE) (wish : list Z) (n : handles_node_st) : bool :=
  match type with
  | PARSING_HANDLE_TYPE_TYPE => bool_decide (h_type n = wish)
  | PARSING_HANDLE_TYPE_FULL_DETAIL => bool_decide (h_detail n = wish)
  | PARSING_HANDLE_TYPE_DETAIL => strstr (h_detail n) wish
  | _ => false
  end.

Fixpoint detail_loop (type : PARSING_HANDLE_TYPE) (wish : list Z) (hs : list handles_st) : res (list handles_st) :=
  match hs with
  | [] => Ret []
  | h :: hs' =>
      let nodes := filter (fun n => node_wanted type wish n = true) (handles_node h) in
      if bool_decide (nodes = []) then detail_loop type wish hs'
      else if negb (terminated (imagename h)) then UB
      else
        rest ← detail_loop type wish hs';
        Ret (Handles (h_CR3 h) (h_eprocess h) (h_pid h) (c_string (imagename h)) nodes :: rest)
  end.

Definition memfrs_enum_proc_handles_detail (fuel : nat) (x : memfrs) (body : Z) (type : PARSING_HANDLE_TYPE) (wish : list Z)
  (kpcr_ptr : Z) (cpu : option target) : res ((list handles_st + MEMFRS_ERRNO) * memfrs * Z) :=
  '(r, x, body) ← memfrs_enum_proc_handles fuel x body PARSING_HANDLE_TYPE_ALL 0 kpcr_ptr cpu;
  match r with
  | inr e => Ret (inr e, x, body)
  | inl hs => hs ← detail_loop type wish hs; Ret (inl hs, x, body)
  end.

(** ** The types of objects *)

Fixpoint types_loop (n : nat) (x : memfrs) (t : target) (table i old : Z) (len ptr : Z) : res (list (list Z)) :=
  match n with
  | O => Ret []
  | S n' =>
      let '(ret, object_type_ptr) := rw_word 8 t (u64 (table + 8 * i)) old in
      if negb (ret =? 0) then types_loop n' x t table (i + 1) object_type_ptr len ptr
      else
        l ← struct_word ts 2 x t 0 len object_type_ptr false "_OBJECT_TYPE" ["#Name"; "#Length"]%string;
        let len := if l.1 =? -1 then 0 else l.2 in
        b ← struct_word ts 8 x t 0 ptr object_type_ptr false "_OBJECT_TYPE" ["#Name"; "*Buffer"]%string;
        let ptr := if b.1 =? -1 then 0 else b.2 in
        let '(ret, buf) := memfrs_get_virmem_content t 0 ptr (junk_bytes 256) in
        if negb (ptr =? 0) && negb (ret =? -1) then
          name ← path_text len buf;
          rest ← types_loop n' x t table (i + 1) object_type_ptr len ptr;
          Ret (c_string name :: rest)
        else types_loop n' x t table (i + 1) object_type_ptr len ptr
  end.

(** [inr None] is NULL without an error number. *)
Definition memfrs_enum_handles_types (x : memfrs) (kpcr_ptr : Z) (cpu : option target)
  : res ((list (list Z) + option MEMFRS_ERRNO) * memfrs) :=
  if negb (memfrs_check_struct_info x) then Ret (inr (Some MEMFRS_ERR_NOT_LOADED_STRUCTURE), x)
  else if negb (memfrs_check_globalvar_info x) then Ret (inr (Some MEMFRS_ERR_NOT_LOADED_GLOBAL_STRUCTURE), x)
  else if kpcr_ptr =? 0 then Ret (inr (Some MEMFRS_ERR_NOT_FOUND_KPCR), x)
  else
    match cpu with
    | None => Ret (inr (Some MEMFRS_ERR_INVALID_CPU), x)
    | Some t =>
        o ← memfrs_get_nested_field_offset ts x "_OBJECT_TYPE" ["Name"]%string;
        match o with
        | None => Ret (inr None, x)
        | Some _ =>
            x ← kernel_base junk x t;
            table ← gvar_ptr x "ObTypeIndexTable";
            l ← types_loop 256 x t table 0 (junk_word 8) (junk_word 2) (junk_word 8);
            Ret (inl l, x)
        end
    end.

End Handles.

(** ** Encodings *)

(** An entry has the address of a header in the upper half of the address space,
    without its top and its low four bits, above twenty bits of its own. *)
Lemma entry_pointer_encoded k low : 0 <= k < 2 ^ 44 -> 0 <= low < 2 ^ 20 ->
  entry_pointer (k * 2 ^ 20 + low) = 0xffff000000000000 + 16 * k.
Proof.
  intros Hk Hl. unfold entry_pointer.
  assert ((k * 2 ^ 20 + low) .& 0xfffffffffff00000 = k * 2 ^ 20) as ->.
  { change 0xfffffffffff00000 with (Z.shiftl (Z.ones 44) 20).
    apply Z.bits_inj'. intros n Hn. rewrite Z.land_spec, Z.shiftl_spec, Z.mul_pow2_bits by lia.
    destruct (Z_lt_ge_dec n 20).
    - rewrite (Z.testbit_neg_r (Z.ones 44)), (Z.testbit_neg_r k) by lia. by rewrite andb_false_r.
    - replace n with ((n - 20) + 20) at 1 by lia. rewrite <- Z.div_pow2_bits by lia.
      rewrite Z.div_add_l, (Z.div_small low), Z.add_0_r by lia. rewrite Z.testbit_ones by lia.
      destruct (Z_lt_ge_dec (n - 20) 44) as [H|H].
      + rewrite (proj2 (Z.leb_le _ _)), (proj2 (Z.ltb_lt _ _)) by lia. by rewrite andb_true_r.
      + rewrite (proj2 (Z.ltb_ge _ _)), !andb_false_r by lia. symmetry.
        apply Z.bits_above_log2; [lia|]. destruct (decide (k = 0)) as [->|]; [simpl; lia|].
        apply Z.log2_lt_pow2; [lia|]. eapply Z.lt_le_trans; [apply Hk|]. apply Z.pow_le_mono_r; lia. }
  rewrite Z.shiftr_div_pow2 by lia. replace (k * 2 ^ 20) with (16 * k * 2 ^ 16) by lia.
  rewrite Z.div_mul by lia. rewrite u64_small by lia. lia.
Qed.

(** The index of a type as the system stores it in a header. *)
Definition hidden_type_index (i cookie entry : Z) : Z := Z.lxor (Z.lxor i cookie) (byte_of entry 1).

(** The code finds the index the system has hidden. *)
Lemma true_type_index_hidden i cookie entry : 0 <= i < 256 ->
  true_type_index (hidden_type_index i cookie entry) cookie entry = i.
Proof.
  intros Hi. unfold true_type_index, hidden_type_index, u8.
  change 256 with (2 ^ 8). rewrite <- Z.land_ones by lia. apply Z.bits_inj'. intros n Hn.
  rewrite Z.land_spec, !Z.lxor_spec, Z.shiftr_spec, Z.land_spec by lia. unfold byte_of.
  change 0xffffffffffff with (Z.ones 48). change 255 with (Z.ones 8). rewrite ?Z.land_spec, ?Z.shiftr_spec by lia.
  rewrite !Z.testbit_ones by lia. destruct (Z_lt_ge_dec n 8).
  - rewrite !(proj2 (Z.leb_le _ _)), !(proj2 (Z.ltb_lt _ _)) by lia. simpl. rewrite !andb_true_r.
    change (8 * 1) with 8. by destruct (Z.testbit i n), (Z.testbit cookie n), (Z.testbit entry (n + 8)).
  - rewrite (proj2 (Z.ltb_ge n 8)), !andb_false_r by lia. symmetry.
    apply Z.bits_above_log2; [lia|]. destruct (decide (i = 0)) as [->|]; [simpl; lia|].
    apply Z.log2_lt_pow2; [lia|]. eapply Z.lt_le_trans; [apply Hi|]. change 256 with (2 ^ 8). apply Z.pow_le_mono_r; lia.
Qed.

(** ** The tables *)

Section Tables.
Context (ts : json -> string) (junk : Z -> Z) (x : memfrs) (t : target) (body c : Z).
Context (Hx : nt_kernel_base x <> 0).

(** What the [i]th slot of the table at [p] holds, read on its own: nothing for an entry
    that is not legal or whose header cannot be read; [None] when the slot is not mapped
    or the code does not return. *)
Definition slot_nodes (p level1_index i : Z) : option (list handles_node_st) :=
  w ← vword 8 t (u64 (p + 16 * i));
  match entry_is_legal ts junk x t (entry_pointer w) c with
  | Ret false => Some []
  | Ret true =>
      g ← vword 8 t (u64 (u64 (p + 16 * i) + 8));
      match describe ts junk x t body (entry_pointer w) c with
      | Ret None => Some []
      | Ret (Some (type, detail)) =>
          Some [HandleNode (4 * (i + level1_index * 256)) (entry_pointer w) (g .& 0x1ffffff) type detail]
      | _ => None
      end
  | _ => None
  end.

(** The slots 1 to 256. *)
Definition table_nodes (p level1_index : Z) : option (list handles_node_st) :=
  mjoin <$> mapM (slot_nodes p level1_index) (seqZ 1 256).

Lemma level_0_loop_slots n : forall p l1 i entry access nss,
  mapM (slot_nodes p l1) (seqZ i (Z.of_nat n)) = Some nss ->
  level_0_loop ts junk n x t body c l1 i (u64 (p + 16 * (i - 1))) entry access = Ret (mjoin nss, x).
Proof.
  induction n as [|n IH]; intros p l1 i entry access nss E; [by injection E as <-|].
  rewrite seqZ_cons in E by lia. replace (Z.pred (Z.of_nat (S n))) with (Z.of_nat n) in E by lia.
  replace (Z.succ i) with (i + 1) in E by lia. simpl in E.
  destruct (slot_nodes p l1 i) as [ns|] eqn:En; [|done]. simpl in E.
  destruct (mapM _ _) as [rest|] eqn:Er; [|done]. injection E as <-.
  cbn [level_0_loop mjoin list_join].
  assert (u64 (u64 (p + 16 * (i - 1)) + 16) = u64 (p + 16 * i)) as ->
    by (unfold u64; rewrite Zplus_mod_idemp_l; f_equal; lia).
  unfold slot_nodes in En. destruct (vword 8 t (u64 (p + 16 * i))) as [w|] eqn:Ew; [|done]. simpl in En.
  rewrite (rw_word_mapped _ _ _ _ _ Ew). cbn [snd].
  destruct (entry_is_legal ts junk x t (entry_pointer w) c) as [legal| |]; try done. cbn [mbind res_bind].
  assert (forall e a, level_0_loop ts junk n x t body c l1 (i + 1) (u64 (p + 16 * i)) e a = Ret (mjoin rest, x)) as Hrest.
  { intros e a. rewrite <- (IH p l1 (i + 1) e a rest Er). do 2 f_equal. lia. }
  destruct legal; [|injection En as <-; apply Hrest].
  destruct (vword 8 t (u64 (u64 (p + 16 * i) + 8))) as [g|] eqn:Eg; [|done]. simpl in En.
  rewrite (rw_word_mapped _ _ _ _ _ Eg). cbn [snd]. unfold do_table_entry, kernel_base.
  rewrite (proj2 (Z.eqb_neq _ _) Hx). cbn [mbind res_bind].
  destruct (describe ts junk x t body (entry_pointer w) c) as [[[type detail]|]| |]; try done; injection En as <-;
    cbn [mbind res_bind]; rewrite Hrest; cbn [mbind res_bind]; [|done]. by rewrite (Z.mul_comm 4).
Qed.

Lemma level_0_nodes p l1 ns : table_nodes p l1 = Some ns -> 0 <= p < 2 ^ 64 ->
  do_table_level_0 ts junk x t body c l1 p = Ret (ns, x).
Proof.
  unfold table_nodes. intros E Hp. destruct (mapM _ _) as [nss|] eqn:Em; [|done]. injection E as <-.
  pose proof (level_0_loop_slots 256 p l1 1 (MemfrsWalk.junk_word junk 8) (MemfrsWalk.junk_word junk 8) nss Em) as H.
  replace (p + 16 * (1 - 1)) with p in H by lia. rewrite u64_small in H by lia. exact H.
Qed.

(** A table of tables at [p], from its [i]th slot on: the tables of handles in it, up to one that
    is 0 or not mapped, or to the end. *)
Fixpoint tables_at (n : nat) (p i : Z) (lows : list Z) : Prop :=
  match n, lows with
  | O, [] => True
  | S n', [] => vword 8 t (u64 (p + 8 * i)) = None \/ vword 8 t (u64 (p + 8 * i)) = Some 0
  | S n', low :: lows' => low <> 0 /\ vword 8 t (u64 (p + 8 * i)) = Some low /\ tables_at n' p (i + 1) lows'
  | O, _ :: _ => False
  end.

Fixpoint tables_nodes (i : Z) (lows : list Z) : option (list handles_node_st) :=
  match lows with
  | [] => Some []
  | low :: lows' => ns ← table_nodes low i; rest ← tables_nodes (i + 1) lows'; Some (ns ++ rest)
  end.

Lemma upper_loop_tables n : forall p first i lows old ns, tables_at n p i lows -> tables_nodes (i + first) lows = Some ns ->
  upper_loop ts junk n x t body c first i (u64 (p + 8 * i)) old = Ret (ns, x).
Proof.
  induction n as [|n IH]; intros p first i lows old ns Ht En.
  { destruct lows; [|done]. by injection En as <-. }
  cbn [upper_loop]. destruct lows as [|low lows].
  - injection En as <-. pose proof (rw_word_vword t 8 (u64 (p + 8 * i)) old (u64_range _)) as H.
    destruct Ht as [Ht|Ht]; rewrite Ht in H; [|by rewrite H].
    destruct (rw_word 8 t _ old) as [r w]. simpl in H. by subst r.
  - destruct Ht as (H0 & Hv & Ht). rewrite (rw_word_mapped _ _ _ _ _ Hv).
    rewrite (proj2 (Z.eqb_neq _ _) H0). change (0 =? -1) with false. simpl orb. cbv iota.
    simpl in En. destruct (table_nodes low (i + first)) as [ns1|] eqn:E1; [|done]. simpl in En.
    destruct (tables_nodes (i + first + 1) lows) as [ns2|] eqn:E2; [|done]. injection En as <-.
    rewrite (level_0_nodes _ _ _ E1) by (apply (vword_range 8 _ _ _ Hv)). cbn [mbind res_bind].
    replace (u64 (u64 (p + 8 * i) + 8)) with (u64 (p + 8 * (i + 1)))
      by (unfold u64; rewrite Zplus_mod_idemp_l; f_equal; lia).
    rewrite (IH p first (i + 1) lows low ns2 Ht); [done|]. by replace (i + 1 + first) with (i + first + 1) by lia.
Qed.
End Tables.

(** C26: the handle table of a process. From the table code, the function lists exactly
    what the slots of the table say, each read on its own, in order and with its
    handle number: the 256 slots after the first of a single table, or those of every
    table in a table of up to 512 tables, up to the first that is 0 or cannot be read.
    Every slot of these tables is mapped, and the base of the kernel is known. *)
Theorem handle_table_spec ts junk fuel x t body c code ns :
  nt_kernel_base x <> 0 -> 0 <= code < 2 ^ 64 ->
  (code .& 3 = 0 -> table_nodes ts junk x t body c (Z.ldiff code 3) 0 = Some ns ->
     do_table ts junk fuel x t body c code = Ret (ns, x)) /\
  (code .& 3 = 1 -> forall lows, tables_at t 512 (Z.ldiff code 3) 0 lows -> tables_nodes ts junk x t body c 0 lows = Some ns ->
     do_table ts junk fuel x t body c code = Ret (ns, x)).
Proof.
  intros Hx Hc. assert (0 <= Z.ldiff code 3 < 2 ^ 64) as Hr.
  { change 3 with (Z.ones 2). rewrite Z.ldiff_ones_r, Z.shiftl_mul_pow2, Z.shiftr_div_pow2 by lia.
    pose proof (Z.mul_div_le code (2 ^ 2) ltac:(lia)). pose proof (Z.div_pos code (2 ^ 2)). lia. }
  unfold do_table. split.
  - intros -> E. by apply level_0_nodes.
  - intros -> lows Ht E. change (1 =? 0) with false. change (1 =? 1) with true. cbv iota. unfold do_table_level_1.
    pose proof (upper_loop_tables ts junk x t body c Hx 512 (Z.ldiff code 3) (0 * 256) 0 lows (MemfrsWalk.junk_word junk 8) ns Ht E) as H.
    rewrite (u64_small (_ + 8 * 0)) in H by lia. by rewrite Z.add_0_r in H.
Qed.

(** A table with one handle, number 12, for an event without a name;
    physical addresses have 52 bits. *)
Definition demo_objects : memfrs :=
  Memfrs 0 (Some (J_object
    [("_OBJECT_HEADER", Some (J_object
       [("PointerCount", demo_field "long" 0 8 0); ("HandleCount", demo_field "long" 8 8 0);
        ("TypeIndex", demo_field "char" 24 1 0); ("InfoMask", demo_field "char" 26 1 0)]));
     ("_OBJECT_TYPE", Some (J_object [("Name", demo_field "_UNICODE_STRING" 16 16 0)]));
     ("_UNICODE_STRING", Some (J_object
       [("Length", demo_field "short" 0 2 0); ("MaximumLength", demo_field "short" 2 2 0);
        ("Buffer", demo_field "short" 8 8 1)]))]%string))
    (Some (J_object [("ObTypeIndexTable", demo_gvar 0x100); ("ObHeaderCookie", demo_gvar 0x80)]%string)) 0x10000.

Definition demo_handle_target : target :=
  let header := 0xffff000000000100 in
  Target flat_env
    (sd 8 (sd 8 (sd 1 (sd 1 (sd 8 (sd 4 (sd 8 (sd 4 ∅ 0x300 0x00760045) 0x20018 0x300) 0x20010 0x40004) 0x10128 0x20000)
       0x10080 9) (0xf000000000100 + 24) (hidden_type_index 5 9 header)) 0x1030 0x1000001) 0x1038 7).

Lemma handle_table_spec_witness :
  do_table (fun _ => ""%string) (fun _ => 7) 0 demo_objects demo_handle_target 48 0 0x1000 =
    Ret ([HandleNode 12 0xffff000000000100 7 [69; 118] []], demo_objects).
Proof.
  apply (proj1 (handle_table_spec (fun _ => ""%string) (fun _ => 7) 0 demo_objects demo_handle_target 48 0 0x1000
    [HandleNode 12 0xffff000000000100 7 [69; 118] []] ltac:(discriminate) ltac:(lia))); [reflexivity|].
  vm_compute. reflexivity.
Defined.

(** ** Registry keys *)

Section Registry.
Context (ts : json -> string) (x : memfrs) (t : target) (c : Z).

(** The keys from a control block up: their names, up to a block that cannot be read. *)
Inductive key_chain : Z -> list (list Z) -> Prop :=
| chain_end kcb :
    0 <= kcb < 2 ^ 64 ->
    field_opt ts 8 x t c kcb "_CM_KEY_CONTROL_BLOCK" ["*ParentKcb"]%string = Some None ->
    key_chain kcb []
| chain_key kcb parent len bs names :
    0 <= kcb < 2 ^ 64 ->
    field_word ts 8 x t c kcb "_CM_KEY_CONTROL_BLOCK" ["*ParentKcb"]%string = Some parent ->
    field_bytes ts x t c kcb "_CM_KEY_CONTROL_BLOCK" ["*NameBlock"; "#Name"]%string 256 = Some bs ->
    field_word ts 2 x t c kcb "_CM_KEY_CONTROL_BLOCK" ["*NameBlock"; "#NameLength"]%string = Some len -> len <= 256 ->
    key_chain parent names ->
    key_chain kcb (take (Z.to_nat len) bs :: names).

(** The names from the root on, each with a backslash after it. *)
Definition key_path (names : list (list Z)) : list Z := mjoin ((fun n => n ++ backslash) <$> reverse names).

Lemma key_path_cons n names rest : key_path names ++ n ++ backslash ++ rest = key_path (n :: names) ++ rest.
Proof.
  unfold key_path. rewrite reverse_cons, fmap_app, join_app. simpl. by rewrite !app_nil_r, <- !app_assoc.
Qed.

Lemma registry_loop_chain kcb names : key_chain kcb names -> forall fuel old len detail,
  (length names < fuel)%nat -> Z.of_nat (length (key_path names ++ detail)) < 2 ^ 16 ->
  registry_loop ts fuel x t c kcb old len detail = Ret (key_path names ++ detail).
Proof.
  induction 1 as [kcb Hk E|kcb parent len bs names Hk Ep Eb El Hlen Hc IH]; intros fuel old old_len detail Hf Hs;
    (destruct fuel as [|fuel]; [simpl in Hf; lia|]); cbn [registry_loop].
  - destruct (field_opt_read ts 8 x t c old kcb _ _ _ Hk E) as (r & -> & Hr). cbn [mbind res_bind]. by rewrite Hr.
  - rewrite (field_word_read _ _ _ _ _ _ _ _ _ _ Hk Ep). cbn [mbind res_bind fst snd]. change (0 =? -1) with false. cbv iota.
    rewrite (field_bytes_read ts x t c kcb _ _ (replicate 256 0) bs Hk) by (rewrite length_replicate; done).
    cbn [mbind res_bind fst snd]. change (0 =? -1) with false. cbv iota.
    rewrite (field_word_read _ _ _ _ _ _ _ _ _ _ Hk El). cbn [mbind res_bind fst snd].
    rewrite <- key_path_cons in Hs |- *. pose proof (field_word_range _ _ _ _ _ _ _ _ _ El) as Hr.
    pose proof (field_bytes_length _ _ _ _ _ _ _ _ _ Eb) as [Hb _].
    assert (length (take (Z.to_nat len) bs) = Z.to_nat len) as Ht by (rewrite length_take; lia).
    rewrite (proj2 (Z.ltb_ge 256 len)), (proj2 (Z.leb_gt _ _)); [..|lia].
    + simpl orb. cbv iota. apply IH; [simpl in Hf; lia|exact Hs].
    + revert Hs. rewrite !length_app, Ht. simpl. lia.
Qed.

(** However the blocks are linked, the loop ends within [2 ^ 16] rounds: its result
    does not depend on the bound. *)
Lemma registry_loop_fuel fuel : forall fuel' kcb old len detail, Z.of_nat (length detail) < 2 ^ 16 ->
  (Z.to_nat (2 ^ 16 - Z.of_nat (length detail)) < fuel)%nat -> (fuel <= fuel')%nat -> 0 <= kcb < 2 ^ 64 ->
  registry_loop ts fuel' x t c kcb old len detail = registry_loop ts fuel x t c kcb old len detail.
Proof.
  induction fuel as [|fuel IH]; intros fuel' kcb old len detail Hd Hf Hle Hk; [lia|].
  destruct fuel' as [|fuel']; [lia|]. cbn [registry_loop].
  destruct (struct_word ts 8 x t c old kcb _ _ _) as [[r parent]| |] eqn:Ep; try done. cbn [mbind res_bind fst snd].
  destruct (r =? -1); [done|].
  destruct (memfrs_get_mem_struct_content ts x t c _ kcb _ _ _) as [[rn name]| |] eqn:En; try done. cbn [mbind res_bind fst snd].
  destruct (rn =? -1); [done|].
  destruct (struct_word ts 2 x t c len kcb _ _ _) as [[rl l]| |] eqn:El; try done. cbn [mbind res_bind fst snd].
  destruct ((256 <? l) || (2 ^ 16 <=? _)) eqn:Eb; [done|]. apply orb_false_iff in Eb as [_ Eb]. apply Z.leb_gt in Eb.
  pose proof (struct_word_range _ _ _ _ _ _ _ _ _ _ Hk El). pose proof (struct_word_range _ _ _ _ _ _ _ _ _ _ Hk Ep).
  simpl snd in *. apply IH; [..|lia|done]; rewrite !length_app, length_take; simpl; lia.
Qed.
End Registry.

(** The detail of a key: the names of its control blocks from the root on, with
    backslashes between them. *)
Theorem registry_path_spec ts junk x t body entry c kcb names :
  field_word ts 8 x t c (u64 (entry + body)) "_CM_KEY_BODY" ["*KeyControlBlock"]%string = Some kcb ->
  key_chain ts x t c kcb names -> names <> [] -> Z.of_nat (length (key_path names)) < 2 ^ 16 ->
  extract_registry_detail ts junk x t body entry c = Ret (Some (removelast (key_path names))).
Proof.
  intros Ek Hc Hne Hl. unfold extract_registry_detail.
  rewrite (field_word_read _ _ _ _ _ _ _ _ _ _ (u64_range _) Ek). cbn [mbind res_bind snd].
  assert (length names <= length (key_path names))%nat as Hn.
  { unfold key_path. rewrite <- (length_reverse names). generalize (reverse names). intros l. clear.
    induction l as [|n l IH]; [done|]. 
    change (S (length l) <= length ((n ++ backslash) ++ mjoin ((fun n => n ++ backslash) <$> l)))%nat. rewrite !length_app.
    change (length (backslash)) with 1%nat. lia. }
  rewrite (registry_loop_chain _ _ _ _ _ _ Hc) by (rewrite ?app_nil_r; unfold REGISTRY_FUEL; lia).
  cbn [mbind res_bind]. rewrite app_nil_r. rewrite bool_decide_eq_false_2; [done|].
  intros E. rewrite E in Hn. destruct names; [done|simpl in Hn; lia].
Qed.

(** Unless it fails, the loop over the keys has a result at its bound: a larger one gives
    the same. *)
Theorem registry_fuel_enough ts x t c kcb old len fuel : (REGISTRY_FUEL <= fuel)%nat -> 0 <= kcb < 2 ^ 64 ->
  registry_loop ts fuel x t c kcb old len [] = registry_loop ts REGISTRY_FUEL x t c kcb old len [].
Proof. intros H Hk. apply registry_loop_fuel; [simpl; lia|unfold REGISTRY_FUEL; simpl length; lia|done..]. Qed.
